(* ===== verification/_CoqProject ===== *)
-Q . S2P
Prelude.v
Threads.v
JobQueue.v
JobSpec.v
JobThreads.v
BarrierSort.v
SortThreads.v
RefCount.v
SemLock.v
SemCounter.v
RecordLock.v
TellWait.v
Daemon.v
Singleton.v
Epoll.v
EpollServer.v
EpollClient.v
Scan.v
LineIO.v
Coprocess.v
MmapCopy.v
CondVar.v
GetPass.v
GetEnv.v
Environ.v
ThreadEnd.v
ThreadLocks.v
Filters.v
FileInfo.v
Streams.v
Signals.v
RtSignals.v
SigSuspend.v
SigWait.v
Jumps.v
Reentrant.v
Processes.v
ProcTree.v
JobControl.v
