(* ===== verification/Prelude.v ===== *)
(** * UNIX-Demos: a verification of the repository's demo programs

    The repository holds small C programs that demonstrate UNIX interfaces:
    threads (pthread/), record locks (flock/), interprocess communication
    (IPC/), daemons (daemon/), event loops (epoll_demo/), terminals (term_io/),
    processes, signals and files.  Each directory builds a few independent
    executables; the parts that call each other across files are flock/
    (deadlock.c on lock_reg.c and tell_wait.c), IPC/ (semlock_test.c on
    sem_lock.c; coprocess.c talks to add2.c), proc_demos/race_cond.c (on
    tell_wait.c) and epoll_demo/ (client and server talk over a socket).

    ** How the programs are modelled

    A C function is a [prog St A]: a function from the state of the program
    (its memory and the part of the kernel it talks to) to an [outcome],
    which is a return, a call of [exit], a call that blocks, or undefined
    behaviour.  Programs with several threads or processes are the pools of
    local states of [Threads.config], of which one makes a step at a time;
    safety properties are invariants of [reachable] configurations, liveness
    properties are [inevitable] outcomes: every schedule reaches them in a
    bounded number of steps.  The kernel is modelled after POSIX where a
    claim depends on it (semaphores, record locks, epoll, pipes, signals,
    process groups and sessions); where only its answer matters, the answer is
    an input, and where POSIX leaves a choice (which pending signal comes
    first, whether a condition wait ends without a signal) every choice is a
    step or an input, unless no claim depends on it ([Signals.by_number]).
    [qsort] is a parameter with its documented behaviour (it sorts, and
    permutes).  Machine integers are Z with their bounds written out where the
    code can leave them.

    ** The files

    - Prelude: outcomes, the monad of programs, tactics, shared lemmas.
    - Threads: interleaving, exploration of finite systems, the class [Lock]
      through which a client uses a mutual-exclusion lock.
    - JobQueue, JobSpec, JobThreads (pthread/job_queue.c): the heap of
      [struct job] and every queue operation; the refinement of a list; the
      inserting thread [thr_fn1] and the traversing thread [thr_fn2] together.
    - BarrierSort, SortThreads (pthread/barrier_sort.c, norm_qsort.c):
      [merge]; then the threads, the barrier and [main].
    - RefCount (pthread/pthread_mutex.c): [foo_alloc], [foo_hold],
      [foo_rele] with the mutex inside the counted object.
    - SemLock (IPC/sem_lock.c), SemCounter (IPC/semlock_test.c): the lock on
      a named semaphore; the counter proved against the class [Lock], of
      which the semaphore is an instance.
    - RecordLock (flock/lock_reg.c, flock_helpers.h), TellWait
      (flock/tell_wait.c, flock/deadlock.c, proc_demos/race_cond.c): record
      locks over a model of the kernel's table; processes that synchronise
      through pipes.
    - Daemon, Singleton (daemon/daemonize.c): [daemonize] and the signal
      thread; [already_running] in any number of processes at once, and the
      whole of [main].
    - Epoll, EpollServer, EpollClient (epoll_demo/): the epoll instance and
      the buffer; all handlers of both programs; the two connected.
    - Scan: [sscanf] and [atoi] of integers, used by the next files.
    - LineIO (IPC/pipe_pager.c, popen_pager.c, fifo_demo.c), Filters
      (IPC/myuclc.c, pipe_filter.c), Coprocess (IPC/add2.c, coprocess.c),
      MmapCopy (IPC/mmap_demo.c): programs that move text or files.
    - CondVar (pthread/condition_signal.c, pthread_signal.c): condition
      variables, both programs with spurious wake-ups.
    - GetEnv (pthread/getenv_thr.c, test_env.c), ThreadEnd
      (pthread/pthread_exit.c, pthread_cleanup.c, pthread_cancel.c),
      ThreadLocks (pthread/pthread_functions.c, recursive_lock.c,
      test_attr.c, timedlock.c): thread-specific data, the ends of threads,
      detached threads and kinds of mutexes.
    - GetPass (term_io/getpass_demo.c): the password reader.
    - Signals (signal/signal_demo.c, sig_receiver.c, sig_sender.c), RtSignals
      (signal/rt_sig_recv.c, rt_signal.c), SigSuspend (signal/sig_suspend.c),
      SigWait (signal/sig_waitinfo.c): masks, pending signals, their order
      and the ways to wait for them.
    - Jumps (proc_demos/longjmp.c, signal/sigjump.c, sig_user.c,
      signal_test.c, term_io/winsz.c), Reentrant (signal/reentrant.c,
      sig_reenter.c, sys_info/getpwnam_demo.c): jumps out of handlers, and
      static results that a handler overwrites.
    - Processes (proc_demos/wait_demo.c, system_demo.c, fork_buf.c,
      atexit_demo.c), ProcTree (exec_demo.c, interpreter_demo.c, time_demo.c,
      vfork_demo.c, no_zombie.c), Environ (modify_env.c, print_env.c,
      echoall.c): status words, buffered output across [fork], running
      programs, zombies, the environment.
    - JobControl (proc_demos/orphan_grp.c, term_io/alt_spchr.c,
      tc_linecntl.c): orphaned process groups, special characters.
    - FileInfo (file_io/), Streams (std_io/, sys_info/time_demo.c): decoders
      of flags, modes and device numbers, file times; memory streams,
      temporary files and formatted times.

    ** What the theorems show

    - Refinement and equivalence: the linked queue computes what a list
      computes, refused locks included ([queue_refines_list]); the parallel
      sort computes what the sequential program computes
      ([barrier_sort_main]); [lock_test] answers what [lock_reg] would do, but
      for the mode of the descriptor ([lock_test_spec]); the thread-safe
      [getenv_] finds what a plain search finds ([getenv_spec], which also
      keeps the module's state well formed); which flags fcntl_test.c tells
      apart ([fcntl_reports]).
    - Safety under every interleaving: [jobs_safe] (with the output of the
      traversing thread), [barrier_sort_safe], [refcount_safe], and
      [one_daemon] with processes killed at any point; over every sequence of
      calls or events: [lock_reg_safe], [server_safe], which also says what
      ends the server.
    - Liveness under every schedule: [semlock_main], [deadlock_resolved],
      [race_cond_order], [cond_signal], [sigquit_ends], [test_env_prints],
      [recursive_lock_ends], [sig_suspend_ends], [sigjump_recovers],
      [fork_buf_output], [no_zombie_left], [orphan_continues];
      [cancel_outcomes] lists all ends of pthread_cancel.c.
    - Functional behaviour, with the error branches: [thr_fn1_spec],
      [job_remove_spec], [merge_sorts], [s_alloc_spec], [semlock_session],
      [daemonize_spec], [daemonize_errors], [daemon_signals],
      [already_running_spec], [daemon_lifecycle], [mmap_copies],
      [getpass_main_spec], [pagers_copy], [filters_answer],
      [coprocess_adds], [wait_demo_reports], [system_demo_reports],
      [time_demo_reports], [exec_shows], [modify_env_result],
      [lstat_reports], [futimens_restores], [memio_prints].
    - Signals: [sender_receiver] and [rt_signals_queued] (what is merged,
      what is queued, in which order), [sig_waitinfo_accepts] (for every
      choice of the kernel), [reentrant_mismatches].
    - Round trips: [echo_roundtrip], [echo_session], [fifo_copies].
    - Where the code does not do what it means to, the exact condition:
      [refcount_demo] (a reference released too often), [cross_talk],
      [client_lost_line], [client_first_line], [full_read_faults] (the buffers
      of the epoll programs), [server_safe] (SIGPIPE), [readline_loses],
      [add2_faults], [merge_unset_minidx], [filters_answer] (an unchecked
      [fflush]), [futimens_restores] (a file emptied whose times cannot be
      restored), [jobs_safe] (an unchecked [malloc]).

    ** Fuel and bounds

    [s_alloc] tries names until one is free: as many rounds as there are
    names plus one are enough, for process ids below 10^7 and counters below
    10^5, for which names are not truncated.  The loops that read characters
    ([readline], the copying loops, [getpass]) get the length of their input
    plus one, which every round but the last shortens.  The finite systems
    (deadlock.c, condition_signal.c, pthread_cancel.c, recursive_lock.c,
    no_zombie.c, orphan_grp.c) are explored by evaluation: the
    explorers answer [true] only when they followed every schedule to its end
    ([all_ways_sound]) or when the states found are closed under steps
    ([closed_reachable]), so their fuel is no bound on the claims; all other
    liveness properties have a decreasing measure.  Loops over indices are
    structural recursions on the number of rounds left.

    ** What is not modelled

    Diagnostics on standard error (but where a program's answer is printed
    there), busy waits ([delay]), [sleep] and measured times have no
    counterpart.  A signal that arrives during a [printf] is taken to come
    before or after it.  The limit on queued real-time signals
    (RLIMIT_SIGPENDING) is left out, and so are events on the listening socket
    other than new connections.  The coprocess gets a request, and its parent
    an answer, in one [read].  futimens_demo.c is about regular files.
    signal/sigaltstack.c is about a stack overflow and the addresses of
    variables, which the model of the language does not have;
    proc_demos/system_secure.c only prints two user ids.  A signal that
    arrives during a library call that must not be interrupted (reentrant.c,
    sig_reenter.c) is undefined and left out.  Headers hold declarations
    only, but for the macros of flock_helpers.h and the structure of
    sem_lock.h.
    Next in order: the joins and the error exits of the remaining [main]
    functions of pthread/, answers that the coprocess gets in pieces, and
    signals that interrupt slow system calls. *)

From Stdlib Require Import ZArith Lia.
From stdpp Require Export base option gmap strings pretty numbers relations list.

(** ** Effects of a C program

    A C function that may call [exit], block in the kernel, or run into
    undefined behaviour is a function from the program's state to an
    [outcome].  [Ret] is a normal return, [Exited] the call [exit(code)],
    [Blocked] a call that does not return in the given state, [Fault]
    undefined behaviour (a null or dangling pointer, an index out of range,
    an unset variable). *)
Inductive outcome (St A : Type) : Type :=
| Ret (a : A) (s : St)
| Exited (code : Z) (s : St)
| Blocked (s : St)
| Fault.
Arguments Ret {St A} a s.
Arguments Exited {St A} code s.
Arguments Blocked {St A} s.
Arguments Fault {St A}.

(** A statement or expression of a program with state [St]. *)
Definition prog (St A : Type) : Type := St -> outcome St A.

#[global] Instance prog_ret {St} : MRet (prog St) := fun A a s => Ret a s.
#[global] Instance prog_bind {St} : MBind (prog St) := fun A B f m s =>
  match m s with
  | Ret a s' => f a s'
  | Exited c s' => Exited c s'
  | Blocked s' => Blocked s'
  | Fault => Fault
  end.

(** [exit(code)]. *)
Definition c_exit {St A} (code : Z) : prog St A := fun s => Exited code s.
(** Undefined behaviour. *)
Definition c_fault {St A} : prog St A := fun _ => Fault.
(** A call that does not return. *)
Definition c_block {St A} : prog St A := fun s => Blocked s.
(** Reading and updating the state. *)
Definition gets {St A} (f : St -> A) : prog St A := fun s => Ret (f s) s.
Definition modify {St} (f : St -> St) : prog St unit := fun s => Ret tt (f s).
(** A read that is undefined behaviour when it has no value. *)
Definition need {St A} (o : option A) : prog St A := fun s =>
  match o with Some a => Ret a s | None => Fault end.

(** Run a statement on a part of the state. *)
Definition zoom {St Sub A} (get : St -> Sub) (put : Sub -> St -> St) (m : prog Sub A) : prog St A :=
  fun s =>
  match m (get s) with
  | Ret a x => Ret a (put x s)
  | Exited c x => Exited c (put x s)
  | Blocked x => Blocked (put x s)
  | Fault => Fault
  end.

(** [for (; n more times; i++) body(i)], from index [i]. *)
Fixpoint for_loop {St} (n i : nat) (body : nat -> prog St unit) : prog St unit :=
  match n with
  | O => mret tt
  | S n' => body i ;; for_loop n' (S i) body
  end.

(** [run m s r s'] says that [m], started in [s], returns [r] in state [s']. *)
Definition returns {St A} (m : prog St A) (s : St) (r : A) (s' : St) : Prop :=
  m s = Ret r s'.

Lemma bind_ret {St A B} (m : prog St A) (f : A -> prog St B) s a s' :
  m s = Ret a s' -> (m ≫= f) s = f a s'.
Proof. intros H. unfold mbind, prog_bind. by rewrite H. Qed.

Lemma bind_exit {St A B} (m : prog St A) (f : A -> prog St B) s c s' :
  m s = Exited c s' -> (m ≫= f) s = Exited c s'.
Proof. intros H. unfold mbind, prog_bind. by rewrite H. Qed.

Lemma bind_fault {St A B} (m : prog St A) (f : A -> prog St B) s :
  m s = Fault -> (m ≫= f) s = Fault.
Proof. intros H. unfold mbind, prog_bind. by rewrite H. Qed.

Lemma bind_inv {St A B} (m : prog St A) (f : A -> prog St B) s b s'' :
  (m ≫= f) s = Ret b s'' -> exists a s', m s = Ret a s' /\ f a s' = Ret b s''.
Proof. unfold mbind, prog_bind. destruct (m s); naive_solver. Qed.

(** The loop rule: an invariant indexed by the loop variable, kept by each
    iteration, holds at the exit, and the loop returns. *)
Lemma for_loop_inv {St} (I : nat -> St -> Prop) (body : nat -> prog St unit) n i s :
  I i s ->
  (forall k s, i <= k < i + n -> I k s -> exists s', body k s = Ret tt s' /\ I (S k) s') ->
  exists s', for_loop n i body s = Ret tt s' /\ I (i + n) s'.
Proof.
  revert i s. induction n as [|n IH]; intros i s Hi Hb; cbn.
  - exists s. rewrite Nat.add_0_r. done.
  - destruct (Hb i s) as (s1 & H1 & Hi1); [lia|done|].
    rewrite (bind_ret _ _ _ _ _ H1).
    destruct (IH (S i) s1 Hi1) as (s2 & H2 & Hi2).
    { intros k s2 Hk. apply Hb. lia. }
    exists s2. split; [done|]. by replace (i + S n) with (S i + n) by lia.
Qed.

(** ** C integers *)

Definition INT_MAX : Z := 2 ^ 31 - 1.
Definition INT_MIN : Z := - 2 ^ 31.
Definition LONG_MAX : Z := 2 ^ 63 - 1.

(** Signed addition on [int]: overflow is undefined behaviour. *)
Definition int_add (a b : Z) : option Z :=
  let r := (a + b)%Z in
  if ((INT_MIN <=? r) && (r <=? INT_MAX))%Z then Some r else None.

Lemma int_add_ok a b :
  (INT_MIN <= a + b <= INT_MAX)%Z -> int_add a b = Some (a + b)%Z.
Proof.
  intros [??]. unfold int_add.
  by rewrite (proj2 (Z.leb_le _ _)), (proj2 (Z.leb_le _ _)).
Qed.

(** ** C strings

    A character buffer is a list of characters; [NUL] ends a string. *)
Definition NUL : Ascii.ascii := Ascii.zero.
Definition newline : Ascii.ascii := Ascii.ascii_of_nat 10.
Definition nl : string := String newline EmptyString.

(** [strlen(buf)]: [None] when no [NUL] stands in the buffer, so that the C
    function runs past its end. *)
Fixpoint strlen (buf : list Ascii.ascii) : option nat :=
  match buf with
  | [] => None
  | c :: buf' => if decide (c = NUL) then Some 0 else S <$> strlen buf'
  end.

Lemma strlen_app_nul s rest :
  (NUL ∉ s) -> strlen (s ++ (NUL :: rest)) = Some (length s).
Proof.
  induction s as [|c s IH]; intros Hn; cbn; [done|].
  rewrite not_elem_of_cons in Hn. destruct Hn as [Hc Hn].
  rewrite decide_False by congruence. by rewrite (IH Hn).
Qed.

Lemma strlen_no_nul s : NUL ∉ s -> strlen s = None.
Proof.
  induction s as [|c s IH]; intros Hn; cbn; [done|].
  rewrite not_elem_of_cons in Hn. destruct Hn as [Hc Hn].
  rewrite decide_False by congruence. by rewrite (IH Hn).
Qed.

Lemma strlen_app s rest :
  (NUL ∉ s) -> strlen (s ++ rest) = Nat.add (length s) <$> strlen rest.
Proof.
  induction s as [|c s IH]; intros Hn; cbn; [by destruct (strlen rest)|].
  rewrite not_elem_of_cons in Hn. destruct Hn as [Hc Hn].
  rewrite decide_False by congruence. rewrite (IH Hn). by destruct (strlen rest).
Qed.

Lemma strlen_Some buf n :
  strlen buf = Some n -> (NUL ∉ take n buf) /\ buf !! n = Some NUL.
Proof.
  revert n. induction buf as [|c buf IH]; intros n H; cbn in H; [done|].
  case_decide; [by simplify_eq/=; split; [set_solver|]|].
  destruct (strlen buf) as [k|] eqn:E; simplify_eq/=.
  destruct (IH k eq_refl) as [H1 H2]. split; [|done].
  rewrite not_elem_of_cons. split; [congruence|done].
Qed.

Lemma str_app_assoc (a b c : string) : (a +:+ b) +:+ c = a +:+ (b +:+ c).
Proof.
  induction a as [|x a IH]; [done|].
  change (String x ((a +:+ b) +:+ c) = String x (a +:+ (b +:+ c))). by rewrite IH.
Qed.

Lemma str_app_nil_l (a : string) : "" +:+ a = a.
Proof. done. Qed.

Lemma str_app_nil_r (a : string) : a +:+ "" = a.
Proof. induction a as [|x a IH]; [done|]. change (String x (a +:+ "") = String x a). by rewrite IH. Qed.

Lemma str_app_length (a b : string) : String.length (a +:+ b) = String.length a + String.length b.
Proof.
  induction a as [|x a IH]; [done|].
  change (S (String.length (a +:+ b)) = S (String.length a) + String.length b). by rewrite IH.
Qed.

Lemma str_app_inj_l (a b c : string) : a +:+ b = a +:+ c -> b = c.
Proof. induction a as [|x a IH]; [done|]. intros [= H]. by apply IH. Qed.

(** ** Decimal representations: [%d] and [%ld] *)

Lemma pretty_N_go_length k x s :
  (x < 10 ^ N.of_nat k)%N -> String.length (pretty_N_go x s) <= k + String.length s.
Proof.
  revert x s. induction k as [|k IH]; intros x s Hx.
  - assert (x = 0%N) as -> by (cbn in Hx; lia). by rewrite pretty_N_go_0.
  - destruct (decide (0 < x)%N) as [Hp|Hp].
    + rewrite pretty_N_go_step by done. etrans; [apply IH|cbn; lia].
      apply N.Div0.div_lt_upper_bound. replace (10 * 10 ^ N.of_nat k)%N with (10 ^ N.of_nat (S k))%N; [done|].
      rewrite Nat2N.inj_succ, N.pow_succ_r'. done.
    + assert (x = 0%N) as -> by lia. rewrite pretty_N_go_0. lia.
Qed.

Lemma pretty_N_length k (x : N) :
  0 < k -> (x < 10 ^ N.of_nat k)%N -> String.length (pretty x) <= k.
Proof.
  intros Hk Hx. unfold pretty, pretty_N. case_decide; [cbn; lia|].
  pose proof (pretty_N_go_length k x "" Hx). cbn in *. lia.
Qed.

(** A non-negative number below [10^k] prints in at most [k] characters. *)
Lemma pretty_Z_length k (z : Z) :
  0 < k -> (0 <= z < 10 ^ Z.of_nat k)%Z -> String.length (pretty z) <= k.
Proof.
  intros Hk [H0 H1]. destruct z as [|p|p]; [cbn; lia| |lia].
  apply (pretty_N_length k (Npos p)); [done|].
  apply N2Z.inj_lt. rewrite N2Z.inj_pow, nat_N_Z. done.
Qed.

(** The characters of a string, as they stand in a buffer. *)
Definition chars : string -> list Ascii.ascii := String.list_ascii_of_string.

Lemma chars_length s : length (chars s) = String.length s.
Proof. induction s as [|c s IH]; [done|]. cbn. by rewrite IH. Qed.

Lemma chars_app a b : chars (a +:+ b) = chars a ++ chars b.
Proof.
  induction a as [|x a IH]; [done|]. change (x :: chars (a +:+ b) = x :: chars a ++ chars b). by rewrite IH.
Qed.

(** Texts one after the other. *)
Definition joined (ts : list string) : string := foldr String.append "" ts.
Lemma joined_cons x l : joined (x :: l) = x +:+ joined l.
Proof. done. Qed.
Lemma joined_app l k : joined (l ++ k) = joined l +:+ joined k.
Proof.
  induction l as [|x l IH]; [by rewrite str_app_nil_l|].
  cbn [app]. by rewrite !joined_cons, IH, str_app_assoc.
Qed.

Lemma chars_inj s t : chars s = chars t -> s = t.
Proof.
  revert t. induction s as [|c s IH]; intros [|d t] H; try done.
  injection H as -> H. by rewrite (IH t H).
Qed.

Lemma pretty_N_go_no_nul x s : NUL ∉ chars s -> NUL ∉ chars (pretty_N_go x s).
Proof.
  revert s. induction (N.lt_wf_0 x) as [x _ IH]; intros s Hs.
  destruct (decide (0 < x)%N) as [Hx|Hx].
  - rewrite pretty_N_go_step by done. apply IH; [by apply N.div_lt|].
    change (NUL ∉ pretty_N_char (x `mod` 10) :: chars s). rewrite not_elem_of_cons.
    split; [|done]. unfold pretty_N_char, NUL. repeat case_match; discriminate.
  - assert (x = 0%N) as -> by lia. by rewrite pretty_N_go_0.
Qed.

(** A number prints without a [NUL]. *)
Lemma pretty_Z_no_nul (z : Z) : (0 <= z)%Z -> NUL ∉ chars (pretty z).
Proof.
  intros Hz. destruct z as [|p|p]; [|apply pretty_N_go_no_nul, not_elem_of_nil|lia].
  change (NUL ∉ [Ascii.ascii_of_nat 48]). rewrite list_elem_of_singleton. discriminate.
Qed.

(** ** Lists *)

Lemma filter_all {A} (P : A -> Prop) `{!forall x, Decision (P x)} (l : list A) :
  Forall P l -> filter P l = l.
Proof.
  induction 1 as [|x l Hx Hl IH]; [done|]. by rewrite filter_cons_True, IH.
Qed.

(** How many elements satisfy a test. *)
Fixpoint count {A} (f : A -> bool) (l : list A) : nat :=
  match l with [] => 0 | x :: l' => Nat.b2n (f x) + count f l' end.

Lemma count_le {A} (f : A -> bool) l : count f l <= length l.
Proof. induction l as [|x l IH]; cbn; [lia|]. destruct (f x); cbn; lia. Qed.

Lemma count_insert {A} (f : A -> bool) l i x y :
  l !! i = Some x -> count f (<[i := y]> l) + Nat.b2n (f x) = count f l + Nat.b2n (f y).
Proof.
  revert i. induction l as [|z l IH]; intros [|i] Hi; simplify_eq/=; [lia|].
  specialize (IH i Hi). lia.
Qed.

Lemma count_all {A} (f : A -> bool) l :
  count f l = length l -> Forall (fun x => f x = true) l.
Proof.
  induction l as [|x l IH]; cbn; intros H; [constructor|].
  pose proof (count_le f l). destruct (f x) eqn:E; cbn in H; [|lia].
  constructor; [done|]. apply IH. lia.
Qed.

Lemma count_missing {A} (f : A -> bool) l :
  count f l < length l -> exists i x, l !! i = Some x /\ f x = false.
Proof.
  induction l as [|x l IH]; cbn; intros H; [lia|].
  destruct (f x) eqn:E; cbn in H; [|by exists 0, x].
  destruct IH as (i & y & ? & ?); [lia|]. by exists (S i), y.
Qed.

(** Weights of the elements, for termination measures. *)
Fixpoint total {A} (w : A -> nat) (l : list A) : nat :=
  match l with [] => 0 | x :: l' => w x + total w l' end.

Lemma total_insert {A} (w : A -> nat) l i x y :
  l !! i = Some x -> total w (<[i := y]> l) + w x = total w l + w y.
Proof.
  revert i. induction l as [|z l IH]; intros [|i] Hi; simplify_eq/=; [lia|].
  specialize (IH i Hi). lia.
Qed.

(** Signed weights, for counting references. *)
Fixpoint ztotal {A} (w : A -> Z) (l : list A) : Z :=
  match l with [] => 0 | x :: l' => w x + ztotal w l' end%Z.

Lemma ztotal_insert {A} (w : A -> Z) l i x y :
  l !! i = Some x -> ztotal w (<[i := y]> l) = (ztotal w l - w x + w y)%Z.
Proof.
  revert i. induction l as [|z l IH]; intros [|i] Hi; simplify_eq/=; [lia|].
  rewrite (IH i Hi). lia.
Qed.

Lemma ztotal_lookup {A} (w : A -> Z) l i x :
  (forall y, y ∈ l -> (0 <= w y)%Z) -> l !! i = Some x -> (w x <= ztotal w l)%Z.
Proof.
  revert i. induction l as [|z l IH]; intros [|i] Hw Hi; simplify_eq/=.
  - assert (0 <= ztotal w l)%Z; [|lia]. clear IH. induction l as [|y l IH]; cbn; [lia|].
    pose proof (Hw y ltac:(set_solver)). assert (0 <= ztotal w l)%Z; [|lia].
    apply IH. intros z Hz. apply Hw. set_solver.
  - pose proof (Hw z ltac:(set_solver)). pose proof (IH i ltac:(set_solver) Hi). lia.
Qed.

Lemma ztotal_le {A} (w : A -> Z) (v : A -> nat) l :
  (forall y, y ∈ l -> (w y <= Z.of_nat (v y))%Z) -> (ztotal w l <= Z.of_nat (total v l))%Z.
Proof.
  induction l as [|z l IH]; intros Hw; cbn; [lia|].
  pose proof (Hw z ltac:(set_solver)). pose proof (IH ltac:(set_solver)). lia.
Qed.

Lemma ztotal_zero {A} (w : A -> Z) l :
  (forall y, y ∈ l -> w y = 0%Z) -> ztotal w l = 0%Z.
Proof.
  induction l as [|z l IH]; intros Hw; cbn; [done|].
  rewrite (Hw z ltac:(set_solver)), (IH ltac:(set_solver)). lia.
Qed.

(** ** Automation

    [unix_step] runs one statement of a [prog] whose result is known by a
    hypothesis or by computation. *)
Create HintDb unix.

Ltac unix_unfold := unfold mbind, mret, prog_bind, prog_ret, gets, modify, need, c_exit, c_fault, c_block in *.
Ltac unix_simp := repeat progress (unix_unfold; simplify_eq/=).
