(* ===== verification/Threads.v ===== *)
(** * Interleaved execution of threads and processes

    The multi-threaded demos are modelled as a pool of local states that
    take turns on a shared state: one step runs one statement (or one
    critical section) of one thread.  This file holds the step relation, an
    executable scheduler, the rules for invariants and for inevitable
    outcomes, and the interface through which clients use a lock. *)

From S2P Require Import Prelude.

Section Threads.
Context {Sh Lo : Type}.

Record config := Config { shared : Sh; pool : list Lo }.

(** [succ i s l]: what thread [i] can do next in shared state [s] with local
    state [l]; no element when it is blocked or has ended. *)
Variable succ : nat -> Sh -> Lo -> list (Sh * Lo).

Inductive step : config -> config -> Prop :=
| step_thread i s ls l s' l' :
    ls !! i = Some l -> (s', l') ∈ succ i s l ->
    step (Config s ls) (Config s' (<[i := l']> ls)).

Definition reachable : config -> config -> Prop := rtc step.

(** Rule induction for invariants. *)
Lemma reachable_inv (I : config -> Prop) c0 c :
  I c0 -> (forall c c', I c -> step c c' -> I c') -> reachable c0 c -> I c.
Proof. intros H0 Hs Hr. induction Hr; eauto. Qed.

(** One scheduling decision: the thread and which of its successors. *)
Definition run1 (d : nat * nat) (c : config) : option config :=
  l ← pool c !! d.1 ;
  x ← succ d.1 (shared c) l !! d.2 ;
  Some (Config x.1 (<[d.1 := x.2]> (pool c))).

Fixpoint run (sched : list (nat * nat)) (c : config) : option config :=
  match sched with
  | [] => Some c
  | d :: sched' => c' ← run1 d c ; run sched' c'
  end.

Lemma run1_step d c c' : run1 d c = Some c' -> step c c'.
Proof.
  unfold run1. intros (l & Hl & ([s' l'] & Hx & Hc)%bind_Some)%bind_Some.
  simplify_eq/=. destruct c as [s ls]. eapply step_thread; [done|].
  by eapply list_elem_of_lookup_2.
Qed.

Lemma run_reachable sched c c' : run sched c = Some c' -> reachable c c'.
Proof.
  revert c. induction sched as [|d sched IH]; intros c H; cbn in H.
  - simplify_eq. apply rtc_refl.
  - apply bind_Some in H as (c1 & H1 & H2). eapply rtc_l; [by eapply run1_step|by apply IH].
Qed.

(** Observing the result of a schedule by evaluation. *)
Lemma run_observe {B} (f : config -> option B) sched c0 c :
  run sched c0 = Some c -> f c = (run sched c0 ≫= f).
Proof. by intros ->. Qed.

(** What a schedule is seen to reach by evaluation is reachable. *)
Lemma run_exhibits sched c0 (P Q : config -> Prop) :
  (forall c, P c -> Q c) ->
  match run sched c0 with Some c => P c | None => False end ->
  exists c, reachable c0 c /\ Q c.
Proof.
  intros HPQ. destruct (run sched c0) as [c|] eqn:E; [|done].
  intros HP. exists c. split; [by eapply run_reachable|by apply HPQ].
Qed.

(** Whatever the scheduler does, [P] is reached after finitely many steps. *)
Inductive inevitable (P : config -> Prop) (c : config) : Prop :=
| inevitable_now : P c -> inevitable P c
| inevitable_step :
    (exists c', step c c') -> (forall c', step c c' -> inevitable P c') -> inevitable P c.

(** A measure that every step lowers, and progress, give inevitability. *)
Lemma inevitable_measure (I P : config -> Prop) (mu : config -> nat) c :
  (forall c c', I c -> step c c' -> I c') ->
  (forall c, I c -> P c \/ exists c', step c c') ->
  (forall c c', I c -> step c c' -> mu c' < mu c) ->
  I c -> inevitable P c.
Proof.
  intros HI Hprog Hmu. remember (mu c) as n eqn:Hn. revert c Hn.
  induction n as [n IH] using lt_wf_ind. intros c -> Hc.
  destruct (Hprog c Hc) as [HP|Hex]; [by apply inevitable_now|].
  apply inevitable_step; [done|]. intros c' Hs. eapply IH; eauto.
Qed.

(** For a system with finitely many states: all schedules, by evaluation. *)
Definition nexts (c : config) : list config :=
  concat (imap (fun i l =>
    (fun x => Config x.1 (<[i := x.2]> (pool c))) <$> succ i (shared c) l) (pool c)).

Fixpoint all_ways (fuel : nat) (P : config -> bool) (c : config) : bool :=
  if P c then true
  else match fuel, nexts c with
       | S fuel', c' :: cs => all_ways fuel' P c' && forallb (all_ways fuel' P) cs
       | _, _ => false
       end.

Lemma nexts_step c c' : step c c' <-> c' ∈ nexts c.
Proof.
  unfold nexts. rewrite list_elem_of_In, in_concat. split.
  - intros Hs. destruct Hs as [i s ls l s' l' Hi Hin]. cbn.
    eexists. split.
    + apply list_elem_of_In. eapply list_elem_of_lookup_2. rewrite list_lookup_imap, Hi. done.
    + apply list_elem_of_In, list_elem_of_fmap. by exists (s', l').
  - intros (x & Hx & Hc). destruct c as [s ls]. cbn in *.
    apply list_elem_of_In, list_elem_of_lookup_1 in Hx as (i & Hi).
    rewrite list_lookup_imap in Hi. apply fmap_Some in Hi as (l & Hl & ->).
    apply list_elem_of_In, list_elem_of_fmap in Hc as ([s' l'] & -> & Hin).
    by eapply step_thread.
Qed.

Lemma all_ways_sound fuel P c : all_ways fuel P c = true -> inevitable (fun c => P c = true) c.
Proof.
  revert c. induction fuel as [|fuel IH]; intros c H; cbn in H.
  - destruct (P c) eqn:E; [by apply inevitable_now|done].
  - destruct (P c) eqn:E; [by apply inevitable_now|].
    destruct (nexts c) as [|c1 cs] eqn:En; [done|].
    apply andb_true_iff in H as [H1 H2]. rewrite forallb_forall in H2.
    apply inevitable_step.
    + exists c1. apply nexts_step. rewrite En. by left.
    + intros c' Hs%nexts_step. rewrite En in Hs. apply IH.
      apply elem_of_cons in Hs as [->|Hs]; [done|]. apply H2. by apply list_elem_of_In.
Qed.

Lemma inevitable_weaken (P Q : config -> Prop) c :
  (forall c, P c -> Q c) -> inevitable P c -> inevitable Q c.
Proof. intros HPQ. induction 1; [apply inevitable_now|apply inevitable_step]; auto. Qed.

(** A list of configurations that holds the start and all its successors
    holds everything reachable: invariants of a finite system by evaluation. *)
Section Finite.
Context `{!EqDecision config}.

Fixpoint explore (fuel : nat) (todo seen : list config) : list config :=
  match fuel, todo with
  | S fuel', c :: todo' =>
    if decide (c ∈ seen) then explore fuel' todo' seen
    else explore fuel' (nexts c ++ todo') (c :: seen)
  | _, _ => seen
  end.

Definition closed (cs : list config) : bool :=
  forallb (fun c => forallb (fun c' => bool_decide (c' ∈ cs)) (nexts c)) cs.

Lemma closed_reachable cs (P : config -> bool) c0 c :
  bool_decide (c0 ∈ cs) = true -> closed cs = true -> forallb P cs = true ->
  reachable c0 c -> P c = true.
Proof.
  intros H0%bool_decide_eq_true Hcl HP Hr. rewrite forallb_forall in HP. apply HP, list_elem_of_In.
  revert Hr. apply (reachable_inv (fun c => c ∈ cs)); [done|]. intros c1 c2 H1 Hs%nexts_step.
  unfold closed in Hcl. rewrite forallb_forall in Hcl.
  specialize (Hcl c1 (proj1 (list_elem_of_In _ _) H1)). rewrite forallb_forall in Hcl.
  specialize (Hcl c2 (proj1 (list_elem_of_In _ _) Hs)). by apply bool_decide_eq_true in Hcl.
Qed.
End Finite.

End Threads.
Arguments config : clear implicits.

(** Systems with the same successors. *)
Lemma inevitable_ext {Sh Lo} (f g : nat -> Sh -> Lo -> list (Sh * Lo)) P c :
  (forall i s l, f i s l = g i s l) -> inevitable f P c -> inevitable g P c.
Proof.
  intros Heq. assert (Hs : forall c c', step f c c' <-> step g c c').
  { intros c1 c2; split; intros Hst; inversion Hst; subst; econstructor; try done; [rewrite <- Heq|rewrite Heq]; done. }
  induction 1 as [c Hp|c [c' Hc] _ IH]; [by apply inevitable_now|].
  apply inevitable_step; [exists c'; by apply Hs|]. intros c1 H1. apply IH. by apply Hs.
Qed.

#[export] Instance config_dec {Sh Lo} `{EqDecision Sh, EqDecision Lo} : EqDecision (config Sh Lo).
Proof. solve_decision. Defined.

(** Run a piece of sequential code as one step and go on at [k]; a call that
    blocks is no step, undefined behaviour and [exit] lead to [crash]. *)
Definition jump {Sh Lo A} (crash : Lo) (s : Sh) (r : outcome Sh A) (k : A -> Lo) : list (Sh * Lo) :=
  match r with
  | Ret a s' => [(s', k a)]
  | Blocked _ => []
  | Exited _ s' => [(s', crash)]
  | Fault => [(s, crash)]
  end.

(** ** Locks as an interface

    What a mutual-exclusion lock promises to its clients while its state
    satisfies [lk_ok]: it is granted only when it is free, it is granted when
    it is free, and releasing it frees it. *)
Class Lock (K : Type) := {
  lk_free : K -> bool;
  lk_acquire : nat -> K -> option K;
  lk_release : nat -> K -> option K;
  lk_ok : K -> Prop;
  (** [lk_held i k]: [k] is in the state in which thread [i] took it. *)
  lk_held : nat -> K -> Prop;
  lk_acquire_free i k : lk_ok k -> lk_free k = true -> is_Some (lk_acquire i k);
  lk_acquire_held i k k' :
    lk_ok k -> lk_acquire i k = Some k' ->
    lk_free k = true /\ lk_free k' = false /\ lk_held i k' /\ lk_ok k';
  lk_release_free i k :
    lk_ok k -> lk_held i k -> exists k', lk_release i k = Some k' /\ lk_free k' = true /\ lk_ok k'
}.

(** A [pthread_mutex_t] of the default type: its owner, if it has one. *)
Definition mutex : Type := option nat.
Definition mutex_lock (i : nat) (k : mutex) : option mutex :=
  match k with None => Some (Some i) | Some _ => None end.
Definition mutex_unlock (_ : nat) (_ : mutex) : mutex := None.

#[export] Instance mutex_is_lock : Lock mutex.
Proof.
  refine {|
    lk_free k := if k is None then true else false;
    lk_acquire := mutex_lock;
    lk_release i k := if decide (k = Some i) then Some (mutex_unlock i k) else None;
    lk_ok _ := True;
    lk_held i k := k = Some i
  |}.
  - intros i [j|] _ H; [done|]. by eexists.
  - intros i [j|] k' _ H; by simplify_eq/=.
  - intros i k _ ->. rewrite decide_True by done. by eexists.
Defined.

(** Automation for steps: invert a step into the thread that took it. *)
Ltac inv_step :=
  match goal with
  | H : step _ _ _ |- _ => inversion H; subst; clear H
  end.
