(* ===== verification/JobQueue.v ===== *)
(** * pthread/job_queue.c: a doubly linked job queue under a read-write lock

    The queue's nodes live in a heap of [struct job] cells; every operation
    of the file is a [prog] over that heap, with the lock calls and the
    branches of the C code.  [queue_rep m l] says that the heap holds the
    doubly linked list of the cells [l]. *)

From S2P Require Import Prelude.

Definition loc : Type := positive.
(** A C pointer to a cell; [None] is [NULL]. *)
Definition ptr : Type := option loc.

(** [struct job]. *)
Record job := Job { j_id : Z; j_prev : ptr; j_next : ptr }.

(** [pthread_rwlock_t]: free, held by readers, or held by a writer. *)
Inductive rwlock := RwFree | RwRead (readers : positive) | RwWrite.

(** [struct queue]. *)
Record queue := Queue { q_lock : rwlock; q_head : ptr; q_tail : ptr }.

(** The memory the program works on: [*qp], the heap of jobs, the array
    [jp_arr] and what was written to [stdout]. *)
Record mem := Mem {
  m_q : queue;
  m_jobs : gmap loc job;
  m_arr : list ptr;
  m_out : string
}.

(** ** Field accesses *)

Definition set_head (v : ptr) : prog mem unit := modify (fun m =>
  Mem (Queue (q_lock (m_q m)) v (q_tail (m_q m))) (m_jobs m) (m_arr m) (m_out m)).
Definition set_tail (v : ptr) : prog mem unit := modify (fun m =>
  Mem (Queue (q_lock (m_q m)) (q_head (m_q m)) v) (m_jobs m) (m_arr m) (m_out m)).
Definition set_lock (k : rwlock) : prog mem unit := modify (fun m =>
  Mem (Queue k (q_head (m_q m)) (q_tail (m_q m))) (m_jobs m) (m_arr m) (m_out m)).
Definition printf (t : string) : prog mem unit := modify (fun m =>
  Mem (m_q m) (m_jobs m) (m_arr m) (m_out m +:+ t)).

(** [*p]: a null or dangling pointer is undefined behaviour. *)
Definition load (p : ptr) : prog mem job := fun m =>
  match p ≫= fun a => m_jobs m !! a with Some j => Ret j m | None => Fault end.
Definition store (p : ptr) (f : job -> job) : prog mem unit := fun m =>
  match p with
  | None => Fault
  | Some a =>
    match m_jobs m !! a with
    | Some j => Ret tt (Mem (m_q m) (<[a := f j]> (m_jobs m)) (m_arr m) (m_out m))
    | None => Fault
    end
  end.
Definition set_prev (p v : ptr) : prog mem unit :=
  store p (fun j => Job (j_id j) v (j_next j)).
Definition set_next (p v : ptr) : prog mem unit :=
  store p (fun j => Job (j_id j) (j_prev j) v).
Definition set_id (p : ptr) (v : Z) : prog mem unit :=
  store p (fun j => Job v (j_prev j) (j_next j)).

(** ** The lock *)

Definition rwlock_wrlock : prog mem unit := fun m =>
  match q_lock (m_q m) with RwFree => set_lock RwWrite m | _ => Blocked m end.

(** [pthread_rwlock_rdlock]: [err] is the error number the library reports
    (0 when it grants the lock). *)
Definition rwlock_rdlock (err : Z) : prog mem Z := fun m =>
  if decide (err = 0%Z) then
    match q_lock (m_q m) with
    | RwFree => (set_lock (RwRead 1) ;; mret 0%Z) m
    | RwRead n => (set_lock (RwRead (Pos.succ n)) ;; mret 0%Z) m
    | RwWrite => Blocked m
    end
  else Ret err m.

Definition rwlock_unlock : prog mem unit := fun m =>
  match q_lock (m_q m) with
  | RwFree => Fault
  | RwRead n => set_lock (if decide (n = 1%positive) then RwFree else RwRead (Pos.pred n)) m
  | RwWrite => set_lock RwFree m
  end.

(** ** The operations *)

Definition queue_init (init_err : Z) : prog mem Z :=
  set_head None ;;
  set_tail None ;;
  (if decide (init_err = 0%Z) then set_lock RwFree else mret tt) ;;
  mret (if decide (init_err = 0%Z) then 0%Z else init_err).

(** The critical section of [job_insert]. *)
Definition insert_links (jp : ptr) : prog mem unit :=
  h ← gets (fun m => q_head (m_q m)) ;
  set_next jp h ;;
  set_prev jp None ;;
  h ← gets (fun m => q_head (m_q m)) ;
  (match h with
   | Some _ => set_prev h jp
   | None => set_tail jp
   end) ;;
  set_head jp.

Definition job_insert (jp : ptr) : prog mem unit :=
  rwlock_wrlock ;; insert_links jp ;; rwlock_unlock.

(** The critical section of [job_append]. *)
Definition append_links (jp : ptr) : prog mem unit :=
  t ← gets (fun m => q_tail (m_q m)) ;
  set_prev jp t ;;
  set_next jp None ;;
  t ← gets (fun m => q_tail (m_q m)) ;
  (match t with
   | Some _ => set_next t jp
   | None => set_head jp
   end) ;;
  set_tail jp.

Definition job_append (jp : ptr) : prog mem unit :=
  rwlock_wrlock ;; append_links jp ;; rwlock_unlock.

(** The critical section of [job_remove]. *)
Definition remove_links (jp : ptr) : prog mem unit :=
  h ← gets (fun m => q_head (m_q m)) ;
  t ← gets (fun m => q_tail (m_q m)) ;
  (if decide (jp = h) then
     j ← load jp ;
     set_head (j_next j) ;;
     t ← gets (fun m => q_tail (m_q m)) ;
     (if decide (t = jp) then set_tail None
      else j ← load jp ; set_prev (j_next j) None)
   else if decide (jp = t) then
     j ← load jp ;
     set_tail (j_prev j) ;;
     h ← gets (fun m => q_head (m_q m)) ;
     (if decide (jp = h) then set_head None
      else j ← load jp ; set_next (j_prev j) None)
   else
     j ← load jp ;
     set_next (j_prev j) (j_next j) ;;
     j ← load jp ;
     set_prev (j_next j) (j_prev j)).

Definition job_remove (jp : ptr) : prog mem unit :=
  rwlock_wrlock ;; remove_links jp ;; rwlock_unlock.

(** The loop of [job_find], from [jp]; the fuel bounds the iterations and
    running out of it means the loop has not ended. *)
Fixpoint find_loop (fuel : nat) (id : Z) (jp : ptr) : prog mem ptr :=
  match fuel with
  | O => c_block
  | S fuel' =>
    match jp with
    | None => mret None
    | Some _ =>
      j ← load jp ;
      if decide (j_id j = id) then mret jp else find_loop fuel' id (j_next j)
    end
  end.

Definition job_find (rd_err : Z) (id : Z) : prog mem ptr :=
  e ← rwlock_rdlock rd_err ;
  if decide (e = 0%Z) then
    h ← gets (fun m => q_head (m_q m)) ;
    n ← gets (fun m => size (m_jobs m)) ;
    jp ← find_loop (S n) id h ;
    rwlock_unlock ;;
    mret jp
  else mret None.

Fixpoint print_loop (fuel : nat) (jp : ptr) : prog mem unit :=
  match fuel with
  | O => c_block
  | S fuel' =>
    match jp with
    | None => mret tt
    | Some _ =>
      j ← load jp ;
      printf (" " +:+ pretty (j_id j)) ;;
      j ← load jp ;
      print_loop fuel' (j_next j)
    end
  end.

Definition traverse_jobs (rd_err : Z) : prog mem unit :=
  e ← rwlock_rdlock rd_err ;
  if decide (e = 0%Z) then
    printf ("delay before traversing" +:+ nl) ;;
    printf "Queue:" ;;
    h ← gets (fun m => q_head (m_q m)) ;
    n ← gets (fun m => size (m_jobs m)) ;
    print_loop (S n) h ;;
    printf nl ;;
    rwlock_unlock
  else c_exit (-1).

(** ** The inserting and deleting thread *)

Definition NJOBS : nat := 20.

(** [malloc(sizeof(struct job))]: a free address, with [junk] in the cell;
    [None] when the allocator is out of memory. *)
Class Malloc := {
  malloc : gmap loc job -> option loc;
  malloc_junk : job;
  malloc_fresh h a : malloc h = Some a -> h !! a = None
}.

Definition c_malloc `{Malloc} : prog mem ptr := fun m =>
  match malloc (m_jobs m) with
  | Some a => Ret (Some a) (Mem (m_q m) (<[a := malloc_junk]> (m_jobs m)) (m_arr m) (m_out m))
  | None => Ret None m
  end.

(** [jp_arr[i] = v] and [jp_arr[i]]. *)
Definition arr_set (i : nat) (v : ptr) : prog mem unit := fun m =>
  if decide (i < length (m_arr m)) then
    Ret tt (Mem (m_q m) (m_jobs m) (<[i := v]> (m_arr m)) (m_out m))
  else Fault.
Definition arr_get (i : nat) : prog mem ptr := fun m =>
  match m_arr m !! i with Some v => Ret v m | None => Fault end.

(** One iteration of each loop of [thr_fn1]. *)
Definition insert_body `{Malloc} (i : nat) : prog mem unit :=
  printf ("inserting" +:+ nl) ;;
  jp ← c_malloc ;
  set_id jp (Z.of_nat i) ;;
  (if decide (i `mod` 2 ≠ 0) then job_insert jp else job_append jp) ;;
  arr_set i jp.

Definition delete_body (i : nat) : prog mem unit :=
  printf ("deleting" +:+ nl) ;;
  jp ← arr_get i ;
  job_remove jp.

Definition thr_fn1 `{Malloc} : prog mem unit :=
  for_loop NJOBS 0 insert_body ;;
  for_loop NJOBS 0 delete_body.

(** ** The representation predicate *)

(** What the [prev] field of the [i]-th node must hold. *)
Definition pred_of (l : list loc) (i : nat) : ptr :=
  match i with O => None | S k => l !! k end.

(** Every node of [l] points to its neighbours in [l]. *)
Definition linked (h : gmap loc job) (l : list loc) : Prop :=
  forall i p, l !! i = Some p ->
    exists j, h !! p = Some j /\ j_next j = l !! S i /\ j_prev j = pred_of l i.

(** The queue of [m] is the doubly linked list of the nodes [l]. *)
Record shape (m : mem) (l : list loc) : Prop := {
  shape_nodup : NoDup l;
  shape_head : q_head (m_q m) = l !! 0;
  shape_tail : q_tail (m_q m) = last l;
  shape_linked : linked (m_jobs m) l
}.

(** ... and nobody holds its lock. *)
Definition queue_rep (m : mem) (l : list loc) : Prop :=
  shape m l /\ q_lock (m_q m) = RwFree.

(** [m'] differs from [m] only in the queue's header and in the links of the
    cells in [fp]. *)
Record frame (m m' : mem) (fp : list loc) : Prop := {
  frame_other p : p ∉ fp -> m_jobs m' !! p = m_jobs m !! p;
  frame_id p : j_id <$> m_jobs m' !! p = j_id <$> m_jobs m !! p;
  frame_arr : m_arr m' = m_arr m;
  frame_out : m_out m' = m_out m
}.

(** *** Running the accessors *)

Lemma load_ok m p j : m_jobs m !! p = Some j -> load (Some p) m = Ret j m.
Proof. intros H. unfold load; cbn. by rewrite H. Qed.

Lemma store_ok m p j f :
  m_jobs m !! p = Some j ->
  store (Some p) f m = Ret tt (Mem (m_q m) (<[p := f j]> (m_jobs m)) (m_arr m) (m_out m)).
Proof. intros H. unfold store. by rewrite H. Qed.

Lemma wrlock_ok m :
  q_lock (m_q m) = RwFree -> rwlock_wrlock m = set_lock RwWrite m.
Proof. intros H. unfold rwlock_wrlock. by rewrite H. Qed.

Lemma unlock_ok m :
  q_lock (m_q m) = RwWrite -> rwlock_unlock m = set_lock RwFree m.
Proof. intros H. unfold rwlock_unlock. by rewrite H. Qed.

(** [exec] runs the statements of an operation whose accesses are all known:
    it looks the needed cells up in the hypotheses and in the stores made
    before. *)
Ltac exec_lookup :=
  match goal with
  | |- context [<[?p := _]> _ !! ?p] => rewrite lookup_insert_eq
  | H : ?p ≠ ?q |- context [<[?p := _]> _ !! ?q] => rewrite (lookup_insert_ne _ p q) by exact H
  | H : ?q ≠ ?p |- context [<[?p := _]> _ !! ?q] => rewrite (lookup_insert_ne _ p q) by congruence
  | |- context [decide (?x = ?x)] => rewrite (decide_True (P := x = x)) by reflexivity
  | H : ?x ≠ ?y |- context [decide (?x = ?y)] => rewrite (decide_False (P := x = y)) by exact H
  | H : j_next ?j = _ |- context [j_next ?j] => rewrite H
  | H : j_prev ?j = _ |- context [j_prev ?j] => rewrite H
  | H : m_jobs ?m !! ?p = Some _ |- context [m_jobs ?m !! ?p] => rewrite H
  | H : q_lock (m_q ?m) = _ |- context [q_lock (m_q ?m)] => rewrite H
  | H : q_head (m_q ?m) = _ |- context [q_head (m_q ?m)] => rewrite H
  | H : q_tail (m_q ?m) = _ |- context [q_tail (m_q ?m)] => rewrite H
  end.
Ltac exec :=
  unfold rwlock_wrlock, rwlock_unlock, set_lock, set_head, set_tail, set_next,
    set_prev, set_id, store, load, printf; unix_unfold; cbn;
  repeat (exec_lookup; cbn).

Lemma linked_lookup h l i p :
  linked h l -> l !! i = Some p -> exists j, h !! p = Some j.
Proof. intros Hl Hi. destruct (Hl i p Hi) as (j & ? & _). eauto. Qed.

Lemma linked_insert h l p j :
  p ∉ l -> linked h l -> linked (<[p := j]> h) l.
Proof.
  intros Hp Hl i q Hi. rewrite lookup_insert_ne; [by apply Hl|].
  intros ->. apply Hp. by apply list_elem_of_lookup_2 in Hi.
Qed.

(** *** The heap after an operation *)

Definition with_next (v : ptr) (j : job) : job := Job (j_id j) (j_prev j) v.
Definition with_prev (v : ptr) (j : job) : job := Job (j_id j) v (j_next j).

(** Update the cell [o] points to, if it points to one. *)
Definition opt_alter (f : job -> job) (o : ptr) (h : gmap loc job) : gmap loc job :=
  match o with Some a => alter f a h | None => h end.

Lemma lookup_opt_alter f o h p :
  opt_alter f o h !! p = if decide (o = Some p) then f <$> h !! p else h !! p.
Proof.
  destruct o as [a|]; cbn; [|by rewrite decide_False].
  destruct (decide (a = p)) as [->|].
  - by rewrite lookup_alter_eq, decide_True.
  - rewrite lookup_alter_ne, decide_False by congruence. done.
Qed.

Lemma insert_alter_cell (f : job -> job) (h : gmap loc job) p j :
  h !! p = Some j -> <[p := f j]> h = alter f p h.
Proof.
  intros Hj. apply map_eq. intros q. rewrite lookup_insert, lookup_alter.
  case_decide; simplify_eq; [by rewrite Hj|done].
Qed.

Lemma opt_alter_id f o h p :
  (forall j, j_id (f j) = j_id j) ->
  j_id <$> opt_alter f o h !! p = j_id <$> h !! p.
Proof.
  intros Hf. rewrite lookup_opt_alter. case_decide; [|done].
  destruct (h !! p); cbn; [by rewrite Hf|done].
Qed.

Definition insert_heap (h : gmap loc job) (l : list loc) (a : loc) (j : job) : gmap loc job :=
  opt_alter (with_prev (Some a)) (l !! 0) (<[a := Job (j_id j) None (l !! 0)]> h).
Definition append_heap (h : gmap loc job) (l : list loc) (a : loc) (j : job) : gmap loc job :=
  opt_alter (with_next (Some a)) (last l) (<[a := Job (j_id j) (last l) None]> h).
Definition remove_heap (h : gmap loc job) (l : list loc) (k : nat) : gmap loc job :=
  opt_alter (with_prev (pred_of l k)) (l !! S k)
    (opt_alter (with_next (l !! S k)) (pred_of l k) h).

Lemma linked_insert_heap h l a j :
  a ∉ l -> NoDup l -> linked h l -> linked (insert_heap h l a j) (a :: l).
Proof.
  intros Ha Hnd Hl i p Hi. unfold insert_heap. rewrite lookup_opt_alter.
  destruct i as [|i]; cbn in Hi; simplify_eq.
  - rewrite decide_False, lookup_insert_eq; [eauto|].
    intros Hp. apply Ha. by eapply list_elem_of_lookup_2.
  - destruct (Hl i p Hi) as (q & Hq & Hqn & Hqp).
    rewrite lookup_insert_ne by (intros ->; apply Ha; by eapply list_elem_of_lookup_2).
    rewrite Hq. destruct i as [|i].
    + rewrite decide_True by done. cbn. eauto.
    + rewrite decide_False; [cbn; eauto|].
      intros H0. by pose proof (NoDup_lookup _ _ _ _ Hnd H0 Hi).
Qed.

Lemma linked_append_heap h l a j :
  a ∉ l -> NoDup l -> linked h l -> linked (append_heap h l a j) (l ++ [a]).
Proof.
  intros Ha Hnd Hl i p Hi. unfold append_heap. rewrite lookup_opt_alter.
  apply lookup_app_Some in Hi as [Hi|[Hge Hi]].
  - pose proof (lookup_lt_Some _ _ _ Hi) as Hlt.
    destruct (Hl i p Hi) as (q & Hq & Hqn & Hqp).
    rewrite lookup_insert_ne by (intros ->; apply Ha; by eapply list_elem_of_lookup_2).
    rewrite Hq, last_lookup.
    assert (pred_of (l ++ [a]) i = pred_of l i) as ->.
    { destruct i; cbn; [done|]. rewrite lookup_app_l by lia. done. }
    destruct (decide (S i = length l)) as [He|He].
    + rewrite decide_True by (by rewrite <- He).
      rewrite lookup_app_r, He, Nat.sub_diag by lia. cbn. eauto.
    + rewrite decide_False.
      * rewrite lookup_app_l by lia. eauto.
      * intros Hp. pose proof (NoDup_lookup _ _ _ _ Hnd Hp Hi). lia.
  - apply list_lookup_singleton_Some in Hi as [He <-].
    assert (i = length l) as -> by lia.
    rewrite decide_False, lookup_insert_eq.
    + eexists. split; [done|]. cbn. rewrite lookup_app_r, last_lookup by lia.
      replace (S (length l) - length l) with 1 by lia. split; [done|].
      destruct l as [|x l]; [done|]. cbn [pred_of length].
      rewrite lookup_app_l by (cbn; lia). done.
    + intros Hp. apply Ha. by eapply last_Some_elem_of.
Qed.

Lemma pred_of_delete (l : list loc) k i :
  i <= k -> pred_of (delete k l) i = pred_of l i.
Proof. intros. destruct i; cbn; [done|]. by rewrite list_lookup_delete_lt by lia. Qed.

Lemma linked_remove_heap h l k :
  NoDup l -> linked h l -> linked (remove_heap h l k) (delete k l).
Proof.
  intros Hnd Hl i p Hi. unfold remove_heap. rewrite !lookup_opt_alter.
  rewrite list_lookup_delete in Hi |- *.
  assert (forall n, pred_of l k = Some p -> l !! n = Some p -> S n = k) as Hpred.
  { intros n H1 H2. destruct k as [|k]; cbn in H1; [done|].
    by rewrite (NoDup_lookup _ _ _ _ Hnd H1 H2). }
  assert (forall n, l !! S k = Some p -> l !! n = Some p -> n = S k) as Hsucc.
  { intros n H1 H2. by rewrite (NoDup_lookup _ _ _ _ Hnd H1 H2). }
  destruct (decide (i < k)) as [Hik|Hik].
  - destruct (Hl i p Hi) as (q & Hq & Hqn & Hqp). rewrite Hq.
    rewrite (decide_False (P := l !! S k = Some p)) by (intros H; specialize (Hsucc i H Hi); lia).
    rewrite pred_of_delete by lia.
    destruct (decide (S i = k)) as [<-|].
    + rewrite decide_True by done. rewrite decide_False by lia. cbn. eauto.
    + rewrite decide_False by (intros H; specialize (Hpred i H Hi); lia).
      rewrite decide_True by lia. eauto.
  - destruct (Hl (S i) p Hi) as (q & Hq & Hqn & Hqp). rewrite Hq.
    rewrite (decide_False (P := pred_of l k = Some p)) by (intros H; specialize (Hpred (S i) H Hi); lia).
    rewrite (decide_False (P := S i < k)) by lia.
    destruct (decide (i = k)) as [->|].
    + rewrite decide_True by done. rewrite pred_of_delete by lia. cbn. eauto.
    + rewrite decide_False by (intros H; specialize (Hsucc (S i) H Hi); lia).
      eexists; split; [done|]. split; [done|].
      destruct i as [|i]; [lia|]. cbn in Hqp |- *.
      rewrite list_lookup_delete_ge by lia. done.
Qed.

(** *** The critical sections on a well-formed queue *)

Definition with_list (m : mem) (h : gmap loc job) (l : list loc) : mem :=
  Mem (Queue (q_lock (m_q m)) (l !! 0) (last l)) h (m_arr m) (m_out m).

Lemma insert_links_run m l a j :
  shape m l -> a ∉ l -> m_jobs m !! a = Some j ->
  insert_links (Some a) m = Ret tt (with_list m (insert_heap (m_jobs m) l a j) (a :: l)).
Proof.
  intros [Hnd Hh Ht Hl] Ha Hj. unfold insert_links, insert_heap, with_list.
  destruct l as [|b l]; cbn in Hh, Ht.
  - exec. by rewrite insert_insert_eq.
  - destruct (Hl 0 b eq_refl) as (jb & Hb & _).
    assert (a ≠ b) by set_solver.
    exec. rewrite insert_insert_eq. cbn. do 2 f_equal.
    apply (insert_alter_cell (with_prev (Some a))). by rewrite lookup_insert_ne.
Qed.

Lemma append_links_run m l a j :
  shape m l -> a ∉ l -> m_jobs m !! a = Some j ->
  append_links (Some a) m = Ret tt (with_list m (append_heap (m_jobs m) l a j) (l ++ [a])).
Proof.
  intros [Hnd Hh Ht Hl] Ha Hj. unfold append_links, append_heap, with_list.
  rewrite last_snoc. destruct (last l) as [z|] eqn:Hz.
  - apply last_Some in Hz as [l' ->].
    destruct (Hl (length l') z) as (jz & Hjz & _); [by apply list_lookup_middle|].
    assert (a ≠ z) by set_solver. rewrite lookup_app_l by (rewrite length_app; cbn; lia).
    rewrite <- Hh. exec. rewrite insert_insert_eq. cbn. do 2 f_equal.
    apply (insert_alter_cell (with_next (Some a))). by rewrite lookup_insert_ne.
  - apply last_None in Hz as ->. exec. by rewrite insert_insert_eq.
Qed.

Lemma pred_of_middle (l1 l2 : list loc) a : pred_of (l1 ++ a :: l2) (length l1) = last l1.
Proof.
  rewrite last_lookup. destruct l1 as [|x l1]; [done|].
  cbn [length pred_of]. rewrite lookup_app_l by (cbn; lia). done.
Qed.

Lemma succ_of_middle (l1 l2 : list loc) a : (l1 ++ a :: l2) !! S (length l1) = l2 !! 0.
Proof. rewrite lookup_app_r by lia. by replace (S (length l1) - length l1) with 1 by lia. Qed.

Lemma nodup_middle (l1 l2 : list loc) a : NoDup (l1 ++ a :: l2) -> (a ∉ l1) /\ (a ∉ l2).
Proof.
  intros (_ & Hd & Hnd)%NoDup_app. apply NoDup_cons in Hnd as [? _]. set_solver.
Qed.

Lemma remove_links_run m l1 a l2 :
  shape m (l1 ++ a :: l2) ->
  remove_links (Some a) m =
    Ret tt (with_list m (remove_heap (m_jobs m) (l1 ++ a :: l2) (length l1)) (l1 ++ l2)).
Proof.
  intros [Hnd Hh Ht Hl]. pose proof (nodup_middle _ _ _ Hnd) as [Hn1 Hn2].
  destruct (Hl (length l1) a) as (j & Hj & Hn & Hp); [by apply list_lookup_middle|].
  unfold remove_links, remove_heap, with_list.
  rewrite pred_of_middle, succ_of_middle in *.
  rewrite last_app_cons in Ht.
  destruct l1 as [|x l1'].
  - (* the head *)
    cbn in Hh, Hp. destruct l2 as [|b l2].
    + cbn in Ht, Hn. exec. done.
    + destruct (Hl 1 b eq_refl) as (jb & Hb & _). cbn in Hn.
      assert (last (a :: b :: l2) ≠ Some a) as Hne.
      { rewrite last_cons_cons. intros E. apply last_Some_elem_of in E. done. }
      rewrite last_cons_cons in *. exec.
      by rewrite <- (insert_alter_cell (with_prev None) _ _ _ Hb).
  - cbn in Hh. assert (Some a ≠ Some x) as Hax by set_solver.
    destruct (last (x :: l1')) as [q|] eqn:Eq; [|by apply last_None in Eq].
    assert (exists jq, m_jobs m !! q = Some jq) as [jq Hq].
    { pose proof (last_Some_elem_of _ _ Eq) as [n Hn']%list_elem_of_lookup_1.
      eapply (linked_lookup _ _ n); [done|]. by apply lookup_app_l_Some. }
    destruct l2 as [|b l2].
    + (* the tail *)
      cbn in Ht, Hn. exec. rewrite app_nil_r, Eq.
      by rewrite <- (insert_alter_cell (with_next None) _ _ _ Hq).
    + (* in the middle *)
      assert (exists jb, m_jobs m !! b = Some jb) as [jb Hb].
      { eapply (linked_lookup _ _ (S (length (x :: l1')))); [done|]. by rewrite succ_of_middle. }
      assert (q ≠ b) as Hqb.
      { apply NoDup_app in Hnd as (_ & Hd & _). intros ->.
        apply (Hd b); [by apply last_Some_elem_of|set_solver]. }
      assert (a ≠ q) as Haq by (apply last_Some_elem_of in Eq; set_solver).
      assert (Some a ≠ last (a :: b :: l2)) as Hne.
      { rewrite last_cons_cons. intros E. symmetry in E.
        apply last_Some_elem_of in E. done. }
      cbn in Hn. exec.
      change (x :: l1' ++ b :: l2) with ((x :: l1') ++ b :: l2). rewrite last_app_cons.
      rewrite <- (insert_alter_cell (with_next (Some b)) _ _ _ Hq).
      rewrite <- (insert_alter_cell (with_prev (Some q)) _ _ jb) by (by rewrite lookup_insert_ne).
      rewrite last_cons_cons in Ht. destruct m as [[]]; cbn in *; by subst.
Qed.

(** A critical section that succeeds leaves the list [l'], keeps the lock,
    and has written only to the cells of [fp]. *)
Definition links_ok (r : outcome mem unit) (m : mem) (l' fp : list loc) : Prop :=
  exists m', r = Ret tt m' /\ shape m' l' /\ frame m m' fp /\
    q_lock (m_q m') = q_lock (m_q m).

Lemma with_list_shape m h l : NoDup l -> linked h l -> shape (with_list m h l) l.
Proof. by split. Qed.

Lemma insert_heap_frame h l a j p :
  h !! a = Some j ->
  (p ∉ a :: l -> insert_heap h l a j !! p = h !! p) /\
  j_id <$> insert_heap h l a j !! p = j_id <$> h !! p.
Proof.
  intros Hj. unfold insert_heap. split.
  - intros Hp. rewrite lookup_opt_alter, decide_False, lookup_insert_ne; [done|set_solver|].
    intros H%list_elem_of_lookup_2. set_solver.
  - rewrite opt_alter_id by done. rewrite lookup_insert. case_decide; simplify_eq; by rewrite ?Hj.
Qed.

Lemma append_heap_frame h l a j p :
  h !! a = Some j ->
  (p ∉ l ++ [a] -> append_heap h l a j !! p = h !! p) /\
  j_id <$> append_heap h l a j !! p = j_id <$> h !! p.
Proof.
  intros Hj. unfold append_heap. split.
  - intros Hp. rewrite lookup_opt_alter, decide_False, lookup_insert_ne; [done|set_solver|].
    intros H%last_Some_elem_of. set_solver.
  - rewrite opt_alter_id by done. rewrite lookup_insert. case_decide; simplify_eq; by rewrite ?Hj.
Qed.

Lemma remove_heap_frame h l k p :
  (p ∉ l -> remove_heap h l k !! p = h !! p) /\
  j_id <$> remove_heap h l k !! p = j_id <$> h !! p.
Proof.
  unfold remove_heap. split; [|by rewrite !opt_alter_id].
  intros Hp. rewrite !lookup_opt_alter, !decide_False; [done|..]; intros H; apply Hp.
  - destruct k; [done|]. by eapply list_elem_of_lookup_2.
  - by eapply list_elem_of_lookup_2.
Qed.

Lemma insert_links_ok m l a :
  shape m l -> a ∉ l -> is_Some (m_jobs m !! a) ->
  links_ok (insert_links (Some a) m) m (a :: l) (a :: l).
Proof.
  intros Hsh Ha [j Hj]. eexists. split; [by apply insert_links_run|].
  destruct Hsh as [Hnd _ _ Hl]. split_and!; [| |done].
  - apply with_list_shape; [by apply NoDup_cons|by apply linked_insert_heap].
  - split; try done; intros p; [intros Hp|]; by apply insert_heap_frame.
Qed.

Lemma append_links_ok m l a :
  shape m l -> a ∉ l -> is_Some (m_jobs m !! a) ->
  links_ok (append_links (Some a) m) m (l ++ [a]) (l ++ [a]).
Proof.
  intros Hsh Ha [j Hj]. eexists. split; [by apply append_links_run|].
  destruct Hsh as [Hnd _ _ Hl]. split_and!; [| |done].
  - apply with_list_shape; [|by apply linked_append_heap].
    apply NoDup_app. split_and!; [done| |by apply NoDup_singleton].
    intros x Hx ->%list_elem_of_singleton. done.
  - split; try done; intros p; [intros Hp|]; by apply append_heap_frame.
Qed.

Lemma remove_links_ok m l1 a l2 :
  shape m (l1 ++ a :: l2) ->
  links_ok (remove_links (Some a) m) m (l1 ++ l2) (l1 ++ a :: l2).
Proof.
  intros Hsh. eexists. split; [by apply remove_links_run|].
  destruct Hsh as [Hnd _ _ Hl]. split_and!; [| |done].
  - rewrite <- (delete_middle l1 l2 a).
    apply with_list_shape; [|by apply linked_remove_heap].
    eapply sublist_NoDup; [done|apply sublist_delete].
  - split; try done; intros p; [intros Hp|]; by apply remove_heap_frame.
Qed.

(** ** What each operation does

    A queue operation that succeeds leaves an unlocked queue holding [l'],
    and has written only to the cells of [fp]. *)
Definition op_ok (r : outcome mem unit) (m : mem) (l' fp : list loc) : Prop :=
  exists m', r = Ret tt m' /\ queue_rep m' l' /\ frame m m' fp.

Definition relocked (m : mem) (k : rwlock) : mem :=
  Mem (Queue k (q_head (m_q m)) (q_tail (m_q m))) (m_jobs m) (m_arr m) (m_out m).

Lemma shape_relocked m k l : shape m l -> shape (relocked m k) l.
Proof. intros []. by split. Qed.

Lemma under_wrlock (f : prog mem unit) m l l' fp :
  queue_rep m l ->
  (shape (relocked m RwWrite) l -> links_ok (f (relocked m RwWrite)) (relocked m RwWrite) l' fp) ->
  op_ok ((rwlock_wrlock ;; f ;; rwlock_unlock) m) m l' fp.
Proof.
  intros [Hsh Hk] Hf.
  destruct (Hf (shape_relocked _ _ _ Hsh)) as (m' & E & Hsh' & [Hfo Hfi Hfa Hfu] & Hk').
  exists (relocked m' RwFree). split.
  - rewrite (bind_ret _ _ _ _ _ (wrlock_ok _ Hk)), (bind_ret _ _ _ _ _ E).
    by apply unlock_ok.
  - split; [split; [by apply shape_relocked|done]|]. by split.
Qed.

Lemma job_insert_ok m l a :
  queue_rep m l -> a ∉ l -> is_Some (m_jobs m !! a) ->
  op_ok (job_insert (Some a) m) m (a :: l) (a :: l).
Proof. intros Hrep Ha Hs. eapply under_wrlock; [done|]. intros. by apply insert_links_ok. Qed.

Lemma job_append_ok m l a :
  queue_rep m l -> a ∉ l -> is_Some (m_jobs m !! a) ->
  op_ok (job_append (Some a) m) m (l ++ [a]) (l ++ [a]).
Proof. intros Hrep Ha Hs. eapply under_wrlock; [done|]. intros. by apply append_links_ok. Qed.

Lemma job_remove_ok m l1 a l2 :
  queue_rep m (l1 ++ a :: l2) ->
  op_ok (job_remove (Some a) m) m (l1 ++ l2) (l1 ++ a :: l2).
Proof. intros Hrep. eapply under_wrlock; [done|]. intros. by apply remove_links_ok. Qed.

(** [job_remove] on a queued job, whether it is the
    first, the last, the only one or in the middle, returns, takes exactly
    that job out of the doubly linked list (both directions of links of the
    rest agree with the new list), leaves the lock free, and changes no
    cell outside the queue and no identifier. *)
Theorem job_remove_spec m l1 a l2 :
  queue_rep m (l1 ++ a :: l2) ->
  exists m', job_remove (Some a) m = Ret tt m' /\ queue_rep m' (l1 ++ l2) /\
    frame m m' (l1 ++ a :: l2).
Proof. exact (job_remove_ok m l1 a l2). Qed.

(** Three queued jobs, the middle one removed. *)
Definition sample_mem : mem :=
  Mem (Queue RwFree (Some 1%positive) (Some 3%positive))
    {[ 1%positive := Job 10 None (Some 2%positive);
       2%positive := Job 20 (Some 1%positive) (Some 3%positive);
       3%positive := Job 30 (Some 2%positive) None ]} [] "".

Lemma sample_mem_rep : queue_rep sample_mem [1; 2; 3]%positive.
Proof.
  split; [split|done]; [apply (bool_decide_unpack _); vm_compute; exact I|done|done|].
  intros [|[|[|i]]] p Hp; cbn in Hp; simplify_eq; eexists; split; vm_compute; eauto.
Qed.

Lemma job_remove_spec_witness :
  queue_rep sample_mem ([1%positive] ++ 2%positive :: [3%positive]) /\
  exists m', job_remove (Some 2%positive) sample_mem = Ret tt m' /\
    queue_rep m' [1; 3]%positive /\ frame sample_mem m' [1; 2; 3]%positive.
Proof.
  split; [exact sample_mem_rep|].
  apply (job_remove_spec sample_mem [1%positive] 2%positive [3%positive]).
  exact sample_mem_rep.
Defined.
