(* ===== verification/JobSpec.v ===== *)
(** * pthread/job_queue.c: the queue refines a list of jobs

    The operations of [JobQueue] against an abstract list, and the complete
    run of the inserting and deleting thread [thr_fn1]. *)

From S2P Require Import Prelude JobQueue.

(** ** The queue as an abstract list

    The specification keeps the list of the queued cells and the output; the
    identifiers [ids] of the cells never change. *)
Section Spec.
Context (ids : gmap loc Z).

Inductive qop :=
| OpInsert (p : loc)
| OpAppend (p : loc)
| OpRemove (p : loc)
| OpFind (rd_err : Z) (id : Z)     (** with the answer of the read lock *)
| OpTraverse (rd_err : Z).

Record aqueue := AQueue { aq_list : list loc; aq_out : string }.

Definition id_of (p : loc) : Z := default 0%Z (ids !! p).

Fixpoint print_ids (l : list loc) : string :=
  match l with
  | [] => ""
  | p :: l' => (" " +:+ pretty (id_of p)) +:+ print_ids l'
  end.

(** What the caller sees: the pointer [job_find] returns ([None] for the
    others), or that the process has exited with -1. *)
Inductive answer := Returns (r : ptr) | Exits.

(** [None]: the caller breaks the rules, which are that only an existing cell
    that is not queued is put in and only a queued one taken out. *)
Definition spec_op (o : qop) (q : aqueue) : option (answer * aqueue) :=
  let 'AQueue l out := q in
  match o with
  | OpInsert p =>
    if decide (is_Some (ids !! p) ∧ p ∉ l) then Some (Returns None, AQueue (p :: l) out) else None
  | OpAppend p =>
    if decide (is_Some (ids !! p) ∧ p ∉ l) then Some (Returns None, AQueue (l ++ [p]) out) else None
  | OpRemove p =>
    if decide (p ∈ l) then Some (Returns None, AQueue (filter (fun q => q ≠ p) l) out) else None
  | OpFind rd_err id =>
    Some (Returns (if decide (rd_err = 0%Z) then list_find (fun p => id_of p = id) l ≫= fun x => Some x.2 else None), q)
  | OpTraverse rd_err =>
    if decide (rd_err ≠ 0%Z) then Some (Exits, q)
    else Some (Returns None, AQueue l
      (((out +:+ ("delay before traversing" +:+ nl)) +:+ "Queue:") +:+ print_ids l +:+ nl))
  end.

(** A sequence of calls: the results up to its end, or up to an exit. *)
Fixpoint spec_run (os : list qop) (q : aqueue) : option (list ptr * bool * aqueue) :=
  match os with
  | [] => Some ([], false, q)
  | o :: os' =>
    '(a, q1) ← spec_op o q ;
    match a with
    | Exits => Some ([], true, q1)
    | Returns r => '(rs, ex, q2) ← spec_run os' q1 ; Some (r :: rs, ex, q2)
    end
  end.

(** The same operations by the code. *)
Definition run_op (o : qop) : prog mem ptr :=
  match o with
  | OpInsert p => job_insert (Some p) ;; mret None
  | OpAppend p => job_append (Some p) ;; mret None
  | OpRemove p => job_remove (Some p) ;; mret None
  | OpFind rd_err id => job_find rd_err id
  | OpTraverse rd_err => traverse_jobs rd_err ;; mret None
  end.

Fixpoint run_ops (os : list qop) : prog mem (list ptr) :=
  match os with
  | [] => mret []
  | o :: os' => r ← run_op o ; rs ← run_ops os' ; mret (r :: rs)
  end.

(** The simulation relation. *)
Record implements (m : mem) (q : aqueue) : Prop := {
  impl_rep : queue_rep m (aq_list q);
  impl_ids : j_id <$> m_jobs m = ids;
  impl_out : m_out m = aq_out q
}.

Lemma implements_frame m m' l l' out fp :
  implements m (AQueue l out) -> queue_rep m' l' -> frame m m' fp ->
  implements m' (AQueue l' out).
Proof.
  intros [_ Hid Hout] Hrep [_ Hf _ Ho]. split; cbn in *; [done| |congruence].
  rewrite <- Hid. apply map_eq. intros p. by rewrite !lookup_fmap.
Qed.

Lemma id_of_cell m l out p j :
  implements m (AQueue l out) -> m_jobs m !! p = Some j -> id_of p = j_id j.
Proof.
  intros [_ Hid _] Hj. unfold id_of. by rewrite <- Hid, lookup_fmap, Hj.
Qed.

Lemma cell_of_id m q p : implements m q -> is_Some (ids !! p) -> is_Some (m_jobs m !! p).
Proof.
  intros [_ Hid _]. by rewrite <- Hid, lookup_fmap, fmap_is_Some.
Qed.

(** The loops walk the whole list: fuel for one more step than there are
    nodes left is enough. *)
Lemma find_loop_ok m l i fuel id :
  (forall p j, m_jobs m !! p = Some j -> id_of p = j_id j) ->
  linked (m_jobs m) l -> length l - i < fuel ->
  find_loop fuel id (l !! i) m =
    Ret (list_find (fun p => id_of p = id) (drop i l) ≫= fun x => Some x.2) m.
Proof.
  intros Hid Hl. revert i. induction fuel as [|fuel IH]; intros i Hf; [lia|].
  cbn [find_loop]. destruct (l !! i) as [p|] eqn:Hi.
  - destruct (Hl i p Hi) as (j & Hj & Hn & _).
    erewrite bind_ret by (by apply load_ok).
    rewrite (drop_S _ _ _ Hi). cbn [list_find]. rewrite (Hid _ _ Hj).
    destruct (decide (j_id j = id)) as [E|E]; [done|].
    rewrite Hn, IH by (apply lookup_lt_Some in Hi; lia).
    by destruct (list_find _ (drop (S i) l)) as [[??]|].
  - apply lookup_ge_None in Hi. by rewrite drop_ge.
Qed.

Definition add_out (m : mem) (t : string) : mem :=
  Mem (m_q m) (m_jobs m) (m_arr m) (m_out m +:+ t).

Lemma print_loop_ok m l i fuel :
  (forall p j, m_jobs m !! p = Some j -> id_of p = j_id j) ->
  linked (m_jobs m) l -> length l - i < fuel ->
  print_loop fuel (l !! i) m = Ret tt (add_out m (print_ids (drop i l))).
Proof.
  revert i m. induction fuel as [|fuel IH]; intros i m Hid Hl Hf; [lia|].
  cbn [print_loop]. destruct (l !! i) as [p|] eqn:Hi.
  - destruct (Hl i p Hi) as (j & Hj & Hn & _).
    erewrite bind_ret by (by apply load_ok).
    erewrite bind_ret by reflexivity. erewrite bind_ret by (by apply load_ok).
    rewrite Hn, IH; [|done|done|apply lookup_lt_Some in Hi; lia].
    rewrite (drop_S _ _ _ Hi). cbn [print_ids]. rewrite (Hid _ _ Hj).
    unfold add_out; cbn. do 2 f_equal. by rewrite str_app_assoc.
  - apply lookup_ge_None in Hi. rewrite drop_ge by done. cbn.
    unfold add_out, mret, prog_ret. destruct m; cbn. do 2 f_equal.
    by rewrite str_app_nil_r.
Qed.

Lemma rep_fuel m l : queue_rep m l -> length l < S (size (m_jobs m)).
Proof.
  intros [[Hnd _ _ Hl] _].
  assert (list_to_set l ⊆ dom (m_jobs m)) as Hsub.
  { intros p [i Hi]%elem_of_list_to_set%list_elem_of_lookup.
    destruct (Hl i p Hi) as (j & Hj & _). by apply elem_of_dom_2 in Hj. }
  apply subseteq_size in Hsub. rewrite size_dom, size_list_to_set in Hsub by done. lia.
Qed.

Definition read_locked (m : mem) : mem :=
  Mem (Queue (RwRead 1) (q_head (m_q m)) (q_tail (m_q m))) (m_jobs m) (m_arr m) (m_out m).

Lemma rdlock_ok m : q_lock (m_q m) = RwFree -> rwlock_rdlock 0 m = Ret 0%Z (read_locked m).
Proof. intros H. unfold rwlock_rdlock. cbn. by rewrite H. Qed.

Lemma job_find_run m l out id :
  implements m (AQueue l out) ->
  job_find 0 id m = Ret (list_find (fun p => id_of p = id) l ≫= fun x => Some x.2) m.
Proof.
  intros Him. pose proof (impl_rep _ _ Him) as Hrep. cbn in Hrep.
  unfold job_find. erewrite bind_ret by (apply rdlock_ok, Hrep). cbn [decide].
  rewrite decide_True by done. do 2 (erewrite bind_ret by reflexivity). cbn [read_locked m_q q_head m_jobs].
  rewrite (shape_head _ _ (proj1 Hrep)).
  erewrite bind_ret; [|apply (find_loop_ok (read_locked m) l 0)].
  - rewrite drop_0. destruct Hrep as [_ Hk]. unfold rwlock_unlock; unix_unfold; cbn.
    unfold set_lock, modify; cbn. destruct m as [[]]; cbn in *; by subst.
  - intros p j. by apply (id_of_cell _ _ _ _ _ Him).
  - apply Hrep.
  - pose proof (rep_fuel _ _ Hrep). cbn. lia.
Qed.

Lemma traverse_run m l out :
  implements m (AQueue l out) ->
  traverse_jobs 0 m = Ret tt (Mem (m_q m) (m_jobs m) (m_arr m)
    (((m_out m +:+ ("delay before traversing" +:+ nl)) +:+ "Queue:") +:+ print_ids l +:+ nl)).
Proof.
  intros Him. pose proof (impl_rep _ _ Him) as Hrep. cbn in Hrep.
  unfold traverse_jobs. erewrite bind_ret by (apply rdlock_ok, Hrep).
  rewrite decide_True by done. do 4 (erewrite bind_ret by reflexivity).
  cbn [read_locked m_q q_head m_jobs m_out m_arr].
  rewrite (shape_head _ _ (proj1 Hrep)).
  erewrite bind_ret; [|eapply (print_loop_ok _ l 0)].
  - rewrite drop_0, <- (shape_head _ _ (proj1 Hrep)). destruct Hrep as [_ Hk].
    unfold rwlock_unlock; unix_unfold; cbn.
    unfold set_lock, modify; cbn. destruct m as [[]]; cbn in *; subst.
    by rewrite (str_app_assoc _ (print_ids l)).
  - intros p j. by apply (id_of_cell _ _ _ _ _ Him).
  - apply Hrep.
  - pose proof (rep_fuel _ _ Hrep). cbn. lia.
Qed.

Lemma filter_remove (l1 l2 : list loc) a :
  NoDup (l1 ++ a :: l2) -> filter (fun q => q ≠ a) (l1 ++ a :: l2) = l1 ++ l2.
Proof.
  intros Hnd. apply NoDup_app in Hnd as (_ & Hd & Hnd).
  apply NoDup_cons in Hnd as [Ha _].
  rewrite filter_app, filter_cons_False by (intros H; by apply H).
  rewrite !filter_all; [done|..]; apply Forall_forall; set_solver.
Qed.

(** When the read lock is refused, [job_find] returns [NULL] and
    [traverse_jobs] exits; the queue is untouched. *)
Lemma rdlock_error m e id :
  e <> 0%Z -> job_find e id m = Ret None m /\ traverse_jobs e m = Exited (-1) m.
Proof.
  intros He. unfold job_find, traverse_jobs, rwlock_rdlock. unix_unfold.
  by rewrite !(decide_False (P := e = 0%Z)).
Qed.

(** The outcome of the code for an answer of the specification. *)
Definition outcome_of {A} (exits : bool) (a : A) (m : mem) : outcome mem A :=
  if exits then Exited (-1) m else Ret a m.

Lemma run_op_simulates m q o a q' :
  implements m q -> spec_op o q = Some (a, q') ->
  exists m', implements m' q' /\
    run_op o m = match a with Returns r => Ret r m' | Exits => Exited (-1) m' end.
Proof.
  destruct q as [l out]. intros Him Hs. pose proof (impl_rep _ _ Him) as Hrep. cbn in Hrep.
  destruct o as [p|p|p|e id|e]; cbn in Hs; [case_decide as Hd; simplify_eq..| |].
  - destruct Hd as [Hid Hp]. destruct (job_insert_ok m l p) as (m' & E & ? & ?);
      [done|done|by eapply cell_of_id|].
    exists m'. split; [by eapply implements_frame|by unfold run_op; rewrite (bind_ret _ _ _ _ _ E)].
  - destruct Hd as [Hid Hp]. destruct (job_append_ok m l p) as (m' & E & ? & ?);
      [done|done|by eapply cell_of_id|].
    exists m'. split; [by eapply implements_frame|by unfold run_op; rewrite (bind_ret _ _ _ _ _ E)].
  - apply list_elem_of_split in Hd as (l1 & l2 & ->).
    destruct (job_remove_ok m l1 p l2 Hrep) as (m' & E & ? & ?).
    exists m'. split; [|by unfold run_op; rewrite (bind_ret _ _ _ _ _ E)].
    rewrite filter_remove by apply Hrep. by eapply implements_frame.
  - simplify_eq. exists m. split; [done|]. cbn [run_op].
    destruct (decide (e = 0%Z)) as [->|He]; [by eapply job_find_run|by apply rdlock_error].
  - destruct (decide (e ≠ 0%Z)) as [He|He]; simplify_eq.
    + exists m. split; [done|]. unfold run_op.
      by rewrite (bind_exit _ _ _ _ _ (proj2 (rdlock_error m e 0 He))).
    + apply dec_stable in He as ->. eexists.
      split; [|unfold run_op; by rewrite (bind_ret _ _ _ _ _ (traverse_run _ _ _ Him))].
      destruct Him as [[[] ?] ? Ho]. split; cbn in *; [done|done|by rewrite Ho].
Qed.

Lemma run_ops_simulates os m q rs ex q' :
  implements m q -> spec_run os q = Some (rs, ex, q') ->
  exists m', run_ops os m = outcome_of ex rs m' /\ implements m' q'.
Proof.
  revert m q rs. induction os as [|o os IH]; intros m q rs Him Hs; cbn in Hs.
  - simplify_eq. by exists m.
  - apply bind_Some in Hs as ([a q1] & Ho & Hs).
    destruct (run_op_simulates _ _ _ _ _ Him Ho) as (m1 & Him1 & E1). destruct a as [r|].
    + apply bind_Some in Hs as ([[rs' ex'] q2] & Hs & Hr). simplify_eq.
      destruct (IH _ _ _ Him1 Hs) as (m2 & E2 & Him2).
      exists m2. split; [|done]. cbn. rewrite (bind_ret _ _ _ _ _ E1).
      destruct ex; cbn in *; [by rewrite (bind_exit _ _ _ _ _ E2)|by rewrite (bind_ret _ _ _ _ _ E2)].
    + simplify_eq. exists m1. split; [|done]. cbn. by rewrite (bind_exit _ _ _ _ _ E1).
Qed.

End Spec.

(** Property C1. Any sequence of [job_insert], [job_append], [job_remove],
    [job_find] and [traverse_jobs] calls in which the caller puts in only
    cells that are not queued and takes out only queued ones runs on the heap
    as on a plain list, whatever the read lock answers: no null or dangling
    pointer is followed, every loop terminates within the number of allocated
    cells, the pointers returned, the text printed and the queue left are
    those of the list; a refused read lock makes [job_find] return [NULL] and
    [traverse_jobs] end the process with -1, after which nothing is done. *)
Theorem queue_refines_list (ids : gmap loc Z) os m q rs ex q' :
  implements ids m q -> spec_run ids os q = Some (rs, ex, q') ->
  exists m', run_ops os m = outcome_of ex rs m' /\ implements ids m' q'.
Proof. exact (run_ops_simulates ids os m q rs ex q'). Qed.

(** ** The inserting and deleting thread *)

Section Thread1.
Context `{Malloc}.
Hypothesis malloc_succeeds : forall h, is_Some (malloc h).

(** The order of the identifiers after [i] insertions: odd jobs go to the
    front, even ones to the back. *)
Fixpoint insert_order (i : nat) : list nat :=
  match i with
  | O => []
  | S k => if decide (k `mod` 2 ≠ 0) then k :: insert_order k else insert_order k ++ [k]
  end.

Definition ids_in (m : mem) (l : list loc) : list (option Z) :=
  (fun p => j_id <$> m_jobs m !! p) <$> l.

(** After [i] rounds of the first loop. *)
Definition inserted (i : nat) (m : mem) : Prop :=
  exists ps l,
    queue_rep m l /\ m_arr m = (Some <$> ps) ++ replicate (NJOBS - i) None /\
    length ps = i /\ l ≡ₚ ps /\
    ids_in m l = (fun k => Some (Z.of_nat k)) <$> insert_order i /\
    dom (m_jobs m) = list_to_set ps.

Lemma rep_same_queue m l arr out :
  queue_rep m l -> queue_rep (Mem (m_q m) (m_jobs m) arr out) l.
Proof. intros [[Hnd Hh Ht Hl] Hk]. split; [split|]; done. Qed.

Lemma shape_alloc m l a j out :
  shape m l -> m_jobs m !! a = None ->
  shape (Mem (m_q m) (<[a := j]> (m_jobs m)) (m_arr m) out) l /\ (a ∉ l).
Proof.
  intros [Hnd Hh Ht Hl] Ha.
  assert (a ∉ l) as Hn.
  { intros [i Hi]%list_elem_of_lookup. destruct (Hl i a Hi) as (? & ? & _). congruence. }
  split; [|done]. split; cbn; try done. by apply linked_insert.
Qed.

Lemma rep_alloc m l a j out :
  queue_rep m l -> m_jobs m !! a = None ->
  queue_rep (Mem (m_q m) (<[a := j]> (m_jobs m)) (m_arr m) out) l /\ (a ∉ l).
Proof.
  intros [Hsh Hk] Ha. destruct (shape_alloc _ _ _ j out Hsh Ha). done.
Qed.

Lemma ids_in_frame m m' l fp :
  frame m m' fp -> ids_in m' l = ids_in m l.
Proof. intros Hf. apply list_fmap_ext. intros i p _. apply Hf. Qed.

Lemma ids_in_alloc m l a j out :
  a ∉ l -> ids_in (Mem (m_q m) (<[a := j]> (m_jobs m)) (m_arr m) out) l = ids_in m l.
Proof.
  intros Ha. apply list_fmap_ext. intros i p Hp. cbn.
  rewrite lookup_insert_ne; [done|]. intros ->. apply Ha. by eapply list_elem_of_lookup_2.
Qed.

(** The queue call of round [i], by the parity of [i]. *)
Lemma queue_call i m l a :
  queue_rep m l -> a ∉ l -> is_Some (m_jobs m !! a) ->
  exists m' l', (if decide (i `mod` 2 ≠ 0) then job_insert (Some a) else job_append (Some a)) m = Ret tt m' /\
    l' = (if decide (i `mod` 2 ≠ 0) then a :: l else l ++ [a]) /\
    queue_rep m' l' /\ frame m m' l'.
Proof.
  intros Hrep Ha Hs. case_decide.
  - destruct (job_insert_ok m l a) as (m' & E & ? & ?); eauto 10.
  - destruct (job_append_ok m l a) as (m' & E & ? & ?); eauto 10.
Qed.

Lemma frame_dom m m' fp : frame m m' fp -> dom (m_jobs m') = dom (m_jobs m).
Proof.
  intros Hf. apply set_eq. intros p. rewrite !elem_of_dom.
  rewrite <- !(fmap_is_Some j_id). by rewrite (frame_id _ _ _ Hf).
Qed.

Lemma insert_round i m :
  i < NJOBS -> inserted i m -> exists m', insert_body i m = Ret tt m' /\ inserted (S i) m'.
Proof.
  intros Hi (ps & l & Hrep & Harr & Hlen & Hperm & Hids & Hdom).
  destruct (malloc_succeeds (m_jobs m)) as [a Ha].
  pose proof (malloc_fresh _ _ Ha) as Hfresh.
  set (out := m_out m +:+ ("inserting" +:+ nl)).
  set (ja := Job (Z.of_nat i) (j_prev malloc_junk) (j_next malloc_junk)).
  set (m1 := Mem (m_q m) (<[a := ja]> (m_jobs m)) (m_arr m) out).
  destruct (rep_alloc m l a ja out Hrep Hfresh) as [Hrep1 Hal].
  destruct (queue_call i m1 l a) as (m2 & l' & E & -> & Hrep2 & Hf); [done|done|..].
  { cbn. rewrite lookup_insert_eq. eauto. }
  assert (insert_body i m = arr_set i (Some a) m2) as Hrun.
  { unfold insert_body, c_malloc, set_id, store. unix_unfold; cbn. rewrite Ha; cbn.
    rewrite lookup_insert_eq, insert_insert_eq. fold ja out m1.
    change (match (if decide (i `mod` 2 ≠ 0) then job_insert (Some a) else job_append (Some a)) m1 with
      | Ret _ s' => arr_set i (Some a) s' | Exited c s' => Exited c s'
      | Blocked s' => Blocked s' | Fault => Fault end = arr_set i (Some a) m2).
    by rewrite E. }
  assert (m_arr m2 = (Some <$> ps) ++ replicate (NJOBS - i) None) as Harr2.
  { by rewrite (frame_arr _ _ _ Hf). }
  rewrite Hrun. unfold arr_set. rewrite Harr2, decide_True by
    (rewrite length_app, length_fmap, length_replicate; lia).
  eexists. split; [done|]. exists (ps ++ [a]), (if decide (i `mod` 2 ≠ 0) then a :: l else l ++ [a]).
  split_and!.
  - by apply rep_same_queue.
  - cbn [m_arr]. rewrite fmap_app, <- (app_assoc _ _ (replicate _ _)).
    replace (NJOBS - i) with (S (NJOBS - S i)) by lia.
    rewrite insert_app_r_alt by (rewrite length_fmap; lia).
    rewrite length_fmap, Hlen, Nat.sub_diag. done.
  - rewrite length_app; cbn; lia.
  - case_decide; [rewrite Hperm; by rewrite Permutation_cons_append|by rewrite Hperm].
  - etrans; [apply (ids_in_frame _ _ _ _ Hf)|].
    assert (ids_in m1 l = (fun k => Some (Z.of_nat k)) <$> insert_order i) as Hl1.
    { rewrite <- Hids. by apply ids_in_alloc. }
    assert (j_id <$> m_jobs m1 !! a = Some (Z.of_nat i)) as Ha1 by (cbn; by rewrite lookup_insert_eq).
    cbn [insert_order]. case_decide.
    + unfold ids_in in *. cbn [fmap list_fmap]. by rewrite Ha1, Hl1.
    + unfold ids_in in *. rewrite !fmap_app, Hl1. cbn [fmap list_fmap]. by rewrite Ha1.
  - cbn. rewrite (frame_dom _ _ _ Hf). cbn. rewrite dom_insert_L, Hdom, list_to_set_app_L. cbn.
    by rewrite (right_id_L ∅ (∪)), (comm_L (∪)).
Qed.

(** After [i] rounds of the second loop. *)
Definition deleted (n i : nat) (m : mem) : Prop :=
  exists ps l,
    queue_rep m l /\ m_arr m = Some <$> ps /\ length ps = n /\ l ≡ₚ drop i ps /\
    dom (m_jobs m) = list_to_set ps /\ NoDup ps.

Lemma delete_round i m :
  i < NJOBS -> deleted NJOBS i m -> exists m', delete_body i m = Ret tt m' /\ deleted NJOBS (S i) m'.
Proof.
  intros Hi (ps & l & Hrep & Harr & Hlen & Hperm & Hdom & Hnd).
  destruct (lookup_lt_is_Some_2 ps i) as [a Ha]; [lia|].
  rewrite (drop_S _ _ _ Ha) in Hperm.
  destruct (list_elem_of_split l a) as (l1 & l2 & ->).
  { rewrite Hperm. by left. }
  set (m1 := Mem (m_q m) (m_jobs m) (m_arr m) (m_out m +:+ ("deleting" +:+ nl))).
  destruct (job_remove_ok m1 l1 a l2) as (m2 & E & Hrep2 & Hf).
  { by apply rep_same_queue. }
  exists m2. split.
  { unfold delete_body, arr_get, printf. unix_unfold; cbn. fold m1.
    by rewrite Harr, list_lookup_fmap, Ha. }
  exists ps, (l1 ++ l2). split_and!; try done.
  - by rewrite (frame_arr _ _ _ Hf).
  - apply (Permutation_cons_inv (a := a)). by rewrite <- Hperm, Permutation_middle.
  - by rewrite (frame_dom _ _ _ Hf).
Qed.

(** The memory in which [main] starts the threads. *)
Definition initial_mem : mem :=
  Mem (Queue RwFree None None) ∅ (replicate NJOBS None) "".

Lemma inserted_initial : inserted 0 initial_mem.
Proof.
  exists [], []. split_and!; try done.
  split; [split|done]; cbn; [by apply NoDup_nil|done|done|].
  intros i p. by rewrite lookup_nil.
Qed.

Lemma inserting_loop :
  exists m, for_loop NJOBS 0 insert_body initial_mem = Ret tt m /\ inserted NJOBS m.
Proof.
  apply (for_loop_inv inserted); [apply inserted_initial|].
  intros k m Hk. apply insert_round. lia.
Qed.

Lemma inserted_deleted m : inserted NJOBS m -> deleted NJOBS 0 m.
Proof.
  intros (ps & l & Hrep & Harr & Hlen & Hperm & _ & Hdom). exists ps, l.
  rewrite Nat.sub_diag in Harr. cbn in Harr. rewrite app_nil_r in Harr.
  split_and!; try done. rewrite <- Hperm. apply Hrep.
Qed.

(** Run by itself from the memory [main] sets up, with
    an allocator that does not fail, [thr_fn1] never faults or blocks: its
    first loop leaves the twenty jobs queued with the odd identifiers in
    front, newest first, and the even ones behind, and its second loop
    empties the queue again; the twenty cells stay allocated. *)
Theorem thr_fn1_spec :
  (exists m l, for_loop NJOBS 0 insert_body initial_mem = Ret tt m /\ queue_rep m l /\
     ids_in m l = Some <$> [19;17;15;13;11;9;7;5;3;1;0;2;4;6;8;10;12;14;16;18]%Z) /\
  (exists m, thr_fn1 initial_mem = Ret tt m /\ queue_rep m [] /\ size (m_jobs m) = NJOBS).
Proof.
  destruct inserting_loop as (m & E & Hins). split.
  - pose proof Hins as (ps & l & ? & _ & _ & _ & Hids & _).
    exists m, l. split_and!; [done..|]. by rewrite Hids.
  - destruct (for_loop_inv (deleted NJOBS) delete_body NJOBS 0 m) as (m' & E' & Hdel).
    { by apply inserted_deleted. }
    { intros k s Hk. apply delete_round. lia. }
    exists m'. split; [unfold thr_fn1; by rewrite (bind_ret _ _ _ _ _ E)|].
    destruct Hdel as (ps & l & Hrep & _ & Hlen & Hperm & Hdom & Hnd).
    rewrite drop_ge in Hperm by lia. apply Permutation_nil_r in Hperm as ->.
    split; [done|]. by rewrite <- size_dom, Hdom, size_list_to_set.
Qed.

End Thread1.

(** An allocator that always finds a cell. *)
Lemma fresh_cell (h : gmap loc job) a : Some (fresh (dom h)) = Some a -> h !! a = None.
Proof. intros [= <-]. apply not_elem_of_dom, is_fresh. Qed.

Definition fresh_malloc : Malloc :=
  {| malloc h := Some (fresh (dom h));
     malloc_junk := Job 77 (Some 5%positive) (Some 6%positive);
     malloc_fresh := fresh_cell |}.

Lemma fresh_malloc_succeeds (h : gmap loc job) : is_Some (malloc (Malloc := fresh_malloc) h).
Proof. eexists; reflexivity. Qed.

Lemma thr_fn1_spec_witness :
  exists m, thr_fn1 (H := fresh_malloc) initial_mem = Ret tt m /\ queue_rep m [] /\
    size (m_jobs m) = 20.
Proof. exact (proj2 (thr_fn1_spec (H := fresh_malloc) fresh_malloc_succeeds)). Defined.

(** Two cells; insert, append, find, traverse, remove. *)
Definition sample_cells : mem :=
  Mem (Queue RwFree None None)
    {[ 1%positive := Job 7 None None; 2%positive := Job 8 (Some 9%positive) None ]} [] "".

Lemma sample_cells_implements :
  implements {[1%positive := 7%Z; 2%positive := 8%Z]} sample_cells (AQueue [] "").
Proof.
  split; [|vm_compute; reflexivity|done].
  split; [split|done]; cbn; [by apply NoDup_nil|done|done|]. intros i p. by rewrite lookup_nil.
Qed.

Definition sample_ops : list qop :=
  [OpInsert 1%positive; OpAppend 2%positive; OpFind 0 8; OpFind 11 8; OpTraverse 0; OpRemove 1%positive; OpTraverse 11].

Lemma queue_refines_list_witness :
  exists m', run_ops sample_ops sample_cells = Exited (-1) m' /\ queue_rep m' [2%positive] /\
    m_out m' = "delay before traversing" +:+ nl +:+ "Queue: 7 8" +:+ nl.
Proof.
  destruct (queue_refines_list {[1%positive := 7%Z; 2%positive := 8%Z]} sample_ops sample_cells (AQueue [] "")
      [None; None; Some 2%positive; None; None; None] true
      (AQueue [2%positive] ("delay before traversing" +:+ nl +:+ "Queue: 7 8" +:+ nl)))
    as (m' & E & [Hrep _ Hout]).
  - exact sample_cells_implements.
  - vm_compute. reflexivity.
  - exists m'. auto.
Defined.
