(* ===== verification/JobThreads.v ===== *)
(** * pthread/job_queue.c: the two threads together

    [thr_fn1] inserts and deletes jobs while [thr_fn2] traverses the queue.
    A step is a lock call, a whole critical section of the writer (no other
    thread can be inside then), one iteration of the reader's loop, or a
    stretch of code that touches only the thread's own data.  The loop test
    of [thr_fn2] reads [q_head] and [q_tail] without the lock: while a writer
    is inside its critical section the test may come out either way. *)

From S2P Require Import Prelude Threads JobQueue JobSpec.

(** Where a thread stands. *)
Inductive pc :=
| InsStart (i : nat)                 (** first loop of [thr_fn1], round [i] *)
| InsLock (i : nat) (jp : ptr)       (** about to take the write lock *)
| InsBody (i : nat) (jp : ptr)       (** holding it *)
| InsUnlock (i : nat) (jp : ptr)
| InsStore (i : nat) (jp : ptr)      (** [jp_arr[i] = jp] *)
| DelStart (i : nat)                 (** second loop of [thr_fn1] *)
| DelLock (i : nat) (jp : ptr)
| DelBody (i : nat) (jp : ptr)
| DelUnlock (i : nat)
| Thr1Done
| Test                               (** the loop test of [thr_fn2] *)
| RdLock                             (** entering [traverse_jobs] *)
| Walk (jp : ptr)                    (** its loop *)
| RdUnlock
| Thr2Done
| Exiting                            (** after [exit] *)
| Crashed.

(** Run a piece of code and go on at [k]. *)
Definition goto {A} (m : mem) (r : outcome mem A) (k : A -> pc) : list (mem * pc) :=
  match r with
  | Exited _ m' => [(m', Exiting)]
  | _ => jump Crashed m r k
  end.

Definition new_job `{Malloc} (i : nat) : prog mem ptr :=
  printf ("inserting" +:+ nl) ;; jp ← c_malloc ; set_id jp (Z.of_nat i) ;; mret jp.

Definition enqueue (i : nat) (jp : ptr) : prog mem unit :=
  if decide (i `mod` 2 ≠ 0) then insert_links jp else append_links jp.

Definition thr_fn1_step `{Malloc} (m : mem) (t : pc) : list (mem * pc) :=
  match t with
  | InsStart i => if decide (i < NJOBS) then goto m (new_job i m) (InsLock i) else [(m, DelStart 0)]
  | InsLock i jp => goto m (rwlock_wrlock m) (fun _ => InsBody i jp)
  | InsBody i jp => goto m (enqueue i jp m) (fun _ => InsUnlock i jp)
  | InsUnlock i jp => goto m (rwlock_unlock m) (fun _ => InsStore i jp)
  | InsStore i jp => goto m (arr_set i jp m) (fun _ => InsStart (S i))
  | DelStart i =>
    if decide (i < NJOBS) then goto m ((printf ("deleting" +:+ nl) ;; arr_get i) m) (DelLock i)
    else [(m, Thr1Done)]
  | DelLock i jp => goto m (rwlock_wrlock m) (fun _ => DelBody i jp)
  | DelBody i jp => goto m (remove_links jp m) (fun _ => DelUnlock i)
  | DelUnlock i => goto m (rwlock_unlock m) (fun _ => DelStart (S i))
  | _ => []
  end.

(** The beginning of [traverse_jobs], with the answer of the read lock. *)
Definition enter (rd_err : Z) : prog mem ptr :=
  e ← rwlock_rdlock rd_err ;
  if decide (e = 0%Z) then
    printf ("delay before traversing" +:+ nl) ;; printf "Queue:" ;; gets (fun m => q_head (m_q m))
  else c_exit (-1).

(** An iteration of its loop. *)
Definition visit (jp : ptr) : prog mem ptr :=
  j ← load jp ; printf (" " +:+ pretty (j_id j)) ;; j ← load jp ; mret (j_next j).

(** Leaving the loop of [thr_fn2]. *)
Definition say_done (m : mem) : mem := Mem (m_q m) (m_jobs m) (m_arr m) (m_out m +:+ ("Done" +:+ nl)).

(** The error number of a read lock that is refused. *)
Definition EAGAIN : Z := 11.

Definition thr_fn2_step (m : mem) (t : pc) : list (mem * pc) :=
  match t with
  | Test =>
    match q_lock (m_q m) with
    | RwWrite => [(m, RdLock); (say_done m, Thr2Done)]
    | _ => if decide (q_head (m_q m) = q_tail (m_q m)) then [(say_done m, Thr2Done)] else [(m, RdLock)]
    end
  | RdLock => goto m (enter 0 m) Walk ++ goto m (enter EAGAIN m) Walk
  | Walk None => goto m (printf nl m) (fun _ => RdUnlock)
  | Walk (Some a) => goto m (visit (Some a) m) Walk
  | RdUnlock => goto m (rwlock_unlock m) (fun _ => Test)
  | _ => []
  end.

(** ** The two threads

    The shared state is the memory, the output split into the pieces that the
    steps printed with the number of their thread, and the exit status of the
    process. *)
Record jsh := Jsh { j_mem : mem; j_log : list (nat * string); j_exit : option Z }.

(** What was printed between two states of the output. *)
Definition new_text (a b : string) : string := String.substring (String.length a) (String.length b - String.length a) b.

Definition logged (i : nat) (s : jsh) (x : mem * pc) : jsh * pc :=
  (Jsh x.1 (j_log s ++ [(i, new_text (m_out (j_mem s)) (m_out x.1))])
       (match x.2 with Exiting => Some (-1)%Z | _ => None end), x.2).

Definition jobs_succ `{Malloc} (i : nat) (s : jsh) (t : pc) : list (jsh * pc) :=
  match j_exit s with
  | Some _ => []
  | None =>
    logged i s <$>
      match i with
      | 0 => thr_fn1_step (j_mem s) t
      | 1 => thr_fn2_step (j_mem s) t
      | _ => []
      end
  end.

(** The configuration [main] creates: an initialised queue and two threads. *)
Definition jobs_start : config jsh pc := Config (Jsh initial_mem [] None) [InsStart 0; Test].

(** What thread [i] has printed. *)
Definition own (i : nat) (lg : list (nat * string)) : string := joined (snd <$> filter (fun x => x.1 = i) lg).

(** ** Output only grows *)

Lemma new_text_app a t : new_text a (a +:+ t) = t.
Proof.
  unfold new_text. rewrite str_app_length. replace (String.length a + String.length t - String.length a) with (String.length t) by lia.
  induction a as [|c a IH]; [|exact IH]. cbn [String.length]. induction t as [|c t IH]; [done|].
  change (String c (String.substring 0 (String.length t) t) = String c t). by f_equal.
Qed.

Lemma own_app i j lg t : own i (lg ++ [(j, t)]) = own i lg +:+ if decide (j = i) then t else "".
Proof.
  unfold own. rewrite filter_app, fmap_app, joined_app. f_equal. case_decide.
  - rewrite filter_cons_True by done. cbn. by rewrite str_app_nil_r.
  - by rewrite filter_cons_False.
Qed.

Definition extends (m m' : mem) : Prop := exists t, m_out m' = m_out m +:+ t.

Definition grows {A} (f : prog mem A) : Prop := forall m,
  match f m with Ret _ m' | Exited _ m' | Blocked m' => extends m m' | Fault => True end.

Lemma extends_refl m m' : m_out m' = m_out m -> extends m m'.
Proof. intros E. exists "". by rewrite E, str_app_nil_r. Qed.

Lemma grows_same {A} (f : prog mem A) :
  (forall m, match f m with Ret _ m' | Exited _ m' | Blocked m' => m_out m' = m_out m | Fault => True end) -> grows f.
Proof. intros H m. specialize (H m). destruct (f m); try done; by apply extends_refl. Qed.

Lemma grows_bind {A B} (f : prog mem A) (g : A -> prog mem B) : grows f -> (forall a, grows (g a)) -> grows (f ≫= g).
Proof.
  intros Hf Hg m. specialize (Hf m). unfold mbind, prog_bind. destruct (f m) as [a m1|c m1|m1|]; try done.
  specialize (Hg a m1). destruct Hf as [t1 H1].
  destruct (g a m1) as [b m2|c m2|m2|]; try done; destruct Hg as [t2 H2]; exists (t1 +:+ t2); by rewrite H2, H1, str_app_assoc.
Qed.

Lemma grows_ret {A} (a : A) : grows (mret a : prog mem A).
Proof. by apply grows_same. Qed.
Lemma grows_exit {A} c : grows (c_exit c : prog mem A).
Proof. by apply grows_same. Qed.
Lemma grows_gets {A} (f : mem -> A) : grows (gets f).
Proof. by apply grows_same. Qed.
Lemma grows_printf t : grows (printf t).
Proof. intros m. by exists t. Qed.
Lemma grows_load p : grows (load p).
Proof. apply grows_same. intros m. unfold load. by destruct (p ≫= _). Qed.
Lemma grows_store p f : grows (store p f).
Proof. apply grows_same. intros m. unfold store. destruct p; [|done]. by destruct (m_jobs m !! _). Qed.
Lemma grows_head v : grows (set_head v).
Proof. by apply grows_same. Qed.
Lemma grows_tail v : grows (set_tail v).
Proof. by apply grows_same. Qed.
Lemma grows_wrlock : grows rwlock_wrlock.
Proof. apply grows_same. intros m. unfold rwlock_wrlock. by destruct (q_lock (m_q m)). Qed.
Lemma grows_rdlock e : grows (rwlock_rdlock e).
Proof. apply grows_same. intros m. unfold rwlock_rdlock. case_decide; [|done]. by destruct (q_lock (m_q m)). Qed.
Lemma grows_unlock : grows rwlock_unlock.
Proof. apply grows_same. intros m. unfold rwlock_unlock. by destruct (q_lock (m_q m)). Qed.
Lemma grows_malloc `{Malloc} : grows c_malloc.
Proof. apply grows_same. intros m. unfold c_malloc. by destruct (malloc (m_jobs m)). Qed.
Lemma grows_arr_set i v : grows (arr_set i v).
Proof. apply grows_same. intros m. unfold arr_set. by case_decide. Qed.
Lemma grows_arr_get i : grows (arr_get i).
Proof. apply grows_same. intros m. unfold arr_get. by destruct (m_arr m !! i). Qed.

Create HintDb grows.
#[export] Hint Resolve grows_ret grows_exit grows_gets grows_printf grows_load grows_store grows_head grows_tail
  grows_wrlock grows_rdlock grows_unlock grows_malloc grows_arr_set grows_arr_get : grows.
Ltac grow := repeat first
  [ apply grows_bind; [|intros ?] | case_decide | progress (eauto with grows)
  | match goal with |- grows (match ?x with _ => _ end) => destruct x end ].

Lemma grows_enqueue i jp : grows (enqueue i jp).
Proof. unfold enqueue, insert_links, append_links, set_next, set_prev. grow. Qed.
Lemma grows_remove jp : grows (remove_links jp).
Proof. unfold remove_links, set_next, set_prev. grow. Qed.
Lemma grows_new_job `{Malloc} i : grows (new_job i).
Proof. unfold new_job, set_id. grow. Qed.
Lemma grows_enter e : grows (enter e).
Proof. unfold enter. grow. Qed.
Lemma grows_visit jp : grows (visit jp).
Proof. unfold visit. grow. Qed.
#[export] Hint Resolve grows_enqueue grows_remove grows_new_job grows_enter grows_visit : grows.

Lemma goto_extends {A} (f : prog mem A) m k x : grows f -> x ∈ goto m (f m) k -> extends m x.1.
Proof.
  intros Hf. specialize (Hf m). unfold goto, jump. destruct (f m) as [a m'|c m'|m'|]; intros Hx.
  - by apply list_elem_of_singleton in Hx as ->.
  - by apply list_elem_of_singleton in Hx as ->.
  - by apply elem_of_nil in Hx.
  - apply list_elem_of_singleton in Hx as ->. by apply extends_refl.
Qed.

Lemma stay_extends m (t : pc) x : x ∈ [(m, t)] -> extends m x.1.
Proof. intros Hx%list_elem_of_singleton. subst. by apply extends_refl. Qed.

Lemma thr1_extends `{Malloc} m t x : x ∈ thr_fn1_step m t -> extends m x.1.
Proof.
  intros Hx. destruct t; cbn in Hx; try (by apply elem_of_nil in Hx);
    repeat (case_decide; cbn in Hx); try (by eapply stay_extends);
    eapply goto_extends in Hx; eauto with grows. grow.
Qed.

Lemma thr2_extends m t x : x ∈ thr_fn2_step m t -> extends m x.1.
Proof.
  intros Hx. destruct t as [| | | | | | | | | | | |[a|]| | | |]; cbn in Hx; try (by apply elem_of_nil in Hx);
    try (by (eapply goto_extends; [|exact Hx]; eauto with grows)).
  - assert (x = (m, RdLock) \/ x = (say_done m, Thr2Done)) as [-> | ->].
    { apply list_elem_of_In in Hx.
      destruct (q_lock (m_q m)); try case_decide; cbn in Hx;
        repeat (destruct Hx as [<-|Hx]; [by auto|]); done. }
    + by apply extends_refl.
    + by exists ("Done" +:+ nl).
  - apply elem_of_app in Hx as [Hx|Hx]; (eapply goto_extends; [|exact Hx]; eauto with grows).
  - by apply (goto_extends (printf nl) m (fun _ => RdUnlock)); [apply grows_printf|].
Qed.

Section Safety.
Context `{Malloc}.

Definition writing (t : pc) : bool :=
  match t with InsBody _ _ | InsUnlock _ _ | DelBody _ _ | DelUnlock _ => true | _ => false end.
Definition reading (t : pc) : bool :=
  match t with Walk _ | RdUnlock => true | _ => false end.

(** The lock mirrors the positions of the threads. *)
Definition lock_inv (m : mem) (t1 t2 : pc) : Prop :=
  match writing t1, reading t2 with
  | true, true => False
  | true, false => q_lock (m_q m) = RwWrite
  | false, true => q_lock (m_q m) = RwRead 1
  | false, false => q_lock (m_q m) = RwFree
  end.

Definition arr_at (m : mem) (ps : list loc) (i : nat) : Prop :=
  length ps = i /\ m_arr m = (Some <$> ps) ++ replicate (NJOBS - i) None.

(** Thread 1: which jobs are in the queue at each position. *)
Definition t1_inv (m : mem) (t : pc) (l : list loc) : Prop :=
  exists ps,
  match t with
  | InsStart i => i <= NJOBS /\ arr_at m ps i /\ l ≡ₚ ps
  | InsLock i jp | InsBody i jp =>
    i < NJOBS /\ arr_at m ps i /\ l ≡ₚ ps /\
    exists a, jp = Some a /\ (a ∉ l) /\ is_Some (m_jobs m !! a)
  | InsUnlock i jp | InsStore i jp =>
    i < NJOBS /\ arr_at m ps i /\ exists a, jp = Some a /\ l ≡ₚ ps ++ [a]
  | DelStart i => i <= NJOBS /\ arr_at m ps NJOBS /\ l ≡ₚ drop i ps
  | DelLock i jp | DelBody i jp =>
    i < NJOBS /\ arr_at m ps NJOBS /\ l ≡ₚ drop i ps /\ jp = ps !! i
  | DelUnlock i => i < NJOBS /\ arr_at m ps NJOBS /\ l ≡ₚ drop (S i) ps
  | Thr1Done => l = []
  | Crashed => malloc (m_jobs m) = None
  | _ => False
  end.

(** The identifiers as [traverse_jobs] prints them. *)
Definition ids_text (ids : list (option Z)) : string :=
  joined ((fun o => match o with Some i => " " +:+ pretty i | None => "" end) <$> ids).
Definition head_text : string := "delay before traversing" +:+ nl +:+ "Queue:".

(** Thread 2: the end of [o], which it has printed so far. *)
Definition t2_inv (m : mem) (o : string) (t : pc) (l : list loc) : Prop :=
  match t with
  | Test | RdLock | Thr2Done | Exiting => True
  | Walk jp => exists k pre, jp = l !! k /\ o = pre +:+ head_text +:+ ids_text (ids_in m (take k l))
  | RdUnlock => exists pre, o = pre +:+ head_text +:+ ids_text (ids_in m l) +:+ nl
  | _ => False
  end.

Definition jobs_inv (c : config jsh pc) : Prop :=
  exists m lg ex t1 t2 l, c = Config (Jsh m lg ex) [t1; t2] /\ shape m l /\ lock_inv m t1 t2 /\
    t1_inv m t1 l /\ t2_inv m (own 1 lg) t2 l /\ m_out m = joined (snd <$> lg) /\
    (ex ≠ None -> ex = Some (-1)%Z /\ t2 = Exiting).

Lemma shape_same_queue m l arr out :
  shape m l -> shape (Mem (m_q m) (m_jobs m) arr out) l.
Proof. intros []. by split. Qed.

Lemma t2_idle m m' o t l l' : reading t = false -> t2_inv m o t l -> t2_inv m' o t l'.
Proof. by destruct t. Qed.

Lemma t2_same_ids m m' o t l :
  ids_in m' l = ids_in m l -> t2_inv m o t l -> t2_inv m' o t l.
Proof.
  intros Hids. destruct t; cbn; try done; [|by rewrite Hids].
  intros (k & pre & -> & Hs). exists k, pre. split; [done|]. rewrite Hs.
  unfold ids_in in *. by rewrite !fmap_take, Hids.
Qed.

Lemma lock_inv_writer m t1 t2 : lock_inv m t1 t2 -> writing t1 = true ->
  reading t2 = false /\ q_lock (m_q m) = RwWrite.
Proof. unfold lock_inv. intros Hl Hw. rewrite Hw in Hl. by destruct (reading t2). Qed.

Lemma lock_inv_move m m' t1 t1' t2 :
  lock_inv m t1 t2 -> writing t1' = writing t1 -> q_lock (m_q m') = q_lock (m_q m) ->
  lock_inv m' t1' t2.
Proof. unfold lock_inv. intros Hl -> ->. done. Qed.

(** Taking and leaving the write lock. *)
Lemma wrlock_move m t1 t1' t2 x :
  lock_inv m t1 t2 -> writing t1 = false -> writing t1' = true ->
  x ∈ goto m (rwlock_wrlock m) (fun _ => t1') ->
  x = (relocked m RwWrite, t1') /\ lock_inv (relocked m RwWrite) t1' t2.
Proof.
  unfold lock_inv, rwlock_wrlock. intros Hl Hw Hw' Hx. rewrite Hw, Hw' in *.
  destruct (reading t2); rewrite Hl in Hx; cbn in Hx; [by apply not_elem_of_nil in Hx|].
  by apply list_elem_of_singleton in Hx as ->.
Qed.

Lemma wrunlock_move m t1 t1' t2 x :
  lock_inv m t1 t2 -> writing t1 = true -> writing t1' = false ->
  x ∈ goto m (rwlock_unlock m) (fun _ => t1') ->
  x = (relocked m RwFree, t1') /\ lock_inv (relocked m RwFree) t1' t2.
Proof.
  unfold lock_inv, rwlock_unlock. intros Hl Hw Hw' Hx. rewrite Hw, Hw' in *.
  destruct (reading t2); [done|]. rewrite Hl in Hx. cbn in Hx.
  by apply list_elem_of_singleton in Hx as ->.
Qed.

Lemma t2_relocked m k o t l : t2_inv m o t l -> t2_inv (relocked m k) o t l.
Proof. by apply t2_same_ids. Qed.

Lemma enqueue_ok i m l a :
  shape m l -> a ∉ l -> is_Some (m_jobs m !! a) ->
  exists m' l', enqueue i (Some a) m = Ret tt m' /\ shape m' l' /\ l' ≡ₚ l ++ [a] /\
    m_arr m' = m_arr m /\ q_lock (m_q m') = q_lock (m_q m).
Proof.
  intros Hsh Ha Hs. unfold enqueue. case_decide.
  - destruct (insert_links_ok m l a) as (m' & E & ? & Hf & ?); [done..|].
    exists m', (a :: l). split_and!; [done..| |apply Hf|done]. by rewrite Permutation_cons_append.
  - destruct (append_links_ok m l a) as (m' & E & ? & Hf & ?); [done..|].
    exists m', (l ++ [a]). split_and!; [done..|apply Hf|done].
Qed.

(** A failed [malloc] is not noticed: its result is dereferenced. *)
Lemma new_job_ok i m :
  match malloc (m_jobs m) with
  | None => new_job i m = Fault
  | Some a => m_jobs m !! a = None /\ exists j out,
      new_job i m = Ret (Some a) (Mem (m_q m) (<[a := j]> (m_jobs m)) (m_arr m) out)
  end.
Proof.
  destruct (malloc (m_jobs m)) as [a|] eqn:Ha;
    [split; [by apply malloc_fresh|]; eexists; eexists|];
    unfold new_job, c_malloc, set_id, store; unix_unfold; cbn; rewrite Ha; cbn; [|done].
  rewrite lookup_insert_eq, insert_insert_eq. done.
Qed.

(** The only successor of a step is the new state. *)
Ltac take_step Hx := apply list_elem_of_singleton in Hx as ->; cbn [fst snd].

Definition good (m : mem) (o : string) (t1 t2 : pc) : Prop :=
  exists l, shape m l /\ lock_inv m t1 t2 /\ t1_inv m t1 l /\ t2_inv m o t2 l.

(** The steps of thread 1 that only move a lock or its own data. *)
Lemma t1_insert_step m o t1 t2 x :
  good m o t1 t2 -> x ∈ thr_fn1_step m t1 ->
  match t1 with InsStart _ | InsLock _ _ | InsBody _ _ | InsUnlock _ _ | InsStore _ _ => True | _ => False end ->
  good x.1 o x.2 t2.
Proof.
  intros (l & Hsh & Hlk & (ps & H1) & H2) Hx Ht.
  destruct t1 as [i|i jp|i jp|i jp|i jp| | | | | | | | | | | |]; try done; cbn in Hx, H1.
  - destruct H1 as (Hi & Harr & Hp). case_decide as Hlt.
    + pose proof (new_job_ok i m) as Hnew. destruct (malloc (m_jobs m)) as [a|] eqn:Em; last first.
      { rewrite Hnew in Hx. take_step Hx. exists l. split_and!; [done|by eapply lock_inv_move|by exists ps|done]. }
      destruct Hnew as (Hfr & j & out & E). rewrite E in Hx. take_step Hx.
      destruct (shape_alloc m l a j out Hsh Hfr) as [Hsh' Hal].
      exists l. split_and!; [done|by eapply lock_inv_move| |].
      * exists ps. split_and!; try done. exists a. cbn. rewrite lookup_insert_eq. eauto.
      * eapply t2_same_ids; [|done]. by apply ids_in_alloc.
    + take_step Hx. assert (i = NJOBS) as -> by lia.
      exists l. split_and!; [done|by eapply lock_inv_move| |done].
      exists ps. split_and!; [lia|done|by rewrite drop_0].
  - destruct (wrlock_move m (InsLock i jp) (InsBody i jp) t2 x) as [-> ?]; try done.
    exists l. split_and!; [by apply shape_relocked|done|by exists ps|by apply t2_relocked].
  - destruct H1 as (Hi & [Hlen Harr] & Hp & a & -> & Ha & Hs).
    destruct (lock_inv_writer _ _ _ Hlk eq_refl) as [Hrd _].
    destruct (enqueue_ok i m l a) as (m' & l' & E & Hsh' & Hp' & Ha' & Hk'); [done..|].
    rewrite E in Hx. take_step Hx.
    exists l'. split_and!; [done|by eapply lock_inv_move| |by eapply t2_idle].
    exists ps. split_and!; [done|split; [done|by rewrite Ha']|]. exists a. split; [done|]. by rewrite Hp', Hp.
  - destruct (wrunlock_move m (InsUnlock i jp) (InsStore i jp) t2 x) as [-> ?]; try done.
    exists l. split_and!; [by apply shape_relocked|done|by exists ps|by apply t2_relocked].
  - destruct H1 as (Hi & [Hlen Harr] & a & -> & Hp). unfold arr_set in Hx.
    rewrite decide_True in Hx by (rewrite Harr, length_app, length_fmap, length_replicate; lia).
    take_step Hx.
    exists l. split_and!; [by apply shape_same_queue|by eapply lock_inv_move| |by apply t2_same_ids with m].
    exists (ps ++ [a]). split_and!; [lia| |done]. split; [rewrite length_app; cbn; lia|]. cbn [m_arr fst].
    rewrite Harr, fmap_app, <- (app_assoc _ _ (replicate _ _)).
    replace (NJOBS - i) with (S (NJOBS - S i)) by lia.
    rewrite insert_app_r_alt by (rewrite length_fmap; lia).
    rewrite length_fmap, Hlen, Nat.sub_diag. done.
Qed.

Lemma t1_delete_step m o t1 t2 x :
  good m o t1 t2 -> x ∈ thr_fn1_step m t1 ->
  match t1 with DelStart _ | DelLock _ _ | DelBody _ _ | DelUnlock _ => True | _ => False end ->
  good x.1 o x.2 t2.
Proof.
  intros (l & Hsh & Hlk & (ps & H1) & H2) Hx Ht.
  destruct t1 as [| | | | |i|i jp|i jp|i| | | | | | | |]; try done; cbn in Hx, H1.
  - destruct H1 as (Hi & [Hlen Harr] & Hp). rewrite Nat.sub_diag in Harr. cbn in Harr.
    rewrite app_nil_r in Harr. case_decide as Hlt.
    + destruct (lookup_lt_is_Some_2 ps i) as [a Ha]; [lia|].
      unfold arr_get, printf in Hx. unix_unfold. cbn in Hx.
      rewrite Harr, list_lookup_fmap, Ha in Hx. cbn in Hx.
      take_step Hx. exists l.
      split_and!; [by apply shape_same_queue|by eapply lock_inv_move| |by apply t2_same_ids with m].
      exists ps. split_and!; [done|split; [done|]|done|done]. cbn [m_arr].
      rewrite Nat.sub_diag. cbn [replicate]. by rewrite app_nil_r.
    + take_step Hx. assert (i = NJOBS) as -> by lia.
      exists l. split_and!; [done|by eapply lock_inv_move| |done].
      exists ps. rewrite drop_ge in Hp by lia. by apply Permutation_nil_r in Hp.
  - destruct (wrlock_move m (DelLock i jp) (DelBody i jp) t2 x) as [-> ?]; try done.
    exists l. split_and!; [by apply shape_relocked|done|by exists ps|by apply t2_relocked].
  - destruct H1 as (Hi & [Hlen Harr] & Hp & ->).
    destruct (lock_inv_writer _ _ _ Hlk eq_refl) as [Hrd _].
    destruct (lookup_lt_is_Some_2 ps i) as [a Ha]; [lia|]. rewrite Ha in Hx.
    rewrite (drop_S _ _ _ Ha) in Hp.
    destruct (list_elem_of_split l a) as (l1 & l2 & ->); [rewrite Hp; by left|].
    destruct (remove_links_ok m l1 a l2 Hsh) as (m' & E & Hsh' & Hf & Hk').
    rewrite E in Hx. take_step Hx.
    exists (l1 ++ l2). split_and!; [done|by eapply lock_inv_move| |by eapply t2_idle].
    exists ps. split_and!; [done|split; [done|by rewrite (frame_arr _ _ _ Hf)]|].
    apply (Permutation_cons_inv (a := a)). by rewrite <- Hp, Permutation_middle.
  - destruct (wrunlock_move m (DelUnlock i) (DelStart (S i)) t2 x) as [-> ?]; try done.
    destruct H1 as (Hi & Harr & Hp).
    exists l. split_and!; [by apply shape_relocked|done| |by apply t2_relocked].
    exists ps. split_and!; [lia|done..].
Qed.

Lemma t1_frame m m' t l :
  m_arr m' = m_arr m -> m_jobs m' = m_jobs m -> t1_inv m t l -> t1_inv m' t l.
Proof.
  intros Ha Hj [ps H1]. exists ps. unfold arr_at in *.
  destruct t; try done; by rewrite ?Ha, ?Hj.
Qed.

Lemma ids_text_app a b : ids_text (a ++ b) = ids_text a +:+ ids_text b.
Proof. unfold ids_text. by rewrite fmap_app, joined_app. Qed.

(** The printing of one step, [t], goes to the thread's own output. *)
Lemma t2_step m o t1 t2 x t :
  good m o t1 t2 -> x ∈ thr_fn2_step m t2 -> m_out x.1 = m_out m +:+ t -> good x.1 (o +:+ t) t1 x.2.
Proof.
  intros (l & Hsh & Hlk & H1 & H2) Hx Hout.
  destruct t2 as [| | | | | | | | | | | |[a|]| | | |]; try (by apply not_elem_of_nil in Hx); cbn in Hx.
  - assert (x = (m, RdLock) \/ x = (say_done m, Thr2Done)) as [-> | ->].
    { apply list_elem_of_In in Hx.
      destruct (q_lock (m_q m)); try case_decide; cbn in Hx;
        repeat (destruct Hx as [<-|Hx]; [by auto|]); done. }
    all: exists l; split_and!; try done; try (by apply shape_same_queue); try (by eapply t1_frame);
      unfold lock_inv in *; cbn in *; by destruct (writing t1).
  - unfold lock_inv in Hlk. cbn in Hlk. apply elem_of_app in Hx as [Hx|Hx]; last first.
    { unfold enter, rwlock_rdlock in Hx. unix_unfold. rewrite !(decide_False (P := EAGAIN = 0%Z)) in Hx by done.
      take_step Hx. exists l. split_and!; [done| |done|done]. unfold lock_inv. cbn. done. }
    unfold enter in Hx. destruct (writing t1) eqn:Hw.
    { unfold rwlock_rdlock in Hx. unix_unfold. rewrite decide_True, Hlk in Hx by done.
      by apply not_elem_of_nil in Hx. }
    erewrite bind_ret in Hx by (by apply rdlock_ok). rewrite decide_True in Hx by done. unix_unfold. cbn in Hx.
    take_step Hx. cbn [m_out fst] in Hout. rewrite str_app_assoc in Hout. apply str_app_inj_l in Hout as <-.
    exists l. split_and!.
    + destruct Hsh. by split.
    + unfold lock_inv. by rewrite Hw.
    + by eapply t1_frame.
    + exists 0, o. rewrite (shape_head _ _ Hsh). split; [done|]. unfold head_text. cbn [take ids_in fmap list_fmap].
      change (ids_text []) with "". by rewrite !str_app_nil_r, !str_app_assoc.
  - destruct H2 as (k & pre & Hk & Hs). symmetry in Hk.
    destruct (shape_linked _ _ Hsh k a Hk) as (j & Hj & Hn & _).
    unfold visit, printf, load in Hx. unix_unfold. cbn in Hx. rewrite Hj in Hx. cbn in Hx.
    rewrite Hj in Hx. take_step Hx. cbn [m_out fst] in Hout. apply str_app_inj_l in Hout as <-.
    exists l. split_and!; [by apply shape_same_queue|done|by eapply t1_frame|].
    exists (S k), pre. split; [done|]. rewrite (take_S_r _ _ _ Hk), Hs.
    unfold ids_in in *. rewrite fmap_app, ids_text_app. cbn [m_jobs fst fmap list_fmap].
    rewrite Hj. unfold ids_text at 3. cbn. by rewrite str_app_nil_r, !str_app_assoc.
  - destruct H2 as (k & pre & Hk & Hs). take_step Hx. cbn [m_out fst] in Hout. apply str_app_inj_l in Hout as <-.
    exists l. split_and!; [by apply shape_same_queue|done|by eapply t1_frame|].
    cbn. symmetry in Hk. apply lookup_ge_None in Hk. rewrite take_ge in Hs by done.
    exists pre. by rewrite Hs, !str_app_assoc.
  - unfold lock_inv in Hlk. cbn in Hlk. destruct (writing t1) eqn:Hw; [done|].
    unfold rwlock_unlock in Hx. rewrite Hlk in Hx. cbn in Hx.
    take_step Hx.
    exists l. split_and!; [destruct Hsh; by split| |by eapply t1_frame|done].
    unfold lock_inv. by rewrite Hw.
Qed.

Lemma jobs_inv_step c c' : jobs_inv c -> step jobs_succ c c' -> jobs_inv c'.
Proof.
  intros (m & lg & ex & t1 & t2 & l & -> & Hsh & Hlk & H1 & H2 & Hout & Hex) Hs.
  inversion Hs as [i s ls t s' t' Hi Hx]; subst.
  assert (good m (own 1 lg) t1 t2) as Hgood by (by exists l).
  unfold jobs_succ in Hx. cbn [j_exit j_mem] in Hx. destruct ex as [e|]; [by apply not_elem_of_nil in Hx|].
  destruct i as [|[|i]]; cbn in Hi; simplify_eq; cbn [insert list_insert].
  - apply list_elem_of_fmap in Hx as (x & Hx' & Hx). unfold logged in Hx'. cbn [j_mem j_log] in Hx'. simplify_eq.
    destruct (thr1_extends _ _ _ Hx) as [u Hu]. rewrite Hu, new_text_app.
    assert (good x.1 (own 1 lg) x.2 t2) as (l' & ? & ? & ? & ?).
    { destruct t; try (by apply not_elem_of_nil in Hx);
        first [by apply (t1_insert_step _ _ _ _ _ Hgood Hx)|by apply (t1_delete_step _ _ _ _ _ Hgood Hx)]. }
    eexists x.1, _, _, x.2, t2, l'. split_and!; [done|done|done|done| | |].
    + rewrite own_app. cbn. by rewrite str_app_nil_r.
    + rewrite Hu, Hout, fmap_app, joined_app. cbn. by rewrite str_app_nil_r.
    + destruct x as [? []]; try done. by match goal with H : t1_inv _ _ _ |- _ => destruct H end.
  - apply list_elem_of_fmap in Hx as (x & Hx' & Hx). unfold logged in Hx'. cbn [j_mem j_log] in Hx'. simplify_eq.
    destruct (thr2_extends _ _ _ Hx) as [u Hu]. rewrite Hu, new_text_app.
    destruct (t2_step _ _ _ _ _ _ Hgood Hx Hu) as (l' & ? & ? & ? & ?).
    eexists x.1, _, _, t1, x.2, l'. split_and!; [done|done|done|done| | |].
    + by rewrite own_app.
    + rewrite Hu, Hout, fmap_app, joined_app. cbn. by rewrite str_app_nil_r.
    + by destruct x.2.
Qed.

Lemma jobs_inv_start : jobs_inv jobs_start.
Proof.
  destruct inserted_initial as (ps & l & [Hsh Hk] & Harr & Hlen & Hp & _).
  exists initial_mem, [], None, (InsStart 0), Test, l. split_and!; try done.
  exists ps. split_and!; [lia|done|done].
Qed.

(** Property C3. In every interleaving of [thr_fn1] and [thr_fn2]: the queue
    is a well-formed doubly linked list between critical sections; the reader
    never follows a null or dangling pointer, and the writer only when a
    [malloc] has just failed, whose result it does not check; a traversal
    that has come to its end has printed, of the reader's own output, exactly
    the identifiers of the jobs in the queue at that moment, in order (the
    output of the process is that of the two threads, piece by piece); when
    [thr_fn1] has ended the queue is empty; and the process ends early only
    because the read lock was refused, with -1. *)
Theorem jobs_safe c :
  reachable jobs_succ jobs_start c ->
  exists m lg ex t1 t2 l, c = Config (Jsh m lg ex) [t1; t2] /\ shape m l /\ m_out m = joined (snd <$> lg) /\
    t2 <> Crashed /\ (t1 = Crashed -> malloc (m_jobs m) = None) /\
    (t2 = RdUnlock -> exists pre, own 1 lg = pre +:+ "delay before traversing" +:+ nl +:+ "Queue:" +:+
       ids_text (ids_in m l) +:+ nl) /\
    (t1 = Thr1Done -> l = []) /\ (ex ≠ None -> ex = Some (-1)%Z /\ t2 = Exiting).
Proof.
  intros Hr. destruct (reachable_inv _ jobs_inv jobs_start c jobs_inv_start jobs_inv_step Hr)
    as (m & lg & ex & t1 & t2 & l & -> & Hsh & _ & [ps H1] & H2 & Hout & Hex).
  exists m, lg, ex, t1, t2, l. split_and!; [done|done|done| | | | |done].
  - by intros ->.
  - by intros ->.
  - intros ->. destruct H2 as [pre H2]. exists pre. rewrite H2. unfold head_text. by rewrite !str_app_assoc.
  - by intros ->.
Qed.

End Safety.

(** The reader traverses the queue after three insertions. *)
Definition sample_sched : list (nat * nat) :=
  replicate 15 (0, 0) ++ replicate 6 (1, 0).

Lemma jobs_safe_witness :
  exists m lg ex t1 t2 l,
    run (jobs_succ (H := fresh_malloc)) sample_sched jobs_start = Some (Config (Jsh m lg ex) [t1; t2]) /\
    t2 = RdUnlock /\ shape m l /\
    own 1 lg = "delay before traversing" +:+ nl +:+ "Queue: 1 0 2" +:+ nl /\
    exists pre, own 1 lg = pre +:+ "delay before traversing" +:+ nl +:+ "Queue:" +:+ ids_text (ids_in m l) +:+ nl.
Proof.
  destruct (run (jobs_succ (H := fresh_malloc)) sample_sched jobs_start) as [c|] eqn:E.
  - destruct (jobs_safe (H := fresh_malloc) c (run_reachable _ _ _ _ E))
      as (m & lg & ex & t1 & t2 & l & -> & Hsh & _ & _ & _ & Hseen & _ & _).
    assert (t2 = RdUnlock) as Ht.
    { pose proof (run_observe _ (fun c => pool c !! 1) _ _ _ E) as Ht. vm_compute in Ht. congruence. }
    exists m, lg, ex, t1, t2, l. split_and!; [done|done|done| |by apply Hseen].
    pose proof (run_observe _ (fun c => Some (own 1 (j_log (shared c)))) _ _ _ E) as Hl. vm_compute in Hl.
    cbn in Hl. injection Hl as Hl. exact Hl.
  - exfalso. vm_compute in E. discriminate.
Defined.
