(* ===== verification/BarrierSort.v ===== *)
(** * pthread/barrier_sort.c and pthread/norm_qsort.c: sorting in parallel

    Eight threads sort an eighth of the array each; after a barrier the main
    thread merges the sorted parts.  This file holds the comparison
    function, the sorting step of a thread and [merge], for any number
    [NTHR] of threads and [TNUM] of elements per thread. *)

From stdpp Require Import sorting.
From S2P Require Import Prelude.

(** The comparison function of both files. *)
Definition cmplong (l1 l2 : Z) : Z :=
  if (l1 =? l2)%Z then 0%Z else if (l1 <? l2)%Z then (-1)%Z else 1%Z.

(** [qsort] of the C library: given a comparison function that is a total
    preorder it permutes the array into ascending order. *)
Definition cmp_le (cmp : Z -> Z -> Z) (a b : Z) : Prop := (cmp a b <= 0)%Z.

Class QSort := {
  qsort : (Z -> Z -> Z) -> list Z -> list Z;
  qsort_perm cmp l : qsort cmp l ≡ₚ l;
  qsort_sorted cmp l :
    (forall a b, cmp_le cmp a b \/ cmp_le cmp b a) ->
    (forall a b c, cmp_le cmp a b -> cmp_le cmp b c -> cmp_le cmp a c) ->
    StronglySorted (cmp_le cmp) (qsort cmp l)
}.

(** [norm_qsort.c]: the whole array in one call. *)
Definition norm_qsort `{QSort} (a : list Z) : list Z := qsort cmplong a.

(** The constants of [barrier_sort.c] and the loop of both programs that
    fills [nums] with successive values of [random()]. *)
Definition NTHR : nat := 8.
Definition NUMNUM : nat := Z.to_nat 8000000.
Definition TNUM : nat := Z.to_nat (8000000 / 8).
Definition fill (random : nat -> Z) (n : nat) : list Z := random <$> seq 0 n.

(** The arrays [nums] and [snums] and the local variables of [merge]. *)
Record sort_mem := SortMem {
  nums : list Z;
  snums : list Z;
  idx : list nat;
  num : Z;
  minidx : option nat
}.

Section Merge.
Context (NTHR TNUM : nat).

(** *** [thr_fn]: sort the part that starts at [i]. *)
Definition sort_part `{QSort} (i : nat) (a : list Z) : list Z :=
  take i a ++ qsort cmplong (take TNUM (drop i a)) ++ drop (i + TNUM) a.

Definition thr_fn_sort `{QSort} (i : nat) : prog sort_mem unit := fun s =>
  if decide (i + TNUM <= length (nums s)) then
    Ret tt (SortMem (sort_part i (nums s)) (snums s) (idx s) (num s) (minidx s))
  else Fault.

(** *** [merge] *)

Definition set_idx (i v : nat) : prog sort_mem unit := fun s =>
  if decide (i < length (idx s)) then
    Ret tt (SortMem (nums s) (snums s) (<[i := v]> (idx s)) (num s) (minidx s))
  else Fault.
Definition get_idx (i : nat) : prog sort_mem nat := fun s =>
  match idx s !! i with Some v => Ret v s | None => Fault end.
Definition get_nums (i : nat) : prog sort_mem Z := fun s =>
  match nums s !! i with Some v => Ret v s | None => Fault end.
Definition set_snums (i : nat) (v : Z) : prog sort_mem unit := fun s =>
  if decide (i < length (snums s)) then
    Ret tt (SortMem (nums s) (<[i := v]> (snums s)) (idx s) (num s) (minidx s))
  else Fault.
Definition set_num (v : Z) : prog sort_mem unit := modify (fun s =>
  SortMem (nums s) (snums s) (idx s) v (minidx s)).
Definition set_minidx (v : nat) : prog sort_mem unit := modify (fun s =>
  SortMem (nums s) (snums s) (idx s) (num s) (Some v)).
(** Reading [minidx] before any assignment is undefined behaviour. *)
Definition get_minidx : prog sort_mem nat := fun s =>
  match minidx s with Some v => Ret v s | None => Fault end.

(** The inner loop's body. *)
Definition scan (i : nat) : prog sort_mem unit :=
  ix ← get_idx i ;
  if decide (ix < (i + 1) * TNUM) then
    x ← get_nums ix ;
    n ← gets num ;
    if (n >? x)%Z then
      x ← get_nums ix ;
      set_num x ;; set_minidx i
    else mret tt
  else mret tt.

(** The outer loop's body. *)
Definition merge_round (sidx : nat) : prog sort_mem unit :=
  set_num LONG_MAX ;;
  for_loop NTHR 0 scan ;;
  n ← gets num ;
  set_snums sidx n ;;
  k ← get_minidx ;
  ix ← get_idx k ;
  set_idx k (ix + 1).

Definition merge : prog sort_mem unit :=
  for_loop NTHR 0 (fun i => set_idx i (i * TNUM)) ;;
  for_loop (NTHR * TNUM) 0 merge_round.

(** ** Correctness of [merge] *)

(** What is left of each part. *)
Definition rest (a : list Z) (i ix : nat) : list Z := take ((i + 1) * TNUM - ix) (drop ix a).
Definition rests (a : list Z) (ixs : list nat) : list (list Z) := imap (rest a) ixs.

Lemma rests_lookup a ixs i :
  rests a ixs !! i = rest a i <$> ixs !! i.
Proof. apply list_lookup_imap. Qed.

Lemma rest_cons a i ix x :
  ix < (i + 1) * TNUM -> a !! ix = Some x -> rest a i ix = x :: rest a i (ix + 1).
Proof.
  intros Hlt Hx. unfold rest. rewrite (drop_S _ _ _ Hx).
  replace ((i + 1) * TNUM - ix) with (S ((i + 1) * TNUM - (ix + 1))) by lia.
  cbn [take]. by replace (S ix) with (ix + 1) by lia.
Qed.

Lemma rest_nil a i ix : (i + 1) * TNUM <= ix -> rest a i ix = [].
Proof. intros. unfold rest. by replace ((i + 1) * TNUM - ix) with 0 by lia. Qed.

(** The state of the inner loop before index [i]. *)
Record scanned (s0 : sort_mem) (i : nat) (s : sort_mem) : Prop := {
  sc_nums : nums s = nums s0;
  sc_snums : snums s = snums s0;
  sc_idx : idx s = idx s0;
  sc_min :
    (num s = LONG_MAX /\ forall j r, j < i -> rests (nums s0) (idx s0) !! j = Some r -> r = []) \/
    (exists k r, minidx s = Some k /\ rests (nums s0) (idx s0) !! k = Some (num s :: r) /\
       forall j x r', j < i -> rests (nums s0) (idx s0) !! j = Some (x :: r') -> (num s <= x)%Z)
}.

Lemma scan_ok s0 i s :
  i < NTHR -> length (idx s0) = NTHR -> length (nums s0) = NTHR * TNUM ->
  Forall (fun x => x < LONG_MAX)%Z (nums s0) ->
  scanned s0 i s -> exists s', scan i s = Ret tt s' /\ scanned s0 (S i) s'.
Proof.
  intros Hi Hidx Hlen Hmax [Hn Hs Hx Hmin].
  destruct (lookup_lt_is_Some_2 (idx s0) i) as [ix Hix]; [lia|].
  assert (rests (nums s0) (idx s0) !! i = Some (rest (nums s0) i ix)) as Hr.
  { by rewrite rests_lookup, Hix. }
  unfold scan, get_idx, get_nums. unix_unfold. rewrite Hx, Hix.
  case_decide as Hlt.
  - assert (ix < length (nums s0)) as Hb by nia.
    apply lookup_lt_is_Some_2 in Hb as [x Hxa].
    rewrite Hn, Hxa. rewrite (rest_cons _ _ _ _ Hlt Hxa) in Hr.
    assert (x < LONG_MAX)%Z as Hxm by exact (Forall_lookup_1 _ _ _ _ Hmax Hxa).
    destruct (Z.gtb_spec (num s) x) as [Hgt|Hle].
    + eexists. split; [by rewrite Hn, Hxa|]. split; cbn; try done. right.
      exists i, (rest (nums s0) i (ix + 1)). split_and!; [done|done|].
      intros j y r' Hj Hy. destruct (decide (j = i)) as [->|]; [rewrite Hr in Hy; simplify_eq; lia|].
      destruct Hmin as [[Hlm He]|(k & r & _ & _ & Hall)].
      * discriminate (He j (y :: r') ltac:(lia) Hy).
      * pose proof (Hall j y r' ltac:(lia) Hy). lia.
    + exists s. split; [done|]. split; try done. right.
      destruct Hmin as [[Hlm He]|(k & r & Hk & Hrk & Hall)]; [lia|].
      exists k, r. split_and!; [done|done|]. intros j y r' Hj Hy.
      destruct (decide (j = i)) as [->|]; [rewrite Hr in Hy; simplify_eq; lia|]. eapply Hall; [|done]. lia.
  - exists s. split; [done|]. split; try done.
    rewrite rest_nil in Hr by lia.
    destruct Hmin as [[Hlm He]|(k & r & Hk & Hrk & Hall)]; [left|right].
    + split; [done|]. intros j r Hj Hrj. destruct (decide (j = i)) as [->|]; [congruence|].
      eapply He; [|done]. lia.
    + exists k, r. split_and!; [done|done|]. intros j y r' Hj Hy.
      destruct (decide (j = i)) as [->|]; [congruence|]. eapply Hall; [|done]. lia.
Qed.

(** The state of the outer loop before round [n]; [a] is the array on entry. *)
Record merged (a : list Z) (n : nat) (s : sort_mem) : Prop := {
  mg_nums : nums s = a;
  mg_len : length (snums s) = NTHR * TNUM;
  mg_idx : length (idx s) = NTHR;
  mg_perm : take n (snums s) ++ concat (rests a (idx s)) ≡ₚ a;
  mg_sorted : StronglySorted Z.le (take n (snums s));
  mg_below x y : x ∈ take n (snums s) -> y ∈ concat (rests a (idx s)) -> (x <= y)%Z;
  mg_runs : Forall (StronglySorted Z.le) (rests a (idx s))
}.

Lemma concat_pop (rs : list (list Z)) k x r :
  rs !! k = Some (x :: r) -> concat rs ≡ₚ x :: concat (<[k := r]> rs).
Proof.
  revert k. induction rs as [|l rs IH]; intros [|k] Hk; simplify_eq/=; [done|].
  rewrite (IH k Hk). by rewrite Permutation_middle.
Qed.

Lemma rests_pop a ixs k ix x r :
  ixs !! k = Some ix -> rest a k ix = x :: r -> a !! ix = Some x ->
  <[k := r]> (rests a ixs) = rests a (<[k := ix + 1]> ixs).
Proof.
  intros Hk Hr Hx. apply list_eq. intros j. rewrite rests_lookup.
  pose proof (lookup_lt_Some _ _ _ Hk) as Hlt.
  assert (ix < (k + 1) * TNUM) as Hb.
  { destruct (decide (ix < (k + 1) * TNUM)); [done|]. by rewrite rest_nil in Hr by lia. }
  rewrite (rest_cons _ _ _ _ Hb Hx) in Hr.
  destruct (decide (j = k)) as [->|].
  - rewrite !list_lookup_insert_eq; [by simplify_eq|done|unfold rests; by rewrite length_imap].
  - rewrite !list_lookup_insert_ne by done. apply rests_lookup.
Qed.

Lemma rest_head a i ix x r : rest a i ix = x :: r -> a !! ix = Some x.
Proof.
  unfold rest. intros H. apply (f_equal (fun l => l !! 0)) in H. cbn in H.
  rewrite lookup_take_Some in H. rewrite lookup_drop, Nat.add_0_r in H. by destruct H.
Qed.

(** The least head is below everything that is left. *)
Lemma heads_below (rs : list (list Z)) m :
  Forall (StronglySorted Z.le) rs ->
  (forall j x r, rs !! j = Some (x :: r) -> (m <= x)%Z) ->
  forall y, y ∈ concat rs -> (m <= y)%Z.
Proof.
  intros Hs Hm y (l & Hl & Hy)%list_elem_of_In%in_concat.
  apply list_elem_of_In in Hl, Hy. apply list_elem_of_lookup in Hl as [j Hj].
  destruct l as [|x r]; [by apply not_elem_of_nil in Hy|].
  specialize (Hm j x r Hj). apply (Forall_lookup_1 _ _ _ _ Hs) in Hj.
  inversion Hj as [|? ? _ Hall]; subst. apply elem_of_cons in Hy as [->|Hy]; [done|].
  rewrite Forall_forall in Hall. specialize (Hall y Hy). lia.
Qed.

Lemma StronglySorted_snoc (l : list Z) x :
  StronglySorted Z.le l -> (forall y, y ∈ l -> (y <= x)%Z) -> StronglySorted Z.le (l ++ [x]).
Proof.
  induction 1 as [|y l Hs IH Hall]; intros Hx; cbn; [by repeat constructor|].
  constructor; [apply IH; set_solver|]. apply Forall_app. split; [done|].
  constructor; [apply Hx; by left|constructor].
Qed.

Lemma merge_round_ok a n s :
  n < NTHR * TNUM -> length a = NTHR * TNUM -> Forall (fun x => x < LONG_MAX)%Z a ->
  merged a n s -> exists s', merge_round n s = Ret tt s' /\ merged a (S n) s'.
Proof.
  intros Hn Hlen Hmax [Ha Hsl Hil Hp Hso Hbe Hru].
  set (s1 := SortMem (nums s) (snums s) (idx s) LONG_MAX (minidx s)).
  destruct (for_loop_inv (scanned s1) scan NTHR 0 s1) as (s2 & Hrun & [Hn2 Hs2 Hi2 Hm2]).
  { split; try done. left. split; [done|]. intros j r Hj. lia. }
  { intros k s' Hk. apply scan_ok; cbn; [lia|done|by rewrite Ha|by rewrite Ha]. }
  cbn in Hn2, Hs2, Hi2, Hm2. rewrite Ha in Hm2.
  assert (exists k r, minidx s2 = Some k /\ rests a (idx s) !! k = Some (num s2 :: r) /\
    forall j x r', rests a (idx s) !! j = Some (x :: r') -> (num s2 <= x)%Z)
    as (k & r & Hk & Hrk & Hall).
  { destruct Hm2 as [[_ He]|(k & r & ? & ? & Hall)].
    - exfalso. assert (concat (rests a (idx s)) = []) as Hc.
      { apply concat_nil_Forall, Forall_lookup. intros j r Hj.
        apply (He j r); [|done]. apply lookup_lt_Some in Hj. unfold rests in Hj.
        rewrite length_imap in Hj. lia. }
      rewrite Hc, app_nil_r in Hp. apply Permutation_length in Hp.
      rewrite length_take in Hp. lia.
    - exists k, r. split_and!; [done|done|]. intros j x r' Hj. eapply Hall; [|done].
      apply lookup_lt_Some in Hj. unfold rests in Hj. rewrite length_imap in Hj. lia. }
  pose proof Hrk as Hrk'. rewrite rests_lookup in Hrk'.
  destruct (idx s !! k) as [ix|] eqn:Hix; [|done]. injection Hrk' as Hrk'.
  pose proof (rest_head _ _ _ _ _ Hrk') as Hax.
  pose proof (lookup_lt_Some _ _ _ Hix) as Hkl.
  pose proof (rests_pop _ _ _ _ _ _ Hix Hrk' Hax) as Hpop.
  pose proof (concat_pop _ _ _ _ Hrk) as Hcp. rewrite Hpop in Hcp.
  exists (SortMem a (<[n := num s2]> (snums s)) (<[k := ix + 1]> (idx s)) (num s2) (Some k)).
  split.
  { unfold merge_round. erewrite bind_ret by reflexivity. fold s1.
    erewrite bind_ret by exact Hrun. unfold set_snums, get_minidx, get_idx, set_idx. unix_unfold.
    rewrite Hs2, decide_True by lia. rewrite Hk, Hi2. cbn. rewrite Hix.
    rewrite decide_True by done. by rewrite Hn2, Ha. }
  assert (take (S n) (<[n := num s2]> (snums s)) = take n (snums s) ++ [num s2]) as Htake.
  { rewrite (take_S_r _ _ (num s2)) by (apply list_lookup_insert_eq; lia).
    by rewrite take_insert_ge by lia. }
  assert (num s2 ∈ concat (rests a (idx s))) as Hin by (rewrite Hcp; by left).
  split; cbn [nums snums idx]; try done.
  - by rewrite length_insert.
  - by rewrite length_insert.
  - rewrite Htake, <- app_assoc. cbn. rewrite <- Hcp. done.
  - rewrite Htake. apply StronglySorted_snoc; [done|]. intros y Hy. by apply Hbe.
  - intros x y. rewrite Htake. intros [Hx| ->%list_elem_of_singleton]%elem_of_app Hy.
    + apply Hbe; [done|]. rewrite Hcp. by right.
    + eapply heads_below; [exact Hru|exact Hall|]. rewrite Hcp. by right.
  - rewrite <- Hpop. apply Forall_insert; [done|].
    apply (Forall_lookup_1 _ _ _ _ Hru) in Hrk. by inversion Hrk.
Qed.

(** The start of the outer loop. *)
Definition part (a : list Z) (i : nat) : list Z := take TNUM (drop (i * TNUM) a).
Definition parts_sorted (a : list Z) : Prop :=
  forall i, i < NTHR -> StronglySorted Z.le (part a i).

Lemma init_loop_ok s :
  length (idx s) = NTHR ->
  exists s', for_loop NTHR 0 (fun i => set_idx i (i * TNUM)) s = Ret tt s' /\
    nums s' = nums s /\ snums s' = snums s /\ idx s' = (fun i => i * TNUM) <$> seq 0 NTHR.
Proof.
  intros Hl.
  destruct (for_loop_inv (fun i s' => nums s' = nums s /\ snums s' = snums s /\
      idx s' = ((fun i => i * TNUM) <$> seq 0 i) ++ drop i (idx s)) (fun i => set_idx i (i * TNUM)) NTHR 0 s)
    as (s' & E & Hn & Hs & Hi).
  - done.
  - intros k s' Hk (Hn & Hs & Hi).
    assert (length (idx s') = NTHR) as Hl'.
    { rewrite Hi, length_app, length_fmap, length_seq, length_drop. lia. }
    unfold set_idx. rewrite decide_True by lia. eexists. split; [done|]. cbn [nums snums idx].
    split_and!; [done|done|]. rewrite Hi.
    rewrite insert_app_r_alt by (rewrite length_fmap, length_seq; lia).
    rewrite length_fmap, length_seq, Nat.sub_diag, seq_S, fmap_app, <- app_assoc. f_equal.
    destruct (lookup_lt_is_Some_2 (idx s) k) as [v Hv]; [lia|].
    by rewrite (drop_S _ _ _ Hv).
  - exists s'. split_and!; [done..|]. rewrite Hi, drop_ge, app_nil_r by lia. done.
Qed.

Lemma rests_init a :
  length a = NTHR * TNUM ->
  rests a ((fun i => i * TNUM) <$> seq 0 NTHR) = part a <$> seq 0 NTHR.
Proof.
  intros Hl. apply list_eq. intros i. rewrite rests_lookup, !list_lookup_fmap.
  destruct (seq 0 NTHR !! i) as [j|] eqn:Hj; [|done].
  apply lookup_seq in Hj as [-> Hi]. cbn [fmap option_fmap option_map].
  f_equal. unfold rest, part. rewrite Nat.add_0_l.
  by replace ((i + 1) * TNUM - i * TNUM) with TNUM by lia.
Qed.

Lemma concat_parts (a : list Z) n :
  length a = n * TNUM -> concat (part a <$> seq 0 n) = a.
Proof.
  intros Hl. assert (forall k, k <= n -> concat (part a <$> seq 0 k) = take (k * TNUM) a) as Hk.
  { induction k as [|k IH]; intros Hk; [done|].
    rewrite seq_S, fmap_app, concat_app, IH by lia. cbn. rewrite app_nil_r.
    unfold part. rewrite (Nat.add_comm TNUM). by rewrite <- take_take_drop. }
  rewrite Hk by lia. apply take_ge. lia.
Qed.

(** [merge] sorts: the result is in [snums] and is the ordered permutation
    of [nums]. *)
Lemma merge_ok s :
  length (nums s) = NTHR * TNUM -> length (snums s) = NTHR * TNUM -> length (idx s) = NTHR ->
  parts_sorted (nums s) -> Forall (fun x => x < LONG_MAX)%Z (nums s) ->
  exists s', merge s = Ret tt s' /\ nums s' = nums s /\ snums s' ≡ₚ nums s /\
    StronglySorted Z.le (snums s').
Proof.
  intros Hn Hsn Hid Hps Hmax.
  destruct (init_loop_ok s Hid) as (s1 & E1 & Hn1 & Hs1 & Hi1).
  destruct (for_loop_inv (merged (nums s)) merge_round (NTHR * TNUM) 0 s1) as (s2 & E2 & Hm).
  - split; rewrite ?Hi1, ?Hs1; try done.
    + by rewrite length_fmap, length_seq.
    + rewrite take_0, rests_init, concat_parts by done. done.
    + rewrite take_0. constructor.
    + rewrite take_0. intros x y Hx. by apply not_elem_of_nil in Hx.
    + rewrite rests_init by done. apply Forall_fmap, Forall_seq. intros j Hj. apply Hps. lia.
  - intros k s' Hk. apply merge_round_ok; [lia|done|done].
  - exists s2. destruct Hm as [Ha Hl _ Hp Hso _ _]. rewrite Nat.add_0_l in Hp, Hso.
    rewrite take_ge in Hp, Hso by lia. split_and!; [|done| |done].
    + unfold merge. by rewrite (bind_ret _ _ _ _ _ E1).
    + assert (concat (rests (nums s) (idx s2)) = []) as Hc.
      { apply length_zero_iff_nil. apply Permutation_length in Hp. rewrite length_app in Hp. lia. }
      by rewrite Hc, app_nil_r in Hp.
Qed.

(** An element equal to [LONG_MAX] is never selected: when all the elements
    are, the first round reads [minidx] before it was set. *)
Lemma scan_long_max s i k :
  idx s !! i = Some k -> nums s = replicate (NTHR * TNUM) LONG_MAX -> num s = LONG_MAX ->
  k < NTHR * TNUM -> scan i s = Ret tt s.
Proof.
  intros Hi Hn Hx Hk. unfold scan, get_idx, get_nums. unix_unfold. rewrite Hi.
  case_decide; [|done]. rewrite Hn, lookup_replicate_2 by lia. by rewrite Hx, Z.gtb_ltb, Z.ltb_irrefl.
Qed.

Lemma merge_long_max s :
  NTHR * TNUM <> 0 -> nums s = replicate (NTHR * TNUM) LONG_MAX ->
  length (snums s) = NTHR * TNUM -> length (idx s) = NTHR -> minidx s = None ->
  merge s = Fault.
Proof.
  intros Hpos Hn Hsn Hid Hmi.
  destruct (for_loop_inv (fun i s' => nums s' = nums s /\ snums s' = snums s /\ minidx s' = None /\
      length (idx s') = NTHR /\ forall j v, j < i -> idx s' !! j = Some v -> v = j * TNUM)
      (fun i => set_idx i (i * TNUM)) NTHR 0 s) as (s1 & E1 & Hn1 & Hs1 & Hm1 & Hl1 & Hi1).
  - split_and!; try done. lia.
  - intros k s' Hk (Hn' & Hs' & Hm' & Hl' & Hi'). unfold set_idx. rewrite decide_True by lia.
    eexists. split; [done|]. cbn [nums snums idx minidx]. split_and!; try done; [by rewrite length_insert|].
    intros j v Hj. destruct (decide (j = k)) as [->|].
    + rewrite list_lookup_insert_eq by lia. congruence.
    + rewrite list_lookup_insert_ne by done. apply Hi'. lia.
  - unfold merge. rewrite (bind_ret _ _ _ _ _ E1).
    destruct (NTHR * TNUM) as [|n] eqn:Hnn; [done|]. cbn [for_loop].
    apply bind_fault. unfold merge_round. erewrite bind_ret by reflexivity.
    set (s2 := SortMem (nums s1) (snums s1) (idx s1) LONG_MAX (minidx s1)).
    destruct (for_loop_inv (fun _ s' => s' = s2) scan NTHR 0 s2) as (s3 & E3 & ->); [done| |].
    + intros k s' Hk ->. exists s2. split; [|done].
      destruct (lookup_lt_is_Some_2 (idx s1) k) as [v Hv]; [lia|].
      apply (scan_long_max _ _ v); [done| |done|].
      * cbn. by rewrite Hn1, Hn, Hnn.
      * rewrite (Hi1 k v) by (done || lia). nia.
    + rewrite (bind_ret _ _ _ _ _ E3). erewrite bind_ret by reflexivity.
      unfold set_snums. unix_unfold. cbn. rewrite Hs1, decide_True by lia.
      unfold get_minidx. cbn. by rewrite Hm1.
Qed.

End Merge.

(** Property C10. Given parts that are each sorted and elements
    below [LONG_MAX], [merge] stays inside its arrays, terminates, leaves
    [nums] as it was and fills [snums] with the elements of [nums] in
    ascending order. *)
Theorem merge_sorts nthr tnum s :
  length (nums s) = nthr * tnum -> length (snums s) = nthr * tnum -> length (idx s) = nthr ->
  parts_sorted nthr tnum (nums s) -> Forall (fun x => x < LONG_MAX)%Z (nums s) ->
  exists s', merge nthr tnum s = Ret tt s' /\ nums s' = nums s /\ snums s' ≡ₚ nums s /\
    StronglySorted Z.le (snums s').
Proof. exact (merge_ok nthr tnum s). Qed.

Definition sample_sort : sort_mem := SortMem [2; 5; 1; 9]%Z [0; 0; 0; 0]%Z [7; 7] 0 None.

Lemma merge_sorts_witness :
  exists s', merge 2 2 sample_sort = Ret tt s' /\ nums s' = [2; 5; 1; 9]%Z /\
    snums s' ≡ₚ [2; 5; 1; 9]%Z /\ StronglySorted Z.le (snums s').
Proof.
  apply (merge_sorts 2 2 sample_sort); [done..| |].
  - intros [|[|i]] Hi; [| |lia]; repeat (constructor; try lia).
  - repeat (constructor; [vm_compute; reflexivity|]). constructor.
Defined.

(** The bound on the elements is needed: on an
    array all of whose elements are [LONG_MAX], [merge] reads the variable
    [minidx] before anything was assigned to it. *)
Theorem merge_unset_minidx nthr tnum s :
  nthr * tnum <> 0 -> nums s = replicate (nthr * tnum) LONG_MAX ->
  length (snums s) = nthr * tnum -> length (idx s) = nthr -> minidx s = None ->
  merge nthr tnum s = Fault.
Proof. exact (merge_long_max nthr tnum s). Qed.

Lemma merge_unset_minidx_witness :
  merge 1 2 (SortMem [LONG_MAX; LONG_MAX] [0; 0]%Z [0] 0 None) = Fault.
Proof. by apply (merge_unset_minidx 1 2). Defined.
