(* ===== verification/SortThreads.v ===== *)
(** * pthread/barrier_sort.c: the threads and the barrier

    [main] creates the sorting threads and waits with them at a barrier of
    [NTHR + 1] parties; only then does it merge.  The sorting of one part is
    one step: the parts are disjoint and nobody else reads them before the
    barrier opens. *)

From stdpp Require Import sorting.
From S2P Require Import Prelude Threads BarrierSort.

(** Positions of [thr_fn] and of [main]. *)
Inductive spc :=
| WSort | WWait | WArrived | WDone
| MCreate (i : nat) | MWait | MArrived | MMerge | MDone | MExit
| SFault.

(** Shared state: the arrays, the number of threads created, the barrier's
    count, and the exit status once the process has called [exit]. *)
Record sshared := SShared {
  s_mem : sort_mem; s_started : nat; s_arrived : nat; s_exited : option Z
}.

Section SortThreads.
Context `{QSort} (NTHR TNUM : nat).
(** What [pthread_create] returns for the [i]-th thread. *)
Context (create_err : nat -> Z).

Definition main_step (s : sshared) (t : spc) : list (sshared * spc) :=
  let 'SShared m st ar ex := s in
  match t with
  | MCreate i =>
    if decide (i < NTHR) then
      if decide (create_err i = 0%Z) then [(SShared m (S i) ar ex, MCreate (S i))]
      else [(SShared m st ar (Some (-1)%Z), MExit)]
    else [(s, MWait)]
  | MWait => [(SShared m st (S ar) ex, MArrived)]
  | MArrived => if decide (ar = NTHR + 1) then [(s, MMerge)] else []
  | MMerge =>
    match merge NTHR TNUM m with
    | Ret _ m' => [(SShared m' st ar ex, MDone)]
    | _ => [(s, SFault)]
    end
  | _ => []
  end.

Definition thr_fn_step (k : nat) (s : sshared) (t : spc) : list (sshared * spc) :=
  let 'SShared m st ar ex := s in
  match t with
  | WSort =>
    if decide (k < st) then
      match thr_fn_sort TNUM (k * TNUM) m with
      | Ret _ m' => [(SShared m' st ar ex, WWait)]
      | _ => [(s, SFault)]
      end
    else []
  | WWait => [(SShared m st (S ar) ex, WArrived)]
  | WArrived => if decide (ar = NTHR + 1) then [(s, WDone)] else []
  | _ => []
  end.

(** Thread 0 is [main], thread [k + 1] the [k]-th sorter. *)
Definition sort_succ (i : nat) (s : sshared) (t : spc) : list (sshared * spc) :=
  match s_exited s with
  | Some _ => []
  | None => match i with O => main_step s t | S k => thr_fn_step k s t end
  end.

(** [main] after it has filled [nums]; [snums] is zero. *)
Definition sort_start (a : list Z) (junk : list nat) : config sshared spc :=
  Config (SShared (SortMem a (replicate (NTHR * TNUM) 0%Z) junk 0 None) 0 0 None)
    (MCreate 0 :: replicate NTHR WSort).

Context (a0 : list Z) (junk : list nat).
Hypothesis a0_length : length a0 = NTHR * TNUM.
Hypothesis a0_bound : Forall (fun x => x < LONG_MAX)%Z a0.
Hypothesis junk_length : length junk = NTHR.

Definition arrived (t : spc) : bool :=
  match t with WArrived | WDone | MArrived | MMerge | MDone => true | _ => false end.
Definition is_worker (t : spc) : bool :=
  match t with WSort | WWait | WArrived | WDone => true | _ => false end.

(** The [k]-th part while its thread is at [t]. *)
Definition part_at (t : spc) (c : list Z) : list Z :=
  match t with WSort => c | _ => qsort cmplong c end.

Definition parts0 : list (list Z) := part TNUM a0 <$> seq 0 NTHR.
Definition nums_at (ws : list spc) : list Z := concat (zip_with part_at ws parts0).

(** What holds while the process runs. *)
Record sort_inv (m : sort_mem) (st ar : nat) (mt : spc) (ws : list spc) : Prop := {
  si_len : length ws = NTHR;
  si_workers : Forall (fun t => is_worker t = true) ws;
  si_nums : nums m = nums_at ws;
  si_snums : length (snums m) = NTHR * TNUM;
  si_idx : mt <> MDone -> length (idx m) = NTHR;
  si_arrived : ar = count arrived (mt :: ws);
  si_main : match mt with
    | MCreate i => st = i /\ i <= NTHR
    | MWait | MArrived => st = NTHR
    | MMerge => ar = NTHR + 1
    | MDone => ar = NTHR + 1 /\ snums m ≡ₚ a0 /\ StronglySorted Z.le (snums m)
    | _ => False
    end
}.

Lemma cmplong_le a b : cmp_le cmplong a b <-> (a <= b)%Z.
Proof.
  unfold cmp_le, cmplong. destruct (Z.eqb_spec a b), (Z.ltb_spec a b); lia.
Qed.

Lemma qsort_le l : StronglySorted Z.le (qsort cmplong l).
Proof.
  assert (StronglySorted (cmp_le cmplong) (qsort cmplong l)) as Hs.
  { apply qsort_sorted; intros *; rewrite !cmplong_le; lia. }
  induction Hs as [|x l' Hs IH Hall]; constructor; [done|].
  eapply Forall_impl; [exact Hall|]. intros y. by rewrite cmplong_le.
Qed.

(** *** Arrays as lists of parts of equal length *)

Lemma concat_length (cs : list (list Z)) :
  Forall (fun c => length c = TNUM) cs -> length (concat cs) = length cs * TNUM.
Proof. induction 1 as [|c cs Hc _ IH]; cbn; [done|]. rewrite length_app, IH. lia. Qed.

Lemma concat_split (cs : list (list Z)) k c :
  Forall (fun c => length c = TNUM) cs -> cs !! k = Some c ->
  exists A B, concat cs = A ++ c ++ B /\ length A = k * TNUM /\ length c = TNUM /\
    forall d, concat (<[k := d]> cs) = A ++ d ++ B.
Proof.
  intros Hall Hk. exists (concat (take k cs)), (concat (drop (S k) cs)).
  pose proof (lookup_lt_Some _ _ _ Hk). split_and!.
  - rewrite <- (take_drop_middle _ _ _ Hk) at 1. by rewrite concat_app.
  - rewrite concat_length by (by apply Forall_take). rewrite length_take. lia.
  - by apply (Forall_lookup_1 _ _ _ _ Hall Hk).
  - intros d. rewrite insert_take_drop by done. by rewrite concat_app.
Qed.

Lemma part_concat (cs : list (list Z)) k c :
  Forall (fun c => length c = TNUM) cs -> cs !! k = Some c -> part TNUM (concat cs) k = c.
Proof.
  intros Hall Hk. destruct (concat_split _ _ _ Hall Hk) as (A & B & -> & HA & Hc & _).
  unfold part. rewrite <- HA, drop_app_length, <- Hc. apply take_app_length.
Qed.

Lemma sort_part_concat (cs : list (list Z)) k c :
  Forall (fun c => length c = TNUM) cs -> cs !! k = Some c ->
  sort_part TNUM (k * TNUM) (concat cs) = concat (<[k := qsort cmplong c]> cs).
Proof.
  intros Hall Hk. destruct (concat_split _ _ _ Hall Hk) as (A & B & -> & HA & Hc & ->).
  unfold sort_part. rewrite <- HA, drop_app_length, take_app_length. f_equal.
  rewrite <- Hc, take_app_length. f_equal.
  by rewrite app_assoc, <- length_app, drop_app_length.
Qed.

Lemma parts0_length : Forall (fun c => length c = TNUM) parts0.
Proof.
  apply Forall_fmap, Forall_seq. intros j Hj. cbn. unfold part.
  rewrite length_take, length_drop, a0_length. nia.
Qed.

Lemma part_at_perm t c : part_at t c ≡ₚ c.
Proof. destruct t; cbn; try apply qsort_perm; done. Qed.

Lemma parts_at_length ws :
  Forall (fun c => length c = TNUM) (zip_with part_at ws parts0).
Proof.
  apply Forall_lookup. intros i c (t & c0 & -> & _ & Hc)%lookup_zip_with_Some.
  rewrite (Permutation_length (part_at_perm t c0)).
  exact (Forall_lookup_1 _ _ _ _ parts0_length Hc).
Qed.

Lemma parts_at_lookup ws k t :
  length ws = NTHR -> ws !! k = Some t ->
  zip_with part_at ws parts0 !! k = Some (part_at t (part TNUM a0 k)).
Proof.
  intros Hl Hk. rewrite lookup_zip_with, Hk. cbn.
  unfold parts0. rewrite list_lookup_fmap, lookup_seq_lt; [done|].
  apply lookup_lt_Some in Hk. lia.
Qed.

Lemma nums_at_length ws : length ws = NTHR -> length (nums_at ws) = NTHR * TNUM.
Proof.
  intros Hl. unfold nums_at. rewrite concat_length by apply parts_at_length.
  rewrite length_zip_with. unfold parts0. rewrite length_fmap, length_seq, Hl. f_equal. lia.
Qed.

Lemma nums_at_perm ws : length ws = NTHR -> nums_at ws ≡ₚ a0.
Proof.
  intros Hl. unfold nums_at. trans (concat parts0);
    [|unfold parts0; by rewrite (concat_parts TNUM a0 NTHR a0_length)].
  assert (length ws = length parts0) as Hlen by (unfold parts0; by rewrite length_fmap, length_seq).
  revert Hlen. generalize parts0. clear Hl. induction ws as [|t ws IH]; intros [|c cs] Hlen; try done.
  cbn. rewrite (part_at_perm t c). f_equiv. apply IH. by injection Hlen.
Qed.

Lemma nums_at_move ws k t t' :
  length ws = NTHR -> ws !! k = Some t ->
  part_at t' (part TNUM a0 k) = part_at t (part TNUM a0 k) ->
  nums_at (<[k := t']> ws) = nums_at ws.
Proof.
  intros Hl Hk He. unfold nums_at. f_equal. apply list_eq. intros j.
  destruct (decide (j = k)) as [->|].
  - rewrite (parts_at_lookup ws k t) by done.
    rewrite (parts_at_lookup _ k t'); [by rewrite He|by rewrite length_insert|].
    apply list_lookup_insert_eq. by eapply lookup_lt_Some.
  - by rewrite !lookup_zip_with, list_lookup_insert_ne.
Qed.

Lemma nums_at_sort ws k :
  length ws = NTHR -> ws !! k = Some WSort ->
  sort_part TNUM (k * TNUM) (nums_at ws) = nums_at (<[k := WWait]> ws).
Proof.
  intros Hl Hk. unfold nums_at.
  rewrite (sort_part_concat _ k (part TNUM a0 k)); [|apply parts_at_length|by apply (parts_at_lookup ws k WSort)].
  f_equal. apply list_eq. intros j. destruct (decide (j = k)) as [->|].
  - rewrite (parts_at_lookup _ k WWait).
    + apply list_lookup_insert_eq. apply lookup_lt_is_Some. rewrite (parts_at_lookup ws k WSort) by done. by eexists.
    + by rewrite length_insert.
    + apply list_lookup_insert_eq. by eapply lookup_lt_Some.
  - rewrite list_lookup_insert_ne by done. by rewrite !lookup_zip_with, list_lookup_insert_ne.
Qed.

Lemma nums_at_parts_sorted ws :
  length ws = NTHR -> Forall (fun t => arrived t = true) ws ->
  parts_sorted NTHR TNUM (nums_at ws).
Proof.
  intros Hl Har k Hk. destruct (lookup_lt_is_Some_2 ws k) as [t Ht]; [lia|].
  unfold nums_at. rewrite (part_concat _ k _ (parts_at_length ws) (parts_at_lookup ws k t Hl Ht)).
  apply (Forall_lookup_1 _ _ _ _ Har) in Ht. destruct t; try done; apply qsort_le.
Qed.

(** *** The steps keep the invariant *)

Definition running (c : config sshared spc) : Prop :=
  exists m st ar mt ws, c = Config (SShared m st ar None) (mt :: ws) /\ sort_inv m st ar mt ws.
Definition stopped (c : config sshared spc) : Prop :=
  exists m st ar ws i, c = Config (SShared m st ar (Some (-1)%Z)) (MExit :: ws) /\
    i < NTHR /\ create_err i <> 0%Z /\ Forall (fun t => is_worker t = true) ws.

Lemma count_mt mt mt' ws :
  count arrived (mt' :: ws) + Nat.b2n (arrived mt) = count arrived (mt :: ws) + Nat.b2n (arrived mt').
Proof. cbn. lia. Qed.

Lemma all_arrived mt ws ar :
  ar = count arrived (mt :: ws) -> ar = NTHR + 1 -> length ws = NTHR ->
  Forall (fun t => arrived t = true) ws.
Proof.
  intros Hc Ha Hl. apply count_all. pose proof (count_le arrived ws).
  cbn in Hc. destruct (arrived mt); cbn in Hc; lia.
Qed.

Lemma merge_at m ws ar :
  length ws = NTHR -> nums m = nums_at ws -> length (snums m) = NTHR * TNUM ->
  length (idx m) = NTHR -> Forall (fun t => arrived t = true) ws -> ar = NTHR + 1 ->
  exists m', merge NTHR TNUM m = Ret tt m' /\ nums m' = nums_at ws /\
    length (snums m') = NTHR * TNUM /\ snums m' ≡ₚ a0 /\ StronglySorted Z.le (snums m').
Proof.
  intros Hl Hn Hs Hi Har _.
  destruct (merge_ok NTHR TNUM m) as (m' & E & Hn' & Hp & Hso); try done.
  - rewrite Hn. by apply nums_at_length.
  - rewrite Hn. by apply nums_at_parts_sorted.
  - rewrite Hn. by rewrite nums_at_perm.
  - exists m'. split_and!; [done|congruence| |by rewrite Hp, Hn, nums_at_perm|done].
    rewrite (Permutation_length Hp), Hn. by apply nums_at_length.
Qed.

Lemma main_step_inv m st ar mt ws x :
  sort_inv m st ar mt ws -> x ∈ main_step (SShared m st ar None) mt ->
  running (Config x.1 (x.2 :: ws)) \/ stopped (Config x.1 (x.2 :: ws)).
Proof.
  intros [Hl Hw Hn Hs Hi Ha Hm] Hx. apply list_elem_of_In in Hx.
  destruct mt; cbn in Hx; try done.
  - destruct Hm as [-> Hle]. repeat case_decide; cbn in Hx; destruct Hx as [<-|[]].
    + left. do 5 eexists. split; [done|]. split; try done; first [by intros _; apply Hi|cbn in *; lia].
    + right. do 4 eexists. exists i. done.
    + left. do 5 eexists. split; [done|]. split; try done; first [by intros _; apply Hi|cbn in *; lia].
  - destruct Hx as [<-|[]]. left. do 5 eexists. split; [done|]. split; try done; first [by intros _; apply Hi|cbn in *; lia].
  - case_decide; [|done]. destruct Hx as [<-|[]]. left. do 5 eexists. split; [done|]. split; try done; first [by intros _; apply Hi|cbn in *; lia].
  - destruct (merge_at m ws ar) as (m' & E & Hn' & Hs' & Hp & Hso); try done.
    { by apply Hi. }
    { by eapply all_arrived. }
    rewrite E in Hx. destruct Hx as [<-|[]]. left. do 5 eexists. split; [done|]. by split.
Qed.

Lemma worker_step_inv m st ar mt ws k t x :
  sort_inv m st ar mt ws -> ws !! k = Some t -> x ∈ thr_fn_step k (SShared m st ar None) t ->
  running (Config x.1 (mt :: <[k := x.2]> ws)).
Proof.
  intros [Hl Hw Hn Hs Hi Ha Hm] Hk Hx. apply list_elem_of_In in Hx.
  pose proof (lookup_lt_Some _ _ _ Hk) as Hlt.
  assert (forall t', count arrived (mt :: <[k := t']> ws) + Nat.b2n (arrived t) =
    count arrived (mt :: ws) + Nat.b2n (arrived t')) as Hc.
  { intros t'. cbn. pose proof (count_insert arrived ws k t t' Hk). lia. }
  assert (ar = NTHR + 1 -> arrived t = true) as Hall.
  { intros E. pose proof (all_arrived _ _ _ Ha E Hl) as HF. exact (Forall_lookup_1 _ _ _ _ HF Hk). }
  assert (arrived t = false -> ar <> NTHR + 1) as Hnot by (intros E1 E2; rewrite Hall in E1; done).
  destruct t; cbn in Hx; try done.
  - case_decide as Hst; [|done]. unfold thr_fn_sort in Hx.
    rewrite decide_True in Hx by (rewrite Hn, nums_at_length by done; nia).
    destruct Hx as [<-|[]]. do 5 eexists. split; [done|].
    split; cbn [nums snums idx fst snd]; try done.
    + by rewrite length_insert.
    + by apply Forall_insert.
    + rewrite Hn. by apply nums_at_sort.
    + specialize (Hc WWait). cbn [arrived Nat.b2n] in Hc. lia.
  - destruct Hx as [<-|[]]. do 5 eexists. split; [done|].
    split; cbn [fst snd]; try done.
    + by rewrite length_insert.
    + by apply Forall_insert.
    + rewrite Hn. symmetry. by apply (nums_at_move ws k WWait).
    + specialize (Hc WArrived). cbn [arrived Nat.b2n] in Hc. lia.
    + specialize (Hnot eq_refl). destruct mt; try done; exfalso; apply Hnot; apply Hm.
  - case_decide; [|done]. destruct Hx as [<-|[]]. do 5 eexists. split; [done|].
    split; cbn [fst snd]; try done.
    + by rewrite length_insert.
    + by apply Forall_insert.
    + rewrite Hn. symmetry. by apply (nums_at_move ws k WArrived).
    + specialize (Hc WDone). cbn [arrived Nat.b2n] in Hc. lia.
Qed.

Lemma sort_step c c' :
  running c \/ stopped c -> step sort_succ c c' -> running c /\ (running c' \/ stopped c').
Proof.
  intros [Hr|(m & st & ar & ws & k & -> & _)] Hs; cycle 1.
  { inversion Hs as [i s ls t s' t' Hi Hx]; subst. cbn in Hx. by apply not_elem_of_nil in Hx. }
  split; [done|]. destruct Hr as (m & st & ar & mt & ws & -> & Hinv).
  inversion Hs as [i s ls t s' t' Hi Hx]; subst. cbn in Hx. destruct i as [|k]; cbn in Hi.
  - simplify_eq. by apply (main_step_inv m st ar t ws (s', t')).
  - left. by apply (worker_step_inv m st ar mt ws k t (s', t')).
Qed.

Lemma sort_start_running : running (sort_start a0 junk).
Proof.
  do 5 eexists. split; [done|]. split; cbn; try done.
  - by rewrite length_replicate.
  - by apply Forall_replicate.
  - unfold nums_at. assert (zip_with part_at (replicate NTHR WSort) parts0 = parts0) as ->.
    { assert (length parts0 = NTHR) as <- by (unfold parts0; by rewrite length_fmap, length_seq).
      induction parts0 as [|c cs IH]; cbn; [done|]. by rewrite IH. }
    symmetry. by apply concat_parts.
  - by rewrite length_replicate.
  - assert (forall n, count arrived (replicate n WSort) = 0) as -> by (by induction n). done.
  - lia.
Qed.

Lemma sort_reachable c :
  reachable sort_succ (sort_start a0 junk) c -> running c \/ stopped c.
Proof.
  apply (reachable_inv _ (fun c => running c \/ stopped c)); [left; exact sort_start_running|].
  intros c1 c2 H1 H2. by apply (sort_step c1 c2).
Qed.

(** *** Every run ends *)

Definition weight (t : spc) : nat :=
  match t with
  | WSort => 3 | WWait => 2 | WArrived => 1 | WDone => 0
  | MCreate i => (NTHR - i) + 4 | MWait => 3 | MArrived => 2 | MMerge => 1
  | _ => 0
  end.

Lemma succ_weight i s t x : x ∈ sort_succ i s t -> weight x.2 < weight t.
Proof.
  intros Hx%list_elem_of_In. destruct s as [m st ar [e|]]; [done|]. unfold sort_succ in Hx. cbn in Hx.
  destruct i as [|k], t; cbn in Hx; try done.
  all: repeat first [case_decide | destruct (merge _ _ _) | destruct (thr_fn_sort _ _ _)]; cbn in Hx;
    try done; destruct Hx as [<-|[]]; cbn; lia.
Qed.

Lemma step_weight c c' :
  step sort_succ c c' -> total weight (pool c') < total weight (pool c).
Proof.
  intros Hs. inversion Hs as [i s ls t s' t' Hi Hx]; subst. cbn.
  pose proof (total_insert weight ls i t t' Hi). pose proof (succ_weight _ _ _ _ Hx). cbn in *. lia.
Qed.

Lemma succ_step i s ls t :
  ls !! i = Some t -> sort_succ i s t <> [] -> exists c', step sort_succ (Config s ls) c'.
Proof.
  intros Hi Hne. destruct (sort_succ i s t) as [|[s' t'] xs] eqn:E; [done|].
  eexists. eapply step_thread; [exact Hi|]. rewrite E. by left.
Qed.

Lemma progress_at_barrier m st ar ws :
  sort_inv m st ar MArrived ws -> exists c', step sort_succ (Config (SShared m st ar None) (MArrived :: ws)) c'.
Proof.
  intros [Hl Hw Hn Hs Hi Ha Hm]. destruct (decide (ar = NTHR + 1)) as [E|E].
  { apply (succ_step 0 _ _ MArrived); [done|]. cbn. by rewrite decide_True. }
  destruct (count_missing arrived ws) as (k & t & Hk & Ht).
  { pose proof (count_le arrived ws). cbn in Ha. lia. }
  pose proof (lookup_lt_Some _ _ _ Hk) as Hlt.
  pose proof (Forall_lookup_1 _ _ _ _ Hw Hk) as Hwk.
  apply (succ_step (S k) _ _ t); [done|].
  destruct t; try done; cbn. rewrite decide_True by lia.
  destruct (thr_fn_sort _ _ _); done.
Qed.

Lemma sort_progress c :
  (forall i, i < NTHR -> create_err i = 0%Z) -> running c ->
  pool c !! 0 = Some MDone \/ exists c', step sort_succ c c'.
Proof.
  intros Hce (m & st & ar & mt & ws & -> & Hinv). pose proof (si_main _ _ _ _ _ Hinv) as Hm.
  destruct mt; try done; try (by left); right; try (by apply progress_at_barrier).
  - apply (succ_step 0 _ _ (MCreate i)); [done|]. cbn. case_decide; [|done].
    by rewrite decide_True by auto.
  - by apply (succ_step 0 _ _ MWait).
  - apply (succ_step 0 _ _ MMerge); [done|]. cbn. by destruct (merge _ _ _).
Qed.

(** The result in [snums] when [main] has ended. *)
Definition sorted_result (c : config sshared spc) : Prop :=
  pool c !! 0 = Some MDone /\ snums (s_mem (shared c)) = qsort cmplong a0.

Lemma running_result c : running c -> pool c !! 0 = Some MDone -> sorted_result c.
Proof.
  intros (m & st & ar & mt & ws & -> & Hinv) Hd. split; [done|]. cbn in *. simplify_eq.
  destruct (si_main _ _ _ _ _ Hinv) as (_ & Hp & Hso).
  eapply (StronglySorted_unique Z.le); [done|apply qsort_le|]. by rewrite qsort_perm.
Qed.

Lemma no_fault_worker ws : Forall (fun t => is_worker t = true) ws -> SFault ∉ ws.
Proof. rewrite Forall_forall. intros Hw Hin. by specialize (Hw _ Hin). Qed.

(** Property C11. In every interleaving, no thread indexes
    outside the arrays or uses an unset variable, and when [main] has ended
    [snums] holds exactly what [norm_qsort.c] computes with one [qsort] over
    the whole array: the barrier keeps [merge] from running before all the
    parts are sorted.  If a [pthread_create] fails the process exits with
    -1 and nothing is merged. *)
Theorem barrier_sort_safe c :
  reachable sort_succ (sort_start a0 junk) c ->
  (SFault ∉ pool c) /\
  (pool c !! 0 = Some MDone -> snums (s_mem (shared c)) = qsort cmplong a0) /\
  (s_exited (shared c) <> None -> s_exited (shared c) = Some (-1)%Z /\ pool c !! 0 = Some MExit).
Proof.
  intros [Hr|Hst]%sort_reachable.
  - pose proof Hr as (m & st & ar & mt & ws & -> & Hinv).
    split_and!; [|by apply running_result|done]. intros Hin. apply elem_of_cons in Hin as [<-|Hin].
    + exact (si_main _ _ _ _ _ Hinv).
    + by apply (no_fault_worker ws), Hin; apply (si_workers _ _ _ _ _ Hinv).
  - destruct Hst as (m & st & ar & ws & i & -> & _ & _ & Hw). split_and!; [|done|done].
    intros Hin. apply elem_of_cons in Hin as [|Hin]; [done|]. by apply (no_fault_worker ws Hw).
Qed.

(** When every thread can be created, every schedule leads, after finitely
    many steps and without a deadlock at the barrier, to the end of [main]
    with the sorted array in [snums]. *)
Lemma sort_inevitable :
  (forall i, i < NTHR -> create_err i = 0%Z) ->
  inevitable sort_succ sorted_result (sort_start a0 junk).
Proof.
  intros Hce. apply (inevitable_measure _ running _ (fun c => total weight (pool c))).
  - intros c c' Hr Hs. destruct (sort_step c c' (or_introl Hr) Hs) as [_ [?|Hst]]; [done|].
    destruct Hst as (? & ? & ? & ? & i & _ & Hi & He & _). by destruct He; apply Hce.
  - intros c Hr. destruct (sort_progress c Hce Hr); [left; by apply running_result|by right].
  - intros c c' _ Hs. by apply step_weight.
  - exact sort_start_running.
Qed.

End SortThreads.

(** A [qsort] that keeps its promise. *)
#[local] Instance cmp_le_dec cmp : RelDecision (cmp_le cmp).
Proof. intros a b. unfold cmp_le. apply _. Defined.

Definition merge_qsort : QSort.
Proof.
  refine {| qsort cmp l := merge_sort (cmp_le cmp) l |}.
  - intros. apply merge_sort_Permutation.
  - intros cmp l Htot Htr. apply StronglySorted_merge_sort; [exact Htr|exact Htot].
Defined.

(** The sorters overtake each other; [main] ends last. *)
Definition sort_sched : list (nat * nat) :=
  [(0, 0); (0, 0); (2, 0); (2, 0); (0, 0); (0, 0); (1, 0); (1, 0); (0, 0); (2, 0); (0, 0)].

Lemma barrier_sort_safe_witness :
  exists c, run (sort_succ (H := merge_qsort) 2 2 (fun _ => 0%Z)) sort_sched
      (sort_start 2 2 [3; 1; 2; 0]%Z [9; 9]) = Some c /\
    pool c !! 0 = Some MDone /\ snums (s_mem (shared c)) = qsort (QSort := merge_qsort) cmplong [3; 1; 2; 0]%Z.
Proof.
  destruct (run _ sort_sched _) as [c|] eqn:E.
  - exists c. assert (pool c !! 0 = Some MDone) as Hd.
    { rewrite (run_observe _ (fun c => pool c !! 0) _ _ _ E). vm_compute. reflexivity. }
    split_and!; [done|done|].
    eapply (barrier_sort_safe (H := merge_qsort) 2 2 (fun _ => 0%Z) [3; 1; 2; 0]%Z [9; 9]);
      [done| |done|by eapply run_reachable|done].
    repeat (constructor; [vm_compute; reflexivity|]). constructor.
  - exfalso. vm_compute in E. discriminate.
Defined.

(** Property C2. The program with its own constants: whatever
    [random()] delivers in its documented range, when the eight threads can
    be created every schedule ends with [snums] equal to the array
    [norm_qsort.c] computes from the same numbers. *)
Theorem barrier_sort_main `{QSort} (random : nat -> Z) junk :
  (forall i, 0 <= random i < 2 ^ 31)%Z -> length junk = NTHR ->
  inevitable (sort_succ NTHR TNUM (fun _ => 0%Z))
    (fun c => snums (s_mem (shared c)) = norm_qsort (fill random NUMNUM))
    (sort_start NTHR TNUM (fill random NUMNUM) junk).
Proof.
  intros Hr Hj. eapply inevitable_weaken; [|apply (sort_inevitable NTHR TNUM _ (fill random NUMNUM) junk)].
  - intros c [_ Hc]. exact Hc.
  - unfold fill. rewrite length_fmap, length_seq. unfold NUMNUM, NTHR, TNUM.
    change (8000000 / 8)%Z with 1000000%Z. lia.
  - unfold fill. apply Forall_fmap, Forall_forall. intros i _. cbn.
    specialize (Hr i). unfold LONG_MAX. lia.
  - done.
  - done.
Qed.

Lemma barrier_sort_main_witness :
  inevitable (sort_succ (H := merge_qsort) NTHR TNUM (fun _ => 0%Z))
    (fun c => snums (s_mem (shared c)) = norm_qsort (H := merge_qsort) (fill (fun i => (Z.of_nat i) mod 1000)%Z NUMNUM))
    (sort_start NTHR TNUM (fill (fun i => (Z.of_nat i) mod 1000)%Z NUMNUM) (replicate NTHR 0)).
Proof.
  apply (barrier_sort_main (H := merge_qsort)); [|reflexivity].
  intros i. pose proof (Z.mod_pos_bound (Z.of_nat i) 1000 ltac:(lia)). lia.
Defined.
