(* ===== verification/RefCount.v ===== *)
(** * pthread/pthread_mutex.c: reference-counted objects

    [foo_alloc], [foo_hold] and [foo_rele] manage a reference count under the
    object's own mutex; the last release unlocks, destroys the mutex and
    frees the object.  The mutex lives in the object it protects, so a thread
    that uses the object without owning a reference touches freed memory.
    This file models the three functions, the threads of [main] interleaved
    between any two statements that touch shared memory, and the discipline
    under which the scheme is safe. *)

From S2P Require Import Prelude Threads.

Definition floc : Type := positive.

(** [struct foo]. *)
Record foo := Foo { f_count : Z; f_lock : mutex; f_id : Z }.

(** The live objects and what was printed. *)
Record rmem := RMem { r_heap : gmap floc foo; r_out : string }.

Definition f_load (p : floc) : prog rmem foo :=
  h ← gets r_heap ; need (h !! p).
Definition f_store (p : floc) (f : foo) : prog rmem unit :=
  f_load p ;; modify (fun m => RMem (<[p := f]> (r_heap m)) (r_out m)).
Definition f_printf (s : string) : prog rmem unit :=
  modify (fun m => RMem (r_heap m) (r_out m +:+ s)).
(** [free(fp)]. *)
Definition f_free (p : floc) : prog rmem unit :=
  f_load p ;; modify (fun m => RMem (delete p (r_heap m)) (r_out m)).

(** [pthread_mutex_lock], [_unlock] and [_destroy] on [&fp->f_lock] by thread
    [i].  Locking a held mutex waits; unlocking a mutex of another thread and
    destroying a held one are undefined. *)
Definition foo_mutex_lock (i : nat) (p : floc) : prog rmem unit :=
  f ← f_load p ;
  match mutex_lock i (f_lock f) with
  | Some k => f_store p (Foo (f_count f) k (f_id f))
  | None => c_block
  end.
Definition foo_mutex_unlock (i : nat) (p : floc) : prog rmem unit :=
  f ← f_load p ;
  if decide (f_lock f = Some i) then f_store p (Foo (f_count f) (mutex_unlock i (f_lock f)) (f_id f))
  else c_fault.
Definition foo_mutex_destroy (p : floc) : prog rmem unit :=
  f ← f_load p ; if decide (f_lock f = None) then mret tt else c_fault.

(** [foo_alloc(id)], with the results of [malloc] and of
    [pthread_mutex_init]. *)
Definition foo_alloc (mallocd : option floc) (init_err : Z) (id : Z) : prog rmem (option floc) :=
  match mallocd with
  | None => mret None
  | Some fp =>
    modify (fun m => RMem (<[fp := Foo 1 None 0]> (r_heap m)) (r_out m)) ;;
    if decide (init_err ≠ 0%Z) then f_free fp ;; mret None
    else f ← f_load fp ; f_store fp (Foo (f_count f) (f_lock f) id) ;; mret (Some fp)
  end.

(** Between [lock] and [unlock] of [foo_hold]. *)
Definition hold_body (p : floc) : prog rmem unit :=
  f ← f_load p ;
  f_printf ("[foo] id: " +:+ pretty (f_id f) +:+ ", count: " +:+ pretty (f_count f) +:+ nl) ;;
  n ← need (int_add (f_count f) 1) ;
  f_store p (Foo n (f_lock f) (f_id f)).

(** [--fp->f_count == 0] and the message, between [lock] and [unlock] of
    [foo_rele]. *)
Definition rele_body (p : floc) : prog rmem bool :=
  f ← f_load p ;
  n ← need (int_add (f_count f) (-1)) ;
  f_store p (Foo n (f_lock f) (f_id f)) ;;
  if decide (n = 0%Z) then
    f_printf ("Deinitialize foo (id :" +:+ pretty (f_id f) +:+ ")" +:+ nl) ;; mret true
  else mret false.

Definition foo_hold (i : nat) (p : floc) : prog rmem unit :=
  foo_mutex_lock i p ;; hold_body p ;; foo_mutex_unlock i p.

Definition foo_rele (i : nat) (p : floc) : prog rmem unit :=
  foo_mutex_lock i p ;; z ← rele_body p ;
  if z : bool then foo_mutex_unlock i p ;; foo_mutex_destroy p ;; f_free p
  else foo_mutex_unlock i p.

(** ** Threads

    A thread's remaining calls, and where it stands inside the current one. *)
Inductive call := Hold (p : floc) | Rele (p : floc).
Inductive stage :=
| Ready
| HoldBody (p : floc) | HoldUnlock (p : floc)
| ReleBody (p : floc) | ReleUnlock (p : floc)
| ZeroUnlock (p : floc) | ZeroFree (p : floc)
| Bad.
Record thread := Thread { t_stage : stage; t_todo : list call }.

Definition rgoto {A} : rmem -> outcome rmem A -> (A -> thread) -> list (rmem * thread) :=
  jump (Thread Bad []).

Definition foo_succ (i : nat) (m : rmem) (t : thread) : list (rmem * thread) :=
  let todo := t_todo t in
  match t_stage t with
  | Ready =>
    match todo with
    | [] => []
    | Hold p :: rest => rgoto m (foo_mutex_lock i p m) (fun _ => Thread (HoldBody p) rest)
    | Rele p :: rest => rgoto m (foo_mutex_lock i p m) (fun _ => Thread (ReleBody p) rest)
    end
  | HoldBody p => rgoto m (hold_body p m) (fun _ => Thread (HoldUnlock p) todo)
  | HoldUnlock p => rgoto m (foo_mutex_unlock i p m) (fun _ => Thread Ready todo)
  | ReleBody p =>
    rgoto m (rele_body p m) (fun z : bool => Thread (if z then ZeroUnlock p else ReleUnlock p) todo)
  | ReleUnlock p => rgoto m (foo_mutex_unlock i p m) (fun _ => Thread Ready todo)
  | ZeroUnlock p => rgoto m (foo_mutex_unlock i p m) (fun _ => Thread (ZeroFree p) todo)
  | ZeroFree p => rgoto m ((foo_mutex_destroy p ;; f_free p) m) (fun _ => Thread Ready todo)
  | Bad => []
  end.

(** [thr_fn1] and [thr_fn2] on [foo_val1] and [foo_val2]. *)
Definition thr_fn1_calls (v1 v2 : floc) : list call :=
  replicate 20 (Hold v1) ++ replicate 22 (Hold v2) ++
  replicate 20 (Rele v1) ++ replicate 22 (Rele v2).
Definition thr_fn2_calls (v1 v2 : floc) : list call :=
  replicate 20 (Hold v1) ++ replicate 22 (Hold v2) ++
  replicate 21 (Rele v1) ++ replicate 23 (Rele v2).

Definition foo_pool (progs : list (list call)) : list thread := Thread Ready <$> progs.

(** [main] up to the thread creations, where its allocations succeed. *)
Definition foo_main_mem : option rmem :=
  match (v1 ← foo_alloc (Some 1%positive) 0 1 ; v2 ← foo_alloc (Some 2%positive) 0 2 ;
         mret (v1, v2)) (RMem ∅ "") with
  | Ret (Some _, Some _) m => Some m
  | _ => None
  end.

(** ** The discipline

    The references a thread's remaining calls give back, less those they
    take: what it must own now. *)
Definition call_loc (c : call) : floc := match c with Hold p | Rele p => p end.
Definition call_credit (p : floc) (c : call) : Z :=
  match c with
  | Hold q => if decide (q = p) then -1 else 0
  | Rele q => if decide (q = p) then 1 else 0
  end.
Definition credit (p : floc) (l : list call) : Z := ztotal (call_credit p) l.

(** A call on an object needs a reference to it. *)
Fixpoint disciplined (l : list call) : Prop :=
  match l with
  | [] => True
  | c :: rest => (1 <= credit (call_loc c) l)%Z /\ disciplined rest
  end.

#[export] Instance disciplined_dec l : Decision (disciplined l).
Proof. induction l; cbn; apply _. Defined.

Lemma disciplined_credit p l : disciplined l -> (0 <= credit p l)%Z.
Proof.
  unfold credit. induction l as [|c l IH]; cbn; [lia|]. intros [H1 H2]. specialize (IH H2).
  destruct c as [q|q]; cbn in *; destruct (decide (q = p)) as [->|]; try lia;
    rewrite decide_True in H1 by done; unfold credit in *; cbn in *; lia.
Qed.

Lemma credit_length p l : (credit p l <= Z.of_nat (length l))%Z.
Proof.
  unfold credit. induction l as [|[q|q] l IH]; cbn -[Z.of_nat]; try lia; case_decide; lia.
Qed.

(** The calls whose effect on the count is still to come. *)
Definition pending (t : thread) : list call :=
  match t_stage t with
  | HoldBody p => Hold p :: t_todo t
  | ReleBody p => Rele p :: t_todo t
  | _ => t_todo t
  end.
(** The object whose mutex the thread holds, and the one it is about to free. *)
Definition holding (t : thread) : option floc :=
  match t_stage t with
  | HoldBody p | HoldUnlock p | ReleBody p | ReleUnlock p | ZeroUnlock p => Some p
  | _ => None
  end.
Definition zeroing (t : thread) : option floc :=
  match t_stage t with ZeroUnlock p | ZeroFree p => Some p | _ => None end.

Definition tokens (p : floc) (t : thread) : Z := credit p (pending t).

(** What holds of the object at [p]: its count is the number of references
    the threads own, its mutex says who is inside, and a thread that brought
    the count to zero is alone with it until it has freed it. *)
Record live (p : floc) (f : foo) (ts : list thread) : Prop := {
  live_count : f_count f = ztotal (tokens p) ts;
  live_owner : forall i, f_lock f = Some i -> exists t, ts !! i = Some t /\ holding t = Some p;
  live_holder : forall i t, ts !! i = Some t -> holding t = Some p -> f_lock f = Some i;
  live_zero : forall i t, ts !! i = Some t -> zeroing t = Some p ->
    f_count f = 0%Z /\ forall j u, ts !! j = Some u -> holding u = Some p \/ zeroing u = Some p -> j = i;
  live_freed : f_count f = 0%Z -> exists i t, ts !! i = Some t /\ zeroing t = Some p
}.
Definition dead (p : floc) (ts : list thread) : Prop :=
  forall i t, ts !! i = Some t -> tokens p t = 0%Z /\ holding t <> Some p /\ zeroing t <> Some p.

Definition thread_ok (t : thread) : Prop := t_stage t <> Bad /\ disciplined (pending t).
Definition obj_inv (m : rmem) (ts : list thread) (p : floc) : Prop :=
  match r_heap m !! p with Some f => live p f ts | None => dead p ts end.

Record foo_inv (c : config rmem thread) : Prop := {
  inv_threads : Forall thread_ok (pool c);
  inv_objs : forall p, obj_inv (shared c) (pool c) p;
  inv_bound : (Z.of_nat (total (fun t => length (pending t)) (pool c)) <= INT_MAX)%Z
}.

(** A step of thread [i] does not concern the objects it does not name. *)
Lemma live_frame q f ts i t t' :
  ts !! i = Some t -> tokens q t' = tokens q t ->
  (holding t' = Some q <-> holding t = Some q) ->
  (zeroing t' = Some q <-> zeroing t = Some q) ->
  live q f ts -> live q f (<[i := t']> ts).
Proof.
  intros Hi Htok Hh Hz [L1 L2 L3 L4 L5].
  assert (Hlen := lookup_lt_Some _ _ _ Hi).
  assert (Hlk : forall j u, <[i := t']> ts !! j = Some u ->
    exists u0, ts !! j = Some u0 /\ (holding u = Some q <-> holding u0 = Some q) /\
               (zeroing u = Some q <-> zeroing u0 = Some q)).
  { intros j u Hj. destruct (decide (i = j)) as [<-|Hne].
    - rewrite list_lookup_insert_eq in Hj by done. simplify_eq. by exists t.
    - rewrite list_lookup_insert_ne in Hj by done. by exists u. }
  assert (Hlk' : forall j u0, ts !! j = Some u0 ->
    exists u, <[i := t']> ts !! j = Some u /\ (holding u = Some q <-> holding u0 = Some q) /\
               (zeroing u = Some q <-> zeroing u0 = Some q)).
  { intros j u Hj. destruct (decide (i = j)) as [<-|Hne].
    - rewrite list_lookup_insert_eq by done. simplify_eq. by exists t'.
    - rewrite list_lookup_insert_ne by done. by exists u. }
  split.
  - rewrite (ztotal_insert _ _ _ _ _ Hi), Htok, L1. lia.
  - intros j Hj. destruct (L2 j Hj) as (u0 & Hu0 & ?).
    destruct (Hlk' j u0 Hu0) as (u & ? & ? & ?). exists u. naive_solver.
  - intros j u Hj ?. destruct (Hlk j u Hj) as (u0 & ? & ? & ?). naive_solver.
  - intros j u Hj ?. destruct (Hlk j u Hj) as (u0 & Hu0 & ? & ?).
    destruct (L4 j u0 Hu0 ltac:(naive_solver)) as [? Huniq]. split; [done|].
    intros k v Hk ?. destruct (Hlk k v Hk) as (v0 & ? & ? & ?).
    apply (Huniq k v0); naive_solver.
  - intros H0. destruct (L5 H0) as (j & u0 & Hj & ?).
    destruct (Hlk' j u0 Hj) as (u & ? & ? & ?). exists j, u. naive_solver.
Qed.

Lemma dead_frame q ts i t t' :
  ts !! i = Some t -> tokens q t' = tokens q t ->
  (holding t' = Some q <-> holding t = Some q) ->
  (zeroing t' = Some q <-> zeroing t = Some q) ->
  dead q ts -> dead q (<[i := t']> ts).
Proof.
  intros Hi Htok Hh Hz Hd j u Hj. destruct (decide (i = j)) as [<-|Hne].
  - rewrite list_lookup_insert_eq in Hj by (by eapply lookup_lt_Some). simplify_eq.
    destruct (Hd i t Hi) as (? & ? & ?). rewrite Htok. naive_solver.
  - rewrite list_lookup_insert_ne in Hj by done. by apply (Hd j).
Qed.

(** A thread that holds the mutex, is freeing the object, or takes the free
    mutex with a reference in hand is alone with the object. *)
Definition alone (p : floc) (ts : list thread) (i : nat) : Prop :=
  forall j u, j <> i -> ts !! j = Some u -> holding u <> Some p /\ zeroing u <> Some p.

Lemma tokens_nonneg ts p t : Forall thread_ok ts -> t ∈ ts -> (0 <= tokens p t)%Z.
Proof.
  rewrite Forall_forall. intros Hall Ht. apply disciplined_credit. by apply Hall.
Qed.

Lemma live_tokens p f ts i t :
  live p f ts -> Forall thread_ok ts -> ts !! i = Some t -> (tokens p t <= f_count f)%Z.
Proof.
  intros L Hok Hi. rewrite (live_count _ _ _ L). eapply ztotal_lookup; [|done].
  intros u Hu. by eapply tokens_nonneg.
Qed.

Lemma live_alone p f ts i t :
  live p f ts -> Forall thread_ok ts -> ts !! i = Some t ->
  holding t = Some p \/ zeroing t = Some p \/ (f_lock f = None /\ (1 <= tokens p t)%Z) ->
  alone p ts i.
Proof.
  intros L Hok Hi Ht j u Hj Hu. pose proof (live_tokens _ _ _ _ _ L Hok Hi).
  split; intros Hp.
  - destruct Ht as [Ht|[Ht|[Ht _]]].
    + apply Hj. pose proof (live_holder _ _ _ L _ _ Hi Ht).
      pose proof (live_holder _ _ _ L _ _ Hu Hp). congruence.
    + destruct (live_zero _ _ _ L _ _ Hi Ht) as [_ Hun]. apply Hj, (Hun j u Hu). by left.
    + pose proof (live_holder _ _ _ L _ _ Hu Hp). congruence.
  - destruct (live_zero _ _ _ L _ _ Hu Hp) as [H0 Hun].
    destruct Ht as [Ht|[Ht|[_ Ht]]].
    + apply Hj. symmetry. apply (Hun i t Hi). by left.
    + apply Hj. symmetry. apply (Hun i t Hi). by right.
    + lia.
Qed.

(** A step of a thread that is alone with the object. *)
Lemma live_update p f f' ts i t t' :
  live p f ts -> ts !! i = Some t -> alone p ts i ->
  f_count f' = (f_count f - tokens p t + tokens p t')%Z ->
  f_lock f' = (if decide (holding t' = Some p) then Some i else None) ->
  (f_count f' = 0%Z <-> zeroing t' = Some p) ->
  live p f' (<[i := t']> ts).
Proof.
  intros L Hi Ha Hc Hl Hz. assert (Hlen := lookup_lt_Some _ _ _ Hi).
  assert (Hlk : forall j u, <[i := t']> ts !! j = Some u ->
    holding u = Some p \/ zeroing u = Some p -> j = i /\ u = t').
  { intros j u Hj Hu. destruct (decide (i = j)) as [<-|Hne].
    - rewrite list_lookup_insert_eq in Hj by done. by simplify_eq.
    - rewrite list_lookup_insert_ne in Hj by done.
      destruct (Ha j u ltac:(congruence) Hj). by destruct Hu. }
  split.
  - rewrite Hc, (ztotal_insert _ _ _ _ _ Hi), (live_count _ _ _ L). done.
  - intros j Hj. exists t'. rewrite Hl in Hj. destruct (decide _); simplify_eq.
    by rewrite list_lookup_insert_eq.
  - intros j u Hj Hu. destruct (Hlk j u Hj ltac:(by left)) as [-> ->].
    rewrite Hl. by rewrite decide_True.
  - intros j u Hj Hu. destruct (Hlk j u Hj ltac:(by right)) as [-> ->].
    split; [by apply Hz|]. intros k v Hk Hv. by destruct (Hlk k v Hk Hv).
  - intros H0. exists i, t'. rewrite list_lookup_insert_eq by done. by apply Hz in H0.
Qed.

Lemma live_delete p f ts i t t' :
  live p f ts -> Forall thread_ok ts -> ts !! i = Some t -> alone p ts i ->
  zeroing t = Some p -> tokens p t' = tokens p t -> holding t' = None -> zeroing t' = None ->
  dead p (<[i := t']> ts).
Proof.
  intros L Hok Hi Ha Ht Htok Hh Hz j u Hj.
  destruct (live_zero _ _ _ L _ _ Hi Ht) as [H0 _].
  assert (Hv : forall k v, ts !! k = Some v -> tokens p v = 0%Z).
  { intros k v Hk. pose proof (live_tokens _ _ _ _ _ L Hok Hk).
    pose proof (tokens_nonneg ts p v Hok ltac:(by eapply list_elem_of_lookup_2)). lia. }
  destruct (decide (i = j)) as [<-|Hne].
  - rewrite list_lookup_insert_eq in Hj by (by eapply lookup_lt_Some). simplify_eq.
    rewrite Htok, Hh, Hz. by rewrite (Hv i t Hi).
  - rewrite list_lookup_insert_ne in Hj by done. split; [by eapply Hv|].
    by apply (Ha j u); [congruence|].
Qed.

(** ** The invariant is kept *)

Definition only (p : floc) (o : option floc) : Prop := o = None \/ o = Some p.

(** What a step of a thread on the object at [p] may change of the thread. *)
Record local_to (p : floc) (t t' : thread) : Prop := {
  lt_tokens : forall q, q <> p -> tokens q t' = tokens q t;
  lt_hold : only p (holding t);
  lt_hold' : only p (holding t');
  lt_zero : only p (zeroing t);
  lt_zero' : only p (zeroing t');
  lt_ok : thread_ok t';
  lt_len : length (pending t') <= length (pending t)
}.

Lemma named_alive c i t p :
  foo_inv c -> pool c !! i = Some t ->
  holding t = Some p \/ zeroing t = Some p \/ (1 <= tokens p t)%Z ->
  exists f, r_heap (shared c) !! p = Some f /\ live p f (pool c).
Proof.
  intros [_ Hobj _] Hi Ht. specialize (Hobj p). unfold obj_inv in Hobj.
  destruct (r_heap (shared c) !! p) as [f|]; [by exists f|].
  destruct (Hobj i t Hi) as (? & ? & ?). destruct Ht as [?|[?|?]]; [done|done|lia].
Qed.

Lemma local_only p q t t' :
  local_to p t t' -> q <> p ->
  tokens q t' = tokens q t /\ (holding t' = Some q <-> holding t = Some q) /\
  (zeroing t' = Some q <-> zeroing t = Some q).
Proof.
  intros [H1 H2 H3 H4 H5 _ _] Hq. split; [by apply H1|].
  destruct H2 as [->| ->], H3 as [->| ->], H4 as [->| ->], H5 as [->| ->]; naive_solver.
Qed.

Lemma local_frame m m' ts i t t' p q :
  local_to p t t' -> q <> p -> ts !! i = Some t -> r_heap m' !! q = r_heap m !! q ->
  obj_inv m ts q -> obj_inv m' (<[i := t']> ts) q.
Proof.
  intros Hloc Hq Hi Hm. destruct (local_only _ _ _ _ Hloc Hq) as (? & ? & ?).
  unfold obj_inv. rewrite Hm. destruct (r_heap m !! q); [by eapply live_frame|by eapply dead_frame].
Qed.

Lemma foo_inv_moved m m' ts i t t' p :
  foo_inv (Config m ts) -> ts !! i = Some t -> local_to p t t' ->
  (forall q, q <> p -> r_heap m' !! q = r_heap m !! q) ->
  obj_inv m' (<[i := t']> ts) p ->
  foo_inv (Config m' (<[i := t']> ts)).
Proof.
  intros [Hth Hobj Hb] Hi Hloc Hm Hp. cbn in *. split; cbn.
  - apply Forall_insert; [done|]. by apply (lt_ok _ _ _ Hloc).
  - intros q. destruct (decide (q = p)) as [->|Hq]; [done|].
    eapply local_frame; [done|done|done|by apply Hm|by apply Hobj].
  - pose proof (total_insert (fun t => length (pending t)) ts i t t' Hi).
    pose proof (lt_len _ _ _ Hloc). lia.
Qed.

(** A thread alone with a live object changes the object. *)
Lemma foo_inv_update m ts i t t' p f f' out :
  foo_inv (Config m ts) -> ts !! i = Some t -> local_to p t t' -> live p f ts ->
  alone p ts i ->
  f_count f' = (f_count f - tokens p t + tokens p t')%Z ->
  f_lock f' = (if decide (holding t' = Some p) then Some i else None) ->
  (f_count f' = 0%Z <-> zeroing t' = Some p) ->
  foo_inv (Config (RMem (<[p := f']> (r_heap m)) out) (<[i := t']> ts)).
Proof.
  intros Hinv Hi Hloc L Ha Hc Hl Hz. eapply foo_inv_moved; [done|done|done| |].
  - intros q Hq. cbn. by rewrite lookup_insert_ne by congruence.
  - unfold obj_inv. cbn. rewrite lookup_insert_eq. by eapply live_update.
Qed.

Ltac foo_mem := unfold foo_mutex_lock, foo_mutex_unlock, foo_mutex_destroy, hold_body, rele_body,
  f_free, f_store, f_printf, f_load, rgoto, jump in *; unix_unfold; cbn [r_heap r_out] in *.

(** The four kinds of statement, on a live object. *)
Lemma lock_run i p m f :
  r_heap m !! p = Some f ->
  foo_mutex_lock i p m =
    match f_lock f with
    | None => Ret tt (RMem (<[p := Foo (f_count f) (Some i) (f_id f)]> (r_heap m)) (r_out m))
    | Some _ => Blocked m
    end.
Proof. intros Hf. foo_mem. rewrite Hf. destruct (f_lock f); cbn; [done|]. by rewrite Hf. Qed.

Lemma unlock_run i p m f :
  r_heap m !! p = Some f -> f_lock f = Some i ->
  foo_mutex_unlock i p m =
    Ret tt (RMem (<[p := Foo (f_count f) None (f_id f)]> (r_heap m)) (r_out m)).
Proof. intros Hf Hl. foo_mem. rewrite Hf, decide_True by done. by rewrite Hf. Qed.

Lemma hold_run p m f :
  r_heap m !! p = Some f -> (INT_MIN <= f_count f + 1 <= INT_MAX)%Z ->
  exists out, hold_body p m =
    Ret tt (RMem (<[p := Foo (f_count f + 1) (f_lock f) (f_id f)]> (r_heap m)) out).
Proof.
  intros Hf Hb. eexists. foo_mem. rewrite Hf, (int_add_ok _ _ Hb). cbn. by rewrite Hf.
Qed.

Lemma rele_run p m f :
  r_heap m !! p = Some f -> (INT_MIN <= f_count f - 1 <= INT_MAX)%Z ->
  exists out, rele_body p m =
    Ret (bool_decide (f_count f - 1 = 0)%Z)
        (RMem (<[p := Foo (f_count f - 1) (f_lock f) (f_id f)]> (r_heap m)) out).
Proof.
  intros Hf Hb. destruct (decide (f_count f - 1 = 0)%Z) as [E|E].
  - rewrite bool_decide_true by done. eexists. foo_mem. rewrite Hf, int_add_ok by lia. cbn.
    rewrite Hf. rewrite decide_True by lia. cbn. do 2 f_equal.
  - rewrite bool_decide_false by done. eexists. foo_mem. rewrite Hf, int_add_ok by lia. cbn.
    rewrite Hf. rewrite decide_False by lia. cbn. do 2 f_equal.
Qed.

Lemma free_run p m f :
  r_heap m !! p = Some f -> f_lock f = None ->
  (foo_mutex_destroy p ;; f_free p) m = Ret tt (RMem (delete p (r_heap m)) (r_out m)).
Proof. intros Hf Hl. foo_mem. rewrite Hf, decide_True by done. by rewrite Hf. Qed.

(** Statements a thread still has to run, at most. *)
Definition weight (t : thread) : nat :=
  5 * length (t_todo t) +
  match t_stage t with
  | HoldBody _ | ReleBody _ => 4
  | HoldUnlock _ | ReleUnlock _ | ZeroUnlock _ => 3
  | ZeroFree _ => 2
  | _ => 0
  end.

(** The thread can run, its next state is determined, and the invariant
    holds there. *)
Definition advances (m : rmem) (ts : list thread) (i : nat) (t : thread) : Prop :=
  exists m' t', foo_succ i m t = [(m', t')] /\ foo_inv (Config m' (<[i := t']> ts)) /\
    weight t' < weight t.

Lemma tokens_cons p c l s :
  pending (Thread s l) = c :: l -> tokens p (Thread s l) = (call_credit p c + credit p l)%Z.
Proof. unfold tokens. by intros ->. Qed.

Lemma thread_ok_at c i t : foo_inv c -> pool c !! i = Some t -> thread_ok t.
Proof. intros [Hth _ _] Hi. by apply (Forall_lookup_1 _ _ _ _ Hth Hi). Qed.

Lemma count_bound c i t p f :
  foo_inv c -> pool c !! i = Some t -> live p f (pool c) -> (0 <= f_count f <= INT_MAX)%Z.
Proof.
  intros Hinv Hi L. pose proof (inv_bound _ Hinv). split.
  - pose proof (live_tokens _ _ _ _ _ L (inv_threads _ Hinv) Hi).
    pose proof (tokens_nonneg (pool c) p t (inv_threads _ Hinv) ltac:(by eapply list_elem_of_lookup_2)).
    lia.
  - rewrite (live_count _ _ _ L). etrans; [|done]. apply ztotal_le. intros u _. apply credit_length.
Qed.

Lemma ready_advances m ts i c rest t' :
  foo_inv (Config m ts) -> ts !! i = Some (Thread Ready (c :: rest)) ->
  foo_succ i m (Thread Ready (c :: rest)) =
    rgoto m (foo_mutex_lock i (call_loc c) m) (fun _ => t') ->
  t_todo t' = rest -> pending t' = c :: rest -> holding t' = Some (call_loc c) ->
  zeroing t' = None -> t_stage t' <> Bad -> weight t' = 5 * length rest + 4 ->
  advances m ts i (Thread Ready (c :: rest)) \/
  exists j u f, j <> i /\ ts !! j = Some u /\ holding u = Some (call_loc c) /\
    r_heap m !! call_loc c = Some f /\ f_lock f = Some j.
Proof.
  intros Hinv Hi Hs Htd Hpe Hh Hz Hbad Hw. set (p := call_loc c) in *.
  pose proof (thread_ok_at _ _ _ Hinv Hi) as [_ [Hd1 Hd2]].
  destruct (named_alive _ _ _ p Hinv Hi ltac:(by right; right)) as (f & Hf & L). cbn in Hf, L.
  destruct (f_lock f) as [j|] eqn:El.
  - right. destruct (live_owner _ _ _ L j El) as (u & Hj & Hu).
    exists j, u, f. split; [|done]. intros ->. rewrite Hi in Hj. by simplify_eq.
  - left. unfold advances. rewrite Hs, (lock_run _ _ _ _ Hf), El. eexists _, t'. split; [done|].
    split; [|rewrite Hw; unfold weight; cbn; lia].
    assert (Htok : forall q, tokens q t' = tokens q (Thread Ready (c :: rest)))
      by (intros q; unfold tokens; by rewrite Hpe).
    assert (Hcnt : (1 <= f_count f)%Z).
    { etrans; [apply Hd1|]. apply (live_tokens _ _ _ _ _ L (inv_threads _ Hinv) Hi). }
    eapply foo_inv_update; [done|done| |exact L| | | |]; cbn [f_count f_lock].
    + split; try by left. { intros q _. apply Htok. } { by right. }
      * split; [done|]. rewrite Hpe. done.
      * rewrite Hpe. done.
    + eapply live_alone; [done|by apply (inv_threads _ Hinv)|done|by right; right].
    + rewrite Htok. lia.
    + by rewrite decide_True.
    + rewrite Hz. split; [lia|done].
Qed.

(** A thread inside a call names one object, which is live, and is alone with
    it. *)
Lemma inside_alive m ts i t p :
  foo_inv (Config m ts) -> ts !! i = Some t -> holding t = Some p \/ zeroing t = Some p ->
  exists f, r_heap m !! p = Some f /\ live p f ts /\ alone p ts i /\
    (tokens p t <= f_count f)%Z /\ (0 <= f_count f <= INT_MAX)%Z.
Proof.
  intros Hinv Hi Hp. destruct (named_alive _ _ _ p Hinv Hi) as (f & Hf & L); [tauto|].
  exists f. split_and!; [done|done| | | |].
  - eapply live_alone; [done|by apply (inv_threads _ Hinv)|done|tauto].
  - apply (live_tokens _ _ _ _ _ L (inv_threads _ Hinv) Hi).
  - by apply (count_bound _ _ _ _ _ Hinv Hi L).
  - by apply (count_bound _ _ _ _ _ Hinv Hi L).
Qed.

Lemma local_same p s s' l :
  pending (Thread s l) = l -> pending (Thread s' l) = l -> s' <> Bad -> disciplined l ->
  only p (holding (Thread s l)) -> only p (holding (Thread s' l)) ->
  only p (zeroing (Thread s l)) -> only p (zeroing (Thread s' l)) ->
  local_to p (Thread s l) (Thread s' l).
Proof.
  intros E E' Hb Hd. split; try done.
  - intros q _. unfold tokens. by rewrite E, E'.
  - split; [done|]. by rewrite E'.
  - by rewrite E, E'.
Qed.

Lemma local_count p s s' c l :
  pending (Thread s l) = c :: l -> pending (Thread s' l) = l -> call_loc c = p -> s' <> Bad ->
  disciplined (c :: l) ->
  only p (holding (Thread s l)) -> only p (holding (Thread s' l)) ->
  only p (zeroing (Thread s l)) -> only p (zeroing (Thread s' l)) ->
  local_to p (Thread s l) (Thread s' l).
Proof.
  intros E E' Hc Hb [_ Hd]. split; try done.
  - intros q Hq. unfold tokens. rewrite E, E'. unfold credit. cbn.
    assert (call_credit q c = 0%Z) as ->; [|lia].
    destruct c; cbn in *; by rewrite decide_False by congruence.
  - split; [done|]. by rewrite E'.
  - rewrite E, E'. cbn. lia.
Qed.

(** Unlocking. *)
Lemma unlock_advances m ts i s s' p l :
  foo_inv (Config m ts) -> ts !! i = Some (Thread s l) ->
  foo_succ i m (Thread s l) = rgoto m (foo_mutex_unlock i p m) (fun _ => Thread s' l) ->
  pending (Thread s l) = l -> pending (Thread s' l) = l -> s' <> Bad ->
  holding (Thread s l) = Some p -> holding (Thread s' l) = None ->
  zeroing (Thread s' l) = zeroing (Thread s l) -> only p (zeroing (Thread s l)) ->
  weight (Thread s' l) < weight (Thread s l) ->
  advances m ts i (Thread s l).
Proof.
  intros Hinv Hi Hs E E' Hb Hh Hh' Hz' Hz Hw.
  destruct (inside_alive _ _ _ _ p Hinv Hi ltac:(by left)) as (f & Hf & L & Ha & Htok & Hbd).
  unfold advances. rewrite Hs, (unlock_run _ _ _ _ Hf (live_holder _ _ _ L _ _ Hi Hh)).
  eexists _, _. split; [done|]. split; [|done].
  pose proof (thread_ok_at _ _ _ Hinv Hi) as [_ Hd]. rewrite E in Hd.
  eapply foo_inv_update; [done|done| |exact L|done| | |]; cbn [f_count f_lock].
  - apply local_same; try done; [by right|by left|by rewrite Hz'].
  - unfold tokens. rewrite E, E'. lia.
  - by rewrite Hh', decide_False.
  - rewrite Hz'. split.
    + intros H0. destruct (live_freed _ _ _ L H0) as (j & u & Hj & Hu).
      destruct (decide (j = i)) as [->|Hne]; [by simplify_eq|].
      destruct (Ha j u Hne Hj). done.
    + intros H0. by destruct (live_zero _ _ _ L _ _ Hi H0).
Qed.

Lemma hold_advances m ts i p l :
  foo_inv (Config m ts) -> ts !! i = Some (Thread (HoldBody p) l) ->
  advances m ts i (Thread (HoldBody p) l).
Proof.
  intros Hinv Hi.
  destruct (inside_alive _ _ _ _ p Hinv Hi ltac:(by left)) as (f & Hf & L & Ha & Htok & Hbd).
  pose proof (thread_ok_at _ _ _ Hinv Hi) as [_ Hd].
  assert (Ht : tokens p (Thread (HoldUnlock p) l) = (tokens p (Thread (HoldBody p) l) + 1)%Z).
  { unfold tokens, credit. cbn. rewrite decide_True by done. lia. }
  pose proof (proj1 Hd) as Hd1. change (1 <= tokens p (Thread (HoldBody p) l))%Z in Hd1.
  assert (Hloc : local_to p (Thread (HoldBody p) l) (Thread (HoldUnlock p) l)).
  { eapply (local_count p _ _ (Hold p)); try done; by (left + right). }
  destruct (hold_run p m f Hf) as [out Hrun].
  { split; [unfold INT_MIN; lia|].
    assert (Hfoo : foo_inv (Config m ts)) by done. destruct Hfoo as [_ _ Hb]. cbn in Hb.
    pose proof (total_insert (fun t => length (pending t)) ts i _ (Thread (HoldUnlock p) l) Hi) as Hti.
    cbn [pending t_stage t_todo length] in Hti.
    assert (Hz : (ztotal (tokens p) (<[i := Thread (HoldUnlock p) l]> ts)
      <= Z.of_nat (total (fun t => length (pending t)) (<[i := Thread (HoldUnlock p) l]> ts)))%Z).
    { apply ztotal_le. intros u _. apply credit_length. }
    rewrite (ztotal_insert _ _ _ _ _ Hi), Ht in Hz. rewrite (live_count _ _ _ L). lia. }
  unfold advances. cbn [foo_succ t_stage t_todo]. rewrite Hrun.
  eexists _, _. split; [done|]. split; [|cbn; lia].
  eapply foo_inv_update; [done|done|done|exact L|done| | |]; cbn [f_count f_lock].
  - rewrite Ht. lia.
  - rewrite decide_True by done. by apply (live_holder _ _ _ L _ _ Hi).
  - split; [lia|done].
Qed.

Lemma rele_advances m ts i p l :
  foo_inv (Config m ts) -> ts !! i = Some (Thread (ReleBody p) l) ->
  advances m ts i (Thread (ReleBody p) l).
Proof.
  intros Hinv Hi.
  destruct (inside_alive _ _ _ _ p Hinv Hi ltac:(by left)) as (f & Hf & L & Ha & Htok & Hbd).
  pose proof (thread_ok_at _ _ _ Hinv Hi) as [_ Hd].
  pose proof (proj1 Hd) as Hd1. change (1 <= tokens p (Thread (ReleBody p) l))%Z in Hd1.
  assert (Ht : credit p l = (tokens p (Thread (ReleBody p) l) - 1)%Z).
  { unfold tokens, credit. cbn. rewrite decide_True by done. lia. }
  destruct (rele_run p m f Hf) as [out Hrun]. { unfold INT_MIN. lia. }
  unfold advances. cbn [foo_succ t_stage t_todo]. rewrite Hrun. cbn [rgoto jump].
  eexists _, _. split; [done|]. split; [|case_bool_decide; cbn; lia].
  eapply foo_inv_update; [done|done| |exact L|done| | |]; cbn [f_count f_lock].
  - eapply (local_count p _ _ (Rele p)); try done; case_bool_decide; try done; by (left + right).
  - transitivity (f_count f - tokens p (Thread (ReleBody p) l) + credit p l)%Z; [lia|].
    by case_bool_decide.
  - rewrite decide_True by (by case_bool_decide). by apply (live_holder _ _ _ L _ _ Hi).
  - case_bool_decide; cbn; naive_solver.
Qed.

Lemma free_advances m ts i p l :
  foo_inv (Config m ts) -> ts !! i = Some (Thread (ZeroFree p) l) ->
  advances m ts i (Thread (ZeroFree p) l).
Proof.
  intros Hinv Hi.
  destruct (inside_alive _ _ _ _ p Hinv Hi ltac:(by right)) as (f & Hf & L & Ha & Htok & Hbd).
  assert (Hl : f_lock f = None).
  { destruct (f_lock f) as [j|] eqn:E; [|done].
    destruct (live_owner _ _ _ L j E) as (u & Hj & Hu). exfalso.
    destruct (decide (j = i)) as [->|Hne]; [by simplify_eq|]. by destruct (Ha j u Hne Hj). }
  pose proof (thread_ok_at _ _ _ Hinv Hi) as [_ Hd].
  unfold advances. cbn [foo_succ t_stage t_todo]. rewrite (free_run _ _ _ Hf Hl).
  eexists _, _. split; [done|]. split; [|cbn; lia].
  eapply foo_inv_moved; [done|done| | |].
  - apply local_same; try done; by (left + right).
  - intros q Hq. cbn. by rewrite lookup_delete_ne by congruence.
  - unfold obj_inv. cbn. rewrite lookup_delete_eq.
    eapply live_delete; [exact L|by apply (inv_threads _ Hinv)|done|done|done|done|done|done].
Qed.

(** Every thread has ended, can run, or waits for a thread inside a call. *)
Lemma thread_cases m ts i t :
  foo_inv (Config m ts) -> ts !! i = Some t ->
  t = Thread Ready [] \/ advances m ts i t \/
  (foo_succ i m t = [] /\ exists j u, ts !! j = Some u /\ is_Some (holding u)).
Proof.
  intros Hinv Hi. pose proof (thread_ok_at _ _ _ Hinv Hi) as [Hb _]. destruct t as [s l].
  destruct s as [|p|p|p|p|p|p|]; cbn in Hb; try done.
  - destruct l as [|c rest]; [by left|right].
    assert (Hadv : advances m ts i (Thread Ready (c :: rest)) \/
      exists j u f, j <> i /\ ts !! j = Some u /\ holding u = Some (call_loc c) /\
        r_heap m !! call_loc c = Some f /\ f_lock f = Some j).
    { destruct c as [p|p];
        [apply (ready_advances _ _ _ (Hold p) rest (Thread (HoldBody p) rest))
        |apply (ready_advances _ _ _ (Rele p) rest (Thread (ReleBody p) rest))]; done. }
    destruct Hadv as [?|(j & u & f & Hne & Hj & Hu & Hf & Hl)]; [by left|right].
    split; [|exists j, u; by rewrite Hu].
    destruct c as [p|p]; cbn [foo_succ t_stage t_todo call_loc] in *;
      by rewrite (lock_run _ _ _ _ Hf), Hl.
  - right. left. by apply hold_advances.
  - right. left. eapply (unlock_advances _ _ _ _ Ready p); try done; [by left|cbn; lia].
  - right. left. by apply rele_advances.
  - right. left. eapply (unlock_advances _ _ _ _ Ready p); try done; [by left|cbn; lia].
  - right. left. eapply (unlock_advances _ _ _ _ (ZeroFree p) p); try done; [by right|cbn; lia].
  - right. left. by apply free_advances.
Qed.

(** ** The theorems *)

Definition all_done (c : config rmem thread) : Prop :=
  Forall (fun t => t = Thread Ready []) (pool c).

(** Before the threads start: the count of each object is the number of
    references handed to them, and no object is left out. *)
Definition handed_out (m : rmem) (progs : list (list call)) (p : floc) : Prop :=
  match r_heap m !! p with
  | Some f => f_lock f = None /\ f_count f = ztotal (credit p) progs /\ (0 < f_count f)%Z
  | None => Forall (fun l => credit p l = 0%Z) progs
  end.

Lemma foo_pool_lookup progs i t :
  foo_pool progs !! i = Some t -> exists l, progs !! i = Some l /\ t = Thread Ready l.
Proof. unfold foo_pool. rewrite list_lookup_fmap_Some. naive_solver. Qed.

Lemma foo_pool_tokens p progs : ztotal (tokens p) (foo_pool progs) = ztotal (credit p) progs.
Proof. induction progs as [|l progs IH]; [done|]. cbn [ztotal]. by rewrite <- IH. Qed.

Lemma foo_pool_len progs :
  total (fun t => length (pending t)) (foo_pool progs) = total length progs.
Proof. induction progs as [|l progs IH]; [done|]. cbn [total]. by rewrite <- IH. Qed.

Lemma foo_inv_start m progs :
  Forall disciplined progs -> (forall p, handed_out m progs p) ->
  (Z.of_nat (total length progs) <= INT_MAX)%Z ->
  foo_inv (Config m (foo_pool progs)).
Proof.
  intros Hd Hh Hb. split; cbn.
  - unfold foo_pool. rewrite Forall_fmap. eapply Forall_impl; [done|]. intros l Hl. by split.
  - intros p. specialize (Hh p). unfold handed_out, obj_inv in *.
    destruct (r_heap m !! p) as [f|].
    + destruct Hh as (Hl & Hc & Hpos). split.
      * by rewrite foo_pool_tokens.
      * congruence.
      * intros i t (l & _ & ->)%foo_pool_lookup. done.
      * intros i t (l & _ & ->)%foo_pool_lookup. done.
      * lia.
    + intros i t (l & Hl & ->)%foo_pool_lookup.
      split; [|done]. by apply (Forall_lookup_1 _ _ _ _ Hh Hl).
  - by rewrite foo_pool_len.
Qed.

Lemma foo_inv_step c c' : foo_inv c -> step foo_succ c c' ->
  foo_inv c' /\ total weight (pool c') < total weight (pool c).
Proof.
  intros Hinv Hs. inv_step.
  match goal with H : _ !! _ = Some _, H2 : _ ∈ _ |- _ => rename H into Hi, H2 into Hin end.
  destruct (thread_cases _ _ _ _ Hinv Hi) as [->|[(m' & t' & E & Hinv' & Hw)|[E _]]].
  - by apply elem_of_nil in Hin.
  - rewrite E in Hin. apply list_elem_of_singleton in Hin. simplify_eq. split; [done|].
    cbn. pose proof (total_insert weight _ _ _ t' Hi). lia.
  - rewrite E in Hin. by apply elem_of_nil in Hin.
Qed.

Lemma holder_steps m ts i t :
  foo_inv (Config m ts) -> ts !! i = Some t -> is_Some (holding t) ->
  exists c', step foo_succ (Config m ts) c'.
Proof.
  intros Hinv Hi [p Hp].
  assert (Hadv : advances m ts i t).
  { destruct t as [s l]. unfold holding in Hp; cbn in Hp. destruct s; simplify_eq;
      [by apply hold_advances| |by apply rele_advances| |].
    - eapply (unlock_advances _ _ _ _ Ready p); try done; [by left|cbn; lia].
    - eapply (unlock_advances _ _ _ _ Ready p); try done; [by left|cbn; lia].
    - eapply (unlock_advances _ _ _ _ (ZeroFree p) p); try done; [by right|cbn; lia]. }
  destruct Hadv as (m' & t' & E & _). eexists. eapply step_thread; [done|].
  rewrite E. by apply list_elem_of_singleton.
Qed.

Lemma foo_progress c : foo_inv c ->
  (all_done c /\ r_heap (shared c) = ∅) \/ exists c', step foo_succ c c'.
Proof.
  destruct c as [m ts]. intros Hinv.
  destruct (decide (Forall (fun t => weight t = 0) ts)) as [Hall|Hex].
  - assert (Hdone : all_done (Config m ts)).
    { apply Forall_lookup_2. intros i t Hi. pose proof (Forall_lookup_1 _ _ _ _ Hall Hi) as Hw.
      cbn in Hw. destruct (thread_ok_at _ _ _ Hinv Hi) as [Hb _].
      destruct t as [s [|c l]]; unfold weight in Hw; cbn in Hw; [|lia].
      destruct s; cbn in *; try lia; done. }
    left. split; [done|]. apply map_eq. intros p. rewrite lookup_empty. cbn.
    pose proof (inv_objs _ Hinv p) as Hp. unfold obj_inv in Hp. cbn in Hp.
    destruct (r_heap m !! p) as [f|]; [|done]. exfalso.
    destruct (live_freed _ _ _ Hp) as (i & t & Hi & Hz).
    { rewrite (live_count _ _ _ Hp). apply ztotal_zero. intros t Ht.
      unfold all_done in Hdone. rewrite Forall_forall in Hdone. by rewrite (Hdone t Ht). }
    by rewrite (Forall_lookup_1 _ _ _ _ Hdone Hi) in Hz.
  - right. apply not_Forall_Exists in Hex; [|apply _].
    apply Exists_exists in Hex as (t & (i & Hi)%list_elem_of_lookup_1 & Hw).
    destruct (thread_cases _ _ _ _ Hinv Hi) as [->|[(m' & t' & E & _)|[_ (j & u & Hj & Hu)]]].
    + by destruct Hw.
    + eexists. eapply step_thread; [done|]. rewrite E. by apply list_elem_of_singleton.
    + by eapply holder_steps.
Qed.


(** The demo's workload with one reference handed to each thread. *)
Definition shared_object : rmem := RMem {[ 1%positive := Foo 2 None 1 ]} "".
Definition one_ref_calls : list call := replicate 20 (Hold 1%positive) ++ replicate 21 (Rele 1%positive).


(** Thread [i] runs [n] statements. *)
Definition slice (i n : nat) : list (nat * nat) := replicate n (i, 0).
Definition demo_start (m : rmem) : config rmem thread :=
  Config m (foo_pool [thr_fn1_calls 1%positive 2%positive; thr_fn2_calls 1%positive 2%positive]).

(** Property C25.  [main] hands one reference per object to two
    threads: with [thr_fn1] ahead of [thr_fn2] both end and free the objects,
    but when [thr_fn2] runs first it frees them and the first [foo_hold] of
    [thr_fn1] locks a mutex in freed memory. *)
Theorem refcount_demo :
  exists m, foo_main_mem = Some m /\
    (exists c, reachable foo_succ (demo_start m) c /\ all_done c /\ r_heap (shared c) = ∅) /\
    (exists c, reachable foo_succ (demo_start m) c /\ r_heap (shared c) = ∅ /\
       pool c !! 0 = Some (Thread Bad []) /\ pool c !! 1 = Some (Thread Ready [])).
Proof.
  eexists. split; [vm_compute; reflexivity|]. split.
  - eapply (run_exhibits foo_succ (slice 0 252 ++ slice 1 260) _ (fun c =>
      pool c = [Thread Ready []; Thread Ready []] /\ r_heap (shared c) = ∅));
      [intros c [Hp Hh]; split; [unfold all_done; rewrite Hp; by repeat constructor|done]|].
    vm_compute. by split.
  - eapply (run_exhibits foo_succ (slice 1 260 ++ slice 0 1) _ (fun c =>
      pool c = [Thread Bad []; Thread Ready []] /\ r_heap (shared c) = ∅));
      [by intros c [-> ->]|].
    vm_compute. by split.
Qed.
