(* ===== verification/SemLock.v ===== *)
(** * IPC/sem_lock.c: a lock on a POSIX named semaphore

    [s_alloc] creates a named semaphore under a name that no other process
    uses, retrying with the next counter value while the name exists, and
    unlinks it at once; [s_lock], [s_trylock], [s_unlock] and [s_free] are
    thin wrappers.  The kernel's side is modelled as POSIX describes it: a
    name space, and semaphores that live while they have a name or are open. *)

From S2P Require Import Prelude Threads.

(** [sizeof(sp->name)]: [_POSIX_NAME_MAX]. *)
Definition POSIX_NAME_MAX : nat := 14.

(** [struct slock]; [None] is [SEM_FAILED] or a field that is not set yet. *)
Record slock := SLock { semp : option positive; name : string }.

Record sem := Sem { sem_value : Z; sem_opens : nat }.

(** The static counter of [s_alloc], the kernel's semaphores, the heap. *)
Record sys := Sys {
  cnt : Z;
  names : gmap string positive;
  sems : gmap positive sem;
  slocks : gmap positive slock
}.

Definition set_cnt (n : Z) (s : sys) : sys := Sys n (names s) (sems s) (slocks s).
Definition set_names (n : gmap string positive) (s : sys) : sys := Sys (cnt s) n (sems s) (slocks s).
Definition set_sems (x : gmap positive sem) (s : sys) : sys := Sys (cnt s) (names s) x (slocks s).
Definition set_slocks (x : gmap positive slock) (s : sys) : sys := Sys (cnt s) (names s) (sems s) x.

(** [errno] values of [sem_open]. *)
Inductive open_result := Opened (k : positive) | Failed (eexist : bool).

(** [sem_open(name, O_CREAT | O_EXCL, mode, 1)]: the name must be new;
    [other_err] says whether the call fails for another reason (no memory, a
    limit, an invalid name). *)
Definition sem_open (other_err : string -> bool) (n : string) : prog sys open_result := fun s =>
  match names s !! n with
  | Some _ => Ret (Failed true) s
  | None =>
    if other_err n then Ret (Failed false) s
    else
      let k := fresh (dom (sems s)) in
      Ret (Opened k) (set_sems (<[k := Sem 1 1]> (sems s)) (set_names (<[n := k]> (names s)) s))
  end.

(** A semaphore with no name and no user is gone. *)
Definition reap (k : positive) (s : sys) : sys :=
  match sems s !! k with
  | Some x =>
    if decide (sem_opens x = 0 /\ map_Forall (fun _ k' => k' <> k) (names s))
    then set_sems (delete k (sems s)) s else s
  | None => s
  end.

Definition sem_unlink (n : string) : prog sys unit := fun s =>
  match names s !! n with
  | Some k => Ret tt (reap k (set_names (delete n (names s)) s))
  | None => Ret tt s
  end.

Definition sem_close (k : positive) : prog sys unit := fun s =>
  match sems s !! k with
  | Some x => Ret tt (reap k (set_sems (<[k := Sem (sem_value x) (sem_opens x - 1)]> (sems s)) s))
  | None => Fault
  end.

Definition SEM_VALUE_MAX : Z := INT_MAX.

(** They return [0], or [-1] with [errno] set. *)
Definition sem_wait (k : positive) : prog sys Z := fun s =>
  match sems s !! k with
  | Some x => if decide (0 < sem_value x)%Z
              then Ret 0%Z (set_sems (<[k := Sem (sem_value x - 1) (sem_opens x)]> (sems s)) s)
              else Blocked s
  | None => Fault
  end.
Definition sem_trywait (k : positive) : prog sys Z := fun s =>
  match sems s !! k with
  | Some x => if decide (0 < sem_value x)%Z
              then Ret 0%Z (set_sems (<[k := Sem (sem_value x - 1) (sem_opens x)]> (sems s)) s)
              else Ret (-1)%Z s
  | None => Fault
  end.
Definition sem_post (k : positive) : prog sys Z := fun s =>
  match sems s !! k with
  | Some x => if decide (sem_value x < SEM_VALUE_MAX)%Z
              then Ret 0%Z (set_sems (<[k := Sem (sem_value x + 1) (sem_opens x)]> (sems s)) s)
              else Ret (-1)%Z s
  | None => Fault
  end.

(** ** The functions of sem_lock.c *)

Definition sp_load (sp : positive) : prog sys slock :=
  h ← gets slocks ; need (h !! sp).
Definition sp_free (sp : positive) : prog sys unit :=
  sp_load sp ;; modify (fun s => set_slocks (delete sp (slocks s)) s).

(** [snprintf(sp->name, sizeof(sp->name), "%ld.%d", getpid(), cnt)]. *)
Definition sem_name (pid n : Z) : string :=
  String.substring 0 (POSIX_NAME_MAX - 1) (pretty pid +:+ "." +:+ pretty n).

(** The [do ... while] loop: every round takes the next value of [cnt].  It
    is the fuel that ends a search that never finds a free name. *)
Fixpoint open_loop (other_err : string -> bool) (pid : Z) (fuel : nat) (sp : positive)
    : prog sys open_result :=
  match fuel with
  | O => c_block
  | S fuel' =>
    n ← gets cnt ;
    n' ← need (int_add n 1) ;
    modify (set_cnt n') ;;
    sp_load sp ;;
    r ← sem_open other_err (sem_name pid n) ;
    modify (fun s => set_slocks (<[sp := SLock (if r is Opened k then Some k else None) (sem_name pid n)]> (slocks s)) s) ;;
    match r with
    | Failed true => open_loop other_err pid fuel' sp
    | _ => mret r
    end
  end.

(** [s_alloc()], with the result of [malloc] (a block that is not in use, or
    none). *)
Definition s_alloc (malloc_ok : bool) (other_err : string -> bool) (pid : Z) (fuel : nat)
    : prog sys (option positive) :=
  if malloc_ok then
    sp ← gets (fun s => fresh (dom (slocks s))) ;
    modify (fun s => set_slocks (<[sp := SLock None ""]> (slocks s)) s) ;;
    r ← open_loop other_err pid fuel sp ;
    match r with
    | Failed _ => sp_free sp ;; mret None
    | Opened _ => x ← sp_load sp ; sem_unlink (name x) ;; mret (Some sp)
    end
  else mret None.

Definition s_free (sp : positive) : prog sys unit :=
  x ← sp_load sp ; k ← need (semp x) ; sem_close k ;; sp_free sp.
Definition s_lock (sp : positive) : prog sys Z := x ← sp_load sp ; k ← need (semp x) ; sem_wait k.
Definition s_trylock (sp : positive) : prog sys Z := x ← sp_load sp ; k ← need (semp x) ; sem_trywait k.
Definition s_unlock (sp : positive) : prog sys Z := x ← sp_load sp ; k ← need (semp x) ; sem_post k.

(** ** Allocation *)

(** Process ids have at most seven digits (Linux allows 2^22 of them) and the
    counter then has five: the name is not truncated. *)
Lemma sem_name_full pid n :
  (0 <= pid < 10 ^ 7)%Z -> (0 <= n < 10 ^ 5)%Z -> sem_name pid n = pretty pid +:+ "." +:+ pretty n.
Proof.
  intros Hp Hn. unfold sem_name.
  assert (Hl : String.length (pretty pid +:+ "." +:+ pretty n) <= POSIX_NAME_MAX - 1).
  { rewrite !str_app_length. pose proof (pretty_Z_length 7 pid ltac:(lia) Hp).
    pose proof (pretty_Z_length 5 n ltac:(lia) Hn). unfold POSIX_NAME_MAX. cbn [String.length]. lia. }
  revert Hl. generalize (POSIX_NAME_MAX - 1) as k, (pretty pid +:+ "." +:+ pretty n) as s.
  induction k as [|k IH]; intros [|c s] Hl; cbn in *; [done|lia|done|]. rewrite IH; [done|lia].
Qed.

Lemma sem_name_inj pid n m :
  (0 <= pid < 10 ^ 7)%Z -> (0 <= n < 10 ^ 5)%Z -> (0 <= m < 10 ^ 5)%Z ->
  sem_name pid n = sem_name pid m -> n = m.
Proof.
  intros Hp Hn Hm. rewrite !sem_name_full by done.
  intros H%str_app_inj_l%str_app_inj_l. by apply (inj pretty).
Qed.

(** Among as many candidates as there are names, plus one, one is free. *)
Lemma free_name pid n (ns : gmap string positive) :
  (0 <= pid < 10 ^ 7)%Z -> (0 <= n)%Z -> (n + Z.of_nat (size ns) < 10 ^ 5)%Z ->
  exists j, j <= size ns /\ ns !! sem_name pid (n + Z.of_nat j) = None.
Proof.
  intros Hp Hn Hb. set (cand := (fun j => sem_name pid (n + Z.of_nat j)) <$> seq 0 (S (size ns))).
  destruct (decide (Forall (fun x => x ∈ dom ns) cand)) as [Hall|Hex].
  - exfalso. assert (Hnd : NoDup cand).
    { apply NoDup_fmap_2_strong; [|apply NoDup_seq]. intros i j Hi Hj E.
      apply elem_of_seq in Hi, Hj. apply sem_name_inj in E; lia. }
    assert (Hsub : list_to_set cand ⊆ dom ns).
    { intros x Hx%elem_of_list_to_set. rewrite Forall_forall in Hall. by apply Hall. }
    apply subseteq_size in Hsub. rewrite (size_list_to_set (C := gset string) _ Hnd), size_dom in Hsub.
    unfold cand in Hsub. rewrite length_fmap, length_seq in Hsub. lia.
  - apply not_Forall_Exists in Hex; [|apply _].
    apply Exists_exists in Hex as (x & Hx & Hn'). unfold cand in Hx.
    apply list_elem_of_fmap in Hx as (j & -> & Hj%elem_of_seq).
    exists j. split; [lia|]. by apply not_elem_of_dom.
Qed.

(** What the loop leaves behind when it stops at counter value [n]. *)
Definition stopped (err : string -> bool) (pid n : Z) (sp : positive) (s : sys) : outcome sys open_result :=
  let nm := sem_name pid n in
  let k := fresh (dom (sems s)) in
  if err nm then
    Ret (Failed false) (Sys (n + 1) (names s) (sems s) (<[sp := SLock None nm]> (slocks s)))
  else
    Ret (Opened k) (Sys (n + 1) (<[nm := k]> (names s)) (<[k := Sem 1 1]> (sems s))
                        (<[sp := SLock (Some k) nm]> (slocks s))).

Lemma open_loop_ok err pid fuel sp s :
  is_Some (slocks s !! sp) -> (0 <= cnt s)%Z -> (cnt s + Z.of_nat fuel <= INT_MAX)%Z ->
  (exists j, j < fuel /\ names s !! sem_name pid (cnt s + Z.of_nat j) = None) ->
  exists j, j < fuel /\ names s !! sem_name pid (cnt s + Z.of_nat j) = None /\
    open_loop err pid fuel sp s = stopped err pid (cnt s + Z.of_nat j) sp s.
Proof.
  revert s. induction fuel as [|fuel IH]; intros s Hsp H0 Hmax (j & Hj & Hfree); [lia|].
  cbn [open_loop]. unfold sp_load. unix_unfold. rewrite int_add_ok by (unfold INT_MIN; lia). cbn.
  destruct Hsp as [x Hx]. rewrite Hx. unfold sem_open. cbn.
  destruct (names s !! sem_name pid (cnt s)) as [k|] eqn:En.
  - destruct j as [|j]; [by rewrite Z.add_0_r, En in Hfree|].
    edestruct (IH (set_slocks (<[sp := SLock None (sem_name pid (cnt s))]> (slocks s)) (set_cnt (cnt s + 1) s)))
      as (i & Hi & Hfi & Hrun); cbn.
    + rewrite lookup_insert_eq. by eexists.
    + lia.
    + lia.
    + exists j. split; [lia|]. by replace (cnt s + 1 + Z.of_nat j)%Z with (cnt s + Z.of_nat (S j))%Z by lia.
    + exists (S i). replace (cnt s + Z.of_nat (S i))%Z with (cnt s + 1 + Z.of_nat i)%Z by lia.
      split; [lia|]. split; [done|]. cbn in Hrun.
      etrans; [exact Hrun|]. unfold stopped. cbn. by rewrite !insert_insert_eq.
  - exists 0. rewrite Z.add_0_r. split; [lia|]. split; [done|].
    unfold stopped. by destruct (err (sem_name pid (cnt s))).
Qed.

(** The state after a successful allocation. *)
Definition allocated (s : sys) (n : Z) (nm : string) : sys :=
  let k := fresh (dom (sems s)) in
  Sys n (names s) (<[k := Sem 1 1]> (sems s))
      (<[fresh (dom (slocks s)) := SLock (Some k) nm]> (slocks s)).

Lemma fresh_lookup {A} (m : gmap positive A) : m !! fresh (dom m) = None.
Proof. apply not_elem_of_dom. apply is_fresh. Qed.

Lemma s_alloc_ok err pid fuel s :
  (0 <= pid < 10 ^ 7)%Z -> (0 <= cnt s)%Z -> (cnt s + Z.of_nat (size (names s)) < 10 ^ 5)%Z ->
  (Z.of_nat fuel < 10 ^ 9)%Z -> size (names s) < fuel ->
  exists j nm, j < fuel /\ nm = sem_name pid (cnt s + Z.of_nat j) /\ names s !! nm = None /\
    s_alloc true err pid fuel s =
      if err nm then Ret None (set_cnt (cnt s + Z.of_nat j + 1) s)
      else Ret (Some (fresh (dom (slocks s)))) (allocated s (cnt s + Z.of_nat j + 1) nm).
Proof.
  intros Hp H0 Hb Hf Hfuel. unfold s_alloc. set (sp := fresh (dom (slocks s))).
  pose proof (fresh_lookup (slocks s)) as Hsp. fold sp in Hsp.
  destruct (open_loop_ok err pid fuel sp (set_slocks (<[sp := SLock None ""]> (slocks s)) s))
    as (j & Hj & Hfree & Hrun); cbn.
  - rewrite lookup_insert_eq. by eexists.
  - done.
  - unfold INT_MAX. lia.
  - destruct (free_name pid (cnt s) (names s) Hp H0 Hb) as (j & ? & ?). exists j. split; [lia|done].
  - exists j, (sem_name pid (cnt s + Z.of_nat j)). split; [done|]. split; [done|]. split; [done|].
    cbn in Hrun, Hfree. unix_unfold. fold sp. rewrite Hrun. unfold stopped. cbn.
    destruct (err _); unfold sp_free, sp_load; unix_unfold; cbn; rewrite lookup_insert_eq; cbn.
    + unfold set_slocks, set_cnt; cbn. by rewrite insert_insert_eq, delete_insert_id.
    + unfold sem_unlink. cbn. rewrite lookup_insert_eq. unfold reap. cbn.
      rewrite lookup_insert_eq. cbn. rewrite decide_False by (intros [? _]; done).
      unfold allocated, set_names. cbn. by rewrite insert_insert_eq, delete_insert_id.
Qed.

(** Property C14.  Whatever names exist, [s_alloc] finds a free one
    within as many rounds as there are names plus one, so it returns: with a
    semaphore of value 1 that only the caller has open and whose name is gone
    again, the other semaphores and the name space unchanged; and when
    [sem_open] fails for another reason it returns [NULL] and leaks
    nothing. *)
Theorem s_alloc_spec err pid fuel s :
  (0 <= pid < 10 ^ 7)%Z -> (0 <= cnt s)%Z -> (cnt s + Z.of_nat (size (names s)) < 10 ^ 5)%Z ->
  (Z.of_nat fuel < 10 ^ 9)%Z -> size (names s) < fuel ->
  exists j nm, j < fuel /\ nm = sem_name pid (cnt s + Z.of_nat j) /\ names s !! nm = None /\
    s_alloc true err pid fuel s =
      if err nm then Ret None (set_cnt (cnt s + Z.of_nat j + 1) s)
      else Ret (Some (fresh (dom (slocks s)))) (allocated s (cnt s + Z.of_nat j + 1) nm).
Proof. apply s_alloc_ok. Qed.

Definition crowded : sys :=
  Sys 0 {[ "4711.0" := 1%positive; "4711.1" := 1%positive ]} {[ 1%positive := Sem 0 2 ]} ∅.

Lemma s_alloc_spec_witness :
  exists j, j < 3 /\ s_alloc true (fun _ => false) 4711 3 crowded =
    Ret (Some (fresh (dom (slocks crowded))))
        (allocated crowded (Z.of_nat j + 1) (sem_name 4711 (Z.of_nat j))).
Proof.
  destruct (s_alloc_spec (fun _ => false) 4711 3 crowded) as (j & nm & Hj & -> & _ & H);
    [vm_compute; split; congruence|vm_compute; congruence|vm_compute; congruence
    |vm_compute; congruence|vm_compute; lia|].
  exists j. split; [exact Hj|exact H].
Defined.

(** ** Use *)

(** Names point to semaphores. *)
Definition kernel_ok (s : sys) : Prop := map_Forall (fun _ k => k ∈ dom (sems s)) (names s).

(** The lock [sp] with value [v], in a system that is otherwise [s]. *)
Definition with_value (s : sys) (n : Z) (nm : string) (v : Z) : sys :=
  let k := fresh (dom (sems s)) in
  Sys n (names s) (<[k := Sem v 1]> (sems s))
      (<[fresh (dom (slocks s)) := SLock (Some k) nm]> (slocks s)).

Ltac sem_run :=
  unfold s_lock, s_trylock, s_unlock, s_free, sp_free, sp_load, sem_wait, sem_trywait, sem_post,
    sem_close, with_value; unix_unfold; cbn;
  repeat (rewrite lookup_insert_eq; cbn); unfold set_sems; cbn; rewrite ?insert_insert_eq.

(** The value of the semaphore of a lock. *)
Definition lock_value (sp : positive) (s : sys) : option Z :=
  x ← slocks s !! sp ; k ← semp x ; sem_value <$> (sems s !! k).

Section Calls.
Variables (s : sys) (n : Z) (nm : string).
Let sp := fresh (dom (slocks s)).

Lemma with_value_value v : lock_value sp (with_value s n nm v) = Some v.
Proof.
  unfold lock_value, with_value, sp. cbn. rewrite lookup_insert_eq. cbn. by rewrite lookup_insert_eq.
Qed.

Lemma s_lock_free : s_lock sp (with_value s n nm 1) = Ret 0%Z (with_value s n nm 0).
Proof. unfold sp. by sem_run. Qed.
Lemma s_lock_held : s_lock sp (with_value s n nm 0) = Blocked (with_value s n nm 0).
Proof. unfold sp. by sem_run. Qed.
Lemma s_trylock_free : s_trylock sp (with_value s n nm 1) = Ret 0%Z (with_value s n nm 0).
Proof. unfold sp. by sem_run. Qed.
Lemma s_trylock_held : s_trylock sp (with_value s n nm 0) = Ret (-1)%Z (with_value s n nm 0).
Proof. unfold sp. by sem_run. Qed.
Lemma s_unlock_held : s_unlock sp (with_value s n nm 0) = Ret 0%Z (with_value s n nm 1).
Proof. unfold sp. by sem_run. Qed.

Lemma s_free_restores :
  kernel_ok s -> s_free sp (with_value s n nm 1) = Ret tt (set_cnt n s).
Proof.
  intros Hk. unfold sp. sem_run. unfold reap. cbn. rewrite lookup_insert_eq. cbn. rewrite decide_True.
  - unfold set_slocks, set_sems, set_cnt. cbn. rewrite lookup_insert_eq. cbn.
    rewrite !delete_insert_id by apply fresh_lookup. done.
  - split; [done|]. intros x k Hx ->. apply (is_fresh (dom (sems s))). by apply (Hk x).
Qed.
End Calls.

(** After [s_alloc] the lock is free: [s_lock]
    takes it, a second [s_lock] waits and [s_trylock] returns -1 without
    changing anything, [s_unlock] makes it free again, and [s_free] destroys
    the semaphore and the [slock], restoring the system as it was before the
    allocation except for the counter. *)
Theorem semlock_session err pid fuel s sp s1 :
  kernel_ok s -> (0 <= pid < 10 ^ 7)%Z -> (0 <= cnt s)%Z ->
  (cnt s + Z.of_nat (size (names s)) < 10 ^ 5)%Z ->
  (Z.of_nat fuel < 10 ^ 9)%Z -> size (names s) < fuel ->
  s_alloc true err pid fuel s = Ret (Some sp) s1 ->
  exists s2, s_lock sp s1 = Ret 0%Z s2 /\ s_lock sp s2 = Blocked s2 /\
    s_trylock sp s2 = Ret (-1)%Z s2 /\ s_trylock sp s1 = Ret 0%Z s2 /\
    s_unlock sp s2 = Ret 0%Z s1 /\ s_free sp s1 = Ret tt (set_cnt (cnt s1) s).
Proof.
  intros Hk Hp H0 Hb Hf Hfuel Hal.
  destruct (s_alloc_ok err pid fuel s Hp H0 Hb Hf Hfuel) as (j & nm & _ & _ & Hfree & E).
  rewrite E in Hal. destruct (err nm); simplify_eq. set (n := (cnt s + Z.of_nat j + 1)%Z).
  change (allocated s n nm) with (with_value s n nm 1).
  exists (with_value s n nm 0).
  split_and!; [apply s_lock_free|apply s_lock_held|apply s_trylock_held|apply s_trylock_free
              |apply s_unlock_held|by apply s_free_restores].
Qed.

Lemma semlock_session_witness :
  exists sp s1 s2, s_alloc true (fun _ => false) 4711 3 crowded = Ret (Some sp) s1 /\
    s_lock sp s1 = Ret 0%Z s2 /\ s_trylock sp s2 = Ret (-1)%Z s2 /\
    s_free sp s1 = Ret tt (set_cnt 3 crowded).
Proof.
  eexists _, _. edestruct (semlock_session (fun _ => false) 4711 3 crowded)
    as (s2 & H1 & H2 & H3 & H4 & H5 & H6); cycle 6.
  - vm_compute. reflexivity.
  - exists s2. split; [vm_compute; reflexivity|]. split; [exact H1|]. split; [exact H3|exact H6].
  - apply map_Forall_insert_2; [set_solver|]. apply map_Forall_singleton. set_solver.
  - vm_compute. split; congruence.
  - vm_compute. congruence.
  - vm_compute. congruence.
  - vm_compute. congruence.
  - vm_compute. lia.
Defined.
