(* ===== verification/SemCounter.v ===== *)
(** * IPC/semlock_test.c: a counter under a lock

    Threads that each add one to a shared counter a number of times, the
    addition being a read and a separate write, inside a lock.  The result is
    proved for any lock that keeps the promises of the [Lock] interface; the
    semaphore lock of sem_lock.c keeps them, which gives the demo's output. *)

From S2P Require Import Prelude Threads SemLock.

(** ** The threads *)

(** Where a thread stands in round [i] of its loop. *)
Inductive cpc :=
| CTest (i : Z)            (** the loop test, then [s_lock] *)
| CRead (i : Z)            (** reading [cnt] *)
| CWrite (i v : Z)         (** writing [v + 1] *)
| CUnlock (i : Z)
| CDone
| CBad.

Record cshared (K : Type) := CShared { c_lock : K; c_cnt : Z }.
Arguments CShared {K} _ _.
Arguments c_lock {K} _.
Arguments c_cnt {K} _.

Section Counter.
Context {K : Type} `{Lock K}.
(** The number of rounds of each thread. *)
Variable N : Z.

(** [thr_fn1] and [thr_fn2], which have the same body. *)
Definition thr_fn_count (j : nat) (s : cshared K) (t : cpc) : list (cshared K * cpc) :=
  match t with
  | CTest i =>
    if decide (i < N)%Z then
      match lk_acquire j (c_lock s) with
      | Some k => [(CShared k (c_cnt s), CRead i)]
      | None => []
      end
    else [(s, CDone)]
  | CRead i => [(s, CWrite i (c_cnt s))]
  | CWrite i v =>
    match int_add v 1 with
    | Some v' => [(CShared (c_lock s) v', CUnlock i)]
    | None => [(s, CBad)]
    end
  | CUnlock i =>
    match lk_release j (c_lock s) with
    | Some k => [(CShared k (c_cnt s), CTest (i + 1))]
    | None => [(s, CBad)]
    end
  | CDone | CBad => []
  end.

(** Increments a thread has made, and whether it is between the lock calls. *)
Definition made (t : cpc) : Z :=
  match t with CTest i | CRead i | CWrite i _ => i | CUnlock i => i + 1 | CDone => N | CBad => 0 end.
Definition inside (t : cpc) : bool :=
  match t with CRead _ | CWrite _ _ | CUnlock _ => true | _ => false end.
Definition at_round (cnt : Z) (t : cpc) : Prop :=
  match t with
  | CTest i => (0 <= i <= N)%Z
  | CRead i | CUnlock i => (0 <= i < N)%Z
  | CWrite i v => (0 <= i < N)%Z /\ v = cnt
  | CDone => (0 <= N)%Z
  | CBad => False
  end.

Definition excl (k : K) (ts : list cpc) : Prop :=
  (lk_free k = true /\ forall j t, ts !! j = Some t -> inside t = false) \/
  (lk_free k = false /\ exists j, lk_held j k /\
     (exists t, ts !! j = Some t /\ inside t = true) /\
     forall j' t, j' <> j -> ts !! j' = Some t -> inside t = false).

Record count_inv (c : config (cshared K) cpc) : Prop := {
  ci_ok : lk_ok (c_lock (shared c));
  ci_excl : excl (c_lock (shared c)) (pool c);
  ci_sum : c_cnt (shared c) = ztotal made (pool c);
  ci_rounds : Forall (at_round (c_cnt (shared c))) (pool c);
  ci_bound : (Z.of_nat (length (pool c)) * N <= INT_MAX)%Z
}.

Definition cweight (t : cpc) : nat :=
  match t with
  | CTest i => S (4 * Z.to_nat (N - i))
  | CRead i => 4 * Z.to_nat (N - i)
  | CWrite i _ => 4 * Z.to_nat (N - i) - 1
  | CUnlock i => 4 * Z.to_nat (N - i) - 2
  | CDone | CBad => 0
  end.

Lemma excl_other j t t' k k' ts :
  ts !! j = Some t -> inside t = false -> lk_free k = true -> excl k ts ->
  lk_free k' = false -> lk_held j k' -> inside t' = true -> excl k' (<[j := t']> ts).
Proof.
  intros Hj Ht Hf He Hf' Hh Ht'. destruct He as [[_ Hout]|[Hff _]]; [|congruence].
  right. split; [done|]. exists j. split; [done|].
  split; [exists t'; by rewrite list_lookup_insert_eq by (by eapply lookup_lt_Some)|].
  intros j' u Hne Hu. rewrite list_lookup_insert_ne in Hu by congruence. by eapply Hout.
Qed.

(** The thread inside is the one that holds the lock. *)
Lemma excl_inside j t k ts :
  ts !! j = Some t -> inside t = true -> excl k ts ->
  lk_free k = false /\ lk_held j k /\ forall j' u, j' <> j -> ts !! j' = Some u -> inside u = false.
Proof.
  intros Hj Ht [[_ Hout]|(Hf & i & Hh & _ & Hout)].
  - rewrite (Hout j t Hj) in Ht. done.
  - destruct (decide (j = i)) as [->|Hne]; [done|]. by rewrite (Hout j t Hne Hj) in Ht.
Qed.

Lemma excl_stay j t t' k ts :
  ts !! j = Some t -> inside t = true -> inside t' = true -> excl k ts -> excl k (<[j := t']> ts).
Proof.
  intros Hj Ht Ht' He. destruct (excl_inside _ _ _ _ Hj Ht He) as (Hf & Hh & Hout).
  right. split; [done|]. exists j. split; [done|].
  split; [exists t'; by rewrite list_lookup_insert_eq by (by eapply lookup_lt_Some)|].
  intros j' u Hne Hu. rewrite list_lookup_insert_ne in Hu by congruence. by eapply Hout.
Qed.

Lemma excl_leave j t t' k k' ts :
  ts !! j = Some t -> inside t = true -> inside t' = false -> excl k ts -> lk_free k' = true ->
  excl k' (<[j := t']> ts).
Proof.
  intros Hj Ht Ht' He Hf'. destruct (excl_inside _ _ _ _ Hj Ht He) as (_ & _ & Hout).
  left. split; [done|]. intros j' u Hu. destruct (decide (j = j')) as [<-|Hne].
  - rewrite list_lookup_insert_eq in Hu by (by eapply lookup_lt_Some). by simplify_eq.
  - rewrite list_lookup_insert_ne in Hu by done. by eapply Hout.
Qed.

Lemma excl_done j t t' k ts :
  ts !! j = Some t -> inside t = false -> inside t' = false -> excl k ts -> excl k (<[j := t']> ts).
Proof.
  intros Hj Ht Ht' [[Hf Hout]|(Hf & i & Hh & (u & Hi & Hu) & Hout)].
  - left. split; [done|]. intros j' u Hu. destruct (decide (j = j')) as [<-|Hne].
    + rewrite list_lookup_insert_eq in Hu by (by eapply lookup_lt_Some). by simplify_eq.
    + rewrite list_lookup_insert_ne in Hu by done. by eapply Hout.
  - right. split; [done|]. exists i. split; [done|].
    assert (j <> i) by (intros ->; congruence).
    split; [exists u; by rewrite list_lookup_insert_ne|].
    intros j' v Hne Hv. destruct (decide (j = j')) as [<-|Hne'].
    + rewrite list_lookup_insert_eq in Hv by (by eapply lookup_lt_Some). by simplify_eq.
    + rewrite list_lookup_insert_ne in Hv by done. by eapply Hout.
Qed.

Lemma made_bound cnt t : at_round cnt t -> (made t <= N)%Z.
Proof. destruct t; cbn; lia. Qed.

Lemma at_round_outside cnt cnt' t : inside t = false -> at_round cnt t -> at_round cnt' t.
Proof. by destruct t. Qed.

(** The counter never exceeds all the rounds of all the threads. *)
Lemma sum_bound (ts : list cpc) j t t' cnt :
  Forall (at_round cnt) ts -> ts !! j = Some t -> (made t' <= N)%Z -> (0 <= N)%Z ->
  (ztotal made ts - made t + made t' <= Z.of_nat (length ts) * N)%Z.
Proof.
  intros Hall Hj Ht' HN. rewrite <- (ztotal_insert made ts j t t' Hj).
  rewrite <- (length_insert ts j t').
  assert (Hall' : Forall (fun u => (made u <= N)%Z) (<[j := t']> ts)).
  { apply Forall_insert; [|done]. eapply Forall_impl; [exact Hall|]. intros u. apply made_bound. }
  clear -Hall' HN. induction Hall' as [|u us Hu _ IH]; cbn [ztotal length]; lia.
Qed.

(** Moving one thread: what is left to show of the new configuration. *)
Lemma count_move s ls j l s' l' :
  count_inv (Config s ls) -> ls !! j = Some l ->
  lk_ok (c_lock s') -> excl (c_lock s') (<[j := l']> ls) ->
  c_cnt s' = (c_cnt s - made l + made l')%Z -> at_round (c_cnt s') l' ->
  (c_cnt s' = c_cnt s \/ forall j' u, j' <> j -> ls !! j' = Some u -> inside u = false) ->
  cweight l' < cweight l ->
  count_inv (Config s' (<[j := l']> ls)) /\ total cweight (<[j := l']> ls) < total cweight ls.
Proof.
  intros [_ _ Hsum Hr Hb] Hj Hok Hex Hcnt Hat Hout Hw. cbn in *.
  split; [|pose proof (total_insert cweight ls j l l' Hj); lia].
  split; cbn; [done|done| | |by rewrite length_insert].
  - rewrite (ztotal_insert _ _ _ _ _ Hj), Hcnt, Hsum. done.
  - apply Forall_lookup_2. intros j' u Hu. destruct (decide (j = j')) as [<-|Hne].
    + rewrite list_lookup_insert_eq in Hu by (by eapply lookup_lt_Some). by simplify_eq.
    + rewrite list_lookup_insert_ne in Hu by done. pose proof (Forall_lookup_1 _ _ _ _ Hr Hu).
      destruct Hout as [->|Hout]; [done|]. by eapply at_round_outside; [eapply Hout|].
Qed.

Lemma count_nonneg cnt ts j t :
  Forall (at_round cnt) ts -> ts !! j = Some t -> (made t <= ztotal made ts)%Z.
Proof.
  intros Hr Hj. eapply ztotal_lookup; [|done]. rewrite Forall_forall in Hr.
  intros y Hy. specialize (Hr y Hy). destruct y; cbn in *; lia.
Qed.

Lemma count_step c c' :
  count_inv c -> step thr_fn_count c c' ->
  count_inv c' /\ total cweight (pool c') < total cweight (pool c).
Proof.
  intros Hinv Hs. inv_step. cbn [pool]. pose proof Hinv as [Hok Hex Hsum Hr Hb]. cbn in *.
  match goal with H1 : _ !! _ = Some _, H2 : _ ∈ _ |- _ => rename H1 into Hj, H2 into Hin end.
  pose proof (Forall_lookup_1 _ _ _ _ Hr Hj) as Hl.
  destruct l as [r|r|r v|r| |]; cbn [thr_fn_count] in Hin; cbn in Hl.
  - destruct (decide (r < N)%Z) as [Hlt|Hge].
    + destruct (lk_acquire i (c_lock s)) as [k|] eqn:Ea; [|by apply elem_of_nil in Hin].
      apply list_elem_of_singleton in Hin. simplify_eq.
      destruct (lk_acquire_held _ _ _ Hok Ea) as (Hf & Hf' & Hh & Hok').
      eapply (count_move _ _ _ _ _ _ Hinv Hj); cbn; [done|by eapply excl_other|lia|lia|by left|lia].
    + apply list_elem_of_singleton in Hin. simplify_eq.
      eapply (count_move _ _ _ _ _ _ Hinv Hj); cbn; [done|by eapply excl_done|lia|lia|by left|lia].
  - apply list_elem_of_singleton in Hin. simplify_eq.
    eapply (count_move _ _ _ _ _ _ Hinv Hj); cbn; [done|by eapply excl_stay|lia|done|by left|lia].
  - destruct Hl as [Hrd ->]. pose proof (count_nonneg _ _ _ _ Hr Hj) as Hnn. cbn in Hnn.
    pose proof (sum_bound ls i _ (CUnlock r) _ Hr Hj ltac:(cbn; lia) ltac:(lia)) as Hsb. cbn in Hsb.
    rewrite int_add_ok in Hin by (unfold INT_MIN; lia).
    apply list_elem_of_singleton in Hin. simplify_eq.
    destruct (excl_inside _ _ _ _ Hj eq_refl Hex) as (_ & _ & Hout).
    eapply (count_move _ _ _ _ _ _ Hinv Hj); cbn; [done|by eapply excl_stay|lia|done|by right|lia].
  - destruct (excl_inside _ _ _ _ Hj eq_refl Hex) as (_ & Hh & _).
    destruct (lk_release_free _ _ Hok Hh) as (k & Ek & Hfk & Hokk). rewrite Ek in Hin.
    apply list_elem_of_singleton in Hin. simplify_eq.
    eapply (count_move _ _ _ _ _ _ Hinv Hj); cbn; [done|by eapply excl_leave|lia|lia|by left|lia].
  - by apply elem_of_nil in Hin.
  - by apply elem_of_nil in Hin.
Qed.

Definition finished (c : config (cshared K) cpc) : Prop := Forall (fun t => t = CDone) (pool c).

Lemma count_progress c :
  count_inv c -> finished c \/ exists c', step thr_fn_count c c'.
Proof.
  destruct c as [s ts]. intros [Hok Hex Hsum Hr Hb]. cbn in *.
  destruct Hex as [[Hf Hout]|(Hf & j & Hh & (t & Hj & Ht) & Hout)].
  - destruct (decide (Forall (fun t => cweight t = 0) ts)) as [Hall|Hne].
    + left. apply Forall_lookup_2. intros j t Hj. cbn in Hj.
      pose proof (Forall_lookup_1 _ _ _ _ Hall Hj) as Hw. pose proof (Hout j t Hj) as Ho.
      pose proof (Forall_lookup_1 _ _ _ _ Hr Hj) as Ha. by destruct t.
    + right. apply not_Forall_Exists in Hne; [|apply _].
      apply Exists_exists in Hne as (t & (j & Hj)%list_elem_of_lookup_1 & Hw).
      pose proof (Hout j t Hj) as Ho. destruct t as [i| | | | |]; try done; [|by destruct Hw..].
      destruct (lk_acquire_free j _ Hok Hf) as [k Hk].
      destruct (decide (i < N)%Z) eqn:E;
        eexists; (eapply step_thread; [exact Hj|]); cbn [thr_fn_count]; rewrite E, ?Hk;
        by apply list_elem_of_singleton.
  - right. destruct t as [i|i|i v|i| |]; try done.
    + eexists. eapply step_thread; [exact Hj|]. by apply list_elem_of_singleton.
    + destruct (int_add v 1) eqn:E; eexists; (eapply step_thread; [exact Hj|]);
        cbn [thr_fn_count]; rewrite E; by apply list_elem_of_singleton.
    + destruct (lk_release j (c_lock s)) eqn:E; eexists; (eapply step_thread; [exact Hj|]);
        cbn [thr_fn_count]; rewrite E; by apply list_elem_of_singleton.
Qed.

(** [n] threads at the start of their loops. *)
Definition count_start (k : K) (n : nat) : config (cshared K) cpc :=
  Config (CShared k 0) (replicate n (CTest 0)).

Lemma count_inv_start k n :
  lk_ok k -> lk_free k = true -> (0 <= N)%Z -> (Z.of_nat n * N <= INT_MAX)%Z ->
  count_inv (count_start k n).
Proof.
  intros Hok Hf HN Hb. split; cbn.
  - done.
  - left. split; [done|]. intros j t Ht. apply lookup_replicate in Ht as [-> _]. done.
  - clear. induction n as [|n IH]; [done|]. cbn. rewrite <- IH. lia.
  - apply Forall_replicate. cbn. lia.
  - by rewrite length_replicate.
Qed.

(** Any lock that keeps its promises makes the additions exact. *)
Lemma count_exact k n :
  lk_ok k -> lk_free k = true -> (0 <= N)%Z -> (Z.of_nat n * N <= INT_MAX)%Z ->
  inevitable thr_fn_count (fun c => finished c /\ c_cnt (shared c) = (Z.of_nat n * N)%Z /\
      lk_ok (c_lock (shared c)) /\ lk_free (c_lock (shared c)) = true) (count_start k n).
Proof.
  intros Hok Hf HN Hb.
  apply (inevitable_measure _ (fun c => count_inv c /\ length (pool c) = n) _ (fun c => total cweight (pool c))).
  - intros c c' [Hc Hn] Hs. split; [by apply (count_step _ _ Hc Hs)|].
    inversion Hs; subst. cbn. by rewrite length_insert.
  - intros c [Hc Hn]. destruct (count_progress c Hc) as [Hfin|?]; [left|by right].
    destruct Hc as [Hok' Hex Hsum _ _]. split; [done|]. split; [|split; [done|]].
    + rewrite Hsum, <- Hn. unfold finished in Hfin. clear -Hfin.
      induction Hfin as [|t ts -> _ IH]; cbn [ztotal length made]; [done|]. rewrite IH. lia.
    + destruct Hex as [[? _]|(_ & j & _ & (t & Hj & Ht) & _)]; [done|].
      by rewrite (Forall_lookup_1 _ _ _ _ Hfin Hj) in Ht.
  - intros c c' [Hc _] Hs. by apply (count_step _ _ Hc Hs).
  - split; [by apply count_inv_start|]. cbn. by rewrite length_replicate.
Qed.
End Counter.

(** ** The semaphore lock keeps the promises *)

Definition run_lock (sp : positive) (s : sys) : option sys :=
  match s_lock sp s with Ret _ s' => Some s' | _ => None end.
Definition run_unlock (sp : positive) (s : sys) : option sys :=
  match s_unlock sp s with Ret _ s' => Some s' | _ => None end.

(** The lock that [s_alloc] made in system [s]. *)
#[export] Instance slock_is_lock (s : sys) (n : Z) (nm : string) : Lock sys.
Proof.
  set (sp := fresh (dom (slocks s))).
  refine {|
    lk_free k := bool_decide (lock_value sp k = Some 1%Z);
    lk_acquire _ := run_lock sp;
    lk_release _ := run_unlock sp;
    lk_ok k := k = with_value s n nm 0 \/ k = with_value s n nm 1;
    lk_held _ k := k = with_value s n nm 0
  |}.
  - intros _ k [->| ->] Hf%bool_decide_eq_true; unfold sp in Hf; rewrite with_value_value in Hf; [done|].
    unfold run_lock, sp. rewrite s_lock_free. by eexists.
  - unfold run_lock, sp. intros _ k k' [->| ->] Ha; [by rewrite s_lock_held in Ha|].
    rewrite s_lock_free in Ha. simplify_eq. rewrite !with_value_value.
    split; [done|]. split; [done|]. split; [done|by left].
  - unfold run_unlock, sp. intros _ k _ ->. exists (with_value s n nm 1).
    rewrite s_unlock_held, with_value_value. split; [done|]. split; [done|by right].
Defined.

(** ** The demo *)

Definition ROUNDS : Z := 1000000.

(** [main] after the joins: the message and [s_free]. *)
Definition semlock_report (n : Z) : string := "CNT: " +:+ pretty n +:+ nl.

(** The two threads, once [s_alloc] has returned in state [s]. *)
Definition semlock_start (s : sys) : config (cshared sys) cpc :=
  count_start s 2.

Lemma semlock_main_ok s n nm :
  kernel_ok s ->
  inevitable (thr_fn_count (H := slock_is_lock s n nm) ROUNDS)
    (fun c => finished c /\ c_cnt (shared c) = 2000000%Z /\
       s_free (fresh (dom (slocks s))) (c_lock (shared c)) = Ret tt (set_cnt n s))
    (semlock_start (with_value s n nm 1)).
Proof.
  intros Hk. eapply inevitable_weaken; [|apply (count_exact (H := slock_is_lock _ _ _) ROUNDS)].
  - intros c (Hfin & Hcnt & Hok & Hfr). split; [done|]. split; [done|].
    apply bool_decide_eq_true in Hfr. destruct Hok as [E|E]; rewrite E in *.
    + by rewrite with_value_value in Hfr.
    + by apply s_free_restores.
  - by right.
  - cbn. rewrite with_value_value. by apply bool_decide_eq_true.
  - done.
  - done.
Qed.

(** Property C6.  Once [s_alloc] has returned a lock, the demo's
    two threads cannot deadlock, race or overflow the counter: in every
    interleaving both end with the counter at two million, which [main]
    prints, and [s_free] then puts the system back as it was before
    [s_alloc]. *)
Theorem semlock_main err pid fuel s sp s1 :
  kernel_ok s -> (0 <= pid < 10 ^ 7)%Z -> (0 <= SemLock.cnt s)%Z ->
  (SemLock.cnt s + Z.of_nat (size (names s)) < 10 ^ 5)%Z ->
  (Z.of_nat fuel < 10 ^ 9)%Z -> size (names s) < fuel ->
  s_alloc true err pid fuel s = Ret (Some sp) s1 ->
  exists n nm, inevitable (thr_fn_count (H := slock_is_lock s n nm) ROUNDS)
    (fun c => finished c /\ semlock_report (c_cnt (shared c)) = "CNT: 2000000" +:+ nl /\
       s_free sp (c_lock (shared c)) = Ret tt (set_cnt n s))
    (semlock_start s1).
Proof.
  intros Hk Hp H0 Hb Hf Hfuel Hal.
  destruct (s_alloc_ok err pid fuel s Hp H0 Hb Hf Hfuel) as (j & nm & _ & _ & Hfree & E).
  rewrite E in Hal. destruct (err nm); simplify_eq.
  exists (SemLock.cnt s + Z.of_nat j + 1)%Z, nm.
  eapply inevitable_weaken; [|by apply semlock_main_ok].
  intros c (Hfin & Hcnt & Hfree'). rewrite Hcnt. split; [done|]. split; [by vm_compute|done].
Qed.

Lemma semlock_main_witness :
  exists sp s1, s_alloc true (fun _ => false) 4711 3 crowded = Ret (Some sp) s1 /\
    exists n nm, inevitable (thr_fn_count (H := slock_is_lock crowded n nm) ROUNDS)
    (fun c => finished c /\ semlock_report (c_cnt (shared c)) = "CNT: 2000000" +:+ nl /\
       s_free sp (c_lock (shared c)) = Ret tt (set_cnt n crowded))
    (semlock_start s1).
Proof.
  eexists _, _. split; [vm_compute; reflexivity|].
  apply (semlock_main (fun _ => false) 4711 3 crowded).
  - apply map_Forall_insert_2; [set_solver|]. apply map_Forall_singleton. set_solver.
  - vm_compute. split; congruence.
  - vm_compute. congruence.
  - vm_compute. congruence.
  - vm_compute. congruence.
  - vm_compute. lia.
  - vm_compute. reflexivity.
Defined.
