(* ===== verification/RecordLock.v ===== *)
(** * flock/lock_reg.c, flock/flock_helpers.h: advisory record locks

    The functions [lock_reg] and [lock_test] fill in a [struct flock] and
    call [fcntl].  The kernel's side is the POSIX record-lock table of one
    file: each entry is a lock of a process on a range of bytes; a process's
    new lock replaces its old ones on the range, and locks of different
    processes on a common byte must both be read locks. *)

From S2P Require Import Prelude.

(** Open file descriptions of the locked file, seen by each process. *)
Record ofile := OFile { o_pos : Z; o_read : bool; o_write : bool }.

Inductive ltype := F_RDLCK | F_WRLCK | F_UNLCK.
Inductive lcmd := F_GETLK | F_SETLK | F_SETLKW.
Inductive whence := SEEK_SET | SEEK_CUR | SEEK_END.
Inductive errno := EBADF | EINVAL | EACCES | EAGAIN | EDEADLK | EOVERFLOW.

#[export] Instance ltype_dec : EqDecision ltype.
Proof. solve_decision. Defined.
#[export] Instance errno_dec : EqDecision errno.
Proof. solve_decision. Defined.

(** [struct flock]. *)
Record flock := Flock { l_type : ltype; l_whence : whence; l_start : Z; l_len : Z; l_pid : Z }.

(** A range of bytes: first byte, and the byte after the last one ([None]:
    to the end of the file, however far it grows). *)
Record range := Range { r_lo : Z; r_hi : option Z }.

#[export] Instance range_dec : EqDecision range.
Proof. solve_decision. Defined.

(** An entry of the lock table. *)
Record entry := Entry { e_pid : Z; e_excl : bool; e_range : range }.

#[export] Instance entry_dec : EqDecision entry.
Proof. solve_decision. Defined.

Record lks := Lks {
  table : list entry;
  fsize : Z;
  fds : gmap (Z * Z) ofile;              (** keyed by process and descriptor *)
  waiting : gmap Z (bool * range);       (** what a blocked process asks for *)
  errno_of : gmap Z errno
}.

Definition set_table (t : list entry) (s : lks) : lks := Lks t (fsize s) (fds s) (waiting s) (errno_of s).
Definition set_waiting (w : gmap Z (bool * range)) (s : lks) : lks := Lks (table s) (fsize s) (fds s) w (errno_of s).
Definition set_errno (pid : Z) (e : errno) (s : lks) : lks :=
  Lks (table s) (fsize s) (fds s) (waiting s) (<[pid := e]> (errno_of s)).

(** ** The kernel's table *)

Definition below (b : Z) (hi : option Z) : bool :=
  match hi with Some h => (b <? h)%Z | None => true end.
Definition covers (r : range) (b : Z) : bool := ((r_lo r <=? b)%Z && below b (r_hi r)).
Definition overlap (r1 r2 : range) : bool := below (r_lo r1) (r_hi r2) && below (r_lo r2) (r_hi r1).
Definition nonempty (r : range) : bool := below (r_lo r) (r_hi r).

(** An entry that stands in the way of process [pid]. *)
Definition conflict (pid : Z) (excl : bool) (r : range) (e : entry) : bool :=
  negb (e_pid e =? pid)%Z && overlap r (e_range e) && (excl || e_excl e).

Definition zmin_hi (a : option Z) (b : Z) : Z := match a with Some x => Z.min x b | None => b end.

(** What is left of an entry outside the range [r]. *)
Definition carve1 (r : range) (e : entry) : list entry :=
  let er := e_range e in
  (if (r_lo er <? r_lo r)%Z
   then [Entry (e_pid e) (e_excl e) (Range (r_lo er) (Some (zmin_hi (r_hi er) (r_lo r))))] else []) ++
  match r_hi r with
  | None => []
  | Some h => if below h (r_hi er)
              then [Entry (e_pid e) (e_excl e) (Range (Z.max (r_lo er) h) (r_hi er))] else []
  end.
Definition carve (pid : Z) (r : range) (t : list entry) : list entry :=
  t ≫= fun e => if (e_pid e =? pid)%Z then carve1 r e else [e].

(** Setting the lock of a process on a range. *)
Definition put_lock (pid : Z) (ty : ltype) (r : range) (t : list entry) : list entry :=
  carve pid r t ++
  match ty with
  | F_UNLCK => []
  | F_RDLCK => [Entry pid false r]
  | F_WRLCK => [Entry pid true r]
  end.

(** The bytes a [struct flock] names. *)
Definition OFF_MAX : Z := 2 ^ 63 - 1.
Definition resolve (s : lks) (o : ofile) (fl : flock) : range + errno :=
  let base := match l_whence fl with SEEK_SET => 0 | SEEK_CUR => o_pos o | SEEK_END => fsize s end%Z in
  let start := (base + l_start fl)%Z in
  if (OFF_MAX <? start)%Z then inr EOVERFLOW
  else if (start <? 0)%Z then inr EINVAL
  else if (0 <? l_len fl)%Z then
    if (OFF_MAX <? start + l_len fl - 1)%Z then inr EOVERFLOW
    else inl (Range start (Some (start + l_len fl)%Z))
  else if (l_len fl <? 0)%Z then
    if (start + l_len fl <? 0)%Z then inr EINVAL
    else inl (Range (start + l_len fl)%Z (Some start))
  else inl (Range start None).

(** A process waits, directly or through other waiting processes, for [target]. *)
Fixpoint waits_for (fuel : nat) (s : lks) (target : Z) (pid : Z) (excl : bool) (r : range) : bool :=
  match fuel with
  | O => false
  | S fuel' =>
    existsb (fun e =>
      conflict pid excl r e &&
      ((e_pid e =? target)%Z ||
       match waiting s !! e_pid e with
       | Some (x, r') => waits_for fuel' s target (e_pid e) x r'
       | None => false
       end)) (table s)
  end.
Definition would_deadlock (s : lks) (pid : Z) (excl : bool) (r : range) : bool :=
  existsb (fun e => conflict pid excl r e &&
    match waiting s !! e_pid e with
    | Some (x, r') => waits_for (size (waiting s)) s pid (e_pid e) x r'
    | None => false
    end) (table s).

(** The descriptor allows a lock of this type. *)
Definition mode_ok (o : ofile) (ty : ltype) : bool :=
  match ty with F_RDLCK => o_read o | F_WRLCK => o_write o | F_UNLCK => true end.
Definition is_excl (ty : ltype) : bool := match ty with F_WRLCK => true | _ => false end.

Definition fail (pid : Z) (e : errno) (fl : flock) : prog lks (Z * flock) := fun s =>
  Ret ((-1)%Z, fl) (set_errno pid e s).

(** [fcntl(fd, cmd, &fl)] by process [pid]: the result and the structure as
    the call leaves it. *)
Definition fcntl (pid fd : Z) (cmd : lcmd) (fl : flock) : prog lks (Z * flock) := fun s =>
  match fds s !! (pid, fd) with
  | None => fail pid EBADF fl s
  | Some o =>
    match resolve s o fl with
    | inr e => fail pid e fl s
    | inl r =>
      match cmd with
      | F_GETLK =>
        match l_type fl with
        | F_UNLCK => fail pid EINVAL fl s
        | ty =>
          match filter (fun e => conflict pid (is_excl ty) r e = true) (table s) with
          | [] => Ret (0%Z, Flock F_UNLCK (l_whence fl) (l_start fl) (l_len fl) (l_pid fl)) s
          | e :: _ =>
            Ret (0%Z, Flock (if e_excl e then F_WRLCK else F_RDLCK) SEEK_SET (r_lo (e_range e))
                 (match r_hi (e_range e) with Some h => h - r_lo (e_range e) | None => 0 end)%Z (e_pid e)) s
          end
        end
      | _ =>
        if mode_ok o (l_type fl) then
          match l_type fl with
          | F_UNLCK => Ret (0%Z, fl) (set_table (put_lock pid F_UNLCK r (table s)) s)
          | ty =>
            if existsb (conflict pid (is_excl ty) r) (table s) then
              match cmd with
              | F_SETLKW =>
                if would_deadlock s pid (is_excl ty) r then fail pid EDEADLK fl s
                else Blocked (set_waiting (<[pid := (is_excl ty, r)]> (waiting s)) s)
              | _ => fail pid EAGAIN fl s
              end
            else Ret (0%Z, fl) (set_waiting (delete pid (waiting s)) (set_table (put_lock pid ty r (table s)) s))
          end
        else fail pid EBADF fl s
      end
    end
  end.

(** ** lock_reg.c *)

Definition lock_reg (pid fd : Z) (cmd : lcmd) (type : ltype) (offset : Z) (wh : whence) (len : Z)
    : prog lks Z :=
  r ← fcntl pid fd cmd (Flock type wh offset len 0) ; mret r.1.

Definition lock_test (pid fd : Z) (type : ltype) (offset : Z) (wh : whence) (len : Z) : prog lks Z :=
  r ← fcntl pid fd F_GETLK (Flock type wh offset len 0) ;
  if (r.1 <? 0)%Z then c_exit (-1)
  else if decide (l_type r.2 = F_UNLCK) then mret 0%Z
  else mret (l_pid r.2).

(** The macros of flock_helpers.h. *)
Definition read_lock pid fd := lock_reg pid fd F_SETLK F_RDLCK.
Definition readw_lock pid fd := lock_reg pid fd F_SETLKW F_RDLCK.
Definition write_lock pid fd := lock_reg pid fd F_SETLK F_WRLCK.
Definition writew_lock pid fd := lock_reg pid fd F_SETLKW F_WRLCK.
Definition un_lock pid fd := lock_reg pid fd F_SETLK F_UNLCK.
Definition is_read_lockable pid fd := lock_test pid fd F_RDLCK.
Definition is_write_lockable pid fd := lock_test pid fd F_WRLCK.

(** ** What a table means, byte by byte *)

(** Process [p] holds a lock on byte [b], exclusive or shared. *)
Definition holds (t : list entry) (p b : Z) (x : bool) : Prop :=
  exists e, e ∈ t /\ e_pid e = p /\ covers (e_range e) b = true /\ e_excl e = x.

(** No two processes hold conflicting locks on a byte; ranges are not empty. *)
Definition exclusive (t : list entry) : Prop :=
  forall p q b x y, p <> q -> holds t p b x -> holds t q b y -> x = false /\ y = false.
Definition table_ok (t : list entry) : Prop :=
  exclusive t /\ Forall (fun e => nonempty (e_range e) = true) t.

Ltac ranges := unfold covers, overlap, nonempty, below, zmin_hi in *; cbn in *.

Lemma carve1_covers r e b x :
  (exists e', e' ∈ carve1 r e /\ covers (e_range e') b = true /\ e_excl e' = x) <->
  covers (e_range e) b = true /\ covers r b = false /\ e_excl e = x.
Proof.
  destruct r as [lo hi], e as [p ex [elo ehi]]. unfold carve1. cbn. split.
  - intros (e' & Hin & Hc & Hx). apply elem_of_app in Hin as [Hin|Hin].
    + destruct (elo <? lo)%Z eqn:E; [|by apply elem_of_nil in Hin].
      apply list_elem_of_singleton in Hin. subst. ranges. destruct ehi, hi; repeat split; lia.
    + destruct hi as [h|]; [|by apply elem_of_nil in Hin].
      destruct (below h ehi) eqn:E; [|by apply elem_of_nil in Hin].
      apply list_elem_of_singleton in Hin. subst. ranges. destruct ehi; repeat split; lia.
  - intros (Hc & Hn & Hx). subst x. setoid_rewrite elem_of_app.
    destruct (decide (b < lo)%Z) as [Hb|Hb].
    + exists (Entry p ex (Range elo (Some (zmin_hi ehi lo)))). ranges.
      assert ((elo <? lo)%Z = true) as -> by lia.
      split; [left; by apply list_elem_of_singleton|]. split; [destruct ehi; lia|done].
    + destruct hi as [h|]; [|ranges; lia].
      exists (Entry p ex (Range (Z.max elo h) ehi)). ranges.
      assert (match ehi with Some h0 => (h <? h0)%Z | None => true end = true) as -> by (destruct ehi; lia).
      split; [right; by apply list_elem_of_singleton|]. split; [destruct ehi; lia|done].
Qed.

Lemma carve1_pid r e e' : e' ∈ carve1 r e -> e_pid e' = e_pid e.
Proof.
  unfold carve1. intros [Hin|Hin]%elem_of_app.
  - destruct (_ <? _)%Z; [|by apply elem_of_nil in Hin]. by apply list_elem_of_singleton in Hin as ->.
  - destruct (r_hi r); [|by apply elem_of_nil in Hin].
    destruct (below _ _); [|by apply elem_of_nil in Hin]. by apply list_elem_of_singleton in Hin as ->.
Qed.

Lemma carve_holds p r t q b x :
  holds (carve p r t) q b x <-> holds t q b x /\ (q = p -> covers r b = false).
Proof.
  unfold holds, carve. setoid_rewrite list_elem_of_bind. split.
  - intros (e' & (e & Hin & He) & Hp & Hc & Hx).
    destruct (e_pid e =? p)%Z eqn:E.
    + pose proof (carve1_pid _ _ _ Hin) as Hpid.
      destruct (proj1 (carve1_covers r e b x)) as (H1 & H2 & H3); [by exists e'|].
      split; [exists e; split_and!; [done|congruence|done|done]|done].
    + apply list_elem_of_singleton in Hin as ->. split; [by exists e|]. lia.
  - intros [(e & Hin & Hp & Hc & Hx) Hn]. destruct (e_pid e =? p)%Z eqn:E.
    + assert (q = p) as -> by lia.
      destruct (proj2 (carve1_covers r e b x)) as (e' & H1 & H2 & H3); [by rewrite Hn|].
      exists e'. split; [exists e; by rewrite E|]. pose proof (carve1_pid _ _ _ H1).
      split; [congruence|done].
    + exists e. split; [exists e; rewrite E; split; [by apply list_elem_of_singleton|done]|done].
Qed.

(** A lock call changes the caller's locks on the range and nothing else. *)
Lemma put_lock_holds p ty r t q b x :
  holds (put_lock p ty r t) q b x <->
  if decide (q = p /\ covers r b = true) then ty <> F_UNLCK /\ x = is_excl ty else holds t q b x.
Proof.
  unfold put_lock.
  assert (Happ : holds (carve p r t ++
      match ty with F_UNLCK => [] | F_RDLCK => [Entry p false r] | F_WRLCK => [Entry p true r] end) q b x <->
    holds (carve p r t) q b x \/ (ty <> F_UNLCK /\ q = p /\ covers r b = true /\ x = is_excl ty)).
  { unfold holds. setoid_rewrite elem_of_app. split.
    - intros (e & [Hin|Hin] & Hp & Hc & Hx); [left; by exists e|right].
      destruct ty; [apply list_elem_of_singleton in Hin as ->..|by apply elem_of_nil in Hin];
        cbn in *; by subst.
    - intros [(e & Hin & H)|(Hty & -> & Hc & ->)]; [exists e; tauto|].
      exists (Entry p (is_excl ty) r). split; [right; destruct ty; by try apply list_elem_of_singleton|done]. }
  rewrite Happ, carve_holds. destruct (decide _) as [[-> Hc]|Hn].
  - rewrite Hc. split; [|tauto]. intros [[_ H]|H]; [|tauto]. discriminate H; done.
  - split; [intros [H|H]; tauto|]. intros H. left. split; [done|].
    intros ->. destruct (covers r b); [tauto|done].
Qed.

Lemma nonempty_put p ty r t :
  nonempty r = true -> Forall (fun e => nonempty (e_range e) = true) t ->
  Forall (fun e => nonempty (e_range e) = true) (put_lock p ty r t).
Proof.
  intros Hr Ht. unfold put_lock. apply Forall_app. split.
  - unfold carve. apply Forall_forall. intros e' (e & Hin & He)%list_elem_of_bind.
    rewrite Forall_forall in Ht. specialize (Ht e He).
    destruct (e_pid e =? p)%Z; [|by apply list_elem_of_singleton in Hin as ->].
    destruct r as [lo hi], e as [q ex [elo ehi]]. unfold carve1 in Hin. cbn in *.
    apply elem_of_app in Hin as [Hin|Hin].
    + destruct (elo <? lo)%Z eqn:E; [|by apply elem_of_nil in Hin].
      apply list_elem_of_singleton in Hin as ->. ranges. destruct ehi; lia.
    + destruct hi as [h|]; [|by apply elem_of_nil in Hin].
      destruct (below h ehi) eqn:E; [|by apply elem_of_nil in Hin].
      apply list_elem_of_singleton in Hin as ->. ranges. destruct ehi; lia.
  - destruct ty; by repeat constructor.
Qed.

Lemma overlap_common r1 r2 b :
  covers r1 b = true -> covers r2 b = true -> overlap r1 r2 = true.
Proof. destruct r1 as [l1 [h1|]], r2 as [l2 [h2|]]; ranges; lia. Qed.

Lemma overlap_byte r1 r2 :
  nonempty r1 = true -> nonempty r2 = true -> overlap r1 r2 = true ->
  exists b, covers r1 b = true /\ covers r2 b = true.
Proof.
  intros H1 H2 H. exists (Z.max (r_lo r1) (r_lo r2)).
  destruct r1 as [l1 [h1|]], r2 as [l2 [h2|]]; ranges; lia.
Qed.

(** Some other process has a lock on a byte of the range that excludes ours. *)
Definition blocked_by (t : list entry) (pid : Z) (excl : bool) (r : range) (q : Z) : Prop :=
  q <> pid /\ exists b x, covers r b = true /\ holds t q b x /\ (excl || x = true).

Lemma conflict_spec t pid excl r e :
  table_ok t -> nonempty r = true -> e ∈ t -> conflict pid excl r e = true ->
  blocked_by t pid excl r (e_pid e).
Proof.
  intros [_ Hne] Hr Hin Hc. rewrite Forall_forall in Hne. unfold conflict in Hc.
  apply andb_true_iff in Hc as [Hc Hx]. apply andb_true_iff in Hc as [Hp Ho].
  destruct (overlap_byte _ _ Hr (Hne e Hin) Ho) as (b & Hb1 & Hb2).
  split; [lia|]. exists b, (e_excl e). split; [done|]. split; [by exists e|done].
Qed.

Lemma blocked_conflict t pid excl r q :
  blocked_by t pid excl r q -> exists e, e ∈ t /\ e_pid e = q /\ conflict pid excl r e = true.
Proof.
  intros (Hq & b & x & Hb & (e & Hin & Hp & Hc & Hx) & Hex). exists e. split; [done|]. split; [done|].
  unfold conflict. rewrite (overlap_common _ _ _ Hb Hc), Hp, Hx, Hex.
  destruct (Z.eqb_spec q pid); done.
Qed.

Lemma put_lock_ok pid ty r t :
  table_ok t -> nonempty r = true ->
  (ty = F_UNLCK \/ forall q, ~ blocked_by t pid (is_excl ty) r q) ->
  table_ok (put_lock pid ty r t).
Proof.
  intros [Hex Hne] Hr Hfree. split; [|by apply nonempty_put].
  intros p q b x y Hpq. rewrite !put_lock_holds.
  assert (Hkey : forall q' y', q' <> pid -> covers r b = true -> ty <> F_UNLCK -> holds t q' b y' ->
    is_excl ty = false /\ y' = false).
  { intros q' y' Hq' Hb Hty Hh. destruct Hfree as [?|Hfree]; [done|].
    assert (is_excl ty || y' <> true) as Hn.
    { intros E. apply (Hfree q'). split; [done|]. by exists b, y'. }
    destruct (is_excl ty), y'; done. }
  destruct (decide (p = pid /\ _)) as [[-> Hb]|Hp], (decide (q = pid /\ _)) as [[-> Hb']|Hq].
  - done.
  - intros [Hty ->] Hh. apply (Hkey q y); [congruence|done|done|done].
  - intros Hh [Hty ->]. destruct (Hkey p x) as [? ?]; [congruence|done|done|done|done].
  - apply (Hex p q b x y Hpq).
Qed.

Lemma resolve_nonempty s o fl r : resolve s o fl = inl r -> nonempty r = true.
Proof.
  unfold resolve. intros H. repeat case_match; simplify_eq; ranges; lia.
Qed.

Lemma no_conflict t pid x r :
  existsb (conflict pid x r) t = false -> forall q, ~ blocked_by t pid x r q.
Proof.
  intros He q (e & Hin & _ & Hc)%blocked_conflict.
  assert (existsb (conflict pid x r) t = true); [|congruence].
  apply existsb_exists. exists e. split; [by apply list_elem_of_In|done].
Qed.

Lemma some_conflict t pid x r :
  table_ok t -> nonempty r = true -> existsb (conflict pid x r) t = true ->
  exists q, blocked_by t pid x r q.
Proof.
  intros Ht Hr (e & Hin & Hc)%existsb_exists. exists (e_pid e).
  apply conflict_spec; [done|done|by apply list_elem_of_In|done].
Qed.

(** Every outcome of a locking call. *)
Lemma fcntl_set_cases pid fd cmd ty off wh len s :
  cmd <> F_GETLK -> table_ok (table s) ->
  match lock_reg pid fd cmd ty off wh len s with
  | Ret n s' =>
    (n = 0%Z /\ exists o r, fds s !! (pid, fd) = Some o /\
       resolve s o (Flock ty wh off len 0) = inl r /\
       table s' = put_lock pid ty r (table s) /\
       (ty = F_UNLCK \/ forall q, ~ blocked_by (table s) pid (is_excl ty) r q)) \/
    (n = (-1)%Z /\ table s' = table s)
  | Blocked s' => table s' = table s
  | _ => False
  end.
Proof.
  intros Hcmd Ht. unfold lock_reg, fcntl, fail. unix_unfold.
  destruct (fds s !! (pid, fd)) as [o|]; [|by right].
  destruct (resolve s o _) as [r|e] eqn:Er; [|by right].
  destruct cmd; [done| |]; cbn; destruct (mode_ok o ty); try by right.
  - destruct ty; cbn; [destruct (existsb _ _) eqn:E..|].
    all: try by right.
    + left. split; [done|]. exists o, r. split_and!; try done. right. by apply no_conflict.
    + left. split; [done|]. exists o, r. split_and!; try done. right. by apply no_conflict.
    + left. split; [done|]. exists o, r. split_and!; try done. by left.
  - destruct ty; cbn; [destruct (existsb _ _) eqn:E..|].
    all: try (destruct (would_deadlock _ _ _ _); by try right).
    + left. split; [done|]. exists o, r. split_and!; try done. right. by apply no_conflict.
    + left. split; [done|]. exists o, r. split_and!; try done. right. by apply no_conflict.
    + left. split; [done|]. exists o, r. split_and!; try done. by left.
Qed.

(** Property C8.  Whatever its arguments, a locking or unlocking
    call keeps the table free of conflicting locks; it fails or waits without
    touching the table, and when it succeeds the caller has exactly the
    requested lock on the bytes of the range and every other lock on every
    byte is as before. *)
Theorem lock_reg_safe pid fd cmd ty off wh len s :
  cmd <> F_GETLK -> table_ok (table s) ->
  match lock_reg pid fd cmd ty off wh len s with
  | Ret n s' =>
    table_ok (table s') /\
    (n = 0%Z /\ (exists o r, fds s !! (pid, fd) = Some o /\
       resolve s o (Flock ty wh off len 0) = inl r /\
       forall q b x, holds (table s') q b x <->
         if decide (q = pid /\ covers r b = true) then ty <> F_UNLCK /\ x = is_excl ty
         else holds (table s) q b x) \/
     n = (-1)%Z /\ table s' = table s)
  | Blocked s' => table s' = table s
  | _ => False
  end.
Proof.
  intros Hcmd Ht. pose proof (fcntl_set_cases pid fd cmd ty off wh len s Hcmd Ht) as Hc.
  destruct (lock_reg _ _ _ _ _ _ _ s) as [n s'| | |]; try done.
  destruct Hc as [(-> & o & r & Ho & Hr & Htab & Hfree)|(-> & Htab)]; rewrite Htab.
  - split; [apply put_lock_ok; [done|by eapply resolve_nonempty|done]|].
    left. split; [done|]. exists o, r. split; [done|]. split; [done|].
    intros q b x. apply put_lock_holds.
  - split; [done|]. by right.
Qed.

Definition sample_file : lks :=
  Lks [Entry 10 true (Range 0 (Some 4%Z)); Entry 20 false (Range 6 None)] 8
      {[ (10, 3)%Z := OFile 0 true true; (20, 3)%Z := OFile 2 true true ]} ∅ ∅.

Lemma sample_table_ok : table_ok (table sample_file).
Proof.
  split; [|by repeat constructor].
  intros p q b x y Hpq (e & Hin & Hp & Hc & Hx) (e' & Hin' & Hq & Hc' & Hy). cbn in Hin, Hin'.
  rewrite !elem_of_cons, elem_of_nil in Hin, Hin'.
  destruct Hin as [->|[->|[]]], Hin' as [->|[->|[]]]; cbn in *; subst; try done; ranges; lia.
Qed.

Lemma lock_reg_safe_witness :
  exists s', write_lock 10 3 5 SEEK_SET 1 sample_file = Ret 0%Z s' /\ table_ok (table s').
Proof.
  eexists. split; [vm_compute; reflexivity|].
  exact (proj1 (lock_reg_safe 10 3 F_SETLK F_WRLCK 5 SEEK_SET 1 sample_file ltac:(discriminate) sample_table_ok)).
Defined.

(** The descriptor and the range that a call names, if both are valid. *)
Definition named (pid fd : Z) (fl : flock) (s : lks) : option (ofile * range) :=
  o ← fds s !! (pid, fd) ;
  match resolve s o fl with inl r => Some (o, r) | inr _ => None end.

Lemma filter_conflict pid x r t :
  existsb (conflict pid x r) t =
  match filter (fun e => conflict pid x r e = true) t with [] => false | _ => true end.
Proof.
  induction t as [|e t IH]; [done|]. cbn [existsb]. rewrite IH, filter_cons.
  by destruct (conflict pid x r e).
Qed.

(** Property C15.  [lock_test] tells what the non-blocking [lock_reg] would
    do, for a read or a write lock: with a bad descriptor or range it exits
    with -1 where [lock_reg] fails with the same error number; otherwise it
    returns 0 exactly when no other process holds a conflicting lock on a
    byte of the range, and the process id of such a holder if there is one.
    [lock_reg] succeeds exactly when the test gave 0 and the descriptor is
    open for what the lock needs: the test does not look at that, for which
    [lock_reg] fails with [EBADF]; for a holder it fails with [EAGAIN]. *)
Theorem lock_test_spec pid fd ty off wh len s :
  table_ok (table s) -> Forall (fun e => 0 < e_pid e)%Z (table s) -> ty <> F_UNLCK ->
  match named pid fd (Flock ty wh off len 0) s with
  | None => exists s', lock_test pid fd ty off wh len s = Exited (-1) s' /\
      lock_reg pid fd F_SETLK ty off wh len s = Ret (-1)%Z s' /\ is_Some (errno_of s' !! pid)
  | Some (o, r) => exists n s', lock_test pid fd ty off wh len s = Ret n s /\
    (n = 0%Z <-> forall q, ~ blocked_by (table s) pid (is_excl ty) r q) /\
    (n <> 0%Z -> blocked_by (table s) pid (is_excl ty) r n) /\
    lock_reg pid fd F_SETLK ty off wh len s = Ret (if decide (n = 0%Z /\ mode_ok o ty = true) then 0 else -1)%Z s' /\
    (mode_ok o ty = true -> n <> 0%Z -> errno_of s' !! pid = Some EAGAIN) /\
    (mode_ok o ty = false -> errno_of s' !! pid = Some EBADF)
  end.
Proof.
  intros Ht Hpos Hty. unfold named, lock_test, lock_reg, fcntl, fail. unix_unfold. cbn [mbind option_bind].
  destruct (fds s !! (pid, fd)) as [o|]; cbn;
    [|eexists; split_and!; [done|done|cbn; rewrite lookup_insert_eq; by eexists]].
  destruct (resolve s o (Flock ty wh off len 0)) as [r|e] eqn:Hr;
    [|eexists; split_and!; [done|done|cbn; rewrite lookup_insert_eq; by eexists]].
  pose proof (resolve_nonempty _ _ _ _ Hr) as Hne. pose proof (filter_conflict pid (is_excl ty) r (table s)) as Hf.
  destruct (filter (fun e => conflict pid (is_excl ty) r e = true) (table s)) as [|e l] eqn:Ef.
  - exists 0%Z. destruct (mode_ok o ty) eqn:Hm.
    + eexists. destruct ty; [..|done]; cbn in *; rewrite Ef, Hf; cbn.
      all: split_and!; try done; (split; [intros _; by apply no_conflict|done]).
    + eexists. destruct ty; [..|done]; cbn in *; rewrite Ef; cbn.
      all: split_and!; try done; [split; [intros _; by apply no_conflict|done]|intros _; apply lookup_insert_eq].
  - assert (e ∈ table s /\ conflict pid (is_excl ty) r e = true) as [Hin Hc].
    { assert (e ∈ e :: l) as He by (by left). rewrite <- Ef in He. apply list_elem_of_filter in He. tauto. }
    rewrite Forall_forall in Hpos. specialize (Hpos e Hin). cbn in Hpos.
    pose proof (conflict_spec _ _ _ _ _ Ht Hne Hin Hc) as Hb.
    assert (Hlock : e_pid e = 0%Z <-> forall q, ~ blocked_by (table s) pid (is_excl ty) r q).
    { split; [lia|]. intros Hn. destruct (Hn _ Hb). }
    exists (e_pid e). eexists (set_errno pid (if mode_ok o ty then EAGAIN else EBADF) s).
    destruct ty; [..|done]; cbn in *; rewrite Ef, Hf; cbn; [destruct (o_read o)|destruct (o_write o)]; cbn.
    all: split_and!; [destruct (e_excl e); rewrite decide_False; done|apply Hlock|done
      |rewrite decide_False by lia; done|intros; by rewrite lookup_insert_eq|intros; by rewrite ?lookup_insert_eq].
Qed.

Lemma lock_test_spec_witness :
  exists n s', is_write_lockable 20 3 1 SEEK_CUR 2 sample_file = Ret n sample_file /\ n <> 0%Z /\
    blocked_by (table sample_file) 20 true (Range 3 (Some 5%Z)) n /\
    write_lock 20 3 1 SEEK_CUR 2 sample_file = Ret (-1)%Z s' /\ errno_of s' !! 20%Z = Some EAGAIN.
Proof.
  pose proof (lock_test_spec 20 3 F_WRLCK 1 SEEK_CUR 2 sample_file sample_table_ok
    ltac:(repeat constructor) ltac:(discriminate)) as H.
  assert (named 20 3 (Flock F_WRLCK SEEK_CUR 1 2 0) sample_file = Some (OFile 2 true true, Range 3 (Some 5%Z))) as E
    by (vm_compute; reflexivity).
  rewrite E in H. destruct H as (n & s' & H1 & H2 & H3 & H4 & H5 & H6).
  assert (n = 10%Z) as Hn.
  { assert (is_write_lockable 20 3 1 SEEK_CUR 2 sample_file = Ret 10%Z sample_file) as E1
      by (vm_compute; reflexivity).
    unfold is_write_lockable in E1. rewrite E1 in H1. by injection H1. }
  exists n, s'. subst n. split; [exact H1|]. split; [done|]. split; [by apply H3|]. split; [exact H4|by apply H5].
Defined.
