(* ===== verification/TellWait.v ===== *)
(** * flock/tell_wait.c, flock/deadlock.c and proc_demos/race_cond.c:
    processes that wait for each other through pipes

    The parent and the child of a [fork] synchronise by one-byte messages.
    [deadlock.c] uses this to make each hold a lock the other then asks for;
    [race_cond.c] to order the output of the two. *)

From S2P Require Import Prelude Threads RecordLock.

(** ** flock/tell_wait.c *)

(** [pipefd1] and [pipefd2]: [None] before [pipe] has made them, afterwards
    the bytes written and not yet read. *)
Record pipes := Pipes { pipefd1 : option (list Ascii.ascii); pipefd2 : option (list Ascii.ascii) }.

(** The capacity of a pipe. *)
Definition PIPE_BUF_SIZE : Z := 65536.

(** [write] of one byte and [read] of one byte: what the call returns and
    the pipe afterwards; [None] when it waits.  Every process has both ends
    open, so a read never meets the end of the file. *)
Definition pipe_write (p : option (list Ascii.ascii)) (c : Ascii.ascii)
    : option (Z * option (list Ascii.ascii)) :=
  match p with
  | None => Some ((-1)%Z, None)
  | Some q => if decide (Z.of_nat (length q) < PIPE_BUF_SIZE)%Z then Some (1%Z, Some (q ++ [c])) else None
  end.
Definition pipe_read (p : option (list Ascii.ascii))
    : option (Z * option Ascii.ascii * option (list Ascii.ascii)) :=
  match p with
  | None => Some ((-1)%Z, None, None)
  | Some [] => None
  | Some (c :: q) => Some (1%Z, Some c, Some q)
  end.

Definition write1 (c : Ascii.ascii) : prog pipes Z := fun s =>
  match pipe_write (pipefd1 s) c with Some (n, p) => Ret n (Pipes p (pipefd2 s)) | None => Blocked s end.
Definition write2 (c : Ascii.ascii) : prog pipes Z := fun s =>
  match pipe_write (pipefd2 s) c with Some (n, p) => Ret n (Pipes (pipefd1 s) p) | None => Blocked s end.
Definition read1 : prog pipes (Z * option Ascii.ascii) := fun s =>
  match pipe_read (pipefd1 s) with
  | Some (n, c, p) => Ret (n, c) (Pipes p (pipefd2 s)) | None => Blocked s end.
Definition read2 : prog pipes (Z * option Ascii.ascii) := fun s =>
  match pipe_read (pipefd2 s) with
  | Some (n, c, p) => Ret (n, c) (Pipes (pipefd1 s) p) | None => Blocked s end.

Definition char_p : Ascii.ascii := Ascii.ascii_of_nat 112.
Definition char_c : Ascii.ascii := Ascii.ascii_of_nat 99.

(** [_tell_wait()], with the results of the two [pipe] calls. *)
Definition tell_wait (pipe1 pipe2 : Z) : prog pipes unit :=
  if (pipe1 <? 0)%Z then c_exit (-1)
  else modify (fun s => Pipes (Some []) (pipefd2 s)) ;;
    if (pipe2 <? 0)%Z then c_exit (-1)
    else modify (fun s => Pipes (pipefd1 s) (Some [])).

Definition tell_parent : prog pipes unit :=
  n ← write1 char_p ; if decide (n ≠ 1%Z) then c_exit (-1) else mret tt.
Definition wait_child : prog pipes unit :=
  r ← read1 ;
  if decide (r.1 = 1%Z) then
    c ← need r.2 ; if decide (c ≠ char_p) then c_exit (-1) else mret tt
  else c_exit (-1).
Definition tell_child : prog pipes unit :=
  n ← write2 char_c ; if decide (n ≠ 1%Z) then c_exit (-1) else mret tt.
Definition wait_parent : prog pipes unit :=
  r ← read2 ;
  if decide (r.1 = 1%Z) then
    c ← need r.2 ; if decide (c ≠ char_c) then c_exit (-1) else mret tt
  else c_exit (-1).

(** ** flock/deadlock.c *)

Record dls := Dls { d_locks : lks; d_pipes : pipes; d_out : string }.
Definition on_locks {A} : prog lks A -> prog dls A :=
  zoom d_locks (fun x s => Dls x (d_pipes s) (d_out s)).
Definition on_pipes {A} : prog pipes A -> prog dls A :=
  zoom d_pipes (fun x s => Dls (d_locks s) x (d_out s)).
Definition d_printf (x : string) : prog dls unit :=
  modify (fun s => Dls (d_locks s) (d_pipes s) (d_out s +:+ x)).

(** [lockabyte(name, fd, offset)] in process [pid]. *)
Definition lockabyte (pid : Z) (nm : string) (fd offset : Z) : prog dls unit :=
  n ← on_locks (writew_lock pid fd offset SEEK_SET 1) ;
  if (n <? 0)%Z then c_exit (-1)
  else d_printf (nm +:+ ": got the lock, byte " +:+ pretty offset +:+ nl).

(** A process ends: the kernel drops its locks. *)
Definition process_end (pid : Z) (s : dls) : dls :=
  Dls (set_table (filter (fun e => e_pid e <> pid) (table (d_locks s))) (d_locks s)) (d_pipes s) (d_out s).

(** Where the parent or the child stands. *)
Inductive dpc :=
| DLock1 | DTell | DWait | DLock2
| DEnd (code : Z)
| DBad.

(** A statement of process [pid]; [exit] ends it, and a call that waits
    leaves its request with the kernel. *)
Definition dl_goto (pid : Z) (here next : dpc) (s : dls) (r : outcome dls unit) : list (dls * dpc) :=
  match r with
  | Ret _ s' => [(s', next)]
  | Exited c s' => [(process_end pid s', DEnd c)]
  | Blocked s' =>
    if decide (waiting (d_locks s') = waiting (d_locks s)) then [] else [(s', here)]
  | Fault => [(s, DBad)]
  end.

(** Process ids, and the descriptor [creat] returns: the lowest one free. *)
Definition PARENT : Z := 100.
Definition CHILD : Z := 101.
Definition FD : Z := 3.

(** The two branches after [fork]. *)
Definition parent_branch (s : dls) (l : dpc) : list (dls * dpc) :=
  match l with
  | DLock1 => dl_goto PARENT DLock1 DTell s (lockabyte PARENT "parent" FD 1 s)
  | DTell => dl_goto PARENT DTell DWait s (on_pipes tell_child s)
  | DWait => dl_goto PARENT DWait DLock2 s (on_pipes wait_child s)
  | DLock2 =>
    dl_goto PARENT DLock2 (DEnd 0) s
      ((lockabyte PARENT "parent" FD 0 ;; modify (process_end PARENT)) s)
  | DEnd _ | DBad => []
  end.
Definition child_branch (s : dls) (l : dpc) : list (dls * dpc) :=
  match l with
  | DLock1 => dl_goto CHILD DLock1 DTell s (lockabyte CHILD "child" FD 0 s)
  | DTell => dl_goto CHILD DTell DWait s (on_pipes tell_parent s)
  | DWait => dl_goto CHILD DWait DLock2 s (on_pipes wait_parent s)
  | DLock2 =>
    dl_goto CHILD DLock2 (DEnd 0) s
      ((lockabyte CHILD "child" FD 1 ;; modify (process_end CHILD)) s)
  | DEnd _ | DBad => []
  end.
Definition deadlock_succ (i : nat) (s : dls) (l : dpc) : list (dls * dpc) :=
  match i with 0 => parent_branch s l | 1 => child_branch s l | _ => [] end.

(** [main] up to the [fork], with the results of [creat], [write], [pipe] and
    [fork]: the processes that go on, or the exit code. *)
Definition deadlock_main (creat_fd written pipe1 pipe2 forked : Z) : config dls dpc + Z :=
  if (creat_fd <? 0)%Z then inr (-1)%Z
  else if decide (written ≠ 2%Z) then inr (-1)%Z
  else match tell_wait pipe1 pipe2 (Pipes None None) with
       | Ret _ p =>
         if (forked <? 0)%Z then inr (-1)%Z
         else
           let o := OFile written false true in
           inl (Config (Dls (Lks [] written {[ (PARENT, FD) := o; (CHILD, FD) := o ]} ∅ ∅) p "")
                       [DLock1; DLock1])
       | Exited c _ => inr c
       | _ => inr 139%Z
       end.

(** One of the two is refused its second lock and dies, the other gets it. *)
Definition one_survives (c : config dls dpc) : bool :=
  bool_decide (table (d_locks (shared c)) = []) &&
  match pool c with
  | [DEnd a; DEnd b] => ((a =? 0) && (b =? -1) || (a =? -1) && (b =? 0))%Z
  | _ => false
  end.

Lemma deadlock_start_exists :
  exists c0, deadlock_main 3 2 0 0 101 = inl c0 /\
    all_ways deadlock_succ 40 one_survives c0 = true /\
    match run deadlock_succ [(0,0);(0,0);(1,0);(1,0);(0,0);(1,0);(0,0);(1,0);(0,0)] c0 with
    | Some c => pool c = [DEnd 0; DEnd (-1)] | None => False end /\
    match run deadlock_succ [(0,0);(0,0);(1,0);(1,0);(0,0);(1,0);(1,0);(0,0);(1,0)] c0 with
    | Some c => pool c = [DEnd (-1); DEnd 0] | None => False end.
Proof.
  eexists. split; [vm_compute; reflexivity|]. split; [vm_compute; reflexivity|].
  split; vm_compute; reflexivity.
Qed.

(** Property C16.  Once set up, [deadlock.c] always comes to an end:
    whatever the order of events, each process gets its first lock, the kernel
    refuses the request that would close the cycle, the process that made it
    exits with -1, and the other, freed by that, gets its second lock and
    exits with 0.  Either process may be the victim.  Failures of [creat],
    [write], [pipe] and [fork] end it with -1 before. *)
Theorem deadlock_resolved :
  (exists c0, deadlock_main 3 2 0 0 101 = inl c0 /\
     inevitable deadlock_succ (fun c => one_survives c = true) c0 /\
     (exists c, reachable deadlock_succ c0 c /\ pool c = [DEnd 0; DEnd (-1)]) /\
     (exists c, reachable deadlock_succ c0 c /\ pool c = [DEnd (-1); DEnd 0])) /\
  (forall fd n p1 p2 f, (fd < 0 \/ n <> 2 \/ p1 < 0 \/ p2 < 0 \/ f < 0)%Z ->
     deadlock_main fd n p1 p2 f = inr (-1)%Z).
Proof.
  split.
  - destruct deadlock_start_exists as (c0 & H0 & Hall & H1 & H2).
    exists c0. split; [done|]. split; [by eapply all_ways_sound|].
    split.
    + by eapply (run_exhibits _ _ _ (fun c => pool c = [DEnd 0; DEnd (-1)])); [|exact H1].
    + by eapply (run_exhibits _ _ _ (fun c => pool c = [DEnd (-1); DEnd 0])); [|exact H2].
  - intros fd n p1 p2 f H. unfold deadlock_main, tell_wait. unix_unfold.
    destruct (fd <? 0)%Z eqn:E1; [done|]. case_decide; [done|].
    destruct (p1 <? 0)%Z eqn:E2; [done|]. destruct (p2 <? 0)%Z eqn:E3; [done|].
    destruct (f <? 0)%Z eqn:E4; [done|]. lia.
Qed.

(** ** proc_demos/race_cond.c *)
Module RaceCond.

(** [stdout], unbuffered, and the pipe. *)
Record rcs := Rcs { rc_out : list Ascii.ascii; rc_pipe : option (list Ascii.ascii) }.

(** What is left to do: characters of [charatatime], then the rest. *)
Inductive rpc :=
| Chars (rest : list Ascii.ascii) (tell : bool)   (** [putc] until the string ends *)
| Tell                                            (** [tell_parent] *)
| Wait (msg : list Ascii.ascii)                   (** [wait_child], then [msg] *)
| End (code : Z).

Definition putc (c : Ascii.ascii) (s : rcs) : rcs := Rcs (rc_out s ++ [c]) (rc_pipe s).

(** [tell_parent(pid)] and [wait_child()] of this file. *)
Definition tell_parent (s : rcs) : list (rcs * rpc) :=
  match pipe_write (rc_pipe s) char_p with
  | Some (n, p) => [(Rcs (rc_out s) p, End (if decide (n ≠ 1%Z) then -1 else 0)%Z)]
  | None => []
  end.
Definition wait_child (msg : list Ascii.ascii) (s : rcs) : list (rcs * rpc) :=
  match pipe_read (rc_pipe s) with
  | Some (n, c, p) =>
    if (n <? 0)%Z then [(Rcs (rc_out s) p, End (-1))]
    else if decide (c ≠ Some char_p) then [(Rcs (rc_out s) p, End (-1))]
    else [(Rcs (rc_out s) p, Chars msg false)]
  | None => []
  end.

Definition race_succ (_ : nat) (s : rcs) (l : rpc) : list (rcs * rpc) :=
  match l with
  | Chars (c :: rest) t => [(putc c s, Chars rest t)]
  | Chars [] true => [(s, Tell)]
  | Chars [] false => [(s, End 0)]
  | Tell => tell_parent s
  | Wait msg => wait_child msg s
  | End _ => []
  end.

(** [main] with messages [mc] of the child and [mp] of the parent: the
    parent is process 0. *)
Definition race_main (pipe_res fork_res : Z) (mc mp : list Ascii.ascii) : config rcs rpc + Z :=
  if (pipe_res <? 0)%Z then inr (-1)%Z
  else if (fork_res <? 0)%Z then inr (-1)%Z
  else inl (Config (Rcs [] (Some [])) [Wait mp; Chars mc true]).

(** The phases of a run. *)
Inductive phase (mc mp : list Ascii.ascii) : config rcs rpc -> Prop :=
| ph_child done rest : mc = done ++ rest ->
    phase mc mp (Config (Rcs done (Some [])) [Wait mp; Chars rest true])
| ph_tell : phase mc mp (Config (Rcs mc (Some [])) [Wait mp; Tell])
| ph_told : phase mc mp (Config (Rcs mc (Some [char_p])) [Wait mp; End 0])
| ph_parent done rest : mp = done ++ rest ->
    phase mc mp (Config (Rcs (mc ++ done) (Some [])) [Chars rest false; End 0])
| ph_end : phase mc mp (Config (Rcs (mc ++ mp) (Some [])) [End 0; End 0]).

Definition left_to_do (l : rpc) : nat :=
  match l with
  | Chars rest t => length rest + if t then 2 else 1
  | Tell => 1 | Wait msg => length msg + 2 | End _ => 0
  end.

Lemma phase_step mc mp c c' :
  phase mc mp c -> step race_succ c c' ->
  phase mc mp c' /\ total left_to_do (pool c') < total left_to_do (pool c).
Proof.
  intros Hp Hs. apply nexts_step in Hs. destruct Hp as [dn rest E| | |dn rest E|]; cbn in Hs.
  - destruct rest as [|ch rest]; cbn in Hs; apply list_elem_of_singleton in Hs; subst c'.
    + rewrite app_nil_r in E. subst. split; [by apply ph_tell|cbn; lia].
    + split; [apply ph_child; by rewrite <- app_assoc|cbn; lia].
  - apply list_elem_of_singleton in Hs. subst c'. split; [by apply ph_told|cbn; lia].
  - apply list_elem_of_singleton in Hs. subst c'.
    split; [|cbn; lia]. rewrite <- (app_nil_r mc) at 2. by apply ph_parent.
  - destruct rest as [|ch rest]; cbn in Hs; apply list_elem_of_singleton in Hs; subst c'.
    + rewrite app_nil_r in E. subst. split; [by apply ph_end|cbn; lia].
    + unfold putc. cbn. rewrite <- app_assoc. split; [apply ph_parent; by rewrite <- app_assoc|cbn; lia].
  - by apply elem_of_nil in Hs.
Qed.

Lemma phase_progress mc mp c :
  phase mc mp c ->
  (rc_out (shared c) = mc ++ mp /\ pool c = [End 0; End 0]) \/ exists c', step race_succ c c'.
Proof.
  destruct 1 as [dn rest E| | |dn rest E|]; [right..|by left];
    try destruct rest as [|ch rest]; eexists; apply nexts_step; cbn; by left.
Qed.

(** Property C17.  Whatever the scheduler does and whatever the two
    messages are, both processes of [race_cond.c] end with status 0 and the
    child's whole message comes before the first character of the parent's;
    when [pipe] or [fork] fails, the program exits with -1 instead. *)
Theorem race_cond_order pipe_res fork_res mc mp :
  match race_main pipe_res fork_res mc mp with
  | inl c0 => (0 <= pipe_res /\ 0 <= fork_res)%Z /\
      inevitable race_succ (fun c => rc_out (shared c) = mc ++ mp /\ pool c = [End 0; End 0]) c0
  | inr code => (pipe_res < 0 \/ fork_res < 0)%Z /\ code = (-1)%Z
  end.
Proof.
  unfold race_main. destruct (pipe_res <? 0)%Z eqn:E1; [split; [lia|done]|].
  destruct (fork_res <? 0)%Z eqn:E2; [split; [lia|done]|]. split; [lia|].
  apply (inevitable_measure _ (phase mc mp) _ (fun c => total left_to_do (pool c))).
  - intros c c' Hc Hs. by apply (phase_step _ _ _ _ Hc Hs).
  - apply phase_progress.
  - intros c c' Hc Hs. by apply (phase_step _ _ _ _ Hc Hs).
  - by apply (ph_child mc mp []).
Qed.
End RaceCond.
