(* ===== verification/Daemon.v ===== *)
(** * daemon/daemonize.c: becoming a daemon

    [daemonize] turns the process into a daemon: two forks around [setsid],
    the umask, the working directory, the descriptors.  [main] then takes its
    command name from [argv[0]], makes sure it is the only instance (in
    Singleton.v), blocks all signals and leaves them to a thread that waits
    for them. *)

From S2P Require Import Prelude.

(** ** The process as the kernel sees it *)

Inductive disposition := SIG_DFL | SIG_IGN.
Inductive logmsg := LOG_ERR (s : string) | LOG_INFO (s : string).

#[export] Instance logmsg_dec : EqDecision logmsg.
Proof. solve_decision. Defined.

Record proc := Proc {
  p_pid : Z; p_ppid : Z; p_pgid : Z; p_sid : Z;
  p_tty : option string;                 (** controlling terminal *)
  p_umask : Z; p_cwd : string;
  p_fds : gmap Z string;                 (** what each descriptor refers to *)
  p_sighup : disposition;
  p_blocked : bool;                      (** all signals blocked *)
  p_log : list logmsg
}.

Definition set_umask (m : Z) (p : proc) : proc :=
  Proc (p_pid p) (p_ppid p) (p_pgid p) (p_sid p) (p_tty p) m (p_cwd p) (p_fds p) (p_sighup p) (p_blocked p) (p_log p).
Definition set_cwd (d : string) (p : proc) : proc :=
  Proc (p_pid p) (p_ppid p) (p_pgid p) (p_sid p) (p_tty p) (p_umask p) d (p_fds p) (p_sighup p) (p_blocked p) (p_log p).
Definition set_fds (f : gmap Z string) (p : proc) : proc :=
  Proc (p_pid p) (p_ppid p) (p_pgid p) (p_sid p) (p_tty p) (p_umask p) (p_cwd p) f (p_sighup p) (p_blocked p) (p_log p).
Definition set_sighup (d : disposition) (p : proc) : proc :=
  Proc (p_pid p) (p_ppid p) (p_pgid p) (p_sid p) (p_tty p) (p_umask p) (p_cwd p) (p_fds p) d (p_blocked p) (p_log p).
Definition set_blocked (b : bool) (p : proc) : proc :=
  Proc (p_pid p) (p_ppid p) (p_pgid p) (p_sid p) (p_tty p) (p_umask p) (p_cwd p) (p_fds p) (p_sighup p) b (p_log p).
Definition add_log (m : logmsg) (p : proc) : proc :=
  Proc (p_pid p) (p_ppid p) (p_pgid p) (p_sid p) (p_tty p) (p_umask p) (p_cwd p) (p_fds p) (p_sighup p) (p_blocked p) (p_log p ++ [m]).

(** [fork()] seen by the process that goes on: a negative result, the
    child's id in the parent, or 0 in the child, which has id [child]. *)
Definition fork (res child : Z) : prog proc Z := fun p =>
  if decide (res = 0%Z) then
    Ret 0%Z (Proc child (p_pid p) (p_pgid p) (p_sid p) (p_tty p) (p_umask p) (p_cwd p) (p_fds p)
               (p_sighup p) (p_blocked p) (p_log p))
  else Ret res p.

(** [setsid()]: refused to a process group leader. *)
Definition setsid : prog proc Z := fun p =>
  if decide (p_pid p = p_pgid p) then Ret (-1)%Z p
  else Ret (p_pid p) (Proc (p_pid p) (p_ppid p) (p_pid p) (p_pid p) None (p_umask p) (p_cwd p) (p_fds p)
               (p_sighup p) (p_blocked p) (p_log p)).

(** The lowest descriptor that is not open: at most as many as are open. *)
Fixpoint lowest_from (fuel : nat) (fd : Z) (f : gmap Z string) : Z :=
  match fuel with
  | O => fd
  | S fuel' => match f !! fd with None => fd | Some _ => lowest_from fuel' (fd + 1) f end
  end.
Definition lowest_free (f : gmap Z string) : Z := lowest_from (size f) 0 f.

Definition close (fd : Z) : prog proc unit := modify (fun p => set_fds (delete fd (p_fds p)) p).
Definition open (ok : bool) (path : string) : prog proc Z := fun p =>
  if ok then
    let fd := lowest_free (p_fds p) in Ret fd (set_fds (<[fd := path]> (p_fds p)) p)
  else Ret (-1)%Z p.
Definition dup (fd : Z) : prog proc Z := fun p =>
  match p_fds p !! fd with
  | Some x => let fd' := lowest_free (p_fds p) in Ret fd' (set_fds (<[fd' := x]> (p_fds p)) p)
  | None => Ret (-1)%Z p
  end.
Definition syslog (m : logmsg) : prog proc unit := modify (add_log m).

(** ** daemonize *)

(** The results of the system calls, in order.  [rlim_max] is [None] for
    [RLIM_INFINITY]. *)
Record sysenv := SysEnv {
  getrlimit_res : Z; rlim_max : option Z;
  fork1_res : Z; fork1_child : Z;
  sigaction_res : Z;
  fork2_res : Z; fork2_child : Z;
  chdir_res : Z;
  devnull_ok : bool
}.

(** [for (int i=0; i<rl.rlim_max; i++) close(i);]: [i] is an [int], so a
    limit it cannot reach overflows it. *)
Definition fd_limit (e : sysenv) : Z := match rlim_max e with Some n => n | None => 1024 end.
Definition close_all (lim : Z) : prog proc unit :=
  if (INT_MAX <? lim)%Z then c_fault
  else for_loop (Z.to_nat lim) 0 (fun i => close (Z.of_nat i)).

Definition daemonize (e : sysenv) (cmd : string) : prog proc unit :=
  modify (set_umask 0) ;;
  if (getrlimit_res e <? 0)%Z then c_exit (-1) else
  pid ← fork (fork1_res e) (fork1_child e) ;
  if (pid <? 0)%Z then c_exit (-1) else if (0 <? pid)%Z then c_exit 0 else
  setsid ;;
  if (sigaction_res e <? 0)%Z then c_exit (-1) else
  modify (set_sighup SIG_IGN) ;;
  pid ← fork (fork2_res e) (fork2_child e) ;
  if (pid <? 0)%Z then c_exit (-1) else if (0 <? pid)%Z then c_exit 0 else
  if (chdir_res e <? 0)%Z then c_exit (-1) else
  modify (set_cwd "/") ;;
  close_all (fd_limit e) ;;
  fd0 ← open (devnull_ok e) "/dev/null" ;
  fd1 ← dup 0 ;
  fd2 ← dup 0 ;
  if decide (fd0 ≠ 0%Z \/ fd1 ≠ 1%Z \/ fd2 ≠ 2%Z) then
    syslog (LOG_ERR ("unexpected file descriptors " +:+ pretty fd0 +:+ " " +:+ pretty fd1 +:+ " " +:+ pretty fd2)) ;;
    c_exit 1
  else mret tt.

(** ** The signal thread *)

Definition SIGHUP : Z := 1.
Definition SIGTERM : Z := 15.

(** [thr_fn]: each element is what one [sigwait] returned, the error number
    and the signal.  It waits for more when they are used up. *)
Fixpoint thr_fn (evs : list (Z * Z)) : prog proc unit :=
  match evs with
  | [] => c_block
  | (err, signo) :: evs' =>
    if decide (err ≠ 0%Z) then syslog (LOG_ERR "sigwait failed") ;; c_exit 1
    else if decide (signo = SIGHUP) then syslog (LOG_INFO "Re-reading configuration file") ;; thr_fn evs'
    else if decide (signo = SIGTERM) then syslog (LOG_INFO "got SIGTERM; exiting") ;; c_exit 0
    else syslog (LOG_INFO ("unexpected signal " +:+ pretty signo +:+ nl)) ;; thr_fn evs'
  end.

(** ** main *)

Definition slash : Ascii.ascii := Ascii.ascii_of_nat 47.

(** [strrchr(s, '/')]: the rest of the string from the last one on. *)
Fixpoint strrchr (s : list Ascii.ascii) : option (list Ascii.ascii) :=
  match s with
  | [] => None
  | c :: s' =>
    match strrchr s' with
    | Some r => Some r
    | None => if decide (c = slash) then Some (c :: s') else None
    end
  end.
(** The command name. *)
Definition command_name (argv0 : list Ascii.ascii) : list Ascii.ascii :=
  match strrchr argv0 with None => argv0 | Some cmd => drop 1 cmd end.

(** [main] after [daemonize] and [already_running], which returned
    [running]; then the thread takes the signals [evs] while [main] loops. *)
Definition daemon_main (running : Z) (sigaction_res sigmask_err create_err : Z) (cmd : string)
    (evs : list (Z * Z)) : prog proc unit :=
  if decide (running ≠ 0%Z) then syslog (LOG_ERR "daemon already running") ;; c_exit 1 else
  if (sigaction_res <? 0)%Z then
    syslog (LOG_ERR (cmd +:+ ": can't restore SIGHUP default")) ;; c_exit 1 else
  modify (set_sighup SIG_DFL) ;;
  if decide (sigmask_err ≠ 0%Z) then syslog (LOG_ERR "SIG_BLOCK error") ;; c_exit 1 else
  modify (set_blocked true) ;;
  if decide (create_err ≠ 0%Z) then syslog (LOG_ERR "can't create thread") ;; c_block
  else thr_fn evs.

(** ** Descriptors *)

Lemma lowest_from_spec k fuel fd f :
  k <= fuel -> (forall i, i < k -> is_Some (f !! (fd + Z.of_nat i)%Z)) ->
  f !! (fd + Z.of_nat k)%Z = None -> lowest_from fuel fd f = (fd + Z.of_nat k)%Z.
Proof.
  revert k fd. induction fuel as [|fuel IH]; intros k fd Hk Hs Hn.
  - assert (k = 0) as -> by lia. cbn. lia.
  - destruct k as [|k]; cbn.
    + rewrite Z.add_0_r in Hn. by rewrite Hn, Z.add_0_r.
    + destruct (Hs 0 ltac:(lia)) as [x Hx]. rewrite Z.add_0_r in Hx. rewrite Hx.
      rewrite (IH k); [lia|lia| |].
      * intros i Hi. replace (fd + 1 + Z.of_nat i)%Z with (fd + Z.of_nat (S i))%Z by lia. apply Hs. lia.
      * by replace (fd + 1 + Z.of_nat k)%Z with (fd + Z.of_nat (S k))%Z by lia.
Qed.

Lemma lowest_free_0 f : f !! 0%Z = None -> lowest_free f = 0%Z.
Proof. intros H. apply (lowest_from_spec 0); [lia|lia|done]. Qed.

Lemma lowest_free_1 f x : f !! 0%Z = None -> f !! 1%Z = None -> lowest_free (<[0%Z := x]> f) = 1%Z.
Proof.
  intros H0 H1. apply (lowest_from_spec 1).
  - rewrite map_size_insert_None by done. lia.
  - intros i Hi. assert (i = 0) as -> by lia. cbn. rewrite lookup_insert_eq. by eexists.
  - cbn. by rewrite lookup_insert_ne.
Qed.

Lemma lowest_free_2 f x y :
  f !! 0%Z = None -> f !! 1%Z = None -> f !! 2%Z = None ->
  lowest_free (<[1%Z := y]> (<[0%Z := x]> f)) = 2%Z.
Proof.
  intros H0 H1 H2. apply (lowest_from_spec 2).
  - rewrite !map_size_insert_None by (by rewrite ?lookup_insert_ne). lia.
  - intros i Hi. destruct i as [|[|i]]; [| |lia]; cbn.
    + rewrite lookup_insert_ne by done. rewrite lookup_insert_eq. by eexists.
    + rewrite lookup_insert_eq. by eexists.
  - cbn. by rewrite !lookup_insert_ne.
Qed.

Lemma set_fds_twice f g p : set_fds f (set_fds g p) = set_fds f p.
Proof. done. Qed.

Lemma close_all_ok lim p :
  (lim <= INT_MAX)%Z ->
  exists f, close_all lim p = Ret tt (set_fds f p) /\
    forall fd, f !! fd = if decide (0 <= fd < lim)%Z then None else p_fds p !! fd.
Proof.
  intros Hl. unfold close_all. rewrite (proj2 (Z.ltb_ge _ _)) by lia.
  destruct (for_loop_inv (fun k q => exists f, q = set_fds f p /\
      forall fd, f !! fd = if decide (0 <= fd < Z.of_nat k)%Z then None else p_fds p !! fd)
    (fun i => close (Z.of_nat i)) (Z.to_nat lim) 0 p) as (q & Hrun & f & -> & Hf).
  - exists (p_fds p). split; [by destruct p|]. intros fd. by rewrite decide_False by lia.
  - intros k q Hk (f & -> & Hf). eexists. split; [done|].
    exists (delete (Z.of_nat k) f). split; [done|]. intros fd.
    destruct (decide (fd = Z.of_nat k)) as [->|Hne].
    + rewrite lookup_delete_eq, decide_True by lia. done.
    + rewrite lookup_delete_ne, Hf by done.
      destruct (decide _), (decide _); try done; lia.
  - exists f. split; [done|]. intros fd. rewrite Hf.
    destruct (decide _), (decide _); try done; lia.
Qed.

(** [open("/dev/null"); dup(0); dup(0)] where 0, 1 and 2 are free. *)
Definition three_null (f : gmap Z string) : gmap Z string :=
  <[2%Z := "/dev/null"]> (<[1%Z := "/dev/null"]> (<[0%Z := "/dev/null"]> f)).

Lemma three_null_lookup f fd : (0 <= fd < 3)%Z -> three_null f !! fd = Some "/dev/null".
Proof.
  intros H. unfold three_null.
  destruct (decide (fd = 0%Z)) as [->|]; [by rewrite 2!lookup_insert_ne, lookup_insert_eq by done|].
  destruct (decide (fd = 1%Z)) as [->|]; [by rewrite lookup_insert_ne, lookup_insert_eq by done|].
  assert (fd = 2%Z) as -> by lia. by rewrite lookup_insert_eq.
Qed.

(** ** daemonize *)

(** Every call succeeds, and ids are new when they are given out. *)
Record calls_succeed (e : sysenv) (p : proc) : Prop := {
  cs_rlimit : (0 <= getrlimit_res e)%Z;
  cs_limit : (3 <= fd_limit e <= INT_MAX)%Z;
  cs_fork1 : fork1_res e = 0%Z;
  cs_fork1_new : fork1_child e <> p_pgid p;
  cs_sigaction : (0 <= sigaction_res e)%Z;
  cs_fork2 : fork2_res e = 0%Z;
  cs_fork2_new : fork2_child e <> fork1_child e;
  cs_chdir : (0 <= chdir_res e)%Z;
  cs_null : devnull_ok e = true
}.

Lemma daemonize_run e cmd p :
  calls_succeed e p ->
  exists f, (forall fd, f !! fd = if decide (0 <= fd < fd_limit e)%Z then None else p_fds p !! fd) /\
  daemonize e cmd p =
    Ret tt (Proc (fork2_child e) (fork1_child e) (fork1_child e) (fork1_child e) None 0 "/"
      (three_null f) SIG_IGN (p_blocked p) (p_log p)).
Proof.
  intros [H1 H2 H3 H4 H5 H6 H7 H8 H9]. unfold daemonize, fork, setsid, syslog. unix_unfold.
  rewrite (proj2 (Z.ltb_ge _ _)) by lia. rewrite H3, decide_True by done. cbn.
  rewrite decide_False by done.
  rewrite (proj2 (Z.ltb_ge (sigaction_res e) _)) by lia. rewrite H6, decide_True by done. cbn.
  rewrite (proj2 (Z.ltb_ge (chdir_res e) _)) by lia.
  match goal with |- context [close_all _ ?q] => set (p1 := q) end.
  destruct (close_all_ok (fd_limit e) p1 ltac:(lia)) as (f & Hrun & Hf). rewrite Hrun.
  exists f. split; [done|].
  assert (H0 : forall i, (0 <= i < 3)%Z -> f !! i = None).
  { intros i Hi. rewrite Hf. by rewrite decide_True by lia. }
  unfold open. rewrite H9. cbn [p_fds set_fds]. rewrite (lowest_free_0 f) by (apply H0; lia).
  unfold dup. cbn [p_fds set_fds]. rewrite lookup_insert_eq, lowest_free_1 by (apply H0; lia).
  cbn [p_fds set_fds]. rewrite lookup_insert_ne, lookup_insert_eq by done.
  rewrite lowest_free_2 by (apply H0; lia). done.
Qed.

(** Property C12.  When its system calls succeed, [daemonize] returns
    in a process that leads neither a session nor a process group, has no
    controlling terminal, umask 0, "/" as its directory and [SIGHUP] ignored; its descriptors 0, 1 and 2
    are "/dev/null" and no other descriptor below the limit is open.  Only
    descriptors from the limit on (1024 for [RLIM_INFINITY]) are left over. *)
Theorem daemonize_spec e cmd p :
  calls_succeed e p ->
  exists p', daemonize e cmd p = Ret tt p' /\
    p_pid p' = fork2_child e /\ p_ppid p' = fork1_child e /\
    p_sid p' <> p_pid p' /\ p_pgid p' <> p_pid p' /\ p_tty p' = None /\
    p_umask p' = 0%Z /\ p_cwd p' = "/" /\ p_sighup p' = SIG_IGN /\
    forall fd, p_fds p' !! fd =
      if decide (0 <= fd < 3)%Z then Some "/dev/null"
      else if decide (0 <= fd < fd_limit e)%Z then None
      else p_fds p !! fd.
Proof.
  intros Hc. destruct (daemonize_run e cmd p Hc) as (f & Hf & Hrun). rewrite Hrun.
  eexists. split; [done|]. cbn. destruct Hc. split_and!; try done; try congruence.
  intros fd. destruct (decide (0 <= fd < 3)%Z) as [Hlt|Hge]; [by apply three_null_lookup|].
  unfold three_null. rewrite !lookup_insert_ne by lia. apply Hf.
Qed.

Definition sample_env : sysenv := SysEnv 0 (Some 64%Z) 0 501 0 0 502 0 true.
Definition sample_proc : proc :=
  Proc 500 1 500 400 (Some "/dev/tty1") 18 "/home" {[ 0%Z := "/dev/tty1"; 5%Z := "/etc/conf" ]} SIG_DFL false [].

Lemma daemonize_spec_witness :
  exists p', daemonize sample_env "d" sample_proc = Ret tt p' /\ p_fds p' !! 5%Z = None /\ p_tty p' = None.
Proof.
  destruct (daemonize_spec sample_env "d" sample_proc) as (p' & H & Hp).
  - split; vm_compute; try split; congruence.
  - exists p'. split; [exact H|]. split; [|apply Hp]. rewrite (proj2 (proj2 (proj2 (proj2 (proj2 (proj2 (proj2 (proj2 Hp)))))))).
    reflexivity.
Defined.

#[local] Arguments pretty _ _ _ : simpl never.
#[local] Arguments pretty_Z _ : simpl never.

(** Every call before the descriptors are closed has succeeded, in the child
    of both forks. *)
Definition detached (e : sysenv) : Prop :=
  (0 <= getrlimit_res e /\ fork1_res e = 0 /\ 0 <= sigaction_res e /\ fork2_res e = 0 /\ 0 <= chdir_res e)%Z.

Definition fds_msg (d0 d1 d2 : Z) : logmsg :=
  LOG_ERR ("unexpected file descriptors " +:+ pretty d0 +:+ " " +:+ pretty d1 +:+ " " +:+ pretty d2).

(** The descriptors after everything below the limit was closed. *)
Definition attach (null_ok : bool) : prog proc unit :=
  fd0 ← open null_ok "/dev/null" ;
  fd1 ← dup 0 ;
  fd2 ← dup 0 ;
  if decide (fd0 ≠ 0%Z \/ fd1 ≠ 1%Z \/ fd2 ≠ 2%Z) then syslog (fds_msg fd0 fd1 fd2) ;; c_exit 1
  else mret tt.

Lemma attach_spec null_ok lim f p :
  (forall fd, f !! fd = if decide (0 <= fd < lim)%Z then None else p_fds p !! fd) ->
  match attach null_ok (set_fds f p) with
  | Ret _ p' => null_ok = true /\ p_cwd p' = p_cwd p /\ p_umask p' = p_umask p /\ p_sighup p' = p_sighup p /\
      (p_fds p' !! 0 = Some "/dev/null" /\ p_fds p' !! 1 = Some "/dev/null" /\ p_fds p' !! 2 = Some "/dev/null")%Z
  | Exited c p' => c = 1%Z /\ (null_ok = false \/ lim < 3)%Z /\ exists d0 d1 d2, p_log p' = p_log p ++ [fds_msg d0 d1 d2]
  | _ => False
  end.
Proof.
  intros Hf. unfold attach, syslog, open, dup. unix_unfold. destruct null_ok; cbn [p_fds set_fds].
  - destruct (decide (3 <= lim)%Z) as [Hl|Hl].
    + assert (H0 : forall i, (0 <= i < 3)%Z -> f !! i = None)
        by (intros i Hi; rewrite Hf; by rewrite decide_True by lia).
      rewrite (lowest_free_0 f) by (apply H0; lia). cbn [p_fds set_fds].
      rewrite lookup_insert_eq, lowest_free_1 by (apply H0; lia).
      cbn [p_fds set_fds]. rewrite lookup_insert_ne, lookup_insert_eq by done.
      rewrite lowest_free_2 by (apply H0; lia). rewrite decide_False by lia. cbn [p_fds set_fds].
      split_and!; try done; apply three_null_lookup; lia.
    + destruct (decide (lowest_free f = 0%Z)) as [F0|F0].
      * rewrite F0. rewrite lookup_insert_eq. cbn. set (f1 := lowest_free _).
        destruct (decide (f1 = 0%Z)) as [E|E].
        { rewrite E, lookup_insert_eq. cbn. case_decide; [|lia]. split_and!; [done|right; lia|by eexists _, _, _]. }
        rewrite (lookup_insert_ne _ f1) by done. rewrite lookup_insert_eq. cbn. set (f2 := lowest_free _).
        case_decide as Hd; [split_and!; [done|right; lia|by eexists _, _, _]|].
        assert (f1 = 1%Z /\ f2 = 2%Z) as [-> ->] by lia. cbn [p_fds set_fds].
        split_and!; try done; apply three_null_lookup; lia.
      * repeat case_match; simplify_eq; cbn; try lia; (split_and!; [done|right; lia|by eexists _, _, _]).
  - repeat case_match; simplify_eq; cbn; try lia; (split_and!; [done|by left|by eexists _, _, _]).
Qed.

(** Property C24.  Every end of [daemonize]: it returns only when
    [getrlimit], [sigaction] and [chdir] succeeded, in the child of both
    forks, in "/", with umask 0, [SIGHUP] ignored and "/dev/null" as
    descriptors 0, 1 and 2; the parents of the two forks exit with 0; the
    first of [getrlimit], [fork], [sigaction], [fork] and [chdir] that fails
    makes it exit with -1, its descriptors and the log untouched; if
    "/dev/null" cannot be opened, or the limit is below 3, it may get other
    descriptors, which it logs before it exits with 1.  A limit that an [int]
    cannot reach makes the counter of the closing loop overflow.  The cases
    exclude each other, so each is also the condition of its end. *)
Theorem daemonize_errors e cmd p :
  match daemonize e cmd p with
  | Ret _ p' => detached e /\ (fd_limit e <= INT_MAX)%Z /\ devnull_ok e = true /\
      p_cwd p' = "/" /\ p_umask p' = 0%Z /\ p_sighup p' = SIG_IGN /\
      (p_fds p' !! 0 = Some "/dev/null" /\ p_fds p' !! 1 = Some "/dev/null" /\ p_fds p' !! 2 = Some "/dev/null")%Z
  | Exited c p' =>
      (c = 0 /\ 0 <= getrlimit_res e /\
        (0 < fork1_res e \/ fork1_res e = 0 /\ 0 <= sigaction_res e /\ 0 < fork2_res e))%Z /\
        p_fds p' = p_fds p /\ p_log p' = p_log p \/
      (c = -1 /\ (getrlimit_res e < 0 \/ 0 <= getrlimit_res e /\
        (fork1_res e < 0 \/ fork1_res e = 0 /\
          (sigaction_res e < 0 \/ 0 <= sigaction_res e /\
            (fork2_res e < 0 \/ fork2_res e = 0 /\ chdir_res e < 0)))))%Z /\
        p_fds p' = p_fds p /\ p_log p' = p_log p \/
      c = 1%Z /\ detached e /\ (fd_limit e <= INT_MAX)%Z /\ (devnull_ok e = false \/ fd_limit e < 3)%Z /\
        exists d0 d1 d2, p_log p' = p_log p ++ [fds_msg d0 d1 d2]
  | Blocked _ => False
  | Fault => detached e /\ (INT_MAX < fd_limit e)%Z
  end.
Proof.
  unfold daemonize, fork. unix_unfold.
  destruct (getrlimit_res e <? 0)%Z eqn:E1; [right; left; cbn; split_and!; [lia|lia|done|done]|].
  destruct (decide (fork1_res e = 0%Z)) as [F1|F1]; cbn.
  2: { destruct (fork1_res e <? 0)%Z eqn:E2; [right; left; split_and!; [lia|lia|done|done]|].
       destruct (0 <? fork1_res e)%Z eqn:E3; [left; split_and!; [lia|lia|lia|done|done]|lia]. }
  unfold setsid. cbn. set (ps := if decide _ then _ else _).
  assert (exists z q, ps = Ret z q /\ p_fds q = p_fds p /\ p_log q = p_log p /\ p_umask q = 0%Z)
    as (z & q & -> & Hq1 & Hq2 & Hq3) by (unfold ps; case_decide; by eexists _, _).
  destruct (sigaction_res e <? 0)%Z eqn:E4; [right; left; split_and!; [lia|lia|done|done]|].
  destruct (decide (fork2_res e = 0%Z)) as [F2|F2]; cbn.
  2: { destruct (fork2_res e <? 0)%Z eqn:E2; [right; left; split_and!; [lia|lia|done|done]|].
       destruct (0 <? fork2_res e)%Z eqn:E3; [left; split_and!; [lia|lia|lia|done|done]|lia]. }
  destruct (chdir_res e <? 0)%Z eqn:E5; [right; left; split_and!; [lia|lia|done|done]|].
  assert (detached e) as Hd by (unfold detached; lia).
  match goal with |- context [close_all _ ?q] => set (p1 := q) end.
  destruct (decide (fd_limit e <= INT_MAX)%Z) as [Hl|Hl].
  2: { unfold close_all. rewrite (proj2 (Z.ltb_lt _ _)) by lia. cbn. split; [done|lia]. }
  destruct (close_all_ok (fd_limit e) p1 Hl) as (f & Hrun & Hf). rewrite Hrun.
  pose proof (attach_spec (devnull_ok e) (fd_limit e) f p1 Hf) as Ha.
  match goal with |- match ?x with _ => _ end => change x with (attach (devnull_ok e) (set_fds f p1)) end.
  destruct (attach (devnull_ok e) (set_fds f p1)) as [u p'|c p'|p'|]; try done.
  - destruct Ha as (? & -> & -> & -> & ? & ? & ?). by split_and!.
  - destruct Ha as (? & ? & d0 & d1 & d2 & Hlog). right; right. split_and!; try done.
    exists d0, d1, d2. rewrite Hlog. unfold p1. cbn. by rewrite Hq2.
Qed.

(** ** Signals *)

(** What the thread logs for a signal it survives. *)
Definition signal_msg (signo : Z) : logmsg :=
  if decide (signo = SIGHUP) then LOG_INFO "Re-reading configuration file"
  else LOG_INFO ("unexpected signal " +:+ pretty signo +:+ nl).
Definition add_logs (ms : list logmsg) (p : proc) : proc :=
  Proc (p_pid p) (p_ppid p) (p_pgid p) (p_sid p) (p_tty p) (p_umask p) (p_cwd p) (p_fds p) (p_sighup p)
    (p_blocked p) (p_log p ++ ms).
Definition delivered (signo : Z) : Z * Z := (0%Z, signo).

Lemma thr_fn_run sigs evs p :
  SIGTERM ∉ sigs ->
  thr_fn ((delivered <$> sigs) ++ evs) p = thr_fn evs (add_logs (signal_msg <$> sigs) p).
Proof.
  revert p. induction sigs as [|sg sigs IH]; intros p Hn.
  - cbn. unfold add_logs. rewrite app_nil_r. by destruct p.
  - rewrite not_elem_of_cons in Hn. destruct Hn as [Hsg Hn]. rewrite !fmap_cons.
    cbn [app thr_fn]. unfold signal_msg at 1, delivered at 1, syslog. unix_unfold. rewrite decide_False by auto.
    destruct (decide (sg = SIGHUP)); [|rewrite decide_False by congruence];
      rewrite IH by done; unfold add_logs, add_log; cbn; by rewrite <- app_assoc.
Qed.

(** Once it is set up the daemon answers every
    signal in order: it logs a re-read for [SIGHUP] and a notice for others,
    and goes on waiting; the first [SIGTERM] is logged and ends it with
    status 0, a failing [sigwait] with status 1.  If the thread could not be
    created the process stays in its loop with every signal blocked, whatever
    arrives. *)
Theorem daemon_signals cmd sigs rest p :
  SIGTERM ∉ sigs ->
  let p1 := set_blocked true (set_sighup SIG_DFL p) in
  let p2 := add_logs (signal_msg <$> sigs) p1 in
  let start := daemon_main 0 0 0 0 cmd in
  start (delivered <$> sigs) p = Blocked p2 /\
  start ((delivered <$> sigs) ++ delivered SIGTERM :: rest) p =
    Exited 0 (add_log (LOG_INFO "got SIGTERM; exiting") p2) /\
  (forall err signo, err <> 0%Z ->
     start ((delivered <$> sigs) ++ (err, signo) :: rest) p = Exited 1 (add_log (LOG_ERR "sigwait failed") p2)) /\
  (forall err evs, err <> 0%Z ->
     daemon_main 0 0 0 err cmd evs p = Blocked (add_log (LOG_ERR "can't create thread") p1)).
Proof.
  intros Hn p1 p2 start.
  assert (Hs : forall evs, start evs p = thr_fn evs p1) by done.
  split_and!.
  - rewrite Hs. rewrite <- (app_nil_r (delivered <$> sigs)). by rewrite thr_fn_run.
  - rewrite Hs. by rewrite thr_fn_run.
  - intros err signo He. rewrite Hs, thr_fn_run by done. cbn. unix_unfold. by rewrite decide_True.
  - intros err evs He. unfold daemon_main, syslog. unix_unfold. cbn. by destruct (decide (err ≠ 0%Z)).
Qed.

Lemma daemon_signals_witness :
  daemon_main 0 0 0 0 "d" [(0, 1); (0, 10); (0, 15); (0, 1)]%Z sample_proc =
    Exited 0 (add_logs [LOG_INFO "Re-reading configuration file"; LOG_INFO ("unexpected signal 10" +:+ nl);
                        LOG_INFO "got SIGTERM; exiting"] (set_blocked true (set_sighup SIG_DFL sample_proc))).
Proof.
  apply (daemon_signals "d" [1; 10]%Z [(0, 1)]%Z sample_proc).
  rewrite !not_elem_of_cons. repeat split; try discriminate. apply not_elem_of_nil.
Defined.

(** ** The command name *)

Lemma strrchr_none s : strrchr s = None -> slash ∉ s.
Proof.
  induction s as [|c s IH]; cbn; [by intros _ H%elem_of_nil|].
  destruct (strrchr s); [done|]. case_decide; [done|]. intros _. rewrite not_elem_of_cons.
  split; [congruence|by apply IH].
Qed.

Lemma strrchr_some s r :
  strrchr s = Some r -> exists pre post, s = pre ++ slash :: post /\ r = slash :: post /\ (slash ∉ post).
Proof.
  revert r. induction s as [|c s IH]; cbn; intros r H; [done|].
  destruct (strrchr s) as [r'|] eqn:E.
  - destruct (IH r' eq_refl) as (pre & post & -> & -> & ?). simplify_eq. by exists (c :: pre), post.
  - case_decide; simplify_eq. exists [], s. split; [done|]. split; [done|]. by apply strrchr_none.
Qed.

(** The name the daemon logs under is the last
    component of [argv[0]]: it contains no slash, and what precedes it is
    empty or ends with one. *)
Theorem command_name_spec argv0 :
  exists dir, argv0 = dir ++ command_name argv0 /\ (slash ∉ command_name argv0) /\
    (dir = [] \/ last dir = Some slash).
Proof.
  unfold command_name. destruct (strrchr argv0) as [r|] eqn:E.
  - destruct (strrchr_some _ _ E) as (pre & post & -> & -> & Hn). exists (pre ++ [slash]).
    cbn. rewrite <- app_assoc. split; [done|]. split; [done|]. right. apply last_snoc.
  - exists []. split; [done|]. split; [by apply strrchr_none|by left].
Qed.
