(* ===== verification/Singleton.v ===== *)
(** * daemon/daemonize.c: one daemon at a time

    [already_running] opens the pid file, takes a write lock on all of it
    without waiting, and writes the process id.  The lock is the kernel's
    record lock of RecordLock.v and is dropped when its owner closes the file
    or ends.  Any number of processes run the function at the same time, one
    system call at a time, and may be killed between any two. *)

From S2P Require Import Prelude Threads RecordLock Daemon.

(** The pid file: its locks and contents ([None]: it does not exist). *)
Record pidfile := PidFile { pf_locks : lks; pf_data : option (list Ascii.ascii); pf_log : list logmsg }.

Definition on_lks {A} : prog lks A -> prog pidfile A :=
  zoom pf_locks (fun x s => PidFile x (pf_data s) (pf_log s)).
Definition set_data (d : option (list Ascii.ascii)) (s : pidfile) : pidfile :=
  PidFile (pf_locks s) d (pf_log s).
Definition pf_syslog (m : logmsg) : prog pidfile unit :=
  modify (fun s => PidFile (pf_locks s) (pf_data s) (pf_log s ++ [m])).

(** Dropping a process's locks and, with [close], its descriptor. *)
Definition drop_locks (pid : Z) (l : lks) : lks :=
  set_table (filter (fun e => e_pid e <> pid) (table l)) l.
Definition pf_close (pid fd : Z) : prog pidfile unit :=
  on_lks (modify (fun l => Lks (filter (fun e => e_pid e <> pid) (table l)) (fsize l)
                               (delete (pid, fd) (fds l)) (waiting l) (errno_of l))).

(** [lockfile(fd)]. *)
Definition lockfile (pid fd : Z) : prog lks Z :=
  r ← fcntl pid fd F_SETLK (Flock F_WRLCK SEEK_SET 0 0 0) ; mret r.1.

Section AlreadyRunning.
Variable strerror : errno -> string.
Definition LOCKFILE : string := "/var/run/daemon.pid".
Definition BUF_SIZE : nat := 16.

(** [open(LOCKFILE, O_RDWR | O_CREAT, LOCKMODE)] returned [fd], with [err] if
    it failed. *)
Definition ar_open (pid fd : Z) (err : errno) : prog pidfile unit :=
  if (fd <? 0)%Z then
    pf_syslog (LOG_ERR ("can't open " +:+ LOCKFILE +:+ ": " +:+ strerror err)) ;; c_exit 1
  else modify (fun s => PidFile
    (Lks (table (pf_locks s)) (fsize (pf_locks s)) (<[(pid, fd) := OFile 0 true true]> (fds (pf_locks s)))
         (waiting (pf_locks s)) (errno_of (pf_locks s)))
    (Some (default [] (pf_data s))) (pf_log s)).

(** The lock, and the reaction to its failure: [true] when there is another
    daemon. *)
Definition ar_lock (pid fd : Z) : prog pidfile bool :=
  n ← on_lks (lockfile pid fd) ;
  if (n <? 0)%Z then
    e ← gets (fun s => errno_of (pf_locks s) !! pid) ;
    e ← need e ;
    if decide (e = EACCES \/ e = EAGAIN) then pf_close pid fd ;; mret true
    else pf_syslog (LOG_ERR ("can't lock " +:+ LOCKFILE +:+ ": " +:+ strerror e)) ;; c_exit 1
  else mret false.

(** [ftruncate(fd, 0)], which may fail; its result is not looked at. *)
Definition ar_trunc (ok : bool) : prog pidfile unit := if ok then modify (set_data (Some [])) else mret tt.

(** [sprintf] into [buf[16]], and the [write] of [strlen(buf) + 1] bytes to
    the file, whose position is 0.  [res] is how many bytes the [write] can
    take, [None] when it fails; its result is not looked at either. *)
Definition ar_write (pid : Z) (res : option nat) : prog pidfile unit :=
  let buf := chars (pretty pid) ++ [NUL] in
  if decide (length buf <= BUF_SIZE) then
    n ← need (strlen buf) ;
    match res with
    | None => mret tt
    | Some w => modify (fun s =>
        set_data (Some (let x := take w (take (n + 1) buf) in x ++ drop (length x) (default [] (pf_data s)))) s)
    end
  else c_fault.

Definition already_running (pid fd : Z) (err : errno) (trunc_ok : bool) (res : option nat) : prog pidfile Z :=
  ar_open pid fd err ;;
  r ← ar_lock pid fd ;
  if r : bool then mret 1%Z else ar_trunc trunc_ok ;; ar_write pid res ;; mret 0%Z.

(** ** Many processes *)

Inductive apc :=
| AOpen | ALock | ATrunc | AWrite
| ARunning (written : bool)  (** [already_running] returned 0; whether its [write] took all *)
| ARefused            (** it returned 1 *)
| AExited (code : Z)
| ABad.

Variable pid_of : nat -> Z.
(** The descriptor [open] returns. *)
Variable fd : Z.

Definition a_goto {A} (s : pidfile) (r : outcome pidfile A) (k : A -> apc) : list (pidfile * apc) :=
  match r with
  | Ret a s' => [(s', k a)]
  | Exited c s' => [(s', AExited c)]
  | Blocked _ => []
  | Fault => [(s, ABad)]
  end.

(** The process ends or is killed: its locks are dropped. *)
Definition a_killed (pid : Z) (s : pidfile) : pidfile * apc :=
  (PidFile (drop_locks pid (pf_locks s)) (pf_data s) (pf_log s), AExited 0).

(** What [write] may do with the up to [BUF_SIZE] bytes. *)
Definition write_answers : list (option nat) := (Some <$> reverse (seq 0 (S BUF_SIZE))) ++ [None].
Arguments write_answers : simpl never.
Definition took_all (pid : Z) (res : option nat) : bool :=
  match res with Some w => bool_decide (length (chars (pretty pid)) < w) | None => false end.

Definition daemon_succ (i : nat) (s : pidfile) (l : apc) : list (pidfile * apc) :=
  let pid := pid_of i in
  match l with
  | AOpen => a_goto s (ar_open pid fd EACCES s) (fun _ => ALock) ++ [a_killed pid s]
  | ALock => a_goto s (ar_lock pid fd s) (fun r : bool => if r then ARefused else ATrunc) ++ [a_killed pid s]
  | ATrunc => ([true; false] ≫= fun ok => a_goto s (ar_trunc ok s) (fun _ => AWrite)) ++ [a_killed pid s]
  | AWrite =>
    (write_answers ≫= fun res => a_goto s (ar_write pid res s) (fun _ => ARunning (took_all pid res))) ++ [a_killed pid s]
  | ARunning _ => [a_killed pid s]
  | _ => []
  end.

Definition no_locks : pidfile := PidFile (Lks [] 0 ∅ ∅ ∅) None [].
Definition daemons_start (n : nat) : config pidfile apc := Config no_locks (replicate n AOpen).

(** The process has the lock. *)
Definition owns (l : apc) : bool :=
  match l with ATrunc | AWrite | ARunning _ => true | _ => false end.
Definition pid_text (pid : Z) : list Ascii.ascii := chars (pretty pid) ++ [NUL].

(** The lock table is empty, or has the one lock of the one owner. *)
Definition locked_by (s : pidfile) (ls : list apc) : Prop :=
  (table (pf_locks s) = [] /\ forall j l, ls !! j = Some l -> owns l = false) \/
  (exists i, table (pf_locks s) = [Entry (pid_of i) true (Range 0 None)] /\
     (exists l, ls !! i = Some l /\ owns l = true) /\
     forall j l, j <> i -> ls !! j = Some l -> owns l = false).

Definition proc_ok (s : pidfile) (i : nat) (l : apc) : Prop :=
  match l with
  | ALock => fds (pf_locks s) !! (pid_of i, fd) = Some (OFile 0 true true)
  | ARunning written => written = true -> exists rest, pf_data s = Some (pid_text (pid_of i) ++ rest)
  | ABad => False
  | _ => True
  end.

(** The number of processes. *)
Variable n : nat.

Record daemons_inv (c : config pidfile apc) : Prop := {
  di_len : length (pool c) = n;
  di_lock : locked_by (shared c) (pool c);
  di_procs : forall i l, pool c !! i = Some l -> proc_ok (shared c) i l
}.

(** ** The lock *)

Ltac pf_run := unfold ar_open, ar_lock, ar_trunc, ar_write, lockfile, pf_close, on_lks, zoom, pf_syslog, a_goto;
  unix_unfold; cbn.

Lemma resolve_whole l o : resolve l o (Flock F_WRLCK SEEK_SET 0 0 0) = inl (Range 0 None).
Proof. done. Qed.

(** The lock is granted when nobody has it, and refused with [EAGAIN] when
    another process has. *)
Lemma ar_lock_free s pid :
  fds (pf_locks s) !! (pid, fd) = Some (OFile 0 true true) -> table (pf_locks s) = [] ->
  exists w, ar_lock pid fd s =
    Ret false (PidFile (Lks [Entry pid true (Range 0 None)] (fsize (pf_locks s)) (fds (pf_locks s)) w
                (errno_of (pf_locks s))) (pf_data s) (pf_log s)).
Proof. intros Hfd Ht. eexists. pf_run. unfold fcntl. rewrite Hfd. cbn. rewrite Ht. done. Qed.

Lemma ar_lock_busy s pid q :
  fds (pf_locks s) !! (pid, fd) = Some (OFile 0 true true) -> q <> pid ->
  table (pf_locks s) = [Entry q true (Range 0 None)] ->
  exists e, ar_lock pid fd s =
    Ret true (PidFile (Lks (table (pf_locks s)) (fsize (pf_locks s)) (delete (pid, fd) (fds (pf_locks s)))
                (waiting (pf_locks s)) e) (pf_data s) (pf_log s)).
Proof.
  intros Hfd Hq Ht. eexists. pf_run. unfold fcntl, fail. rewrite Hfd, resolve_whole. cbn. rewrite Ht. cbn.
  unfold conflict. cbn. rewrite (proj2 (Z.eqb_neq q pid)) by done. cbn. rewrite lookup_insert_eq. cbn.
  rewrite decide_True by (by right). cbn. rewrite Ht, filter_cons_True by done. done.
Qed.

Lemma ar_write_ok s pid res :
  (0 <= pid <= INT_MAX)%Z ->
  exists d, ar_write pid res s = Ret tt (set_data d s) /\
    (took_all pid res = true -> d = Some (pid_text pid ++ drop (length (pid_text pid)) (default [] (pf_data s)))).
Proof.
  intros Hp. unfold ar_write. pose proof (pretty_Z_length 10 pid ltac:(lia) ltac:(unfold INT_MAX in *; lia)) as Hl.
  pose proof (pretty_Z_no_nul pid ltac:(lia)) as Hn.
  rewrite decide_True by (unfold BUF_SIZE; rewrite length_app, chars_length; cbn; lia).
  pose proof (strlen_app_nul (chars (pretty pid)) [] Hn) as Hs. unix_unfold. rewrite Hs.
  destruct res as [w|]; [|by exists (pf_data s); destruct s].
  eexists. split; [done|]. cbn. intros Hw%bool_decide_eq_true. unfold pid_text.
  rewrite (take_ge (_ ++ _) (_ + 1)) by (rewrite length_app; cbn; lia).
  by rewrite take_ge by (rewrite length_app; cbn; lia).
Qed.

(** Moving process [i] while it keeps, takes or gives up the lock. *)
Lemma locked_same s s' ls i l l' :
  ls !! i = Some l -> owns l' = owns l -> table (pf_locks s') = table (pf_locks s) ->
  locked_by s ls -> locked_by s' (<[i := l']> ls).
Proof.
  intros Hi Ho Ht H. unfold locked_by. rewrite Ht. assert (Hlen := lookup_lt_Some _ _ _ Hi).
  assert (Hlk : forall j u, <[i := l']> ls !! j = Some u -> exists v, ls !! j = Some v /\ owns u = owns v).
  { intros j u Hj. destruct (decide (i = j)) as [<-|Hne].
    - rewrite list_lookup_insert_eq in Hj by done. simplify_eq. by exists l.
    - rewrite list_lookup_insert_ne in Hj by done. by exists u. }
  destruct H as [[H1 H2]|(k & H1 & (lk & Hk & Hok) & H2)].
  - left. split; [done|]. intros j u Hj. destruct (Hlk j u Hj) as (v & Hv & ->). by eapply H2.
  - right. exists k. split; [done|]. split.
    + destruct (decide (i = k)) as [<-|Hne].
      * exists l'. rewrite list_lookup_insert_eq by done. split; [done|]. congruence.
      * exists lk. by rewrite list_lookup_insert_ne.
    + intros j u Hne Hj. destruct (Hlk j u Hj) as (v & Hv & ->). by eapply H2.
Qed.

Lemma locked_take s s' ls i l l' :
  ls !! i = Some l -> owns l = false -> owns l' = true -> table (pf_locks s) = [] ->
  table (pf_locks s') = [Entry (pid_of i) true (Range 0 None)] ->
  locked_by s ls -> locked_by s' (<[i := l']> ls).
Proof.
  intros Hi Hl Hl' Ht Ht' [[_ H2]|(k & H1 & _)]; [|congruence]. right. exists i.
  split; [done|]. split; [exists l'; by rewrite list_lookup_insert_eq by (by eapply lookup_lt_Some)|].
  intros j u Hne Hj. rewrite list_lookup_insert_ne in Hj by congruence. by eapply H2.
Qed.

Hypothesis pid_inj : forall i j, i < n -> j < n -> pid_of i = pid_of j -> i = j.

Lemma pid_differ ls i j (l u : apc) :
  length ls = n -> ls !! i = Some l -> ls !! j = Some u -> i <> j -> pid_of i <> pid_of j.
Proof.
  intros Hn Hi%lookup_lt_Some Hj%lookup_lt_Some Hne E. apply Hne, pid_inj; [lia|lia|done].
Qed.

Lemma locked_kill s s' ls i l l' :
  length ls = n -> ls !! i = Some l -> owns l' = false ->
  table (pf_locks s') = filter (fun e => e_pid e <> pid_of i) (table (pf_locks s)) ->
  locked_by s ls -> locked_by s' (<[i := l']> ls).
Proof.
  intros Hn Hi Hl' Ht' H. assert (Hlen := lookup_lt_Some _ _ _ Hi).
  destruct H as [[H1 H2]|(k & H1 & (lk & Hk & Hok) & H2)]; rewrite H1 in Ht'.
  - left. split; [done|]. intros j u Hj. destruct (decide (i = j)) as [<-|Hne].
    + rewrite list_lookup_insert_eq in Hj by done. by simplify_eq.
    + rewrite list_lookup_insert_ne in Hj by done. by eapply H2.
  - destruct (decide (i = k)) as [<-|Hne].
    + left. rewrite filter_cons_False in Ht' by (cbn; tauto). split; [done|].
      intros j u Hj. destruct (decide (i = j)) as [<-|Hne].
      * rewrite list_lookup_insert_eq in Hj by done. by simplify_eq.
      * rewrite list_lookup_insert_ne in Hj by done. by eapply H2.
    + right. exists k. rewrite filter_cons_True in Ht' by (cbn; apply (pid_differ ls k i lk l); auto).
      split; [done|]. split; [exists lk; by rewrite list_lookup_insert_ne|].
      intros j u Hjk Hj. destruct (decide (i = j)) as [<-|Hne'].
      * rewrite list_lookup_insert_eq in Hj by done. by simplify_eq.
      * rewrite list_lookup_insert_ne in Hj by done. by eapply H2.
Qed.

(** The other processes do not notice, as long as their descriptor and, if
    one of them runs, the contents are left alone. *)
Lemma procs_move s s' (ls : list apc) i l l' :
  (forall j u, ls !! j = Some u -> proc_ok s j u) -> ls !! i = Some l -> proc_ok s' i l' ->
  (forall j u, j <> i -> ls !! j = Some u -> fds (pf_locks s') !! (pid_of j, fd) = fds (pf_locks s) !! (pid_of j, fd)) ->
  (forall j, j <> i -> ls !! j = Some (ARunning true) -> pf_data s' = pf_data s) ->
  forall j u, <[i := l']> ls !! j = Some u -> proc_ok s' j u.
Proof.
  intros Hall Hi Hl' Hfds Hdata j u Hj. destruct (decide (i = j)) as [<-|Hne].
  - rewrite list_lookup_insert_eq in Hj by (by eapply lookup_lt_Some). by simplify_eq.
  - rewrite list_lookup_insert_ne in Hj by done. pose proof (Hall j u Hj) as Hu.
    destruct u; cbn in *; try done.
    + by rewrite (Hfds j _ (not_eq_sym Hne) Hj).
    + intros ->. rewrite (Hdata j); [by apply Hu|congruence|done].
Qed.

Lemma owner_unique s (ls : list apc) i j l b :
  locked_by s ls -> ls !! i = Some l -> owns l = true -> j <> i -> ls !! j = Some (ARunning b) -> False.
Proof.
  intros [[_ H]|(k & _ & _ & H)] Hi Ho Hne Hj.
  - by specialize (H j _ Hj).
  - destruct (decide (j = k)) as [->|Hjk]; [|by specialize (H j _ Hjk Hj)].
    rewrite (H i l ltac:(congruence) Hi) in Ho. done.
Qed.

Hypothesis fd_ok : (0 <= fd)%Z.
Hypothesis pid_ok : forall i, i < n -> (0 <= pid_of i <= INT_MAX)%Z.

Lemma kill_step s ls i l :
  daemons_inv (Config s ls) -> ls !! i = Some l ->
  daemons_inv (Config (a_killed (pid_of i) s).1 (<[i := (a_killed (pid_of i) s).2]> ls)).
Proof.
  intros [Hn Hlk Hpr] Hi. split; cbn in *.
  - by rewrite length_insert.
  - by eapply locked_kill.
  - by eapply procs_move.
Qed.

Lemma open_step s ls i :
  daemons_inv (Config s ls) -> ls !! i = Some AOpen ->
  exists s', ar_open (pid_of i) fd EACCES s = Ret tt s' /\ daemons_inv (Config s' (<[i := ALock]> ls)).
Proof.
  intros [Hn Hlk Hpr] Hi. cbn in *. eexists. unfold ar_open.
  rewrite (proj2 (Z.ltb_ge _ _)) by done. split; [done|]. split; cbn.
  - by rewrite length_insert.
  - by eapply locked_same.
  - eapply procs_move; [done|done|..]; cbn.
    + by rewrite lookup_insert_eq.
    + intros j u Hj Hu. rewrite lookup_insert_ne; [done|]. intros [= E].
      by apply (pid_differ ls i j AOpen u Hn Hi Hu ltac:(congruence)).
    + intros j _ Hj. specialize (Hpr j _ Hj). cbn in Hpr. by destruct (Hpr eq_refl) as [? ->].
Qed.

Lemma lock_step s ls i :
  daemons_inv (Config s ls) -> ls !! i = Some ALock ->
  exists (r : bool) s', ar_lock (pid_of i) fd s = Ret r s' /\
    daemons_inv (Config s' (<[i := if r then ARefused else ATrunc]> ls)).
Proof.
  intros [Hn Hlk Hpr] Hi. cbn in *. pose proof (Hpr i _ Hi) as Hfd. cbn in Hfd.
  destruct Hlk as [[Ht Hno]|(k & Ht & (lk & Hk & Hok) & Hno)].
  - destruct (ar_lock_free s (pid_of i) Hfd Ht) as [w Hrun]. eexists false, _. split; [exact Hrun|].
    split; cbn.
    + by rewrite length_insert.
    + eapply (locked_take s); try done. by left.
    + by eapply procs_move.
  - assert (k <> i) as Hne by (intros ->; rewrite Hi in Hk; by simplify_eq/=).
    destruct (ar_lock_busy s (pid_of i) (pid_of k) Hfd) as [e Hrun]; [|done|].
    { apply (pid_differ ls k i lk ALock Hn Hk Hi Hne). }
    eexists true, _. split; [exact Hrun|]. split; cbn.
    + by rewrite length_insert.
    + eapply (locked_same s); try done. right. exists k. split; [done|]. split; [by exists lk|done].
    + eapply procs_move; [done|done|done| |done]. cbn. intros j u Hj Hu.
      rewrite lookup_delete_ne; [done|]. intros [= E].
      by apply (pid_differ ls i j ALock u Hn Hi Hu ltac:(congruence)).
Qed.

Lemma daemons_step c c' : daemons_inv c -> step daemon_succ c c' -> daemons_inv c'.
Proof.
  intros Hinv Hs. inv_step.
  match goal with H1 : _ !! _ = Some _, H2 : _ ∈ _ |- _ => rename H1 into Hi, H2 into Hin end.
  assert (Hkill : (s', l') = a_killed (pid_of i) s -> daemons_inv (Config s' (<[i := l']> ls))).
  { intros [= -> ->]. by apply (kill_step s ls i l). }
  pose proof Hinv as [Hn Hlk Hpr]. cbn in *.
  destruct l; cbn in Hin; try by apply elem_of_nil in Hin.
  - destruct (open_step s ls i Hinv Hi) as (s1 & E & Hinv'). rewrite E in Hin. cbn in Hin.
    rewrite elem_of_cons, list_elem_of_singleton in Hin. destruct Hin as [[= -> ->]|?]; auto.
  - destruct (lock_step s ls i Hinv Hi) as (r & s1 & E & Hinv'). rewrite E in Hin. cbn in Hin.
    rewrite elem_of_cons, list_elem_of_singleton in Hin. destruct Hin as [[= -> ->]|?]; auto.
  - assert ((s', l') = a_killed (pid_of i) s \/ l' = AWrite /\ exists d, s' = set_data d s) as [?|[-> [d ->]]].
    { rewrite !elem_of_cons, elem_of_nil in Hin. destruct Hin as [[= -> ->]|[[= -> ->]|[?|[]]]]; [right..|by left].
      - by eauto.
      - split; [done|]. exists (pf_data s). by destruct s. }
    + auto.
    + split; cbn; [by rewrite length_insert|by eapply locked_same|]. eapply procs_move; [done|done|done|done|].
      intros j Hj Hrun. destruct (owner_unique _ _ _ _ _ _ Hlk Hi eq_refl Hj Hrun).
  - apply elem_of_app in Hin as [(res & Hin & _)%list_elem_of_bind|Hin]; [|rewrite list_elem_of_singleton in Hin; auto].
    destruct (ar_write_ok s (pid_of i) res (pid_ok i ltac:(rewrite <- Hn; by eapply lookup_lt_Some))) as (d & E & Hd).
    rewrite E in Hin. cbn in Hin. apply list_elem_of_singleton in Hin as [= -> ->].
    split; cbn; [by rewrite length_insert|by eapply locked_same|]. eapply procs_move; [done|done| |done|].
    + intros Hall. rewrite (Hd Hall). by eexists.
    + intros j Hj Hrun. destruct (owner_unique _ _ _ _ _ _ Hlk Hi eq_refl Hj Hrun).
  - rewrite list_elem_of_singleton in Hin. auto.
Qed.

Lemma daemons_reach c : reachable daemon_succ (daemons_start n) c -> daemons_inv c.
Proof.
  apply reachable_inv; [|apply daemons_step]. split; cbn.
  - by rewrite length_replicate.
  - left. split; [done|]. intros j l Hj. by apply lookup_replicate in Hj as [-> _].
  - intros i l Hl. by apply lookup_replicate in Hl as [-> _].
Qed.

(** Property C5.  However many processes start the daemon together
    and whenever they are killed, at most one of them is past
    [already_running] with result 0, none faults (the process id fits
    [buf[16]]), and while one runs it has the lock and the pid file holds its
    process id as a string, whatever the file held before, unless its
    [write], whose result is not looked at, did not take all the bytes; the
    others are told that one is running. *)
Theorem one_daemon c :
  reachable daemon_succ (daemons_start n) c ->
  (forall i j b b', pool c !! i = Some (ARunning b) -> pool c !! j = Some (ARunning b') -> i = j) /\
  (forall i, pool c !! i <> Some ABad) /\
  (forall i b, pool c !! i = Some (ARunning b) ->
     table (pf_locks (shared c)) = [Entry (pid_of i) true (Range 0 None)] /\
     (b = true -> exists d k, pf_data (shared c) = Some d /\ strlen d = Some k /\ take k d = chars (pretty (pid_of i)))) /\
  (forall i j b, pool c !! i = Some (ARunning b) -> pool c !! j = Some ALock ->
     exists s', ar_lock (pid_of j) fd (shared c) = Ret true s' /\ pf_data s' = pf_data (shared c)).
Proof.
  intros Hr. pose proof (daemons_reach c Hr) as [Hn Hlk Hpr]. split_and!.
  - intros i j b b' Hi Hj. destruct (decide (j = i)) as [->|Hne]; [done|].
    destruct (owner_unique _ _ _ _ _ _ Hlk Hi eq_refl Hne Hj).
  - intros i Hi. apply (Hpr i _ Hi).
  - intros i b Hi. split.
    + destruct Hlk as [[_ H]|(k & Ht & _ & H)]; [by specialize (H i _ Hi)|].
      destruct (decide (i = k)) as [->|Hne]; [done|]. by specialize (H i _ Hne Hi).
    + intros ->. destruct (Hpr i _ Hi eq_refl) as [rest Hd].
      exists (pid_text (pid_of i) ++ rest), (length (chars (pretty (pid_of i)))). unfold pid_text.
      rewrite <- app_assoc. split; [by rewrite Hd; unfold pid_text; rewrite <- app_assoc|].
      split; [apply strlen_app_nul, pretty_Z_no_nul, pid_ok; rewrite <- Hn; by eapply lookup_lt_Some|].
      apply take_app_length.
  - intros i j b Hi Hj. pose proof (Hpr j _ Hj) as Hfd. cbn in Hfd.
    destruct Hlk as [[_ H]|(k & Ht & _ & H)]; [by specialize (H i _ Hi)|].
    assert (i = k) as -> by (destruct (decide (i = k)) as [|Hne]; [done|by specialize (H i _ Hne Hi)]).
    destruct (ar_lock_busy (shared c) (pid_of j) (pid_of k) Hfd) as [e Hrun]; [|done|by eexists].
    apply (pid_differ (pool c) k j _ _ Hn Hi Hj). congruence.
Qed.
End AlreadyRunning.

Lemma already_running_free strerror pid fd err res s :
  (0 <= pid <= INT_MAX)%Z -> (0 <= fd)%Z -> table (pf_locks s) = [] -> took_all pid res = true ->
  exists s', already_running strerror pid fd err true res s = Ret 0%Z s' /\
    pf_data s' = Some (pid_text pid) /\ table (pf_locks s') = [Entry pid true (Range 0 None)].
Proof.
  intros Hp Hfd Ht Hw. unfold already_running, ar_open at 1. unix_unfold. rewrite (proj2 (Z.ltb_ge _ _)) by done.
  edestruct (ar_lock_free strerror fd) as [w Hrun]; [| |rewrite Hrun; cbn].
  { cbn. by rewrite lookup_insert_eq. } { done. }
  match goal with |- context [ar_write pid res ?s1] => destruct (ar_write_ok s1 pid res Hp) as (d & E & Hd) end.
  rewrite E. eexists. split; [done|]. cbn in *. rewrite (Hd Hw), drop_nil, app_nil_r. done.
Qed.

Lemma already_running_busy strerror pid fd err ok res s q :
  (0 <= fd)%Z -> q <> pid -> table (pf_locks s) = [Entry q true (Range 0 None)] ->
  exists s', already_running strerror pid fd err ok res s = Ret 1%Z s' /\
    pf_data s' = Some (default [] (pf_data s)) /\ table (pf_locks s') = table (pf_locks s).
Proof.
  intros Hfd Hq Ht. unfold already_running, ar_open at 1. unix_unfold. rewrite (proj2 (Z.ltb_ge _ _)) by done.
  edestruct (ar_lock_busy strerror fd) as [w Hrun]; [| | |rewrite Hrun; cbn].
  { cbn. by rewrite lookup_insert_eq. } { exact Hq. } { done. }
  by eexists.
Qed.

(** One call of [already_running]: with the file
    unlocked it returns 0, having locked the whole file and (when the calls
    whose results it does not look at succeed) written the
    process id and a [NUL] as its only contents; with the file locked by
    another process it returns 1 and leaves contents and lock as they are; if
    the file cannot be opened it logs that and exits with 1. *)
Theorem already_running_spec strerror pid fd err ok res s :
  (0 <= pid <= INT_MAX)%Z ->
  ((fd < 0)%Z -> exists s', already_running strerror pid fd err ok res s = Exited 1 s' /\
     pf_data s' = pf_data s /\ pf_locks s' = pf_locks s) /\
  ((0 <= fd)%Z -> table (pf_locks s) = [] -> took_all pid res = true ->
     exists s', already_running strerror pid fd err true res s = Ret 0%Z s' /\
       pf_data s' = Some (pid_text pid) /\ table (pf_locks s') = [Entry pid true (Range 0 None)]) /\
  (forall q, (0 <= fd)%Z -> q <> pid -> table (pf_locks s) = [Entry q true (Range 0 None)] ->
     exists s', already_running strerror pid fd err ok res s = Ret 1%Z s' /\
       pf_data s' = Some (default [] (pf_data s)) /\ table (pf_locks s') = table (pf_locks s)).
Proof.
  intros Hp. split_and!.
  - intros Hfd. unfold already_running, ar_open, pf_syslog. unix_unfold.
    rewrite (proj2 (Z.ltb_lt _ _)) by done. by eexists.
  - intros Hfd Ht Hw. by apply already_running_free.
  - intros q. apply already_running_busy.
Qed.

Lemma already_running_spec_witness :
  exists s', already_running (fun _ => "") 41 3 EACCES true (Some 3) no_locks = Ret 0%Z s' /\
    pf_data s' = Some (pid_text 41).
Proof.
  destruct (already_running_spec (fun _ => "") 41 3 EACCES true (Some 3) no_locks) as (_ & H & _);
    [split; vm_compute; congruence|].
  destruct H as (s' & H1 & H2 & _); [vm_compute; congruence|reflexivity|reflexivity|]. exists s'. auto.
Defined.

(** Three processes with ids 40, 41 and 42: the second wins. *)
Definition sample_pid (i : nat) : Z := 40 + Z.of_nat i.
Definition sample_sched : list (nat * nat) :=
  [(1,0); (0,0); (1,0); (2,0); (1,0); (0,0); (1,0)].

Lemma one_daemon_witness :
  exists c, run (daemon_succ (fun _ => "") sample_pid 3) sample_sched (daemons_start 3) = Some c /\
    pool c = [ARefused; ARunning true; ALock] /\
    (exists d k, pf_data (shared c) = Some d /\ strlen d = Some k /\ take k d = chars (pretty 41%Z)) /\
    exists s', ar_lock (fun _ => "") 42 3 (shared c) = Ret true s'.
Proof.
  eexists. split; [vm_compute; reflexivity|]. split; [reflexivity|].
  edestruct (one_daemon (fun _ => "") sample_pid 3 3) as (_ & _ & H3 & H4).
  - unfold sample_pid. lia.
  - lia.
  - unfold sample_pid, INT_MAX. lia.
  - eapply (run_reachable _ sample_sched). vm_compute. reflexivity.
  - split.
    + destruct (H3 1 true eq_refl) as (_ & Hf). destruct (Hf eq_refl) as (d & k & Hd & Hs & Ht). exists d, k. auto.
    + destruct (H4 1 2 true eq_refl eq_refl) as (s' & Hs & _). exists s'. exact Hs.
Defined.

(** ** The whole program *)

Definition whole : Type := proc * pidfile.
Definition on_proc {A} : prog proc A -> prog whole A := zoom fst (fun p x => (p, x.2)).
Definition on_file {A} : prog pidfile A -> prog whole A := zoom snd (fun f x => (x.1, f)).

(** [main(argc, argv)]: [e] holds the results of the calls of [daemonize],
    [open_err] is the error of opening the pid file if that fails ([open_ok]
    is false), [trunc_ok] and [written] are the answers of its [ftruncate] and
    [write], the next three are results of [main]'s own calls, [evs] what
    the signal thread's [sigwait]s return. *)
Definition main (strerror : errno -> string) (e : sysenv) (argv0 : list Ascii.ascii) (open_ok : bool)
    (open_err : errno) (trunc_ok : bool) (written : option nat) (sigaction_res sigmask_err create_err : Z) (evs : list (Z * Z)) : prog whole unit :=
  let cmd := String.string_of_list_ascii (command_name argv0) in
  on_proc (daemonize e cmd) ;;
  fd ← on_proc (open open_ok LOCKFILE) ;
  pid ← gets (fun x => p_pid x.1) ;
  running ← on_file (already_running strerror pid fd open_err trunc_ok written) ;
  on_proc (daemon_main running sigaction_res sigmask_err create_err cmd evs).

(** The pid file is opened on the first descriptor after the three. *)
Lemma open_lockfile f p :
  (forall i, (0 <= i < 4)%Z -> f !! i = None) -> p_fds p = three_null f ->
  open true LOCKFILE p = Ret 3%Z (set_fds (<[3%Z := LOCKFILE]> (three_null f)) p).
Proof.
  intros Hf Hp. unfold open. rewrite Hp.
  assert (lowest_free (three_null f) = 3%Z) as ->; [|done].
  apply (lowest_from_spec 3).
  - unfold three_null. rewrite !map_size_insert_None; [lia|..];
      rewrite ?lookup_insert_ne by done; apply Hf; lia.
  - intros i Hi. unfold three_null. destruct i as [|[|[|i]]]; [| | |lia]; cbn.
    + rewrite 2!lookup_insert_ne by done. rewrite lookup_insert_eq. by eexists.
    + rewrite lookup_insert_ne by done. rewrite lookup_insert_eq. by eexists.
    + rewrite lookup_insert_eq. by eexists.
  - unfold three_null. cbn. rewrite !lookup_insert_ne by done. apply Hf. lia.
Qed.

(** Property C13.  The whole program, started with its calls succeeding (the
    [write] of the pid takes it whole) and no other daemon holding the pid
    file: it becomes the daemon, records its own process id (the one it has after the second
    fork) in the locked pid file, answers the signals it gets and exits with
    0 on [SIGTERM].  If another process holds the lock it logs that and exits
    with 1 without touching the file's contents. *)
Theorem daemon_lifecycle strerror e argv0 err ok res sigs rest p f :
  calls_succeed e p -> (4 <= fd_limit e)%Z -> (0 <= fork2_child e <= INT_MAX)%Z -> (SIGTERM ∉ sigs) ->
  (table (pf_locks f) = [] -> took_all (fork2_child e) res = true ->
   exists p' f', main strerror e argv0 true err true res 0 0 0 ((delivered <$> sigs) ++ delivered SIGTERM :: rest) (p, f)
       = Exited 0 (p', f') /\
     pf_data f' = Some (pid_text (fork2_child e)) /\
     table (pf_locks f') = [Entry (fork2_child e) true (Range 0 None)] /\
     p_log p' = p_log p ++ (signal_msg <$> sigs) ++ [LOG_INFO "got SIGTERM; exiting"]) /\
  (forall q evs, q <> fork2_child e -> table (pf_locks f) = [Entry q true (Range 0 None)] ->
   exists p' f', main strerror e argv0 true err ok res 0 0 0 evs (p, f) = Exited 1 (p', f') /\
     pf_data f' = Some (default [] (pf_data f)) /\
     p_log p' = p_log p ++ [LOG_ERR "daemon already running"]).
Proof.
  intros Hc Hlim Hpid Hsig. unfold main. set (cmd := String.string_of_list_ascii _).
  destruct (daemonize_run e cmd p Hc) as (g & Hg & Hrun).
  set (p1 := Proc _ _ _ _ _ _ _ _ _ _ _) in Hrun.
  assert (Hopen : open true LOCKFILE p1 = Ret 3%Z (set_fds (<[3%Z := LOCKFILE]> (three_null g)) p1)).
  { apply open_lockfile; [|done]. intros i Hi. rewrite Hg. by rewrite decide_True by lia. }
  unfold on_proc, on_file, zoom. unix_unfold. cbn [fst snd]. rewrite Hrun. cbn [fst snd]. rewrite Hopen. cbn [fst snd].
  change (p_pid (set_fds (<[3%Z := LOCKFILE]> (three_null g)) p1)) with (fork2_child e).
  set (p2 := set_fds (<[3%Z := LOCKFILE]> (three_null g)) p1). split.
  - intros Ht Hw. destruct (already_running_free strerror _ 3 err res f Hpid ltac:(lia) Ht Hw) as (f' & Hf & Hd & Htab).
    rewrite Hf. cbn [fst snd].
    change (daemon_main 0 0 0 0 cmd ((delivered <$> sigs) ++ delivered SIGTERM :: rest) p2)
      with (thr_fn ((delivered <$> sigs) ++ delivered SIGTERM :: rest) (Daemon.set_blocked true (set_sighup SIG_DFL p2))).
    rewrite thr_fn_run by done. eexists _, f'. split; [done|]. split; [done|]. split; [done|].
    cbn. by rewrite <- app_assoc.
  - intros q evs Hq Ht. destruct (already_running_busy strerror _ 3 err ok res f q ltac:(lia) Hq Ht) as (f' & Hf & Hd & Htab).
    rewrite Hf. cbn [fst snd]. eexists _, f'. by split.
Qed.

Lemma daemon_lifecycle_witness :
  exists p' f', main (fun _ => "") sample_env (chars "/usr/sbin/mydaemon") true EACCES true (Some 4) 0 0 0
      [(0, 1); (0, 15)]%Z (sample_proc, no_locks) = Exited 0 (p', f') /\
    pf_data f' = Some (chars "502" ++ [NUL]).
Proof.
  destruct (daemon_lifecycle (fun _ => "") sample_env (chars "/usr/sbin/mydaemon") EACCES true (Some 4) [1%Z] [] sample_proc no_locks)
    as [H _].
  - split; vm_compute; try split; congruence.
  - vm_compute. congruence.
  - vm_compute. split; congruence.
  - rewrite list_elem_of_singleton. discriminate.
  - destruct (H eq_refl eq_refl) as (p' & f' & H1 & H2 & _). exists p', f'. split; [exact H1|exact H2].
Defined.
