(* ===== verification/Epoll.v ===== *)
(** * epoll_demo: what the client and the server share

    The epoll instance as the kernel keeps it (descriptors and the events
    they are watched for), the three wrappers [add_event], [modify_event] and
    [delete_event], which ignore the result of [epoll_ctl], and the character
    buffer of [MAXSIZE] bytes that every read and write goes through. *)

From S2P Require Import Prelude.

Definition MAXSIZE : nat := 1024.

Definition EPOLLIN : Z := 1.
Definition EPOLLOUT : Z := 4.

(** [events & flag]. *)
Definition has (events flag : Z) : bool := negb (Z.land events flag =? 0)%Z.

(** ** The epoll instance *)

(** Open descriptors, and the interest list. *)
Record epoll := Epoll { opened : gset Z; interest : gmap Z Z }.

Inductive epoll_op := EPOLL_CTL_ADD | EPOLL_CTL_MOD | EPOLL_CTL_DEL.

(** [epoll_ctl(epollfd, op, fd, {events})]: 0, or -1 and no change. *)
Definition epoll_ctl (op : epoll_op) (fd events : Z) (k : epoll) : Z * epoll :=
  if decide (fd ∈ opened k) then
    match op, interest k !! fd with
    | EPOLL_CTL_ADD, None => (0%Z, Epoll (opened k) (<[fd := events]> (interest k)))
    | EPOLL_CTL_MOD, Some _ => (0%Z, Epoll (opened k) (<[fd := events]> (interest k)))
    | EPOLL_CTL_DEL, Some _ => (0%Z, Epoll (opened k) (delete fd (interest k)))
    | _, _ => ((-1)%Z, k)
    end
  else ((-1)%Z, k).

Definition add_event (fd state : Z) (k : epoll) : epoll := (epoll_ctl EPOLL_CTL_ADD fd state k).2.
Definition modify_event (fd state : Z) (k : epoll) : epoll := (epoll_ctl EPOLL_CTL_MOD fd state k).2.
Definition delete_event (fd state : Z) (k : epoll) : epoll := (epoll_ctl EPOLL_CTL_DEL fd state k).2.

(** [close(fd)]: the kernel also forgets the interest. *)
Definition close_fd (fd : Z) (k : epoll) : epoll := Epoll (opened k ∖ {[fd]}) (delete fd (interest k)).

(** Every watched descriptor is open. *)
Definition epoll_ok (k : epoll) : Prop := dom (interest k) ⊆ opened k.

Lemma add_event_new fd st k :
  fd ∈ opened k -> interest k !! fd = None ->
  add_event fd st k = Epoll (opened k) (<[fd := st]> (interest k)).
Proof. intros Ho Hi. unfold add_event, epoll_ctl. by rewrite decide_True, Hi. Qed.

Lemma add_event_old fd st k x : interest k !! fd = Some x -> add_event fd st k = k.
Proof. intros Hi. unfold add_event, epoll_ctl. rewrite Hi. by case_decide. Qed.

Lemma modify_event_old fd st k x :
  epoll_ok k -> interest k !! fd = Some x ->
  modify_event fd st k = Epoll (opened k) (<[fd := st]> (interest k)).
Proof.
  intros Hk Hi. unfold modify_event, epoll_ctl. rewrite decide_True, Hi; [done|].
  apply Hk, elem_of_dom. by eexists.
Qed.

Lemma modify_event_new fd st k : interest k !! fd = None -> modify_event fd st k = k.
Proof. intros Hi. unfold modify_event, epoll_ctl. rewrite Hi. by case_decide. Qed.

Lemma delete_event_eq fd st k :
  epoll_ok k -> delete_event fd st k = Epoll (opened k) (delete fd (interest k)).
Proof.
  intros Hk. unfold delete_event, epoll_ctl. destruct (interest k !! fd) as [x|] eqn:E.
  - rewrite decide_True; [done|]. apply Hk, elem_of_dom. by eexists.
  - destruct k as [o i]. cbn in *. rewrite (delete_id i fd) by done. by case_decide.
Qed.

(** Closing first makes the following [delete_event] do nothing. *)
Lemma delete_event_closed fd st k : delete_event fd st (close_fd fd k) = close_fd fd k.
Proof. unfold delete_event, epoll_ctl, close_fd. cbn. rewrite decide_False; [done|set_solver]. Qed.

Lemma epoll_ok_close fd k : epoll_ok k -> epoll_ok (close_fd fd k).
Proof. unfold epoll_ok, close_fd. cbn. rewrite dom_delete_L. set_solver. Qed.

Lemma epoll_ok_add fd st k : epoll_ok k -> epoll_ok (add_event fd st k).
Proof.
  intros Hk. unfold add_event, epoll_ctl. case_decide; [|done].
  destruct (interest k !! fd); [done|]. unfold epoll_ok in *. cbn. rewrite dom_insert_L. set_solver.
Qed.

Lemma epoll_ok_modify fd st k : epoll_ok k -> epoll_ok (modify_event fd st k).
Proof.
  intros Hk. unfold modify_event, epoll_ctl. case_decide; [|done].
  destruct (interest k !! fd); [|done]. unfold epoll_ok in *. cbn. rewrite dom_insert_L. set_solver.
Qed.

(** ** The buffer *)

(** [read(fd, buf, MAXSIZE)] that delivered [d], and [memset(buf, 0, MAXSIZE)]. *)
Definition fill_buf (d buf : list Ascii.ascii) : list Ascii.ascii := d ++ drop (length d) buf.
Definition zero_buf : list Ascii.ascii := replicate MAXSIZE NUL.

Arguments fill_buf _ _ : simpl never.
Arguments zero_buf : simpl never.

Lemma fill_buf_length d buf :
  length d <= length buf -> length (fill_buf d buf) = length buf.
Proof. intros H. unfold fill_buf. rewrite length_app, length_drop. lia. Qed.

(** A buffer whose last byte is 0 holds a string, and short reads keep it so. *)
Definition terminated (buf : list Ascii.ascii) : Prop :=
  length buf = MAXSIZE /\ buf !! (MAXSIZE - 1) = Some NUL.

Lemma terminated_zero : terminated zero_buf.
Proof. by split; vm_compute. Qed.

Lemma terminated_fill d buf :
  terminated buf -> length d < MAXSIZE -> terminated (fill_buf d buf).
Proof.
  intros [Hl Hn] Hd. split; [rewrite fill_buf_length; lia|].
  unfold fill_buf. rewrite lookup_app_r by lia. rewrite lookup_drop.
  by replace (length d + (MAXSIZE - 1 - length d)) with (MAXSIZE - 1) by lia.
Qed.

Lemma strlen_has_nul buf i : buf !! i = Some NUL -> exists n, strlen buf = Some n /\ n <= i.
Proof.
  revert i. induction buf as [|c buf IH]; intros i Hi; [done|]. cbn.
  case_decide; [exists 0; split; [done|lia]|].
  destruct i as [|i]; simplify_eq/=. destruct (IH i Hi) as (n & -> & ?).
  exists (S n). split; [done|lia].
Qed.

Lemma terminated_strlen buf : terminated buf -> exists n, strlen buf = Some n /\ n < MAXSIZE.
Proof.
  intros [_ Hn]. destruct (strlen_has_nul _ _ Hn) as (n & ? & ?). exists n. split; [done|].
  unfold MAXSIZE in *. lia.
Qed.

(** A message read into a clean buffer stands there as a string. *)
Lemma strlen_fill_zero d :
  (NUL ∉ d) -> length d < MAXSIZE -> strlen (fill_buf d zero_buf) = Some (length d).
Proof.
  intros Hn Hl. unfold fill_buf, zero_buf. rewrite drop_replicate.
  destruct (MAXSIZE - length d) as [|k] eqn:E; [lia|]. cbn [replicate]. by apply strlen_app_nul.
Qed.

Lemma take_fill d buf : take (length d) (fill_buf d buf) = d.
Proof. unfold fill_buf. by rewrite take_app_length. Qed.

(** A second message read over a first one. *)
Lemma fill_fill d1 d2 buf :
  fill_buf d2 (fill_buf d1 buf) = fill_buf (d2 ++ drop (length d2) d1) buf.
Proof.
  unfold fill_buf. rewrite drop_app, drop_drop, <- app_assoc, length_app, length_drop.
  do 3 f_equal. lia.
Qed.

#[export] Hint Resolve epoll_ok_close epoll_ok_add epoll_ok_modify terminated_zero terminated_fill : unix.
