(* ===== verification/EpollServer.v ===== *)
(** * epoll_demo/epoll_server.c: an echo server

    One thread waits for events on the listening socket and on its clients:
    a readable client is read into the one shared buffer and then watched for
    writability, a writable one is sent the buffer.  The kernel's answers
    (events, results of [accept], [read] and [write]) are inputs.  The server
    leaves SIGPIPE alone, so a [write] to a client that has gone can kill it. *)

From S2P Require Import Prelude Epoll.

(** What [write] does: it takes some bytes, it returns -1, or the connection
    is broken (EPIPE) and SIGPIPE is raised. *)
Inductive wrote := Wrote (n : nat) | WError | WPipe.

#[export] Instance wrote_dec : EqDecision wrote.
Proof. solve_decision. Defined.

(** The default action of SIGPIPE ends the process; as the exit status, what
    the shell reports of it. *)
Definition SIGPIPE : Z := 13.
Definition killed_by {St A} (sig : Z) : prog St A := c_exit (128 + sig).

(** An element of [events], and what the system call that its handler makes
    will return: the descriptor or an error of [accept], the bytes or an error
    of [read], the answer of [write]. *)
Record event := Event {
  ev_fd : Z; ev_events : Z;
  ev_accept : Z; ev_read : option (list Ascii.ascii); ev_write : wrote
}.

#[export] Instance event_dec : EqDecision event.
Proof. solve_decision. Defined.

(** The epoll instance, [buf], standard output, and the bytes sent. *)
Record server := Server {
  s_epoll : epoll; s_buf : list Ascii.ascii; s_out : list Ascii.ascii;
  s_sent : list (Z * list Ascii.ascii)
}.

Definition on_epoll (f : epoll -> epoll) : prog server unit :=
  modify (fun s => Server (f (s_epoll s)) (s_buf s) (s_out s) (s_sent s)).
Definition set_buf (b : list Ascii.ascii) : prog server unit :=
  modify (fun s => Server (s_epoll s) b (s_out s) (s_sent s)).
Definition s_printf (x : list Ascii.ascii) : prog server unit :=
  modify (fun s => Server (s_epoll s) (s_buf s) (s_out s ++ x) (s_sent s)).
Definition s_send (fd : Z) (x : list Ascii.ascii) : prog server unit :=
  modify (fun s => Server (s_epoll s) (s_buf s) (s_out s) (s_sent s ++ [(fd, x)])).

(** The descriptor [accept] returned is open from then on. *)
Definition accepted (fd : Z) (k : epoll) : epoll := Epoll ({[fd]} ∪ opened k) (interest k).

Definition handle_accept (clifd : Z) : prog server unit :=
  if (clifd <? 0)%Z then mret tt
  else on_epoll (accepted clifd) ;; on_epoll (add_event clifd EPOLLIN).

Definition msg_prefix : list Ascii.ascii := chars "read message: ".

Definition do_read (fd : Z) (res : option (list Ascii.ascii)) : prog server unit :=
  match res with
  | None | Some [] => on_epoll (close_fd fd) ;; on_epoll (delete_event fd EPOLLIN)
  | Some d =>
    b ← gets s_buf ;
    let b' := fill_buf d b in
    set_buf b' ;;
    n ← need (strlen b') ;
    s_printf (msg_prefix ++ take n b') ;;
    on_epoll (modify_event fd EPOLLOUT)
  end.

Definition do_write (fd : Z) (res : wrote) : prog server unit :=
  b ← gets s_buf ;
  n ← need (strlen b) ;
  match res with
  | WPipe => killed_by SIGPIPE
  | WError => on_epoll (close_fd fd) ;; on_epoll (delete_event fd EPOLLOUT)
  | Wrote w => s_send fd (take (min w n) b) ;; on_epoll (modify_event fd EPOLLIN)
  end ;;
  set_buf zero_buf.

Definition handle_event (listenfd : Z) (e : event) : prog server unit :=
  if (ev_fd e =? listenfd)%Z && has (ev_events e) EPOLLIN then handle_accept (ev_accept e)
  else if has (ev_events e) EPOLLIN then do_read (ev_fd e) (ev_read e)
  else if has (ev_events e) EPOLLOUT then do_write (ev_fd e) (ev_write e)
  else mret tt.

Fixpoint handle_events (listenfd : Z) (events : list event) : prog server unit :=
  match events with
  | [] => mret tt
  | e :: events' => handle_event listenfd e ;; handle_events listenfd events'
  end.

(** The loop of [do_epoll]: each element is what one [epoll_wait] returned,
    [None] for an error. *)
Fixpoint epoll_loop (listenfd : Z) (waits : list (option (list event))) : prog server unit :=
  match waits with
  | [] => c_block
  | None :: _ => c_exit (-1)
  | Some evs :: waits' => handle_events listenfd evs ;; epoll_loop listenfd waits'
  end.

Definition do_epoll (create_res listenfd : Z) (waits : list (option (list event))) : prog server unit :=
  set_buf zero_buf ;;
  if (create_res <? 0)%Z then c_exit (-1)
  else on_epoll (add_event listenfd EPOLLIN) ;; epoll_loop listenfd waits.

(** [socket_bind], with the results of [socket] and [bind]. *)
Definition socket_bind (socket_res bind_res : Z) : prog server Z :=
  if (socket_res <? 0)%Z then c_exit (-1)
  else on_epoll (accepted socket_res) ;; if (bind_res <? 0)%Z then c_exit (-1) else mret socket_res.

Definition server_main (socket_res bind_res create_res : Z) (waits : list (option (list event)))
    : prog server unit :=
  listenfd ← socket_bind socket_res bind_res ; do_epoll create_res listenfd waits.

(** ** Invariant *)

Record server_ok (listenfd : Z) (s : server) : Prop := {
  so_epoll : epoll_ok (s_epoll s);
  so_listen : interest (s_epoll s) !! listenfd = Some EPOLLIN;
  so_masks : map_Forall (fun _ m => m = EPOLLIN \/ m = EPOLLOUT) (interest (s_epoll s));
  so_buf : terminated (s_buf s)
}.

(** What the kernel may report: events of watched descriptors ([accept] gives
    a new descriptor), reads and writes that fit. *)
Definition event_ok (listenfd : Z) (e : event) : Prop :=
  (ev_fd e = listenfd -> ev_events e = EPOLLIN) /\
  match ev_read e with Some d => length d < MAXSIZE | None => True end.

Ltac srv_run := unfold on_epoll, set_buf, s_printf, s_send in *; unix_unfold; cbn.

Lemma masks_insert (m : gmap Z Z) fd st :
  st = EPOLLIN \/ st = EPOLLOUT -> map_Forall (fun _ m => m = EPOLLIN \/ m = EPOLLOUT) m ->
  map_Forall (fun _ m => m = EPOLLIN \/ m = EPOLLOUT) (<[fd := st]> m).
Proof.
  intros Hst Hm j x. destruct (decide (fd = j)) as [<-|Hne].
  - rewrite lookup_insert_eq. naive_solver.
  - rewrite lookup_insert_ne by done. apply Hm.
Qed.

(** A client may be watched for something else, or closed. *)
Lemma modify_keeps listenfd fd st k :
  fd <> listenfd -> epoll_ok k -> interest k !! listenfd = Some EPOLLIN ->
  map_Forall (fun _ m => m = EPOLLIN \/ m = EPOLLOUT) (interest k) -> st = EPOLLIN \/ st = EPOLLOUT ->
  epoll_ok (modify_event fd st k) /\ interest (modify_event fd st k) !! listenfd = Some EPOLLIN /\
  map_Forall (fun _ m => m = EPOLLIN \/ m = EPOLLOUT) (interest (modify_event fd st k)).
Proof.
  intros Hne Hk Hl Hm Hst. split; [by apply epoll_ok_modify|].
  destruct (interest k !! fd) as [x|] eqn:E.
  - rewrite (modify_event_old _ _ _ _ Hk E). cbn. rewrite lookup_insert_ne by done.
    split; [done|by apply masks_insert].
  - by rewrite modify_event_new.
Qed.

Lemma close_keeps listenfd fd k :
  fd <> listenfd -> epoll_ok k -> interest k !! listenfd = Some EPOLLIN ->
  map_Forall (fun _ m => m = EPOLLIN \/ m = EPOLLOUT) (interest k) ->
  epoll_ok (close_fd fd k) /\ interest (close_fd fd k) !! listenfd = Some EPOLLIN /\
  map_Forall (fun _ m => m = EPOLLIN \/ m = EPOLLOUT) (interest (close_fd fd k)).
Proof.
  intros Hne Hk Hl Hm. split; [by apply epoll_ok_close|]. cbn. rewrite lookup_delete_ne by done.
  split; [done|]. by apply map_Forall_delete.
Qed.

Lemma do_read_ok listenfd fd res s :
  server_ok listenfd s -> fd <> listenfd ->
  match res with Some d => length d < MAXSIZE | None => True end ->
  exists s', do_read fd res s = Ret tt s' /\ server_ok listenfd s'.
Proof.
  intros [Hk Hl Hm Hb] Hfd Hres.
  assert (Hclose : exists s', (on_epoll (close_fd fd) ;; on_epoll (delete_event fd EPOLLIN)) s = Ret tt s' /\
    server_ok listenfd s').
  { srv_run. rewrite delete_event_closed.
    destruct (close_keeps listenfd fd (s_epoll s) Hfd Hk Hl Hm) as (? & ? & ?). eexists. by split. }
  destruct res as [[|c d]|]; [exact Hclose| |exact Hclose].
  pose proof (terminated_fill _ _ Hb Hres) as Hb'.
  destruct (terminated_strlen _ Hb') as (n & Hn & _).
  destruct (modify_keeps listenfd fd EPOLLOUT (s_epoll s) Hfd Hk Hl Hm (or_intror eq_refl)) as (? & ? & ?).
  unfold do_read. srv_run. rewrite Hn. eexists. split; [done|]. by split.
Qed.

Lemma do_write_ok listenfd fd res s :
  server_ok listenfd s -> fd <> listenfd ->
  exists s', do_write fd res s = (if decide (res = WPipe) then Exited (128 + SIGPIPE) s' else Ret tt s') /\
    server_ok listenfd s'.
Proof.
  intros [Hk Hl Hm Hb] Hfd. destruct (terminated_strlen _ Hb) as (n & Hn & _).
  destruct (modify_keeps listenfd fd EPOLLIN (s_epoll s) Hfd Hk Hl Hm (or_introl eq_refl)) as (? & ? & ?).
  destruct (close_keeps listenfd fd (s_epoll s) Hfd Hk Hl Hm) as (? & ? & ?).
  unfold do_write, killed_by. srv_run. rewrite Hn.
  destruct res as [w| |]; (eexists; split; [done|]); split; cbn; auto with unix;
    by rewrite delete_event_closed.
Qed.

Lemma handle_accept_ok listenfd clifd s :
  server_ok listenfd s -> exists s', handle_accept clifd s = Ret tt s' /\ server_ok listenfd s'.
Proof.
  intros [Hk Hl Hm Hb]. unfold handle_accept. destruct (clifd <? 0)%Z; [by exists s|].
  srv_run. eexists. split; [done|].
  assert (Hk' : epoll_ok (accepted clifd (s_epoll s))) by (unfold epoll_ok, accepted in *; cbn; set_solver).
  split; cbn; [by apply epoll_ok_add| | |done].
  - destruct (interest (s_epoll s) !! clifd) as [x|] eqn:E.
    + by rewrite (add_event_old clifd _ _ x).
    + rewrite add_event_new; [cbn|cbn; set_solver|done].
      rewrite lookup_insert_ne; [done|]. congruence.
  - destruct (interest (s_epoll s) !! clifd) as [x|] eqn:E.
    + by rewrite (add_event_old clifd _ _ x).
    + rewrite add_event_new; [cbn|cbn; set_solver|done]. apply masks_insert; [by left|done].
Qed.

(** The event whose handler is killed by SIGPIPE. *)
Definition raises (e : event) : bool :=
  negb (has (ev_events e) EPOLLIN) && has (ev_events e) EPOLLOUT && bool_decide (ev_write e = WPipe).

Lemma handle_event_ok listenfd e s :
  server_ok listenfd s -> event_ok listenfd e ->
  exists s', handle_event listenfd e s = (if raises e then Exited (128 + SIGPIPE) s' else Ret tt s') /\
    server_ok listenfd s'.
Proof.
  intros Hs [Hlis Hrd]. unfold handle_event, raises.
  destruct (Z.eqb_spec (ev_fd e) listenfd) as [E|E]; cbn.
  - rewrite (Hlis E). cbn. by apply handle_accept_ok.
  - destruct (has (ev_events e) EPOLLIN); [by apply do_read_ok|].
    destruct (has (ev_events e) EPOLLOUT); [|by exists s]. cbn.
    destruct (do_write_ok listenfd (ev_fd e) (ev_write e) s Hs E) as (s' & Hw & ?). exists s'.
    split; [|done]. rewrite Hw. by case_decide; case_bool_decide.
Qed.

Lemma handle_events_ok listenfd evs s :
  server_ok listenfd s -> Forall (event_ok listenfd) evs ->
  exists s', handle_events listenfd evs s =
      (if existsb raises evs then Exited (128 + SIGPIPE) s' else Ret tt s') /\ server_ok listenfd s'.
Proof.
  intros Hs Hev. revert s Hs. induction Hev as [|e evs He _ IH]; intros s Hs; [by exists s|].
  destruct (handle_event_ok listenfd e s Hs He) as (s1 & E1 & Hs1). cbn [handle_events existsb].
  destruct (raises e); cbn; [exists s1; split; [by apply bind_exit|done]|].
  destruct (IH s1 Hs1) as (s2 & E2 & Hs2). exists s2. split; [|done]. by rewrite (bind_ret _ _ _ _ _ E1).
Qed.

(** The server as the kernel starts it. *)
Definition server_init : server := Server (Epoll {[0; 1; 2; 4]}%Z ∅) [] [] [].

(** How a run of the loop comes to its end, if it does. *)
Fixpoint stops (waits : list (option (list event))) : option Z :=
  match waits with
  | [] => None
  | None :: _ => Some (-1)%Z
  | Some evs :: waits' => if existsb raises evs then Some (128 + SIGPIPE)%Z else stops waits'
  end.

Lemma epoll_loop_ok listenfd waits s :
  server_ok listenfd s ->
  Forall (fun w => match w with Some evs => Forall (event_ok listenfd) evs | None => True end) waits ->
  exists s', server_ok listenfd s' /\
    epoll_loop listenfd waits s = match stops waits with Some c => Exited c s' | None => Blocked s' end.
Proof.
  intros Hs Hw. revert s Hs. induction Hw as [|[evs|] ws He _ IH]; intros s Hs; cbn [epoll_loop stops];
    [by exists s| |by exists s].
  destruct (handle_events_ok listenfd evs s Hs He) as (s1 & E1 & Hs1).
  destruct (existsb raises evs); [exists s1; split; [done|by apply bind_exit]|].
  rewrite (bind_ret _ _ _ _ _ E1). by apply IH.
Qed.

(** Property C9.  Whatever clients do, as long as no [read] fills
    the whole buffer, the server never faults: it handles every batch of
    events and waits for more, until an [epoll_wait] error ends it with -1 or
    a [write] to a client that has gone raises SIGPIPE, for which it has no
    handler; nothing else stops it.  Throughout, the listening socket stays
    watched for connections, only open descriptors are watched, each client
    for reading or for writing, and the buffer holds a string. *)
Theorem server_safe listenfd create_res waits :
  (3 <= listenfd)%Z -> (0 <= create_res)%Z ->
  Forall (fun w => match w with Some evs => Forall (event_ok listenfd) evs | None => True end) waits ->
  exists s', server_ok listenfd s' /\
    server_main listenfd 0 create_res waits server_init =
      match stops waits with Some c => Exited c s' | None => Blocked s' end.
Proof.
  intros Hl Hc Hw. unfold server_main, socket_bind, do_epoll. srv_run.
  rewrite (proj2 (Z.ltb_ge listenfd 0)) by lia. cbn. rewrite (proj2 (Z.ltb_ge create_res 0)) by lia.
  apply epoll_loop_ok; [|done].
  assert (Ha : add_event listenfd EPOLLIN (accepted listenfd (s_epoll server_init)) =
    Epoll (opened (accepted listenfd (s_epoll server_init))) {[listenfd := EPOLLIN]}).
  { rewrite add_event_new; [done|cbn; set_solver|done]. }
  match goal with |- server_ok _ ?st => change st with
    (Server (add_event listenfd EPOLLIN (accepted listenfd (s_epoll server_init))) zero_buf [] []) end.
  rewrite Ha. split; cbn.
  - unfold epoll_ok. cbn. set_solver.
  - by rewrite lookup_singleton_eq.
  - apply map_Forall_singleton. by left.
  - apply terminated_zero.
Qed.

Definition hello : list Ascii.ascii := chars "hello".
Definition sample_waits : list (option (list event)) :=
  [Some [Event 5 EPOLLIN 7 None WError; Event 5 EPOLLIN 8 None WError];
   Some [Event 7 EPOLLIN 0 (Some hello) WError; Event 8 EPOLLIN 0 (Some hello) WError];
   Some [Event 7 EPOLLOUT 0 None (Wrote 5)]; Some [Event 8 EPOLLOUT 0 None WPipe]].

Lemma server_safe_witness :
  exists s', server_ok 5 s' /\ server_main 5 0 6 sample_waits server_init = Exited 141 s'.
Proof.
  destruct (server_safe 5 6 sample_waits) as (s' & Hok & H).
  - lia.
  - lia.
  - unfold sample_waits, event_ok. repeat constructor; cbn; intros; try discriminate; unfold MAXSIZE; lia.
  - exists s'. split; [exact Hok|exact H].
Defined.

(** ** Echo *)

(** A client sends [x_msg]; the kernel takes [x_taken] bytes of the answer. *)
Record exchange := Exchange { x_fd : Z; x_msg : list Ascii.ascii; x_taken : nat }.

Definition exchange_events (x : exchange) : list event :=
  [Event (x_fd x) EPOLLIN 0 (Some (x_msg x)) WError; Event (x_fd x) EPOLLOUT 0 None (Wrote (x_taken x))].

(** A text message of a watched client that fits the buffer. *)
Definition exchange_ok (listenfd : Z) (k : epoll) (x : exchange) : Prop :=
  x_fd x <> listenfd /\ interest k !! x_fd x = Some EPOLLIN /\
  (NUL ∉ x_msg x) /\ 0 < length (x_msg x) < MAXSIZE.

Definition answered (x : exchange) : Z * list Ascii.ascii := (x_fd x, take (x_taken x) (x_msg x)).
Definition announced (x : exchange) : list Ascii.ascii := msg_prefix ++ x_msg x.

(** Reading a message. *)
Lemma do_read_any fd d n s :
  epoll_ok (s_epoll s) -> is_Some (interest (s_epoll s) !! fd) -> 0 < length d ->
  strlen (fill_buf d (s_buf s)) = Some n ->
  do_read fd (Some d) s =
    Ret tt (Server (Epoll (opened (s_epoll s)) (<[fd := EPOLLOUT]> (interest (s_epoll s))))
                   (fill_buf d (s_buf s)) (s_out s ++ msg_prefix ++ take n (fill_buf d (s_buf s))) (s_sent s)).
Proof.
  intros Hk [m Hm] Hl Hn. destruct d as [|c d]; [cbn in Hl; lia|].
  unfold do_read. srv_run. rewrite Hn. by rewrite (modify_event_old _ _ _ _ Hk Hm).
Qed.

Lemma do_read_msg fd d s :
  epoll_ok (s_epoll s) -> is_Some (interest (s_epoll s) !! fd) -> (NUL ∉ d) -> 0 < length d < MAXSIZE ->
  s_buf s = zero_buf ->
  do_read fd (Some d) s =
    Ret tt (Server (Epoll (opened (s_epoll s)) (<[fd := EPOLLOUT]> (interest (s_epoll s))))
                   (fill_buf d zero_buf) (s_out s ++ msg_prefix ++ d) (s_sent s)).
Proof.
  intros Hk Hm Hn Hl Hb. rewrite (do_read_any fd d (length d)); [|done|done|lia|].
  - by rewrite Hb, take_fill.
  - rewrite Hb. apply strlen_fill_zero; [done|lia].
Qed.

Lemma do_write_msg fd n w s :
  epoll_ok (s_epoll s) -> is_Some (interest (s_epoll s) !! fd) -> strlen (s_buf s) = Some n ->
  do_write fd (Wrote w) s =
    Ret tt (Server (Epoll (opened (s_epoll s)) (<[fd := EPOLLIN]> (interest (s_epoll s)))) zero_buf (s_out s)
                   (s_sent s ++ [(fd, take (min w n) (s_buf s))])).
Proof.
  intros Hk [m Hm] Hn. unfold do_write. srv_run. rewrite Hn. cbn.
  by rewrite (modify_event_old _ _ _ _ Hk Hm).
Qed.

Lemma take_fill_min w d : take (min w (length d)) (fill_buf d zero_buf) = take w d.
Proof. by rewrite <- take_take, take_fill. Qed.

Lemma epoll_ok_mask fd st k :
  epoll_ok k -> is_Some (interest k !! fd) -> epoll_ok (Epoll (opened k) (<[fd := st]> (interest k))).
Proof.
  intros Hk [m Hm]. unfold epoll_ok in *. cbn. rewrite dom_insert_L.
  apply elem_of_dom_2 in Hm. set_solver.
Qed.

Lemma exchange_run listenfd x s :
  epoll_ok (s_epoll s) -> exchange_ok listenfd (s_epoll s) x -> s_buf s = zero_buf ->
  handle_events listenfd (exchange_events x) s =
    Ret tt (Server (s_epoll s) zero_buf (s_out s ++ announced x) (s_sent s ++ [answered x])).
Proof.
  intros Hk (Hfd & Hi & Hn & Hl) Hb. unfold exchange_events. cbn [handle_events].
  unfold handle_event. cbn [ev_fd ev_events ev_read ev_write].
  rewrite (proj2 (Z.eqb_neq (x_fd x) listenfd)) by done.
  change (has EPOLLIN EPOLLIN) with true. change (has EPOLLOUT EPOLLIN) with false.
  change (has EPOLLOUT EPOLLOUT) with true. cbn [andb].
  assert (Hw : is_Some (interest (s_epoll s) !! x_fd x)) by (by eexists).
  rewrite (bind_ret _ _ _ _ _ (do_read_msg (x_fd x) (x_msg x) s Hk Hw Hn Hl Hb)).
  erewrite bind_ret; [|apply (do_write_msg (x_fd x) (length (x_msg x)))]; cbn.
  - unfold mret, prog_ret. rewrite insert_insert_eq, insert_id by done.
    rewrite take_fill_min. by destruct (s_epoll s).
  - by apply epoll_ok_mask.
  - rewrite lookup_insert_eq. by eexists.
  - apply strlen_fill_zero; [done|lia].
Qed.

Lemma exchanges_run listenfd xs s :
  epoll_ok (s_epoll s) -> Forall (exchange_ok listenfd (s_epoll s)) xs -> s_buf s = zero_buf ->
  handle_events listenfd (xs ≫= exchange_events) s =
    Ret tt (Server (s_epoll s) zero_buf (s_out s ++ (xs ≫= announced)) (s_sent s ++ (answered <$> xs))).
Proof.
  intros Hk Hx. revert s Hk Hx. induction xs as [|x xs IH]; intros s Hk Hx Hb.
  - cbn. rewrite !app_nil_r, <- Hb. by destruct s.
  - apply Forall_cons in Hx as [Hx Hxs].
    assert (Happ : forall evs evs' s1, handle_events listenfd evs s = Ret tt s1 ->
      handle_events listenfd (evs ++ evs') s = handle_events listenfd evs' s1).
    { clear. intros evs evs'. revert s. induction evs as [|e evs IHe]; intros s s1 H; cbn in *.
      - by injection H as ->.
      - apply bind_inv in H as ([] & s2 & H1 & H2). rewrite (bind_ret _ _ _ _ _ H1). by apply IHe. }
    rewrite bind_cons, (Happ _ _ _ (exchange_run listenfd x s Hk Hx Hb)).
    rewrite (IH (Server _ _ _ _)); [|done|done|done]. cbn.
    by rewrite <- !app_assoc.
Qed.

(** Clients that take turns, each message being answered
    before the next arrives, are served as an echo server should: every
    message is printed and sent back to the client it came from, in order,
    and the epoll instance and the buffer are as before.  But of an answer
    only the bytes that one [write] takes are sent: the rest is dropped. *)
Theorem echo_session listenfd xs s :
  epoll_ok (s_epoll s) -> Forall (exchange_ok listenfd (s_epoll s)) xs -> s_buf s = zero_buf ->
  handle_events listenfd (xs ≫= exchange_events) s =
    Ret tt (Server (s_epoll s) zero_buf (s_out s ++ (xs ≫= announced)) (s_sent s ++ (answered <$> xs))).
Proof. apply exchanges_run. Qed.

(** A server with two clients, on descriptors 7 and 8. *)
Definition two_clients : server :=
  Server (Epoll {[0; 1; 2; 4; 5; 6; 7; 8]}%Z {[ 5 := EPOLLIN; 7 := EPOLLIN; 8 := EPOLLIN ]}%Z) zero_buf [] [].

Lemma two_clients_ok : epoll_ok (s_epoll two_clients).
Proof. apply (bool_decide_unpack _). vm_compute. exact I. Qed.

Lemma echo_session_witness :
  handle_events 5 ([Exchange 7 hello 5; Exchange 8 (chars "bye") 2] ≫= exchange_events) two_clients =
    Ret tt (Server (s_epoll two_clients) zero_buf (chars "read message: helloread message: bye")
              [(7%Z, hello); (8%Z, chars "by")]).
Proof.
  rewrite (echo_session 5 [Exchange 7 hello 5; Exchange 8 (chars "bye") 2] two_clients).
  - vm_compute. reflexivity.
  - exact two_clients_ok.
  - repeat constructor; try (vm_compute; lia); try discriminate;
      apply (bool_decide_unpack _); vm_compute; exact I.
  - reflexivity.
Defined.

(** A [read] that fills the buffer with text leaves no
    terminator in it: printing the message then runs past the end of [buf]. *)
Theorem full_read_faults fd d s :
  length (s_buf s) = MAXSIZE -> length d = MAXSIZE -> (NUL ∉ d) -> do_read fd (Some d) s = Fault.
Proof.
  intros Hb Hd Hn. destruct d as [|c d]; [done|]. unfold do_read. srv_run.
  assert (fill_buf (c :: d) (s_buf s) = c :: d) as ->.
  { unfold fill_buf. rewrite drop_ge by lia. apply app_nil_r. }
  by rewrite strlen_no_nul.
Qed.

Lemma full_read_faults_witness :
  do_read 7 (Some (replicate MAXSIZE newline)) two_clients = Fault.
Proof.
  apply full_read_faults; [reflexivity|apply length_replicate|].
  intros [H _]%elem_of_replicate. discriminate H.
Defined.

(** The clients stay watched while their events change. *)
Definition watches (k : epoll) (F : list Z) : Prop :=
  epoll_ok k /\ Forall (fun fd => is_Some (interest k !! fd)) F.
Definition watch_for (fd st : Z) (k : epoll) : epoll := Epoll (opened k) (<[fd := st]> (interest k)).

Lemma watches_for k F fd st : watches k F -> fd ∈ F -> watches (watch_for fd st k) F.
Proof.
  intros [Hk HF] Hin. rewrite Forall_forall in HF. split; [by apply epoll_ok_mask, HF|].
  apply Forall_forall. intros x Hx. cbn. destruct (decide (fd = x)) as [<-|Hne].
  - rewrite lookup_insert_eq. by eexists.
  - rewrite lookup_insert_ne by done. by apply HF.
Qed.

Lemma watches_in k F fd : watches k F -> fd ∈ F -> epoll_ok k /\ is_Some (interest k !! fd).
Proof. intros [Hk HF] Hin. rewrite Forall_forall in HF. auto. Qed.

(** Property C26.  The buffer is shared by all clients: when a second
    client's message arrives before the first one has been answered, the
    first client is sent the second one's message (followed by what is left
    of its own) and the second client is sent nothing. *)
Theorem cross_talk listenfd fd1 fd2 d1 d2 w1 w2 s :
  epoll_ok (s_epoll s) -> s_buf s = zero_buf -> fd1 <> fd2 ->
  exchange_ok listenfd (s_epoll s) (Exchange fd1 d1 w1) ->
  exchange_ok listenfd (s_epoll s) (Exchange fd2 d2 w2) ->
  length d1 + length d2 <= w1 ->
  exists s', handle_events listenfd
      [Event fd1 EPOLLIN 0 (Some d1) WError; Event fd2 EPOLLIN 0 (Some d2) WError;
       Event fd1 EPOLLOUT 0 None (Wrote w1); Event fd2 EPOLLOUT 0 None (Wrote w2)] s = Ret tt s' /\
    s_sent s' = s_sent s ++ [(fd1, d2 ++ drop (length d2) d1); (fd2, [])].
Proof.
  intros Hk Hb Hne (Hf1 & Hi1 & Hn1 & Hl1) (Hf2 & Hi2 & Hn2 & Hl2) Hw. cbn in *.
  set (m := d2 ++ drop (length d2) d1).
  assert (Hm : (NUL ∉ m) /\ length m = max (length d2) (length d1)).
  { unfold m. rewrite elem_of_app, length_app, length_drop. split; [|lia].
    intros [?|H]; [done|]. apply Hn1. rewrite <- (take_drop (length d2) d1). apply elem_of_app. by right. }
  assert (Hs : strlen (fill_buf m zero_buf) = Some (length m)) by (apply strlen_fill_zero; [tauto|lia]).
  assert (Hz : strlen zero_buf = Some 0) by done.
  unfold handle_event. cbn [ev_fd ev_events ev_read ev_write].
  rewrite (proj2 (Z.eqb_neq fd1 listenfd)), (proj2 (Z.eqb_neq fd2 listenfd)) by done.
  change (has EPOLLIN EPOLLIN) with true. change (has EPOLLOUT EPOLLIN) with false.
  change (has EPOLLOUT EPOLLOUT) with true. cbn [andb].
  assert (W0 : watches (s_epoll s) [fd1; fd2]) by (split; [done|]; repeat constructor; by eexists).
  assert (I1 : fd1 ∈ [fd1; fd2]) by (by left). assert (I2 : fd2 ∈ [fd1; fd2]) by (by right; left).
  pose proof (watches_for _ _ fd1 EPOLLOUT W0 I1) as W1.
  pose proof (watches_for _ _ fd2 EPOLLOUT W1 I2) as W2.
  pose proof (watches_for _ _ fd1 EPOLLIN W2 I1) as W3.
  destruct (watches_in _ _ _ W1 I2), (watches_in _ _ _ W2 I1), (watches_in _ _ _ W3 I2).
  erewrite bind_ret; [|apply do_read_msg; [done|by eexists|done|lia|done]].
  erewrite bind_ret; [|apply (do_read_any fd2 d2 (length m)); [done|done|lia|cbn; by rewrite fill_fill]].
  erewrite bind_ret; [|apply (do_write_msg fd1 (length m)); [done|done|cbn; by rewrite fill_fill]].
  erewrite bind_ret; [|apply (do_write_msg fd2 0); done].
  eexists. split; [done|]. cbn. rewrite fill_fill. fold m.
  rewrite <- app_assoc. cbn. rewrite Nat.min_r by lia. rewrite take_fill. rewrite Nat.min_0_r. done.
Qed.

Lemma cross_talk_witness :
  exists s', handle_events 5
      [Event 7 EPOLLIN 0 (Some hello) WError; Event 8 EPOLLIN 0 (Some (chars "bye")) WError;
       Event 7 EPOLLOUT 0 None (Wrote 9); Event 8 EPOLLOUT 0 None (Wrote 9)] two_clients = Ret tt s' /\
    s_sent s' = [(7%Z, chars "byelo"); (8%Z, [])].
Proof.
  destruct (cross_talk 5 7 8 hello (chars "bye") 9 9 two_clients) as (s' & H & Hs).
  - exact two_clients_ok.
  - reflexivity.
  - discriminate.
  - repeat constructor; try (vm_compute; lia); try discriminate;
      apply (bool_decide_unpack _); vm_compute; exact I.
  - repeat constructor; try (vm_compute; lia); try discriminate;
      apply (bool_decide_unpack _); vm_compute; exact I.
  - vm_compute. lia.
  - exists s'. split; [exact H|exact Hs].
Defined.
