(* ===== verification/EpollClient.v ===== *)
(** * epoll_demo/epoll_cli.c: the client, and the two programs together

    The client watches standard input; a line it reads is written to the
    socket when that is writable, the reply is read and written to standard
    output when that is writable.  As in the server all data goes through one
    buffer, which here is not cleared before its first use. *)

From S2P Require Import Prelude Epoll EpollServer.

Definition STDIN_FILENO : Z := 0.
Definition STDOUT_FILENO : Z := 1.

Record cevent := CEvent {
  ce_fd : Z; ce_events : Z; ce_read : option (list Ascii.ascii); ce_write : wrote
}.

(** The epoll instance, [buf], and every [write]: where to and which bytes. *)
Record client := Client {
  c_epoll : epoll; c_buf : list Ascii.ascii; c_wrote : list (Z * list Ascii.ascii)
}.

Definition c_on_epoll (f : epoll -> epoll) : prog client unit :=
  modify (fun s => Client (f (c_epoll s)) (c_buf s) (c_wrote s)).
Definition c_set_buf (b : list Ascii.ascii) : prog client unit :=
  modify (fun s => Client (c_epoll s) b (c_wrote s)).
Definition c_send (fd : Z) (x : list Ascii.ascii) : prog client unit :=
  modify (fun s => Client (c_epoll s) (c_buf s) (c_wrote s ++ [(fd, x)])).

(** The client's own copies of the three wrappers, which do the same as the
    server's. *)
Definition cli_add_event (fd state : Z) (k : epoll) : epoll := (epoll_ctl EPOLL_CTL_ADD fd state k).2.
Definition cli_delete_event (fd state : Z) (k : epoll) : epoll := (epoll_ctl EPOLL_CTL_DEL fd state k).2.
Definition cli_modify_event (fd state : Z) (k : epoll) : epoll := (epoll_ctl EPOLL_CTL_MOD fd state k).2.

Lemma cli_add_eq : cli_add_event = add_event.
Proof. done. Qed.
Lemma cli_delete_eq : cli_delete_event = delete_event.
Proof. done. Qed.
Lemma cli_modify_eq : cli_modify_event = modify_event.
Proof. done. Qed.

Definition cli_do_read (fd sockfd : Z) (res : option (list Ascii.ascii)) : prog client unit :=
  match res with
  | None | Some [] => c_exit (-1)
  | Some d =>
    b ← gets c_buf ;
    c_set_buf (fill_buf d b) ;;
    if decide (fd = STDIN_FILENO) then c_on_epoll (cli_add_event sockfd EPOLLOUT)
    else c_on_epoll (cli_delete_event sockfd EPOLLIN) ;; c_on_epoll (cli_add_event STDOUT_FILENO EPOLLOUT)
  end.

Definition cli_do_write (fd : Z) (res : wrote) : prog client unit :=
  b ← gets c_buf ;
  n ← need (strlen b) ;
  match res with
  | WPipe => killed_by SIGPIPE
  | WError => c_exit (-1)
  | Wrote w =>
    c_send fd (take (min w n) b) ;;
    (if decide (fd = STDOUT_FILENO) then c_on_epoll (cli_delete_event fd EPOLLOUT)
     else c_on_epoll (cli_modify_event fd EPOLLIN)) ;;
    c_set_buf zero_buf
  end.

Definition cli_handle_event (sockfd : Z) (e : cevent) : prog client unit :=
  if has (ce_events e) EPOLLIN then cli_do_read (ce_fd e) sockfd (ce_read e)
  else if has (ce_events e) EPOLLOUT then cli_do_write (ce_fd e) (ce_write e)
  else mret tt.

Fixpoint cli_handle_events (sockfd : Z) (events : list cevent) : prog client unit :=
  match events with
  | [] => mret tt
  | e :: events' => cli_handle_event sockfd e ;; cli_handle_events sockfd events'
  end.

(** The loop of [handle_connection]; the result of [epoll_wait] is not
    checked, and an error handles no event. *)
Fixpoint cli_loop (sockfd : Z) (waits : list (option (list cevent))) : prog client unit :=
  match waits with
  | [] => c_block
  | w :: waits' => cli_handle_events sockfd (default [] w) ;; cli_loop sockfd waits'
  end.

Definition handle_connection (create_res sockfd : Z) (waits : list (option (list cevent))) : prog client unit :=
  if (create_res <? 0)%Z then c_exit (-1)
  else c_on_epoll (cli_add_event STDIN_FILENO EPOLLIN) ;; cli_loop sockfd waits.

(** [main]; the result of [connect] is not checked. *)
Definition client_main (sockfd pton_res create_res : Z) (waits : list (option (list cevent)))
    : prog client unit :=
  if (sockfd <? 0)%Z then c_exit (-1)
  else c_on_epoll (accepted sockfd) ;;
    if decide (pton_res ≠ 1%Z) then c_exit (-1) else handle_connection create_res sockfd waits.

(** ** One line and its reply *)

Section Session.
Variable sockfd : Z.
Hypothesis sockfd_ok : (2 < sockfd)%Z.

(** The descriptors of a connected client, and what it watches when idle. *)
Definition cli_fds : gset Z := {[0; 1; 2; sockfd]}%Z.
Definition watching (m : gmap Z Z) : epoll := Epoll cli_fds m.
Definition idle_map : gmap Z Z := {[ 0%Z := EPOLLIN ]}.
Definition idle (b : list Ascii.ascii) (w : list (Z * list Ascii.ascii)) : client :=
  Client (watching idle_map) b w.

Definition typed (d : list Ascii.ascii) : cevent := CEvent STDIN_FILENO EPOLLIN (Some d) WError.
Definition sock_writable (w : nat) : cevent := CEvent sockfd EPOLLOUT None (Wrote w).
Definition reply (r : list Ascii.ascii) : cevent := CEvent sockfd EPOLLIN (Some r) WError.
Definition out_writable (w : nat) : cevent := CEvent STDOUT_FILENO EPOLLOUT None (Wrote w).

Lemma watching_ok m : dom m ⊆ cli_fds -> epoll_ok (watching m).
Proof. done. Qed.

Lemma cli_typed d b w m :
  0 < length d ->
  cli_handle_event sockfd (typed d) (Client (watching m) b w) =
    Ret tt (Client (watching (if decide (m !! sockfd = None) then <[sockfd := EPOLLOUT]> m else m))
                   (fill_buf d b) w).
Proof.
  intros Hd. destruct d as [|c d]; [cbn in Hd; lia|].
  unfold cli_handle_event, typed, cli_do_read, c_on_epoll, c_set_buf. unix_unfold. cbn [ce_events ce_read ce_fd].
  change (has EPOLLIN EPOLLIN) with true. rewrite decide_True by done. cbn [c_epoll c_buf c_wrote].
  destruct (decide (m !! sockfd = None)) as [E|E].
  - rewrite ?cli_add_eq, add_event_new; [done| |done]. unfold watching, cli_fds. cbn. set_solver.
  - destruct (m !! sockfd) as [x|] eqn:Ex; [|done]. by rewrite cli_add_eq, (add_event_old _ _ _ x).
Qed.

Lemma cli_sock_writable b n wr w m x :
  strlen b = Some n -> dom m ⊆ cli_fds -> m !! sockfd = Some x ->
  cli_handle_event sockfd (sock_writable w) (Client (watching m) b wr) =
    Ret tt (Client (watching (<[sockfd := EPOLLIN]> m)) zero_buf (wr ++ [(sockfd, take (min w n) b)])).
Proof.
  intros Hn Hm Hx. unfold cli_handle_event, sock_writable, cli_do_write, c_on_epoll, c_set_buf, c_send.
  unix_unfold. cbn [ce_events ce_write ce_fd c_epoll c_buf c_wrote].
  change (has EPOLLOUT EPOLLIN) with false. change (has EPOLLOUT EPOLLOUT) with true. cbn [c_buf].
  rewrite Hn, decide_False by (unfold STDOUT_FILENO; lia). cbn [c_epoll c_buf c_wrote].
  by rewrite cli_modify_eq, (modify_event_old _ _ _ x).
Qed.

Lemma cli_write_fault b k wr w :
  strlen b = None -> cli_handle_event sockfd (sock_writable w) (Client k b wr) = Fault.
Proof.
  intros Hn. unfold cli_handle_event, sock_writable, cli_do_write. cbn [ce_events ce_write ce_fd].
  change (has EPOLLOUT EPOLLIN) with false. change (has EPOLLOUT EPOLLOUT) with true.
  unix_unfold. cbn [c_buf]. by rewrite Hn.
Qed.

Lemma cli_reply r b wr m :
  0 < length r -> dom m ⊆ cli_fds -> m !! STDOUT_FILENO = None ->
  cli_handle_event sockfd (reply r) (Client (watching m) b wr) =
    Ret tt (Client (watching (<[STDOUT_FILENO := EPOLLOUT]> (delete sockfd m))) (fill_buf r b) wr).
Proof.
  intros Hr Hm Hout. destruct r as [|c r]; [cbn in Hr; lia|].
  unfold cli_handle_event, reply, cli_do_read, c_on_epoll, c_set_buf. unix_unfold.
  cbn [ce_events ce_read ce_fd]. change (has EPOLLIN EPOLLIN) with true.
  rewrite decide_False by (unfold STDIN_FILENO; lia). cbn [c_epoll c_buf c_wrote].
  rewrite cli_delete_eq, delete_event_eq by done. rewrite ?cli_add_eq, add_event_new; [done| |].
  - unfold watching, cli_fds, STDOUT_FILENO. cbn. set_solver.
  - cbn. rewrite lookup_delete_ne; [done|]. unfold STDOUT_FILENO. lia.
Qed.

Lemma cli_out_writable b n wr w m :
  strlen b = Some n -> dom m ⊆ cli_fds ->
  cli_handle_event sockfd (out_writable w) (Client (watching m) b wr) =
    Ret tt (Client (watching (delete STDOUT_FILENO m)) zero_buf (wr ++ [(STDOUT_FILENO, take (min w n) b)])).
Proof.
  intros Hn Hm. unfold cli_handle_event, out_writable, cli_do_write, c_on_epoll, c_set_buf, c_send.
  unix_unfold. cbn [ce_events ce_write ce_fd c_epoll c_buf c_wrote].
  change (has EPOLLOUT EPOLLIN) with false. change (has EPOLLOUT EPOLLOUT) with true. cbn [c_buf].
  rewrite Hn, decide_True by done. cbn [c_epoll c_buf c_wrote].
  by rewrite cli_delete_eq, delete_event_eq.
Qed.

Lemma idle_dom : dom idle_map ⊆ cli_fds.
Proof. unfold idle_map, cli_fds. set_solver. Qed.
Lemma idle_sock : idle_map !! sockfd = None.
Proof. unfold idle_map. rewrite lookup_singleton_ne; [done|lia]. Qed.
Lemma sock_dom st : dom (<[sockfd := st]> idle_map) ⊆ cli_fds.
Proof. unfold idle_map, cli_fds. set_solver. Qed.
Lemma out_dom : dom (<[STDOUT_FILENO := EPOLLOUT]> idle_map) ⊆ cli_fds.
Proof. unfold idle_map, cli_fds, STDOUT_FILENO. set_solver. Qed.
Lemma sock_out st : <[sockfd := st]> idle_map !! STDOUT_FILENO = None.
Proof.
  unfold idle_map, STDOUT_FILENO. rewrite lookup_insert_ne by lia. by rewrite lookup_singleton_ne.
Qed.
Lemma back_to_idle st :
  delete STDOUT_FILENO (<[STDOUT_FILENO := EPOLLOUT]> (delete sockfd (<[sockfd := st]> idle_map))) = idle_map.
Proof.
  rewrite delete_insert_id.
  - apply delete_insert_id, idle_sock.
  - rewrite delete_insert_id by apply idle_sock. by unfold idle_map, STDOUT_FILENO; rewrite lookup_singleton_ne.
Qed.

(** A line is typed and sent: the client waits for the reply. *)
Definition sending (d : list Ascii.ascii) (w : nat) : list cevent := [typed d; sock_writable w].
(** The reply arrives and is printed. *)
Definition receiving (r : list Ascii.ascii) (w : nat) : list cevent := [reply r; out_writable w].

Lemma sending_run d g n wr w :
  0 < length d -> strlen (fill_buf d g) = Some n ->
  cli_handle_events sockfd (sending d w) (idle g wr) =
    Ret tt (Client (watching (<[sockfd := EPOLLIN]> idle_map)) zero_buf
              (wr ++ [(sockfd, take (min w n) (fill_buf d g))])).
Proof.
  intros Hd Hn. unfold sending, idle. cbn [cli_handle_events].
  rewrite (bind_ret _ _ _ _ _ (cli_typed d g wr idle_map Hd)). rewrite decide_True by apply idle_sock.
  erewrite bind_ret; [|apply (cli_sock_writable _ n _ _ _ EPOLLOUT); [done|apply sock_dom|apply lookup_insert_eq]].
  by rewrite insert_insert_eq.
Qed.

Lemma receiving_run r b n wr w :
  0 < length r -> strlen (fill_buf r b) = Some n ->
  cli_handle_events sockfd (receiving r w) (Client (watching (<[sockfd := EPOLLIN]> idle_map)) b wr) =
    Ret tt (idle zero_buf (wr ++ [(STDOUT_FILENO, take (min w n) (fill_buf r b))])).
Proof.
  intros Hr Hn. unfold receiving. cbn [cli_handle_events].
  rewrite (bind_ret _ _ _ _ _ (cli_reply r b wr _ Hr (sock_dom _) (sock_out _))).
  erewrite bind_ret; [|apply (cli_out_writable _ n); [done|]].
  - by rewrite back_to_idle.
  - rewrite delete_insert_id by apply idle_sock. apply out_dom.
Qed.
End Session.

(** The client's buffer is not cleared before
    its first use and [read] does not terminate what it reads: the first line
    is sent with whatever bytes follow it in memory up to the next [NUL], and
    without one the program runs past the end of the buffer. *)
Theorem client_first_line sockfd g d w wr :
  (2 < sockfd)%Z -> 0 < length d -> (NUL ∉ d) -> MAXSIZE <= w -> length g = MAXSIZE ->
  length d <= MAXSIZE ->
  match strlen (drop (length d) g) with
  | Some k =>
    exists c, cli_handle_events sockfd (sending sockfd d w) (idle sockfd g wr) = Ret tt c /\
      c_wrote c = wr ++ [(sockfd, d ++ take k (drop (length d) g))]
  | None => cli_handle_events sockfd (sending sockfd d w) (idle sockfd g wr) = Fault
  end.
Proof.
  intros Hs Hd Hn Hw Hg Hl.
  assert (Hf : strlen (fill_buf d g) = Nat.add (length d) <$> strlen (drop (length d) g))
    by (by apply strlen_app).
  destruct (strlen (drop (length d) g)) as [k|] eqn:E; cbn in Hf.
  - rewrite (sending_run sockfd Hs d g (length d + k)) by done. eexists. split; [done|]. cbn.
    do 3 f_equal. pose proof (proj2 (strlen_Some _ _ E)) as Hk%lookup_lt_Some.
    rewrite length_drop in Hk. rewrite Nat.min_r by lia. unfold fill_buf.
    by rewrite take_app_add.
  - unfold sending. cbn [cli_handle_events]. unfold idle.
    rewrite (bind_ret _ _ _ _ _ (cli_typed sockfd Hs d g wr idle_map Hd)).
    by rewrite (bind_fault _ _ _ (cli_write_fault sockfd _ _ _ w Hf)).
Qed.

Lemma client_first_line_witness :
  exists c, cli_handle_events 5 (sending 5 hello 2000) (idle 5 (fill_buf (chars "garbage!") zero_buf) []) = Ret tt c /\
    c_wrote c = [(5%Z, chars "helloge!")].
Proof.
  exact (client_first_line 5 (fill_buf (chars "garbage!") zero_buf) hello 2000 [] ltac:(lia) ltac:(vm_compute; lia)
    ltac:(apply (bool_decide_unpack _); vm_compute; exact I) ltac:(unfold MAXSIZE; lia) eq_refl
    ltac:(apply Nat.leb_le; reflexivity)).
Defined.

(** A line typed while the reply to the previous
    one is awaited is never sent: the socket is already watched, so
    [add_event] fails, and the line only stays in the buffer, where what the
    reply does not overwrite of it is printed as part of the reply. *)
Theorem client_lost_line sockfd d1 d2 r w wr :
  (2 < sockfd)%Z -> (NUL ∉ d1) -> (NUL ∉ d2) -> (NUL ∉ r) ->
  0 < length d1 < MAXSIZE -> 0 < length d2 < MAXSIZE -> 0 < length r < MAXSIZE -> MAXSIZE <= w ->
  cli_handle_events sockfd (sending sockfd d1 w ++ typed d2 :: receiving sockfd r w) (idle sockfd zero_buf wr) =
    Ret tt (idle sockfd zero_buf (wr ++ [(sockfd, d1); (STDOUT_FILENO, r ++ drop (length r) d2)])).
Proof.
  intros Hs H1 H2 Hr L1 L2 Lr Hw.
  assert (Happ : forall evs evs' c c1, cli_handle_events sockfd evs c = Ret tt c1 ->
    cli_handle_events sockfd (evs ++ evs') c = cli_handle_events sockfd evs' c1).
  { clear. induction evs as [|e evs IH]; intros evs' c c1 H; cbn in *; [by injection H as ->|].
    apply bind_inv in H as ([] & c2 & Ha & Hb). rewrite (bind_ret _ _ _ _ _ Ha). by apply IH. }
  rewrite (Happ _ _ _ _ (sending_run sockfd Hs d1 zero_buf (length d1) wr w ltac:(lia)
    (strlen_fill_zero _ H1 ltac:(lia)))).
  cbn [cli_handle_events]. rewrite (bind_ret _ _ _ _ _ (cli_typed sockfd Hs d2 _ _ _ ltac:(lia))).
  rewrite decide_False by (by rewrite lookup_insert_eq).
  set (m := r ++ drop (length r) d2).
  assert (Hm : (NUL ∉ m) /\ length m = max (length r) (length d2)).
  { unfold m. rewrite elem_of_app, length_app, length_drop. split; [|lia].
    intros [?|H]; [done|]. apply H2. rewrite <- (take_drop (length r) d2). apply elem_of_app. by right. }
  rewrite (receiving_run sockfd Hs r (fill_buf d2 zero_buf) (length m)); [|lia|].
  - rewrite fill_fill. fold m. rewrite <- app_assoc. cbn. rewrite !Nat.min_r by lia. by rewrite !take_fill.
  - rewrite fill_fill. fold m. apply strlen_fill_zero; [tauto|lia].
Qed.

Lemma client_lost_line_witness :
  cli_handle_events 5 (sending 5 hello 2000 ++ typed (chars "world!!") :: receiving 5 hello 2000) (idle 5 zero_buf []) =
    Ret tt (idle 5 zero_buf [(5%Z, hello); (STDOUT_FILENO, chars "hello!!")]).
Proof.
  rewrite (client_lost_line 5 hello (chars "world!!") hello 2000 []).
  - vm_compute. reflexivity.
  - lia.
  - apply (bool_decide_unpack _); vm_compute; exact I.
  - apply (bool_decide_unpack _); vm_compute; exact I.
  - apply (bool_decide_unpack _); vm_compute; exact I.
  - unfold MAXSIZE; cbn; lia.
  - unfold MAXSIZE; cbn; lia.
  - unfold MAXSIZE; cbn; lia.
  - unfold MAXSIZE; lia.
Defined.

(** ** Client and server together *)

(** One line through both programs: what the client writes to its socket is
    what the server reads on [clifd], and the other way round. *)
Definition both : Type := client * server.
Definition on_client {A} : prog client A -> prog both A := zoom fst (fun c x => (c, x.2)).
Definition on_server {A} : prog server A -> prog both A := zoom snd (fun s x => (x.1, s)).

Definition round_trip (sockfd listenfd clifd : Z) (d : list Ascii.ascii) : prog both unit :=
  on_client (cli_handle_events sockfd (sending sockfd d MAXSIZE)) ;;
  m ← gets (fun x => last (c_wrote x.1)) ;
  m ← need m ;
  on_server (handle_events listenfd (exchange_events (Exchange clifd m.2 MAXSIZE))) ;;
  r ← gets (fun x => last (s_sent x.2)) ;
  r ← need r ;
  on_client (cli_handle_events sockfd (receiving sockfd r.2 MAXSIZE)).

Fixpoint round_trips (sockfd listenfd clifd : Z) (ds : list (list Ascii.ascii)) : prog both unit :=
  match ds with
  | [] => mret tt
  | d :: ds' => round_trip sockfd listenfd clifd d ;; round_trips sockfd listenfd clifd ds'
  end.

(** A line of text. *)
Definition text_line (d : list Ascii.ascii) : Prop := (NUL ∉ d) /\ 0 < length d < MAXSIZE.

(** The string that stands in a buffer [g] once [d] has been read into it:
    [d] and what follows it up to the next [NUL], if there is one. *)
Definition with_rest (d g : list Ascii.ascii) : option (list Ascii.ascii) :=
  (fun k => d ++ take k (drop (length d) g)) <$> strlen (drop (length d) g).

Lemma with_rest_strlen d g m :
  (NUL ∉ d) -> length g = MAXSIZE -> length d <= MAXSIZE -> with_rest d g = Some m ->
  strlen (fill_buf d g) = Some (length m) /\ take (length m) (fill_buf d g) = m /\
  (NUL ∉ m) /\ length d <= length m < MAXSIZE.
Proof.
  unfold with_rest. intros Hn Hg Hd (k & Hk & ->)%fmap_Some.
  destruct (strlen_Some _ _ Hk) as [Hnul Hlk]. pose proof (lookup_lt_Some _ _ _ Hlk) as Hlt.
  rewrite length_drop in Hlt. unfold fill_buf. rewrite strlen_app, Hk by done. cbn.
  rewrite length_app, length_take, length_drop, Nat.min_l by lia. split_and!; [done|by rewrite take_app_add| |lia|lia].
  rewrite elem_of_app. tauto.
Qed.

Lemma with_rest_zero d : 0 < length d < MAXSIZE -> with_rest d zero_buf = Some d.
Proof.
  intros Hd. unfold with_rest, zero_buf. rewrite drop_replicate.
  destruct (MAXSIZE - length d) as [|k] eqn:E; [lia|]. cbn [replicate strlen]. rewrite decide_True by done. cbn. by rewrite app_nil_r.
Qed.

Lemma round_trip_ok sockfd listenfd clifd g d m wr s :
  (2 < sockfd)%Z -> clifd <> listenfd -> epoll_ok (s_epoll s) ->
  interest (s_epoll s) !! clifd = Some EPOLLIN -> s_buf s = zero_buf -> text_line d ->
  length g = MAXSIZE -> with_rest d g = Some m ->
  round_trip sockfd listenfd clifd d (idle sockfd g wr, s) =
    Ret tt (idle sockfd zero_buf (wr ++ [(sockfd, m); (STDOUT_FILENO, m)]),
            Server (s_epoll s) zero_buf (s_out s ++ msg_prefix ++ m) (s_sent s ++ [(clifd, m)])).
Proof.
  intros Hs Hc Hk Hi Hb [Hn Hl] Hg Hm.
  destruct (with_rest_strlen d g m Hn Hg ltac:(lia) Hm) as (Hlen & Htk & Hnm & Hml).
  unfold round_trip, on_client, on_server, zoom. unix_unfold. cbn [fst snd].
  rewrite (sending_run sockfd Hs d g (length m)) by (done || lia).
  rewrite Nat.min_r, Htk by lia. cbn [fst snd c_wrote]. rewrite last_snoc. cbn [fst snd].
  rewrite (exchange_run listenfd (Exchange clifd m MAXSIZE) s); [|done| |done].
  2: { unfold exchange_ok. cbn. split_and!; [done|done|done|lia|lia]. }
  cbn [fst snd s_sent]. rewrite last_snoc. unfold answered. cbn [fst snd]. cbn [x_fd x_msg x_taken snd].
  rewrite take_ge by lia.
  rewrite (receiving_run sockfd Hs m zero_buf (length m)) by (lia || (apply strlen_fill_zero; [done|lia])).
  rewrite Nat.min_r, take_fill by lia. cbn [fst snd]. by rewrite <- app_assoc.
Qed.

Lemma round_trips_clean sockfd listenfd clifd ds wr s :
  (2 < sockfd)%Z -> clifd <> listenfd -> epoll_ok (s_epoll s) ->
  interest (s_epoll s) !! clifd = Some EPOLLIN -> s_buf s = zero_buf -> Forall text_line ds ->
  exists s', round_trips sockfd listenfd clifd ds (idle sockfd zero_buf wr, s) =
    Ret tt (idle sockfd zero_buf (wr ++ (ds ≫= fun d => [(sockfd, d); (STDOUT_FILENO, d)])), s') /\
    s_sent s' = s_sent s ++ (pair clifd <$> ds) /\ s_epoll s' = s_epoll s /\ s_buf s' = zero_buf.
Proof.
  intros Hs Hc Hk Hi Hb Hds. revert wr s Hk Hi Hb.
  induction Hds as [|d ds Hd _ IH]; intros wr s Hk Hi Hb.
  - exists s. cbn. by rewrite !app_nil_r.
  - cbn [round_trips].
    rewrite (bind_ret _ _ _ _ _ (round_trip_ok sockfd listenfd clifd zero_buf d d wr s Hs Hc Hk Hi Hb Hd
      ltac:(apply length_replicate) (with_rest_zero _ (proj2 Hd)))).
    edestruct (IH (wr ++ [(sockfd, d); (STDOUT_FILENO, d)])
      (Server (s_epoll s) zero_buf (s_out s ++ msg_prefix ++ d) (s_sent s ++ [(clifd, d)]))) as (s' & Hrun & Hsent & He & Hbuf);
      [exact Hk|exact Hi|done|].
    exists s'. rewrite Hrun, Hsent. cbn. rewrite <- !app_assoc. done.
Qed.

(** Property C7.  Client and server together, for lines of text that fit the
    buffer, each typed when the reply to the one before has been printed,
    every [read] and [write] moving the whole message, and any contents [g]
    of the client's buffer, which is not cleared before its first use: the
    first line is sent with the bytes that follow it in [g] up to the next
    [NUL] (where there is none the program runs past the end of the buffer);
    what was sent, and every later line unchanged, comes back on the
    client's standard output, in order, and the server ends as it was. *)
Theorem echo_roundtrip sockfd listenfd clifd g d ds wr s :
  (2 < sockfd)%Z -> clifd <> listenfd -> epoll_ok (s_epoll s) ->
  interest (s_epoll s) !! clifd = Some EPOLLIN -> s_buf s = zero_buf ->
  length g = MAXSIZE -> text_line d -> Forall text_line ds ->
  match with_rest d g with
  | None => round_trips sockfd listenfd clifd (d :: ds) (idle sockfd g wr, s) = Fault
  | Some m =>
    exists s', round_trips sockfd listenfd clifd (d :: ds) (idle sockfd g wr, s) =
      Ret tt (idle sockfd zero_buf (wr ++ ((m :: ds) ≫= fun d => [(sockfd, d); (STDOUT_FILENO, d)])), s') /\
      s_sent s' = s_sent s ++ (pair clifd <$> m :: ds) /\ s_epoll s' = s_epoll s /\ s_buf s' = zero_buf
  end.
Proof.
  intros Hs Hc Hk Hi Hb Hg Hd Hds. cbn [round_trips]. destruct (with_rest d g) as [m|] eqn:E.
  - rewrite (bind_ret _ _ _ _ _ (round_trip_ok sockfd listenfd clifd g d m wr s Hs Hc Hk Hi Hb Hd Hg E)).
    edestruct (round_trips_clean sockfd listenfd clifd ds (wr ++ [(sockfd, m); (STDOUT_FILENO, m)])
      (Server (s_epoll s) zero_buf (s_out s ++ msg_prefix ++ m) (s_sent s ++ [(clifd, m)])))
      as (s' & Hrun & Hsent & He & Hbuf); [done..|].
    exists s'. rewrite Hrun, Hsent. cbn. rewrite <- !app_assoc. done.
  - unfold round_trip. apply bind_fault, bind_fault. unfold on_client, zoom. cbn [fst].
    assert (strlen (drop (length d) g) = None) as Hn by (unfold with_rest in E; by apply fmap_None in E).
    pose proof (client_first_line sockfd g d MAXSIZE wr Hs ltac:(apply Hd) (proj1 Hd) ltac:(lia) Hg
      ltac:(pose proof (proj2 Hd); lia)) as Hf.
    rewrite Hn in Hf. by rewrite Hf.
Qed.

Lemma echo_roundtrip_witness :
  exists s', round_trips 3 5 7 [hello; chars "bye"] (idle 3 (fill_buf (chars "garbage!") zero_buf) [], two_clients) =
    Ret tt (idle 3 zero_buf [(3%Z, chars "helloge!"); (1%Z, chars "helloge!"); (3%Z, chars "bye"); (1%Z, chars "bye")], s').
Proof.
  assert (H : with_rest hello (fill_buf (chars "garbage!") zero_buf) = Some (chars "helloge!")) by (vm_compute; reflexivity).
  pose proof (echo_roundtrip 3 5 7 (fill_buf (chars "garbage!") zero_buf) hello [chars "bye"] [] two_clients) as E.
  rewrite H in E. destruct E as (s' & E & _).
  - lia.
  - discriminate.
  - exact two_clients_ok.
  - reflexivity.
  - reflexivity.
  - reflexivity.
  - split; [apply (bool_decide_unpack _); vm_compute; exact I|unfold MAXSIZE; cbn; lia].
  - repeat constructor; try (unfold MAXSIZE; cbn; lia); apply (bool_decide_unpack _); vm_compute; exact I.
  - exists s'. exact E.
Defined.
