(* ===== verification/Scan.v ===== *)
(** * Decimal numbers in text

    The conversions [%d] of [sscanf] and [atoi] of the C library, and that
    they read back what [printf("%d")] writes. *)

From S2P Require Import Prelude.

(** ** [%d] *)

Definition code (c : Ascii.ascii) : Z := Z.of_nat (Ascii.nat_of_ascii c).
Definition is_space (c : Ascii.ascii) : bool := ((code c =? 32) || ((9 <=? code c) && (code c <=? 13)))%Z.
Definition digit (c : Ascii.ascii) : option Z :=
  if ((48 <=? code c) && (code c <=? 57))%Z then Some (code c - 48)%Z else None.

Fixpoint skip_space (s : list Ascii.ascii) : list Ascii.ascii :=
  match s with c :: s' => if is_space c then skip_space s' else s | [] => [] end.

(** The digits at the start of [s], after digits worth [acc]. *)
Fixpoint scan_digits (acc : Z) (s : list Ascii.ascii) : Z * list Ascii.ascii :=
  match s with
  | c :: s' => match digit c with Some d => scan_digits (acc * 10 + d) s' | None => (acc, s) end
  | [] => (acc, [])
  end.
Definition scan_unsigned (s : list Ascii.ascii) : option (Z * list Ascii.ascii) :=
  match s with c :: _ => match digit c with Some _ => Some (scan_digits 0 s) | None => None end | [] => None end.

Definition minus : Ascii.ascii := Ascii.ascii_of_nat 45.
Definition plus : Ascii.ascii := Ascii.ascii_of_nat 43.

(** One [%d]: the number and the rest of the input. *)
Definition scan_int (s : list Ascii.ascii) : option (Z * list Ascii.ascii) :=
  match skip_space s with
  | c :: s' =>
    if decide (c = minus) then (fun x : Z * list Ascii.ascii => (- x.1, x.2)%Z) <$> scan_unsigned s'
    else if decide (c = plus) then scan_unsigned s'
    else scan_unsigned (c :: s')
  | [] => None
  end.

Definition in_int (z : Z) : bool := ((INT_MIN <=? z) && (z <=? INT_MAX))%Z.

(** Storing a number that is not an [int] is undefined. *)
Definition store_int (z : Z) : option Z := if in_int z then Some z else None.

Lemma in_int_iff z : in_int z = true <-> (INT_MIN <= z <= INT_MAX)%Z.
Proof. unfold in_int. rewrite andb_true_iff, !Z.leb_le. done. Qed.

(** [atoi(s)]: 0 when [s] does not start with a number; a number that is not
    an [int] is undefined behaviour. *)
Definition atoi (s : string) : option Z :=
  match scan_int (chars s) with Some (z, _) => store_int z | None => Some 0%Z end.

(** [atol(s)], and the conversion of a [long] to [int] or [pid_t]. *)
Definition atol (s : string) : option Z :=
  match scan_int (chars s) with
  | Some (z, _) => if ((- 2 ^ 63 <=? z) && (z <=? LONG_MAX))%Z then Some z else None
  | None => Some 0%Z
  end.
Definition to_int (z : Z) : Z := ((z + 2 ^ 31) mod 2 ^ 32 - 2 ^ 31)%Z.

(** ** Printing and scanning *)

Lemma digit_pretty x : (x < 10)%N -> digit (pretty_N_char x) = Some (Z.of_N x).
Proof. intros Hx. destruct x as [|p]; [done|]. do 4 (destruct p as [p|p|]; try done; try lia). Qed.

Lemma scan_digits_pretty x s rest :
  (0 < x)%N ->
  scan_digits 0 (chars (pretty_N_go x s) ++ rest) = scan_digits (Z.of_N x) (chars s ++ rest).
Proof.
  revert s. induction (N.lt_wf_0 x) as [x _ IH]; intros s Hx.
  rewrite pretty_N_go_step by done.
  assert (Hm : (x `mod` 10 < 10)%N) by (by apply N.mod_lt).
  pose proof (N.div_mod x 10 ltac:(done)) as Hdm.
  destruct (decide (0 < x `div` 10)%N) as [Hd|Hd].
  - rewrite IH; [|by apply N.div_lt|done]. cbn -[N.modulo N.div]. rewrite (digit_pretty _ Hm).
    f_equal. lia.
  - assert (x `div` 10 = 0)%N as E by lia. rewrite E, pretty_N_go_0.
    cbn -[N.modulo N.div]. rewrite (digit_pretty _ Hm). f_equal. lia.
Qed.

Definition no_digit (s : list Ascii.ascii) : Prop :=
  match s with c :: _ => digit c = None | [] => True end.

Lemma scan_digits_stop acc s : no_digit s -> scan_digits acc s = (acc, s).
Proof. destruct s as [|c s]; [done|]. cbn. by intros ->. Qed.

Lemma pretty_head x s : (0 < x)%N -> exists c t, chars (pretty_N_go x s) = c :: t /\ is_Some (digit c).
Proof.
  revert s. induction (N.lt_wf_0 x) as [x _ IH]; intros s Hx. rewrite pretty_N_go_step by done.
  destruct (decide (0 < x `div` 10)%N) as [Hd|Hd]; [apply IH; [by apply N.div_lt|done]|].
  assert (x `div` 10 = 0)%N as -> by (revert Hd; generalize (x `div` 10)%N; lia). rewrite pretty_N_go_0.
  exists (pretty_N_char (x `mod` 10)), (chars s). split; [done|].
  rewrite digit_pretty by (by apply N.mod_lt). by eexists.
Qed.

Lemma scan_unsigned_pretty x rest :
  no_digit rest -> scan_unsigned (chars (pretty (x : N)) ++ rest) = Some (Z.of_N x, rest).
Proof.
  intros Hr. unfold pretty, pretty_N. case_decide as E.
  - subst. change (Some (scan_digits 0 rest) = Some (0%Z, rest)). by rewrite scan_digits_stop.
  - destruct (pretty_head x "" ltac:(lia)) as (c & t & Hc & [d Hd]).
    pose proof (scan_digits_pretty x "" rest ltac:(lia)) as Hs. cbn [chars] in Hs.
    change (chars "" ++ rest) with rest in Hs. rewrite (scan_digits_stop _ rest) in Hs by done.
    unfold scan_unsigned. rewrite Hc in *. cbn [app] in *. by rewrite Hd, Hs.
Qed.

Lemma digit_not_special c d : digit c = Some d -> is_space c = false /\ c <> minus /\ c <> plus.
Proof.
  intros H. split; [|split; intros ->; vm_compute in H; discriminate].
  unfold digit in H. destruct (48 <=? code c)%Z eqn:E1; [|done]. unfold is_space.
  destruct (code c =? 32)%Z eqn:E2; [lia|]. destruct (code c <=? 13)%Z eqn:E3; [lia|].
  apply andb_false_r.
Qed.

(** Scanning reads back what printing wrote. *)
Lemma scan_int_pretty z rest :
  no_digit rest -> scan_int (chars (pretty (z : Z)) ++ rest) = Some (z, rest).
Proof.
  intros Hr. destruct z as [|p|p].
  - change (scan_unsigned (chars (pretty 0%N) ++ rest) = Some (0%Z, rest)). by apply scan_unsigned_pretty.
  - change (chars (pretty (Z.pos p))) with (chars (pretty (N.pos p))).
    pose proof (scan_unsigned_pretty (N.pos p) rest Hr) as Hs.
    destruct (chars (pretty (N.pos p)) ++ rest) as [|c t] eqn:E; [done|].
    assert (exists d, digit c = Some d) as [d Hd].
    { cbn in Hs. destruct (digit c) as [d|]; [by exists d|done]. }
    destruct (digit_not_special c d Hd) as (H1 & H2 & H3).
    unfold scan_int. cbn [skip_space]. rewrite H1, !decide_False by done. done.
  - change (chars (pretty (Z.neg p)) ++ rest) with (minus :: chars (pretty (N.pos p)) ++ rest).
    unfold scan_int. change (skip_space (minus :: ?x)) with (minus :: x). cbn [skip_space].
    change (is_space minus) with false. cbn match. rewrite decide_True by done.
    by rewrite (scan_unsigned_pretty (N.pos p) rest Hr).
Qed.

Lemma pretty_no (c : Ascii.ascii) (z : Z) :
  digit c = None -> c <> minus -> c ∉ chars (pretty z).
Proof.
  intros Hd Hm.
  assert (Hgo : forall x s, (c ∉ chars s) -> c ∉ chars (pretty_N_go x s)).
  { intros x. induction (N.lt_wf_0 x) as [x _ IH]; intros s Hs.
    destruct (decide (0 < x)%N) as [Hx|Hx].
    - rewrite pretty_N_go_step by done. apply IH; [by apply N.div_lt|].
      change (c ∉ pretty_N_char (x `mod` 10) :: chars s). rewrite not_elem_of_cons. split; [|done].
      intros ->. rewrite digit_pretty in Hd by (by apply N.mod_lt). done.
    - assert (x = 0%N) as -> by lia. by rewrite pretty_N_go_0. }
  destruct z as [|p|p].
  - change (c ∉ [Ascii.ascii_of_nat 48]). rewrite list_elem_of_singleton. by intros ->.
  - apply (Hgo (N.pos p)), not_elem_of_nil.
  - change (c ∉ minus :: chars (pretty_N_go (N.pos p) "")). rewrite not_elem_of_cons.
    split; [done|]. apply Hgo, not_elem_of_nil.
Qed.

Lemma atoi_pretty (z : Z) : in_int z = true -> atoi (pretty z) = Some z.
Proof.
  intros Hz. unfold atoi. rewrite <- (app_nil_r (chars (pretty z))), scan_int_pretty by done.
  unfold store_int. by rewrite Hz.
Qed.

Lemma to_int_in z : in_int z = true -> to_int z = z.
Proof.
  unfold in_int, INT_MIN, INT_MAX, to_int. intros H. rewrite Z.mod_small by lia. lia.
Qed.

Lemma atol_pretty (z : Z) : in_int z = true -> atol (pretty z) = Some z.
Proof.
  intros Hz. unfold atol. rewrite <- (app_nil_r (chars (pretty z))), scan_int_pretty by done.
  unfold in_int, INT_MIN, INT_MAX, LONG_MAX in *.
  destruct (- 2 ^ 63 <=? z)%Z eqn:E1, (z <=? 2 ^ 63 - 1)%Z eqn:E2; [done|lia..].
Qed.

(** No number prints as an option. *)
Lemma pretty_not_help (z : Z) : pretty z <> "--help".
Proof.
  intros H. assert (Hn : Ascii.ascii_of_nat 104 ∉ chars (pretty z)) by (by apply pretty_no).
  rewrite H in Hn. apply Hn. vm_compute. set_solver.
Qed.
