(* ===== verification/LineIO.v ===== *)
(** * IPC: programs that move lines of text

    [fgets] loops of pipe_pager.c, popen_pager.c and the writer of
    fifo_demo.c, and the hand-written [readline] of its reader.  A stream is
    the list of characters still to come. *)

From S2P Require Import Prelude Daemon.

(** ** fgets *)

(** At most [k] characters, up to and including a newline; and the rest. *)
Fixpoint take_line (k : nat) (s : list Ascii.ascii) : list Ascii.ascii * list Ascii.ascii :=
  match k, s with
  | O, _ => ([], s)
  | _, [] => ([], [])
  | S k', c :: s' =>
    if decide (c = newline) then ([c], s') else let '(l, r) := take_line k' s' in (c :: l, r)
  end.

(** [fgets(line, n, fp)]: the characters stored before the [NUL]. *)
Definition fgets (n : nat) (s : list Ascii.ascii) : option (list Ascii.ascii * list Ascii.ascii) :=
  match s with [] => None | _ => Some (take_line (n - 1) s) end.

(** What [strlen], [%s] and [fputs] see of a line: up to its first [NUL]. *)
Definition c_string (l : list Ascii.ascii) : list Ascii.ascii :=
  match strlen (l ++ [NUL]) with Some n => take n l | None => l end.

(** The lines that successive calls return. *)
Fixpoint fgets_all (fuel n : nat) (s : list Ascii.ascii) : list (list Ascii.ascii) :=
  match fuel with
  | O => []
  | S fuel' => match fgets n s with None => [] | Some (l, r) => l :: fgets_all fuel' n r end
  end.
Definition lines_of (n : nat) (s : list Ascii.ascii) : list (list Ascii.ascii) := fgets_all (length s) n s.

Lemma take_line_app k s : (take_line k s).1 ++ (take_line k s).2 = s.
Proof.
  revert k. induction s as [|c s IH]; intros [|k]; cbn; try done.
  case_decide; [done|]. specialize (IH k). destruct (take_line k s). cbn in *. by rewrite IH.
Qed.

Lemma take_line_consumes k c s : 0 < k -> length (take_line k (c :: s)).2 < length (c :: s).
Proof.
  intros Hk. pose proof (take_line_app k (c :: s)) as H. apply (f_equal length) in H.
  rewrite length_app in H. assert (0 < length (take_line k (c :: s)).1); [|lia].
  destruct k as [|k]; [lia|]. cbn. case_decide; [cbn; lia|]. destruct (take_line k s). cbn. lia.
Qed.

Lemma fgets_all_concat fuel n s :
  2 <= n -> length s <= fuel -> concat (fgets_all fuel n s) = s.
Proof.
  intros Hn. revert s. induction fuel as [|fuel IH]; intros s Hs.
  - by destruct s; [|cbn in Hs; lia].
  - cbn [fgets_all]. destruct s as [|c s]; [done|]. cbn [fgets].
    pose proof (take_line_app (n - 1) (c :: s)) as Happ.
    pose proof (take_line_consumes (n - 1) c s ltac:(lia)) as Hc.
    destruct (take_line (n - 1) (c :: s)) as [l r]. cbn in *. rewrite IH by lia. done.
Qed.

(** Nothing is lost or reordered by reading line by line. *)
Lemma lines_concat n s : 2 <= n -> concat (lines_of n s) = s.
Proof. intros Hn. by apply fgets_all_concat. Qed.

Lemma take_line_length k s : length (take_line k s).1 <= k.
Proof.
  revert k. induction s as [|c s IH]; intros [|k]; cbn; try lia.
  case_decide; cbn; [lia|]. specialize (IH k). destruct (take_line k s). cbn in *. lia.
Qed.

Lemma fgets_all_length fuel n s : Forall (fun l => length l < max n 1) (fgets_all fuel n s).
Proof.
  revert s. induction fuel as [|fuel IH]; intros s; [constructor|]. cbn [fgets_all].
  destruct s as [|c s]; [constructor|]. cbn [fgets].
  pose proof (take_line_length (n - 1) (c :: s)). destruct (take_line (n - 1) (c :: s)) as [l r].
  constructor; [cbn in *; lia|apply IH].
Qed.

Lemma c_string_text l : NUL ∉ l -> c_string l = l.
Proof.
  intros Hn. unfold c_string. rewrite strlen_app_nul by done. by apply take_ge.
Qed.

Lemma concat_c_string ls : (NUL ∉ concat ls) -> concat (c_string <$> ls) = concat ls.
Proof.
  induction ls as [|l ls IH]; [done|]. cbn. rewrite elem_of_app. intros Hn.
  rewrite c_string_text, IH; tauto.
Qed.

(** A line with its newline, short enough for the buffer. *)
Definition full_line (size : nat) (l : list Ascii.ascii) : Prop :=
  exists b, l = b ++ [newline] /\ (newline ∉ b) /\ length l <= size - 1.

Lemma take_line_full b k s :
  (newline ∉ b) -> length b < k -> take_line k (b ++ newline :: s) = (b ++ [newline], s).
Proof.
  revert k. induction b as [|c b IH]; intros k Hn Hl; (destruct k as [|k]; [cbn in Hl; lia|]); cbn.
  - by rewrite decide_True.
  - rewrite not_elem_of_cons in Hn. rewrite decide_False by (intros ->; tauto).
    cbn in Hl. rewrite IH by (tauto || lia). done.
Qed.

(** Short lines are read one by one. *)
Lemma lines_full n ls : Forall (full_line n) ls -> lines_of n (concat ls) = ls.
Proof.
  intros Hls. unfold lines_of.
  assert (Hf : forall fuel, length (concat ls) <= fuel -> fgets_all fuel n (concat ls) = ls); [|by apply Hf].
  induction Hls as [|l ls (b & -> & Hn & Hl) _ IH]; intros fuel Hfuel; [by destruct fuel|].
  rewrite length_app in Hl. cbn in Hl, Hfuel. rewrite !length_app in Hfuel. cbn in Hfuel.
  destruct fuel as [|fuel]; [lia|]. cbn [fgets_all concat]. rewrite <- app_assoc. cbn [app].
  assert (fgets n (b ++ newline :: concat ls) = Some (b ++ [newline], concat ls)) as ->.
  { rewrite <- (take_line_full b (n - 1)) by (done || lia). by destruct b. }
  rewrite IH by lia. done.
Qed.

(** ** pipe_pager.c and popen_pager.c *)

Definition MAXLINE : nat := 2048.

(** The pipe to the pager, the exit status of failures. *)
Record pager := Pager { pg_pipe : list Ascii.ascii; pg_closed : bool; pg_exec : option (list Ascii.ascii * list Ascii.ascii) }.

Definition pg_write (x : list Ascii.ascii) : prog pager unit :=
  modify (fun s => Pager (pg_pipe s ++ x) (pg_closed s) (pg_exec s)).

(** [while (fgets(...) != NULL) { n = strlen(line); if (write(fd, line, n) != n) exit(-1); }],
    [write_res] being the result of each [write]. *)
Fixpoint write_lines (write_res : list Ascii.ascii -> Z) (ls : list (list Ascii.ascii)) : prog pager unit :=
  match ls with
  | [] => mret tt
  | l :: ls' =>
    let x := c_string l in
    if decide (write_res x ≠ Z.of_nat (length x)) then c_exit (-1)
    else pg_write x ;; write_lines write_res ls'
  end.

Definition DEF_PAGER : list Ascii.ascii := chars "/usr/bin/more".

(** The parent of pipe_pager.c: [file] is what [fp] delivers, [err] whether
    it ended with an error. *)
Definition pipe_pager_parent (write_res : list Ascii.ascii -> Z) (file : list Ascii.ascii) (err : bool)
    (waitpid_res : Z) : prog pager unit :=
  write_lines write_res (lines_of MAXLINE file) ;;
  if err then c_exit (-1)
  else modify (fun s => Pager (pg_pipe s) true (pg_exec s)) ;;
    if (waitpid_res <? 0)%Z then c_exit (-1) else c_exit 0.

(** Its child, which execs the pager with the read end as standard input. *)
Definition pipe_pager_child (fd0 dup2_res exec_res : Z) : prog pager unit :=
  if decide (fd0 ≠ 0%Z /\ (dup2_res < 0)%Z) then c_exit (-1)
  else
    let argv0 := command_name DEF_PAGER in
    if (exec_res <? 0)%Z then c_exit (-1)
    else modify (fun s => Pager (pg_pipe s) (pg_closed s) (Some (DEF_PAGER, argv0))).

(** [main] of pipe_pager.c; [fork_res] is the result in the process followed. *)
Definition pipe_pager_main (argc : nat) (fopen_ok : bool) (pipe_res fork_res : Z)
    (write_res : list Ascii.ascii -> Z) (file : list Ascii.ascii) (err : bool) (waitpid_res : Z)
    (fd0 dup2_res exec_res : Z) : prog pager unit :=
  if decide (argc ≠ 2) then c_exit (-1)
  else if negb fopen_ok then c_exit (-1)
  else if (pipe_res <? 0)%Z then c_exit (-1)
  else if (fork_res <? 0)%Z then c_exit (-1)
  else if (0 <? fork_res)%Z then pipe_pager_parent write_res file err waitpid_res
  else pipe_pager_child fd0 dup2_res exec_res.

(** popen_pager.c: [fputs] copies each line to the stream, whose result is
    not checked. *)
Fixpoint put_lines (ls : list (list Ascii.ascii)) : prog pager unit :=
  match ls with [] => mret tt | l :: ls' => pg_write (c_string l) ;; put_lines ls' end.

Definition popen_pager_main (argc : nat) (fopen_ok popen_ok : bool) (file : list Ascii.ascii) (err : bool)
    (pclose_res : Z) : prog pager Z :=
  if decide (argc ≠ 2) then c_exit 127
  else if negb fopen_ok then c_exit (-1)
  else if negb popen_ok then c_exit (-1)
  else put_lines (lines_of MAXLINE file) ;;
    if err then c_exit (-1)
    else if decide (pclose_res = (-1)%Z) then c_exit (-1) else mret 0%Z.

Lemma write_lines_ok wr ls s :
  (forall x, wr x = Z.of_nat (length x)) ->
  write_lines wr ls s = Ret tt (Pager (pg_pipe s ++ concat (c_string <$> ls)) (pg_closed s) (pg_exec s)).
Proof.
  intros Hw. revert s. induction ls as [|l ls IH]; intros s; cbn [write_lines].
  - cbn. rewrite app_nil_r. by destruct s.
  - rewrite decide_False by (rewrite Hw; auto). unfold pg_write. unix_unfold. rewrite IH. cbn.
    by rewrite <- app_assoc.
Qed.

Lemma put_lines_ok ls s :
  put_lines ls s = Ret tt (Pager (pg_pipe s ++ concat (c_string <$> ls)) (pg_closed s) (pg_exec s)).
Proof.
  revert s. induction ls as [|l ls IH]; intros s; cbn [put_lines].
  - cbn. rewrite app_nil_r. by destruct s.
  - unfold pg_write. unix_unfold. rewrite IH. cbn. by rewrite <- app_assoc.
Qed.

(** Both pagers hand a text file to the pager complete and
    in order, whatever the lengths of its lines: pipe_pager.c then closes the
    pipe and exits with 0, popen_pager.c returns 0; and the child of
    pipe_pager.c runs "/usr/bin/more" under the name "more". *)
Theorem pagers_copy wr file pclose_res wait_res p :
  (forall x, wr x = Z.of_nat (length x)) -> (NUL ∉ file) -> pclose_res <> (-1)%Z -> (0 <= wait_res)%Z ->
  pipe_pager_main 2 true 0 1 wr file false wait_res 3 0 0 p =
    Exited 0 (Pager (pg_pipe p ++ file) true (pg_exec p)) /\
  popen_pager_main 2 true true file false pclose_res p =
    Ret 0%Z (Pager (pg_pipe p ++ file) (pg_closed p) (pg_exec p)) /\
  pipe_pager_main 2 true 0 0 wr file false wait_res 3 0 0 p =
    Ret tt (Pager (pg_pipe p) (pg_closed p) (Some (chars "/usr/bin/more", chars "more"))).
Proof.
  intros Hw Hn Hp Hwt.
  assert (Hc : concat (c_string <$> lines_of MAXLINE file) = file).
  { rewrite concat_c_string, lines_concat; try done; rewrite ?lines_concat; unfold MAXLINE; try lia; done. }
  split_and!; [| |by vm_compute].
  - change (pipe_pager_parent wr file false wait_res p = Exited 0 (Pager (pg_pipe p ++ file) true (pg_exec p))).
    unfold pipe_pager_parent. rewrite (bind_ret _ _ _ _ _ (write_lines_ok wr _ p Hw)), Hc.
    unix_unfold. by rewrite (proj2 (Z.ltb_ge wait_res 0)) by lia.
  - unfold popen_pager_main. cbn [negb]. rewrite decide_False by auto.
    rewrite (bind_ret _ _ _ _ _ (put_lines_ok _ p)), Hc. by rewrite decide_False.
Qed.

Lemma pagers_copy_witness :
  pipe_pager_main 2 true 0 1 (fun x => Z.of_nat (length x)) (chars ("one" +:+ nl +:+ "two")) false 7 3 0 0
    (Pager [] false None) = Exited 0 (Pager (chars ("one" +:+ nl +:+ "two")) true None).
Proof.
  apply (pagers_copy (fun x => Z.of_nat (length x)) (chars ("one" +:+ nl +:+ "two")) 0 7 (Pager [] false None)).
  - reflexivity.
  - apply (bool_decide_unpack _). vm_compute. exact I.
  - discriminate.
  - lia.
Defined.

(** ** fifo_demo.c *)
Module Fifo.

Definition MAXLINE : nat := 1024.

(** The reader's end of the FIFO: a byte, or an error of [read]; it ends when
    the writer has closed it. *)
Definition stream : Type := list (option Ascii.ascii).
Record reader := Reader { rd_in : stream; rd_out : list Ascii.ascii }.

(** The loop of [readline]: [room] characters still fit; [n] is the result of
    the last [read].  A character that does not fit has been read already. *)
Fixpoint read_loop (room : nat) (s : stream) (acc : list Ascii.ascii) {struct s} : Z * list Ascii.ascii * stream :=
  match s with
  | [] => (0%Z, acc, [])
  | None :: s' => ((-1)%Z, acc, s')
  | Some c :: s' =>
    match room with
    | O => (1%Z, acc, s')
    | S room' => if decide (c = newline) then (1%Z, acc ++ [c], s') else read_loop room' s' (acc ++ [c])
    end
  end.

Definition readline (size : nat) : prog reader (option (list Ascii.ascii)) := fun st =>
  let '(n, acc, s') := read_loop (size - 1) (rd_in st) [] in
  let st' := Reader s' (rd_out st) in
  if (n <? 0)%Z then Exited (-1) st' else if decide (n = 0%Z) then Ret None st' else Ret (Some acc) st'.

Definition closed_msg : list Ascii.ascii := chars ("FIFO write end closed" +:+ nl).
Definition rd_printf (x : list Ascii.ascii) : prog reader unit := modify (fun st => Reader (rd_in st) (rd_out st ++ x)).

(** The parent: every [readline] takes at least one byte, so as many rounds
    as there are bytes, and one more, are enough. *)
Fixpoint reader_loop (fuel : nat) : prog reader unit :=
  match fuel with
  | O => c_block
  | S fuel' =>
    l ← readline MAXLINE ;
    match l with
    | Some l => rd_printf (c_string l) ;; reader_loop fuel'
    | None => rd_printf closed_msg ;; c_exit 0
    end
  end.
Definition fifo_parent : prog reader unit := fun st => reader_loop (S (length (rd_in st))) st.

(** The child; the state is what has gone into the FIFO, and [write_res] the
    number of bytes that a [write] takes. *)
Fixpoint fifo_writes (write_res : list Ascii.ascii -> Z) (ls : list (list Ascii.ascii)) : prog (list Ascii.ascii) unit :=
  match ls with
  | [] => mret tt
  | l :: ls' =>
    let x := c_string l in
    modify (fun fifo => fifo ++ take (Z.to_nat (write_res x)) x) ;;
    if decide (write_res x ≠ Z.of_nat (length x)) then c_exit (-1) else fifo_writes write_res ls'
  end.
Definition fifo_child (write_res : list Ascii.ascii -> Z) (stdin : list Ascii.ascii) : prog (list Ascii.ascii) unit :=
  fifo_writes write_res (lines_of MAXLINE stdin) ;; c_exit 0.

(** [main]: whether FIFO_PATH exists afterwards, and the exit code before the
    fork or the ends of both processes.  [mkfifo] fails when there is such a
    file; both processes open the FIFO just made, and the parent reads what
    the child has written when it ends. *)
Definition fifo_main (fifo_exists : bool) (fork_res : Z) (write_res : list Ascii.ascii -> Z) (stdin : list Ascii.ascii) :
    bool * (Z + outcome reader unit * outcome (list Ascii.ascii) unit) :=
  if fifo_exists then (true, inl (-1)%Z)
  else if (fork_res <? 0)%Z then (true, inl (-1)%Z)
  else
    let child := fifo_child write_res stdin [] in
    let bytes := match child with Ret _ w | Exited _ w | Blocked w => w | Fault => [] end in
    (true, inr (fifo_parent (Reader (Some <$> bytes) []), child)).

Lemma read_loop_line b room acc s :
  (newline ∉ b) -> length b < room ->
  read_loop room ((Some <$> (b ++ [newline])) ++ s) acc = (1%Z, acc ++ b ++ [newline], s).
Proof.
  revert room acc. induction b as [|c b IH]; intros room acc Hn Hl; (destruct room as [|room]; [cbn in Hl; lia|]).
  - cbn. by rewrite decide_True.
  - rewrite not_elem_of_cons in Hn. cbn. rewrite decide_False by (intros ->; tauto).
    cbn in Hl. rewrite IH by (tauto || lia). by rewrite <- app_assoc.
Qed.

Lemma readline_line l s out :
  full_line MAXLINE l -> readline MAXLINE (Reader ((Some <$> l) ++ s) out) = Ret (Some l) (Reader s out).
Proof.
  intros (b & -> & Hn & Hl). unfold readline. cbn [rd_in rd_out].
  rewrite read_loop_line by (done || (rewrite length_app in Hl; cbn [length] in Hl; lia)). done.
Qed.

Lemma reader_loop_lines fuel ls out :
  Forall (full_line MAXLINE) ls -> (NUL ∉ concat ls) -> length ls < fuel ->
  reader_loop fuel (Reader (Some <$> concat ls) out) = Exited 0 (Reader [] (out ++ concat ls ++ closed_msg)).
Proof.
  intros Hls. revert fuel out. induction Hls as [|l ls Hl _ IH]; intros fuel out Hn Hf;
    (destruct fuel as [|fuel]; [cbn in Hf; lia|]); cbn [reader_loop].
  - unix_unfold. done.
  - cbn [concat] in *. rewrite fmap_app. rewrite (bind_ret _ _ _ _ _ (readline_line l _ out Hl)).
    rewrite elem_of_app in Hn. rewrite c_string_text by tauto. unfold rd_printf. unix_unfold.
    cbn in Hf. rewrite IH by (tauto || lia). by rewrite <- !app_assoc.
Qed.

Lemma lines_le ls : Forall (full_line MAXLINE) ls -> length ls <= length (concat ls).
Proof.
  induction 1 as [|l ls (b & -> & _ & _) _ IH]; cbn; [lia|]. rewrite !length_app. cbn. lia.
Qed.

Lemma fifo_writes_ok wr ls fifo :
  (forall x, wr x = Z.of_nat (length x)) -> fifo_writes wr ls fifo = Ret tt (fifo ++ concat (c_string <$> ls)).
Proof.
  intros Hw. revert fifo. induction ls as [|l ls IH]; intros fifo; cbn [fifo_writes].
  - cbn. by rewrite app_nil_r.
  - unix_unfold. rewrite !Hw, Nat2Z.id, take_ge, decide_False, IH by auto. cbn. by rewrite <- app_assoc.
Qed.

(** Property C23.  Text made of complete lines of fewer than [MAXLINE]
    characters passes from the child's standard input through the FIFO to the
    parent's standard output unchanged; the parent then reports the end, and
    both processes exit with 0.  But nobody removes the FIFO: the next run of
    the program fails. *)
Theorem fifo_copies wr ls pid :
  (forall x, wr x = Z.of_nat (length x)) -> Forall (full_line MAXLINE) ls -> (NUL ∉ concat ls) -> (0 < pid)%Z ->
  exists left, fifo_main false pid wr (concat ls) =
    (left, inr (Exited 0 (Reader [] (concat ls ++ closed_msg)), Exited 0 (concat ls))) /\
  forall fork_res wr' stdin, fifo_main left fork_res wr' stdin = (true, inl (-1)%Z).
Proof.
  intros Hw Hls Hn Hp. exists true. split; [|done]. unfold fifo_main, fifo_child, fifo_parent.
  rewrite (proj2 (Z.ltb_ge _ _)) by lia.
  assert (Hlc : concat (lines_of MAXLINE (concat ls)) = concat ls) by (apply lines_concat; unfold MAXLINE; lia).
  rewrite (bind_ret _ _ _ _ _ (fifo_writes_ok wr _ [] Hw)), concat_c_string by (by rewrite Hlc). rewrite Hlc.
  cbn [c_exit app rd_in]. rewrite reader_loop_lines; [done|done|done|].
  rewrite length_fmap. pose proof (lines_le ls Hls). lia.
Qed.

Lemma fifo_copies_witness :
  exists left, fifo_main false 7 (fun x => Z.of_nat (length x)) (concat [chars ("one" +:+ nl); chars ("two" +:+ nl)]) =
    (left, inr (Exited 0 (Reader [] (concat [chars ("one" +:+ nl); chars ("two" +:+ nl)] ++ closed_msg)),
      Exited 0 (concat [chars ("one" +:+ nl); chars ("two" +:+ nl)]))) /\
  forall fork_res wr' stdin, fifo_main left fork_res wr' stdin = (true, inl (-1)%Z).
Proof.
  apply (fifo_copies (fun x => Z.of_nat (length x)) [chars ("one" +:+ nl); chars ("two" +:+ nl)] 7).
  - reflexivity.
  - apply Forall_cons_2; [exists (chars "one")|apply Forall_cons_2; [exists (chars "two")|apply Forall_nil_2]];
      split; [reflexivity| |reflexivity|]; split;
      try (apply (bool_decide_unpack _); vm_compute; exact I); unfold MAXLINE; cbn; lia.
  - apply (bool_decide_unpack _). vm_compute. exact I.
  - lia.
Defined.

Lemma read_loop_full b room acc c s :
  (newline ∉ b) -> length b = room ->
  read_loop room ((Some <$> b) ++ Some c :: s) acc = (1%Z, acc ++ b, s).
Proof.
  revert room acc. induction b as [|x b IH]; intros room acc Hn <-; cbn.
  - by rewrite app_nil_r.
  - rewrite not_elem_of_cons in Hn. rewrite decide_False by (intros ->; tauto).
    rewrite IH by tauto. by rewrite <- app_assoc.
Qed.

Lemma read_loop_eof b room acc :
  (newline ∉ b) -> length b <= room -> read_loop room (Some <$> b) acc = (0%Z, acc ++ b, []).
Proof.
  revert room acc. induction b as [|x b IH]; intros room acc Hn Hl; cbn.
  - by rewrite app_nil_r.
  - destruct room as [|room]; [cbn in Hl; lia|]. rewrite not_elem_of_cons in Hn.
    rewrite decide_False by (intros ->; tauto). cbn in Hl.
    rewrite IH by (tauto || lia). by rewrite <- app_assoc.
Qed.

(** What [readline] loses: after [size - 1]
    characters without a newline it has already read one more, which is
    dropped; and characters after the last newline are dropped at the end of
    the stream, because the end is reported as [NULL] whatever was read. *)
Theorem readline_loses size b c s out :
  0 < size -> (newline ∉ b) -> length b = size - 1 ->
  readline size (Reader ((Some <$> b) ++ Some c :: s) out) = Ret (Some b) (Reader s out) /\
  readline size (Reader (Some <$> b) out) = Ret None (Reader [] out).
Proof.
  intros Hs Hn Hl. unfold readline. cbn [rd_in rd_out].
  rewrite read_loop_full by done. rewrite read_loop_eof by (done || lia). done.
Qed.

Lemma readline_loses_witness :
  readline 4 (Reader (Some <$> chars ("abcdef" +:+ nl)) []) =
    Ret (Some (chars "abc")) (Reader (Some <$> chars ("ef" +:+ nl)) []).
Proof.
  apply (proj1 (readline_loses 4 (chars "abc") (Ascii.ascii_of_nat 100) (Some <$> chars ("ef" +:+ nl)) []
    ltac:(lia) ltac:(apply (bool_decide_unpack _); vm_compute; exact I) eq_refl)).
Defined.
End Fifo.
