(* ===== verification/Coprocess.v ===== *)
(** * IPC/add2.c and IPC/coprocess.c: an adding coprocess

    [add2] reads chunks of input, scans two numbers out of each and writes
    their sum; [coprocess] sends it the lines of its standard input one at a
    time through a pipe and prints the replies. *)

From S2P Require Import Prelude Scan LineIO.

(** ** add2.c *)

(** What [add2] has written. *)
Definition a2out : Type := list (list Ascii.ascii).
Definition a2_write (write_res : list Ascii.ascii -> Z) (x : list Ascii.ascii) : prog a2out unit :=
  if decide (write_res x ≠ Z.of_nat (length x)) then c_exit (-1) else modify (fun o => o ++ [x]).

Definition invalid_args : list Ascii.ascii := chars ("invalid args" +:+ nl).
Definition decimal_line (z : Z) : list Ascii.ascii := chars (pretty z) ++ [newline].

Section Add2.
Variable write_res : list Ascii.ascii -> Z.

(** One round: [d] is what [read(STDIN_FILENO, line, MAXLINE)] stored. *)
Definition add2_round (d : list Ascii.ascii) : prog a2out unit :=
  if decide (length d < MAXLINE) then       (* line[n] = 0 *)
    let line := c_string d in
    match scan_int line with
    | None => a2_write write_res invalid_args
    | Some (z1, r) =>
      int1 ← need (store_int z1) ;
      match scan_int r with
      | None => a2_write write_res invalid_args
      | Some (z2, _) =>
        int2 ← need (store_int z2) ;
        sum ← need (int_add int1 int2) ;
        a2_write write_res (decimal_line sum)
      end
    end
  else c_fault.

(** [main]: the chunks that successive reads return; it ends when one returns
    nothing. *)
Fixpoint add2_main (reads : list (list Ascii.ascii)) : prog a2out unit :=
  match reads with
  | [] | [] :: _ => c_exit 0
  | d :: reads' => add2_round d ;; add2_main reads'
  end.
End Add2.

(** ** coprocess.c *)

(** Standard output of the parent. *)
Definition cpout : Type := list Ascii.ascii.
Definition cp_puts (x : list Ascii.ascii) : prog cpout unit := modify (fun o => o ++ x).

(** The handler of [SIGPIPE]. *)
Definition sig_pipe : prog cpout unit := cp_puts (chars ("Caught SIGPIPE" +:+ nl)) ;; c_exit 1.

(** How the calls of one round of the parent's loop go: the [write] takes the
    whole line, does not, or finds the pipe closed (SIGPIPE); the [read]
    fails or not; [fputs] fails after some bytes or not. *)
Inductive pipe_write := PWrote | PShort | PClosed.
Record calls := Calls { k_write : pipe_write; k_read_err : bool; k_puts : option nat }.

Section Coprocess.
(** What the coprocess answers to the bytes it is sent: [None] when it has
    ended without an answer. *)
Variable child : list Ascii.ascii -> option (list Ascii.ascii).
(** The calls of each round. *)
Variable ks : nat -> calls.

(** The loop of the parent, from round [i].  A line that starts with a [NUL]
    sends nothing, and the parent waits for an answer that does not come. *)
Fixpoint parent_loop (i : nat) (ls : list (list Ascii.ascii)) (stdin_err : bool) : prog cpout unit :=
  match ls with
  | [] => if stdin_err then c_exit (-1) else c_exit 0
  | l :: ls' =>
    match k_write (ks i) with
    | PClosed => sig_pipe
    | PShort => c_exit (-1)
    | PWrote =>
      if k_read_err (ks i) then c_exit (-1)
      else
        match c_string l with
        | [] => c_block
        | x =>
          match child x with
          | None => if stdin_err then c_exit (-1) else c_exit 0
          | Some r =>
            if decide (length r < MAXLINE) then      (* line[n] = 0 *)
              match k_puts (ks i) with
              | Some n => cp_puts (take n (c_string r)) ;; c_exit (-1)
              | None => cp_puts (c_string r) ;; parent_loop (S i) ls' stdin_err
              end
            else c_fault
          end
        end
    end
  end.

(** The child's preparations, with the results of its calls. *)
Definition child_setup (fd1_0 dup2_in fd2_1 dup2_out exec_res : Z) : prog cpout unit :=
  if decide (fd1_0 ≠ 0%Z /\ dup2_in ≠ 0%Z) then c_exit (-1)
  else if decide (fd2_1 ≠ 1%Z /\ dup2_out ≠ 1%Z) then c_exit (-1)
  else if (exec_res <? 0)%Z then c_exit (-1) else mret tt.

Definition coprocess_main (sigaction_res pipe1 pipe2 fork_res : Z) (stdin : list Ascii.ascii) (stdin_err : bool)
    (fd1_0 dup2_in fd2_1 dup2_out exec_res : Z) : prog cpout unit :=
  if decide (sigaction_res = (-1)%Z) then c_exit (-1)
  else if ((pipe1 <? 0) || (pipe2 <? 0))%Z then c_exit (-1)
  else if (fork_res <? 0)%Z then c_exit (-1)
  else if (0 <? fork_res)%Z then parent_loop 0 (lines_of MAXLINE stdin) stdin_err
  else child_setup fd1_0 dup2_in fd2_1 dup2_out exec_res.
End Coprocess.

(** [add2] as the coprocess: the answer to one chunk. *)
Definition add2_child (x : list Ascii.ascii) : option (list Ascii.ascii) :=
  match add2_round (fun x => Z.of_nat (length x)) x [] with Ret _ [r] => Some r | _ => None end.

Definition space : Ascii.ascii := Ascii.ascii_of_nat 32.

Lemma scan_int_space s : scan_int (space :: s) = scan_int s.
Proof. done. Qed.

(** ** The theorems *)

(** A request: two numbers on a line. *)
Definition request (a b : Z) : list Ascii.ascii := chars (pretty a) ++ space :: decimal_line b.

Lemma request_no (c : Ascii.ascii) a b :
  digit c = None -> c <> minus -> c <> space -> c <> newline -> c ∉ request a b.
Proof.
  intros Hd Hm Hs Hn. unfold request, decimal_line.
  rewrite elem_of_app, elem_of_cons, elem_of_app, list_elem_of_singleton.
  pose proof (pretty_no c a Hd Hm). pose proof (pretty_no c b Hd Hm). tauto.
Qed.

Definition int_pair (p : Z * Z) : Prop :=
  in_int p.1 = true /\ in_int p.2 = true.

Lemma pretty_int_length z : in_int z = true -> length (chars (pretty z)) <= 11.
Proof.
  unfold in_int, INT_MIN, INT_MAX. intros H. rewrite chars_length.
  destruct (decide (0 <= z)%Z) as [Hz|Hz].
  - pose proof (pretty_Z_length 10 z ltac:(lia) ltac:(lia)). lia.
  - destruct z as [|p|p]; [lia|lia|].
    change (S (String.length (pretty (N.pos p))) <= 11).
    assert (N.pos p < 10 ^ N.of_nat 10)%N as Hp.
    { apply andb_true_iff in H as [H%Z.leb_le _]. change (10 ^ N.of_nat 10)%N with 10000000000%N.
      assert (Z.pos p <= 2147483648)%Z by lia. lia. }
    pose proof (pretty_N_length 10 (N.pos p) ltac:(lia) Hp). lia.
Qed.

Lemma request_length a b : int_pair (a, b) -> length (request a b) <= 24.
Proof.
  intros [Ha Hb]. unfold request, decimal_line. rewrite length_app. cbn [length]. rewrite length_app. cbn [length].
  pose proof (pretty_int_length a Ha). pose proof (pretty_int_length b Hb). lia.
Qed.

(** Scanning a request finds its two numbers, whatever they are. *)
Lemma scan_request a b :
  scan_int (c_string (request a b)) = Some (a, space :: decimal_line b) /\
  scan_int (space :: decimal_line b) = Some (b, [newline]).
Proof.
  rewrite c_string_text by (by apply request_no). split.
  - unfold request. by apply scan_int_pretty.
  - rewrite scan_int_space. by apply scan_int_pretty.
Qed.

Lemma add2_request wr a b o :
  (forall x, wr x = Z.of_nat (length x)) -> int_pair (a, b) ->
  add2_round wr (request a b) o =
    if in_int (a + b) then Ret tt (o ++ [decimal_line (a + b)]) else Fault.
Proof.
  intros Hw Hp. pose proof (request_length a b Hp). destruct Hp as [Ha Hb]. cbn in Ha, Hb.
  unfold add2_round. rewrite decide_True by (unfold MAXLINE; lia).
  destruct (scan_request a b) as [-> H2]. unfold store_int. rewrite Ha. unix_unfold.
  rewrite H2, Hb. unfold int_add. change ((INT_MIN <=? a + b)%Z && (a + b <=? INT_MAX)%Z) with (in_int (a + b)).
  destruct (in_int (a + b)); [|done]. unfold a2_write. rewrite decide_False by (rewrite Hw; auto). done.
Qed.

Lemma add2_child_request a b :
  int_pair (a, b) -> in_int (a + b) = true -> add2_child (request a b) = Some (decimal_line (a + b)).
Proof.
  intros Hp Hs. unfold add2_child. rewrite add2_request by done. by rewrite Hs.
Qed.

Lemma decimal_no_nul z : NUL ∉ decimal_line z.
Proof.
  unfold decimal_line. rewrite elem_of_app, list_elem_of_singleton.
  intros [H|H]; [by apply (pretty_no NUL z) in H|discriminate H].
Qed.

Lemma request_full_line a b : int_pair (a, b) -> full_line MAXLINE (request a b).
Proof.
  intros Hp. exists (chars (pretty a) ++ space :: chars (pretty b)). split_and!.
  - unfold request, decimal_line. by rewrite <- app_assoc.
  - rewrite elem_of_app, elem_of_cons. pose proof (pretty_no newline a eq_refl ltac:(discriminate)).
    pose proof (pretty_no newline b eq_refl ltac:(discriminate)).
    intros [?|[?|?]]; [tauto|done|tauto].
  - pose proof (request_length a b Hp). unfold MAXLINE. lia.
Qed.

Definition sum_line (p : Z * Z) : list Ascii.ascii := decimal_line (p.1 + p.2).
Definition request_line (p : Z * Z) : list Ascii.ascii := request p.1 p.2.

(** A round in which a call fails; the status the parent then exits with,
    and what it still prints, [x] being the answer of the coprocess. *)
Definition fails (k : calls) : bool :=
  match k_write k with PWrote => k_read_err k || bool_decide (k_puts k ≠ None) | _ => true end.
Definition fail_status (k : calls) : Z := match k_write k with PClosed => 1 | _ => -1 end.
Definition fail_text (k : calls) (x : list Ascii.ascii) : list Ascii.ascii :=
  match k_write k with
  | PClosed => chars ("Caught SIGPIPE" +:+ nl)
  | PShort => []
  | PWrote => if k_read_err k then [] else match k_puts k with Some n => take n x | None => [] end
  end.

(** The first of [n] rounds from [i] on that fails. *)
Fixpoint first_failure (ks : nat -> calls) (i n : nat) : option nat :=
  match n with O => None | S n' => if fails (ks i) then Some i else first_failure ks (S i) n' end.

Lemma first_failure_ge ks i n j : first_failure ks i n = Some j -> i <= j.
Proof.
  revert i. induction n as [|n IH]; intros i H; cbn in H; [done|].
  destruct (fails (ks i)); [by simplify_eq|]. apply IH in H. lia.
Qed.

(** What the parent has printed, and the status it exits with. *)
Definition parent_result (ks : nat -> calls) (i : nat) (ps : list (Z * Z)) (stdin_err : bool)
    : list Ascii.ascii * Z :=
  match first_failure ks i (length ps) with
  | None => (ps ≫= sum_line, if stdin_err then -1 else 0)%Z
  | Some j => ((take (j - i) ps ≫= sum_line) ++ fail_text (ks j) (default [] (sum_line <$> ps !! (j - i))),
               fail_status (ks j))
  end.

Lemma parent_loop_requests ks i ps e o :
  Forall (fun p => int_pair p /\ in_int (p.1 + p.2) = true) ps ->
  parent_loop add2_child ks i (request_line <$> ps) e o =
    Exited (parent_result ks i ps e).2 (o ++ (parent_result ks i ps e).1).
Proof.
  intros Hps. revert i o. induction Hps as [|[a b] ps [Hp Hs] _ IH]; intros i o.
  - cbn. rewrite app_nil_r. by destruct e.
  - rewrite fmap_cons. change (request_line (a, b)) with (request a b). cbn [parent_loop].
    unfold parent_result. cbn [length first_failure]. unfold fails.
    assert (Hnow : take (i - i) ((a, b) :: ps) ≫= sum_line = [] /\
      default [] (sum_line <$> ((a, b) :: ps) !! (i - i)) = decimal_line (a + b)) by (by rewrite Nat.sub_diag).
    destruct Hnow as [Hnow1 Hnow2].
    destruct (k_write (ks i)) eqn:Ew; cbn.
    2,3: rewrite Hnow1; unfold fail_status, fail_text, sig_pipe, cp_puts; rewrite Ew; unix_unfold; cbn;
      by rewrite ?app_nil_r.
    destruct (k_read_err (ks i)) eqn:Er; cbn.
    { rewrite Hnow1. unfold fail_status, fail_text. rewrite Ew, Er. unix_unfold. cbn. by rewrite ?app_nil_r. }
    rewrite (c_string_text (request a b)) by (by apply request_no).
    assert (exists c t, request a b = c :: t) as (c & t & Ect).
    { unfold request. destruct (chars (pretty a)) as [|c t]; [by exists space, (decimal_line b)|].
      by eexists _, _. }
    rewrite Ect. rewrite <- Ect, (add2_child_request a b Hp Hs).
    pose proof (pretty_int_length (a + b) Hs) as Hlen.
    rewrite decide_True by (unfold decimal_line; rewrite length_app; cbn [length]; unfold MAXLINE; lia).
    rewrite c_string_text by apply decimal_no_nul.
    destruct (k_puts (ks i)) as [n|] eqn:Ep; cbn.
    { rewrite Hnow1, Hnow2. unfold fail_status, fail_text, cp_puts. rewrite Ew, Er, Ep. by unix_unfold. }
    unfold cp_puts. unix_unfold. rewrite IH. unfold parent_result.
    destruct (first_failure ks (S i) (length ps)) as [j|] eqn:Ej; cbn [fst snd].
    + pose proof (first_failure_ge _ _ _ _ Ej). replace (j - i) with (S (j - S i)) by lia.
      rewrite firstn_cons, bind_cons. cbn [lookup list_lookup]. by rewrite <- !app_assoc.
    + by rewrite <- app_assoc.
Qed.

(** Property C20.  The coprocess adds: given any number of lines [a b]
    (two integers in decimal with one space between them, whose sum fits an
    [int]), [coprocess] with [add2] as its child prints the sum of each, in
    order, one per line, up to the first round in which one of its own
    calls fails, and then exits with 0, or with -1 when its input ended in an
    error.  A failed [write], [read] or [fputs] makes it exit with -1 at that
    line, a closed pipe with 1 after the message of its handler. *)
Theorem coprocess_adds ks ps e :
  Forall (fun p => int_pair p /\ in_int (p.1 + p.2) = true) ps ->
  coprocess_main add2_child ks 0 0 0 1 (ps ≫= request_line) e 0 0 1 1 0 [] =
    match first_failure ks 0 (length ps) with
    | None => Exited (if e then -1 else 0) (ps ≫= sum_line)
    | Some j => Exited (fail_status (ks j))
        ((take j ps ≫= sum_line) ++ fail_text (ks j) (default [] (sum_line <$> ps !! j)))
    end.
Proof.
  intros Hps. change (parent_loop add2_child ks 0 (lines_of MAXLINE (ps ≫= request_line)) e [] =
    match first_failure ks 0 (length ps) with
    | None => Exited (if e then -1 else 0) (ps ≫= sum_line)
    | Some j => Exited (fail_status (ks j))
        ((take j ps ≫= sum_line) ++ fail_text (ks j) (default [] (sum_line <$> ps !! j)))
    end).
  assert (lines_of MAXLINE (ps ≫= request_line) = request_line <$> ps) as ->.
  { assert (ps ≫= request_line = concat (request_line <$> ps)) as ->.
    { clear. induction ps as [|p ps IH]; [done|]. rewrite bind_cons, fmap_cons. cbn [concat]. by rewrite IH. }
    apply lines_full. rewrite Forall_fmap. eapply Forall_impl; [exact Hps|].
    intros [a b] [Hp _]. by apply request_full_line. }
  rewrite parent_loop_requests by done. unfold parent_result.
  destruct (first_failure ks 0 (length ps)) as [j|]; [by rewrite Nat.sub_0_r|done].
Qed.

Definition fine_calls : calls := Calls PWrote false None.

Lemma coprocess_adds_witness :
  coprocess_main add2_child (fun _ => fine_calls) 0 0 0 1
    (chars ("12 -7" +:+ nl +:+ "2147483647 -1" +:+ nl)) false 0 0 1 1 0 [] =
    Exited 0 (chars ("5" +:+ nl +:+ "2147483646" +:+ nl)) /\
  coprocess_main add2_child (fun i => if decide (i = 1) then Calls PClosed false None else fine_calls) 0 0 0 1
    (chars ("12 -7" +:+ nl +:+ "2147483647 -1" +:+ nl)) false 0 0 1 1 0 [] =
    Exited 1 (chars ("5" +:+ nl +:+ "Caught SIGPIPE" +:+ nl)).
Proof.
  split; (eapply eq_trans; [apply (coprocess_adds _ [(12, -7); (2147483647, -1)]%Z)|vm_compute; reflexivity]);
  (apply Forall_cons_2; [repeat split|apply Forall_cons_2; [repeat split|apply Forall_nil_2]]).
Defined.

(** Where [add2] goes wrong: a chunk that fills its
    buffer makes [line[n] = 0] write past the end, and a request whose sum
    does not fit an [int] overflows. *)
Theorem add2_faults wr d a b o :
  (forall x, wr x = Z.of_nat (length x)) -> length d = MAXLINE -> int_pair (a, b) -> in_int (a + b) = false ->
  add2_round wr d o = Fault /\ add2_round wr (request a b) o = Fault.
Proof.
  intros Hw Hd Hp Hs. split.
  - unfold add2_round. by rewrite decide_False by lia.
  - rewrite add2_request by done. by rewrite Hs.
Qed.

Lemma add2_faults_witness :
  add2_round (fun x => Z.of_nat (length x)) (chars ("2147483647 1" +:+ nl)) [] = Fault.
Proof.
  apply (proj2 (add2_faults (fun x => Z.of_nat (length x)) (replicate MAXLINE space) 2147483647 1 []
    ltac:(reflexivity) ltac:(apply length_replicate) ltac:(split; reflexivity) ltac:(reflexivity))).
Defined.
