(* ===== verification/MmapCopy.v ===== *)
(** * IPC/mmap_demo.c: copying a file through memory maps

    The destination is truncated to the size of the source and both are
    mapped and copied window by window, [COPYINCR] bytes at a time. *)

From S2P Require Import Prelude.

(** [1024*1024*1024]. *)
Definition COPYINCR : nat := N.to_nat (2 ^ 30).
Definition PAGE : nat := N.to_nat (2 ^ 12).

(** The two files. *)
Record files := Files { f_src : list Ascii.ascii; f_dst : list Ascii.ascii }.

Section Copy.
(** The window size, and whether the kernel can map [len] bytes of the source
    and of the destination at an offset. *)
Variable incr : nat.
Variables map_src map_dst : nat -> nat -> bool.

(** [mmap(0, len, ..., fd, off)]: the offset must be page aligned and the
    length positive. *)
Definition mmap_ok (can : nat -> nat -> bool) (len off : nat) : bool :=
  can len off && (0 <? len) && (off `mod` PAGE =? 0).

(** [memcpy(dst, src, copysz)] through the two maps at offset [off]. *)
Definition copy_window (off len : nat) (st : files) : files :=
  Files (f_src st)
    (take off (f_dst st) ++ take len (drop off (f_src st)) ++ drop (off + len) (f_dst st)).

(** The loop, from [fsz].  Every round copies at least one byte: as many
    rounds as the file has bytes are enough. *)
Fixpoint copy_loop (fuel : nat) (size fsz : nat) : prog files Z :=
  match fuel with
  | O => c_block
  | S fuel' =>
    if decide (fsz < size) then
      let copysz := if decide (incr < size - fsz) then incr else size - fsz in
      if negb (mmap_ok map_src copysz fsz) then c_exit (-1)
      else if negb (mmap_ok map_dst copysz fsz) then c_exit (-1)
      else modify (copy_window fsz copysz) ;; copy_loop fuel' size (fsz + copysz)
    else mret 0%Z
  end.

(** [ftruncate(fdout, size)] of a file just truncated by [open]. *)
Definition ftruncate (size : nat) (st : files) : files := Files (f_src st) (replicate size NUL).

Definition mmap_main (argc : nat) (open_in open_out fstat_res ftruncate_res : Z) : prog files Z :=
  if decide (argc ≠ 3) then c_exit 127
  else if (open_in <? 0)%Z then c_exit (-1)
  else if (open_out <? 0)%Z then c_exit (-1)
  else modify (fun st => Files (f_src st) []) ;;
    if (fstat_res <? 0)%Z then c_exit (-1)
    else if (ftruncate_res <? 0)%Z then c_exit (-1)
    else
      size ← gets (fun st => length (f_src st)) ;
      modify (ftruncate size) ;;
      copy_loop (S size) size 0.

(** ** Correctness *)

(** The first [off] bytes are copied, the rest is still zero. *)
Definition copied (src : list Ascii.ascii) (off : nat) : files :=
  Files src (take off src ++ replicate (length src - off) NUL).

Lemma copy_window_step src off len :
  off + len <= length src -> copy_window off len (copied src off) = copied src (off + len).
Proof.
  intros Hl. unfold copy_window, copied. cbn. f_equal.
  assert (Ht : length (take off src) = off) by (rewrite length_take; lia).
  rewrite take_app_le, take_ge by lia. rewrite drop_app_ge by lia. rewrite Ht, drop_replicate.
  rewrite app_assoc, <- take_take_drop. do 2 f_equal. lia.
Qed.

Hypothesis incr_pos : 0 < incr.
Hypothesis incr_page : incr `mod` PAGE = 0.

Definition maps_succeed : Prop := forall len off, map_src len off = true /\ map_dst len off = true.

Lemma copy_loop_ok src fuel off :
  off <= length src -> length src - off < fuel -> (off < length src -> off `mod` PAGE = 0) ->
  (maps_succeed -> copy_loop fuel (length src) off (copied src off) = Ret 0%Z (copied src (length src))) /\
  match copy_loop fuel (length src) off (copied src off) with
  | Ret z st => z = 0%Z /\ st = copied src (length src)
  | Exited c st => c = (-1)%Z /\ exists k, off <= k < length src /\ st = copied src k
  | _ => False
  end.
Proof.
  revert off. induction fuel as [|fuel IH]; intros off Ho Hf Hal; [lia|]. cbn [copy_loop].
  destruct (decide (off < length src)) as [Hlt|Hge].
  2: { assert (off = length src) as -> by lia. done. }
  set (len := if decide (incr < length src - off) then incr else length src - off).
  assert (Hlen : 0 < len /\ off + len <= length src) by (unfold len; case_decide; lia).
  assert (Hal' : off + len < length src -> (off + len) `mod` PAGE = 0).
  { unfold len. case_decide; [|lia]. intros _. rewrite Nat.Div0.add_mod, (Hal Hlt), incr_page.
    by rewrite Nat.Div0.mod_0_l. }
  destruct (IH (off + len) ltac:(lia) ltac:(lia) Hal') as [IH1 IH2].
  rewrite <- (copy_window_step src off len) in IH1, IH2 by lia.
  assert (Hm : forall can, can len off = true -> mmap_ok can len off = true).
  { intros can Hc. unfold mmap_ok. rewrite Hc, (Hal Hlt). by rewrite (proj2 (Nat.ltb_lt _ _)) by lia. }
  split.
  - intros Hmap. destruct (Hmap len off) as [H1 H2]. rewrite (Hm _ H1), (Hm _ H2). cbn [negb].
    unix_unfold. by apply IH1.
  - destruct (mmap_ok map_src len off); cbn [negb]; [|split; [done|]; exists off; done || (split; [lia|done])].
    destruct (mmap_ok map_dst len off); cbn [negb]; [|split; [done|]; exists off; split; [lia|done]].
    unix_unfold. destruct (copy_loop fuel (length src) (off + len) _); try done.
    destruct IH2 as [-> (k & Hk & ->)]. split; [done|]. exists k. split; [lia|done].
Qed.

Lemma copied_all src : copied src (length src) = Files src src.
Proof. unfold copied. rewrite take_ge by lia. rewrite Nat.sub_diag. cbn. by rewrite app_nil_r. Qed.

Lemma mmap_main_ok st :
  (maps_succeed -> mmap_main 3 0 0 0 0 st = Ret 0%Z (Files (f_src st) (f_src st))) /\
  match mmap_main 3 0 0 0 0 st with
  | Ret z st' => z = 0%Z /\ st' = Files (f_src st) (f_src st)
  | Exited c st' => c = (-1)%Z /\ exists k, k < length (f_src st) /\ st' = copied (f_src st) k
  | _ => False
  end.
Proof.
  assert (E : mmap_main 3 0 0 0 0 st =
    copy_loop (S (length (f_src st))) (length (f_src st)) 0 (copied (f_src st) 0)).
  { unfold mmap_main, ftruncate, copied. unix_unfold. rewrite decide_False by auto. cbn.
    by rewrite Nat.sub_0_r. }
  rewrite E. pose proof (copy_loop_ok (f_src st) (S (length (f_src st))) 0 ltac:(lia) ltac:(lia)
    ltac:(intros _; apply Nat.Div0.mod_0_l)) as [H1 H2]. rewrite copied_all in H1, H2. split; [done|].
  destruct (copy_loop _ _ _ _); try done. destruct H2 as [-> (k & Hk & ->)]. split; [done|].
  exists k. split; [lia|done].
Qed.
End Copy.

Lemma COPYINCR_page : 0 < COPYINCR /\ COPYINCR `mod` PAGE = 0.
Proof.
  unfold COPYINCR, PAGE. rewrite <- N2Nat.inj_mod. split; [|reflexivity].
  apply Nat.neq_0_lt_0. intros H. apply (N2Nat.inj _ 0) in H. discriminate.
Qed.

(** Property C21.  For a source of any size the program either returns
    0 with the destination equal to the source, which it does when the maps
    succeed, or, when a map fails, exits with -1 having copied a proper
    prefix and left the rest of the destination zero. *)
Theorem mmap_copies map_src map_dst st :
  (maps_succeed map_src map_dst ->
     mmap_main COPYINCR map_src map_dst 3 0 0 0 0 st = Ret 0%Z (Files (f_src st) (f_src st))) /\
  match mmap_main COPYINCR map_src map_dst 3 0 0 0 0 st with
  | Ret z st' => z = 0%Z /\ st' = Files (f_src st) (f_src st)
  | Exited c st' => c = (-1)%Z /\ exists k, k < length (f_src st) /\ st' = copied (f_src st) k
  | _ => False
  end.
Proof. apply mmap_main_ok; apply COPYINCR_page. Qed.
