(* ===== verification/CondVar.v ===== *)
(** * pthread/condition_signal.c and pthread/pthread_signal.c: condition
    variables

    A thread that finds its condition false waits on a condition variable,
    which gives up the mutex and starts waiting in one step; being signalled
    it must take the mutex again before it goes on.  [pthread_cond_wait] may
    also return without a signal. *)

From S2P Require Import Prelude Threads.

(** ** condition_signal.c *)
Module CondSignal.

(** [tp], the mutex, whether [process_task] waits on [qready], which threads
    have returned, the output. *)
Record shared_data := Data {
  tp : option string; qlock : mutex; waiting : bool; ended1 : bool; ended2 : bool; out : string
}.

#[export] Instance data_dec : EqDecision shared_data.
Proof. solve_decision. Defined.

Inductive tpc :=
| PLock | PTest | PWaiting | PWoken | PUnlock | PReturn     (** [process_task] *)
| ELock | EAlloc | EUnlock | ESignal | EReturn              (** [enqueue_msg] *)
| MJoin1 | MJoin2                                           (** [main], after the creations *)
| TDone | TBad.

#[export] Instance tpc_dec : EqDecision tpc.
Proof. solve_decision. Defined.

Definition set_lock (k : mutex) (s : shared_data) : shared_data :=
  Data (tp s) k (waiting s) (ended1 s) (ended2 s) (out s).
Definition set_waiting (w : bool) (s : shared_data) : shared_data :=
  Data (tp s) (qlock s) w (ended1 s) (ended2 s) (out s).
Definition printf (x : string) (s : shared_data) : shared_data :=
  Data (tp s) (qlock s) (waiting s) (ended1 s) (ended2 s) (out s +:+ x).

Definition lock (i : nat) (s : shared_data) (next : tpc) : list (shared_data * tpc) :=
  match mutex_lock i (qlock s) with Some k => [(set_lock k s, next)] | None => [] end.
Definition unlock (i : nat) (s : shared_data) (next : tpc) : list (shared_data * tpc) :=
  if decide (qlock s = Some i) then [(set_lock (mutex_unlock i (qlock s)) s, next)] else [(s, TBad)].

(** [spurious]: whether waits may end without a signal. *)
Definition process_task (spurious : bool) (s : shared_data) (t : tpc) : list (shared_data * tpc) :=
  match t with
  | PLock => lock 0 s PTest
  | PTest =>
    match tp s with
    | None => [(set_waiting true (set_lock None s), PWaiting)]
    | Some msg => [(printf ("Task message: " +:+ msg +:+ nl) s, PUnlock)]
    end
  | PWaiting =>
    if waiting s then (if spurious then [(set_waiting false s, PWoken)] else []) else [(s, PWoken)]
  | PWoken => lock 0 s PTest
  | PUnlock => unlock 0 s PReturn
  | PReturn => [(Data (tp s) (qlock s) (waiting s) true (ended2 s) (out s), TDone)]
  | _ => []
  end.

(** [enqueue_msg]; [malloc_ok] is whether the task could be allocated: its
    result is not checked. *)
Definition enqueue_msg (malloc_ok : bool) (s : shared_data) (t : tpc) : list (shared_data * tpc) :=
  match t with
  | ELock => lock 1 s EAlloc
  | EAlloc =>
    if malloc_ok then
      [(Data (Some "Hello, there") (qlock s) (waiting s) (ended1 s) (ended2 s) (out s), EUnlock)]
    else [(s, TBad)]
  | EUnlock => unlock 1 s ESignal
  | ESignal => [(set_waiting false s, EReturn)]
  | EReturn => [(Data (tp s) (qlock s) (waiting s) (ended1 s) true (out s), TDone)]
  | _ => []
  end.

Definition status_msg : string := "thread1 exited with status: 0" +:+ nl.

(** [main] joins the threads one after the other. *)
Definition join_threads (s : shared_data) (t : tpc) : list (shared_data * tpc) :=
  match t with
  | MJoin1 => if ended1 s then [(printf status_msg s, MJoin2)] else []
  | MJoin2 => if ended2 s then [(printf status_msg s, TDone)] else []
  | _ => []
  end.

Definition cond_succ (spurious malloc_ok : bool) (i : nat) (s : shared_data) (t : tpc) : list (shared_data * tpc) :=
  match i with
  | 0 => process_task spurious s t
  | 1 => enqueue_msg malloc_ok s t
  | 2 => join_threads s t
  | _ => []
  end.

Definition cond_start : config shared_data tpc :=
  Config (Data None None false false false "") [PLock; ELock; MJoin1].

(** [main] up to the joins: [e1] and [e2] are the results of
    [pthread_create]. *)
Definition cond_main (e1 e2 : Z) : config shared_data tpc + Z :=
  if decide (e1 ≠ 0%Z) then inr (-1)%Z
  else if decide (e2 ≠ 0%Z) then inr (-1)%Z
  else inl cond_start.

Definition cond_done (c : config shared_data tpc) : bool :=
  bool_decide (pool c = [TDone; TDone; TDone]) &&
  bool_decide (out (shared c) = "Task message: Hello, there" +:+ nl +:+ status_msg +:+ status_msg).

(** No fault, and nobody stops before the end. *)
Definition cond_fine (c : config shared_data tpc) : bool :=
  forallb (fun t => bool_decide (t <> TBad)) (pool c) &&
  (cond_done c || match nexts (cond_succ true true) c with [] => false | _ => true end).

Definition cond_states : list (config shared_data tpc) :=
  explore (cond_succ true true) 1000 [cond_start] [].

End CondSignal.

(** ** pthread_signal.c *)
Module PthreadSignal.

Definition SIGINT : Z := 2.
Definition SIGQUIT : Z := 3.

(** [quitflag], the mutex, whether [main] waits on [waitloc], the exit status
    once the process has ended, the output, and how many times a wait may
    still end without a signal. *)
Record state := State {
  quitflag : bool; lk : mutex; waiting : bool; exited : option Z; out : string; spurious : nat
}.

Inductive pc :=
| MLock | MTest | MWaiting | MWoken | MMask                      (** [main] *)
| SWait (evs : list (Z * Z)) | SLock | SSet | SUnlock | SSignal  (** [thr_fn] *)
| Ended | Bad.

Definition set_lk (k : mutex) (s : state) : state := State (quitflag s) k (waiting s) (exited s) (out s) (spurious s).
Definition exit_with (code : Z) (s : state) : state := State (quitflag s) (lk s) (waiting s) (Some code) (out s) (spurious s).
Definition printf (x : string) (s : state) : state :=
  State (quitflag s) (lk s) (waiting s) (exited s) (out s +:+ x) (spurious s).

Definition lock (i : nat) (s : state) (next : pc) : list (state * pc) :=
  match mutex_lock i (lk s) with Some k => [(set_lk k s, next)] | None => [] end.

(** [main] after the thread was created; it returns with the mutex held. *)
Definition main_step (mask_res : Z) (s : state) (t : pc) : list (state * pc) :=
  match t with
  | MLock => lock 0 s MTest
  | MTest =>
    if quitflag s then [(printf ("SIGQUIT received" +:+ nl) s, MMask)]
    else [(State (quitflag s) None true (exited s) (out s) (spurious s), MWaiting)]
  | MWaiting =>
    if waiting s then
      match spurious s with
      | O => []
      | S k => [(State (quitflag s) (lk s) false (exited s) (out s) k, MWoken)]
      end
    else [(s, MWoken)]
  | MWoken => lock 0 s MTest
  | MMask => [(exit_with (if decide (mask_res ≠ 0%Z) then -1 else 0)%Z s, Ended)]
  | _ => []
  end.

(** [thr_fn]: the elements of [evs] are what successive [sigwait]s return. *)
Definition thr_step (s : state) (t : pc) : list (state * pc) :=
  match t with
  | SWait [] => []
  | SWait ((err, signo) :: evs) =>
    if decide (err ≠ 0%Z) then [(exit_with (-1) s, Ended)]
    else if decide (signo = SIGINT) then [(printf (nl +:+ "interrupt" +:+ nl) s, SWait evs)]
    else if decide (signo = SIGQUIT) then [(s, SLock)]
    else [(exit_with (-1) (printf ("unexpected signal: " +:+ pretty signo +:+ nl) s), Ended)]
  | SLock => lock 1 s SSet
  | SSet => [(State true (lk s) (waiting s) (exited s) (out s) (spurious s), SUnlock)]
  | SUnlock =>
    if decide (lk s = Some 1) then [(set_lk (mutex_unlock 1 (lk s)) s, SSignal)] else [(s, Bad)]
  | SSignal => [(State (quitflag s) (lk s) false (exited s) (out s) (spurious s), Ended)]
  | _ => []
  end.

(** No thread runs once the process has ended. *)
Definition signal_succ (mask_res : Z) (i : nat) (s : state) (t : pc) : list (state * pc) :=
  match exited s with
  | Some _ => []
  | None => match i with 0 => main_step mask_res s t | 1 => thr_step s t | _ => [] end
  end.

Definition signal_start (evs : list (Z * Z)) (wakes : nat) : config state pc :=
  Config (State false None false None "" wakes) [MLock; SWait evs].

(** [main] up to its lock: [e1] and [e2] are the results of [pthread_sigmask]
    and [pthread_create], and up to [wakes] waits will end without a signal.
    All signals are blocked when the thread is created, so that only its
    [sigwait] accepts them. *)
Definition signal_main (e1 e2 : Z) (evs : list (Z * Z)) (wakes : nat) : config state pc + Z :=
  if decide (e1 ≠ 0%Z) then inr (-1)%Z
  else if decide (e2 ≠ 0%Z) then inr (-1)%Z
  else inl (signal_start evs wakes).

Fixpoint interrupts (n : nat) : string :=
  match n with O => "" | S n' => interrupts n' +:+ (nl +:+ "interrupt" +:+ nl) end.

Section Run.
(** [n] interrupts, then [SIGQUIT]. *)
Variables (n : nat) (rest : list (Z * Z)) (mask_res : Z).
Definition quit_events (k : nat) : list (Z * Z) := replicate k (0, SIGINT)%Z ++ (0, SIGQUIT)%Z :: rest.

Definition early (m : pc) (l : mutex) (w : bool) : Prop :=
  ((m = MLock \/ m = MWoken) /\ l = None /\ w = false) \/ (m = MTest /\ l = Some 0 /\ w = false) \/
  (m = MWaiting /\ l = None /\ w = true).
Definition parked (m : pc) (w : bool) : Prop :=
  ((m = MLock \/ m = MWoken) /\ w = false) \/ (m = MWaiting /\ w = true).
Definition late (m : pc) (l : mutex) (w : bool) : Prop :=
  ((m = MLock \/ m = MWoken) /\ l = None /\ w = false) \/ (m = MTest /\ l = Some 0 /\ w = false) \/
  (m = MWaiting /\ l = None).

Definition final_status : Z := if decide (mask_res ≠ 0%Z) then -1 else 0.

(** The positions the two threads can be in together. *)
Inductive stage : config state pc -> Prop :=
| st_wait k m l w b : k <= n -> early m l w ->
    stage (Config (State false l w None (interrupts (n - k)) b) [m; SWait (quit_events k)])
| st_lock m l w b : early m l w -> stage (Config (State false l w None (interrupts n) b) [m; SLock])
| st_set m w b : parked m w -> stage (Config (State false (Some 1) w None (interrupts n) b) [m; SSet])
| st_unlock m w b : parked m w -> stage (Config (State true (Some 1) w None (interrupts n) b) [m; SUnlock])
| st_signal m l w b : late m l w -> stage (Config (State true l w None (interrupts n) b) [m; SSignal])
| st_sent m l b : late m l false -> stage (Config (State true l false None (interrupts n) b) [m; Ended])
| st_print w t b : t = SSignal \/ t = Ended ->
    stage (Config (State true (Some 0) w None (interrupts n +:+ ("SIGQUIT received" +:+ nl)) b) [MMask; t])
| st_end l w t b :
    stage (Config (State true l w (Some final_status) (interrupts n +:+ ("SIGQUIT received" +:+ nl)) b) [Ended; t]).

(** How far a thread is from its end; a test with the flag set is the last.
    A wake-up without a signal leads to one more test. *)
Definition rank (quit : bool) (t : pc) : nat :=
  match t with
  | MLock => 6 | MTest => if quit then 2 else 5 | MWaiting => 4 | MWoken => if quit then 3 else 6 | MMask => 1
  | SWait evs => 10 + length evs | SLock => 9 | SSet => 8 | SUnlock => 7 | SSignal => 6
  | Ended | Bad => 0
  end.
Definition weight (c : config state pc) : nat :=
  4 * spurious (shared c) + total (rank (quitflag (shared c))) (pool c).

Lemma next_event k :
  (quit_events (S k) = (0, SIGINT)%Z :: quit_events k) /\ quit_events 0 = (0, SIGQUIT)%Z :: rest.
Proof. done. Qed.

Lemma interrupts_step k :
  S k <= n -> interrupts (n - k) = interrupts (n - S k) +:+ (nl +:+ "interrupt" +:+ nl).
Proof. intros Hk. by replace (n - k) with (S (n - S k)) by lia. Qed.

Ltac stage_cases :=
  repeat match goal with
  | H : _ \/ _ |- _ => destruct H as [H|H]
  | H : _ /\ _ |- _ => destruct H
  | H : early _ _ _ |- _ => unfold early in H
  | H : late _ _ _ |- _ => unfold late in H
  | H : parked _ _ |- _ => unfold parked in H
  end; subst.

Lemma stage_step c c' :
  stage c -> step (signal_succ mask_res) c c' -> stage c' /\ weight c' < weight c.
Proof.
  intros Hst Hs. apply nexts_step in Hs.
  destruct Hst as [k m l w b Hk He|m l w b He|m w b He|m w b He|m l w b He|m l b He|w t b He|l w t b]; stage_cases;
    try (destruct k as [|k]); try (destruct w); try (destruct b); cbn in Hs;
    repeat (apply elem_of_cons in Hs as [->|Hs] || apply elem_of_nil in Hs as []).
  all: split; [|by cbn; lia]; cbn [fst snd].
  all: first
    [ by (constructor; unfold early, late, parked; intuition)
    | rewrite Nat.sub_0_r; by (constructor; unfold early, late, parked; intuition)
    | unfold printf; cbn; rewrite <- (interrupts_step k) by done;
      apply (st_wait k); [lia|unfold early; intuition] ].
Qed.

Definition quit_seen (c : config state pc) : Prop :=
  exited (shared c) = Some final_status /\ out (shared c) = interrupts n +:+ ("SIGQUIT received" +:+ nl).

Lemma stage_progress c : stage c -> quit_seen c \/ exists c', step (signal_succ mask_res) c c'.
Proof.
  intros Hst.
  assert (Hn : forall c1, (exists c', c' ∈ nexts (signal_succ mask_res) c1) -> exists c', step (signal_succ mask_res) c1 c').
  { intros c1 (c' & Hc'). exists c'. by apply nexts_step. }
  destruct Hst as [k m l w b Hk He|m l w b He|m w b He|m w b He|m l w b He|m l b He|w t b He|l w t b]; [right..|by left];
    apply Hn; stage_cases; try (destruct k as [|k]); try (destruct w); try (destruct b); cbn; eexists; by left.
Qed.
End Run.

End PthreadSignal.
