(* ===== verification/GetPass.v ===== *)
(** * term_io/getpass_demo.c: reading a password

    [getpass] turns echoing off and blocks the terminal signals, reads a line
    of which it keeps at most [MAX_PASS_LEN] characters in a static buffer,
    and restores the terminal and the signal mask; [main] prints the password
    and wipes the buffer. *)

From S2P Require Import Prelude.

Definition MAX_PASS_LEN : nat := 8.
Arguments MAX_PASS_LEN : simpl never.

Definition SIGINT : Z := 2.
Definition SIGTSTP : Z := 20.
Definition ECHO : Z := 8.
Definition ECHOE : Z := 16.
Definition ECHOK : Z := 32.
Definition ECHONL : Z := 64.

(** The terminal's local flags, the blocked signals, the static buffer, what
    is still to be typed, what was written to the terminal, and the flags
    under which each character was read. *)
Record tty := Tty {
  c_lflag : Z; blocked : gset Z; pass_buf : list Ascii.ascii;
  t_in : list Ascii.ascii; t_out : list Ascii.ascii; read_under : list Z
}.

Definition set_lflag (f : Z) (s : tty) : tty := Tty f (blocked s) (pass_buf s) (t_in s) (t_out s) (read_under s).
Definition set_blocked (b : gset Z) (s : tty) : tty := Tty (c_lflag s) b (pass_buf s) (t_in s) (t_out s) (read_under s).
Definition set_pass (b : list Ascii.ascii) (s : tty) : tty := Tty (c_lflag s) (blocked s) b (t_in s) (t_out s) (read_under s).
Definition t_puts (x : list Ascii.ascii) : prog tty unit := modify (fun s =>
  Tty (c_lflag s) (blocked s) (pass_buf s) (t_in s) (t_out s ++ x) (read_under s)).

(** [c = getc(fp)] into a [char], which is signed: the byte 255 becomes -1,
    the value of [EOF]. *)
Definition char_eof : Ascii.ascii := Ascii.ascii_of_nat 255.
Definition getc_char : prog tty (option Ascii.ascii) := fun s =>
  match t_in s with
  | [] => Ret None s
  | c :: rest =>
    Ret (if decide (c = char_eof) then None else Some c)
        (Tty (c_lflag s) (blocked s) (pass_buf s) rest (t_out s) (read_under s ++ [c_lflag s]))
  end.

(** [*ptr = c] at an index of [buf]. *)
Definition put_at (i : nat) (c : Ascii.ascii) : prog tty unit := fun s =>
  if decide (i < length (pass_buf s)) then Ret tt (set_pass (<[i := c]> (pass_buf s)) s) else Fault.

(** The reading loop; [ptr] is an index.  It takes at least a character in
    each round: [fuel] is the length of the input and one more. *)
Fixpoint pass_loop (fuel : nat) (ptr : nat) : prog tty nat :=
  match fuel with
  | O => c_block
  | S fuel' =>
    c ← getc_char ;
    match c with
    | None => mret ptr
    | Some c =>
      if decide (c = newline) then mret ptr
      else if decide (ptr < MAX_PASS_LEN) then put_at ptr c ;; pass_loop fuel' (S ptr)
      else pass_loop fuel' ptr
    end
  end.

(** [getpass(prompt)]: [None] is [NULL], otherwise the buffer is returned. *)
Definition getpass (fopen_ok : bool) (tcgetattr_res : Z) (prompt : list Ascii.ascii) : prog tty (option unit) :=
  if negb fopen_ok then mret None
  else
    osig ← gets blocked ;
    modify (set_blocked (osig ∪ {[SIGINT; SIGTSTP]})) ;;
    if (tcgetattr_res <? 0)%Z then c_exit (-1)
    else
      ots ← gets c_lflag ;
      modify (set_lflag (Z.land ots (Z.lnot (Z.lor (Z.lor (Z.lor ECHO ECHOE) ECHOK) ECHONL)))) ;;
      t_puts prompt ;;
      n ← gets (fun s => length (t_in s)) ;
      ptr ← pass_loop (S n) 0 ;
      put_at ptr NUL ;;
      t_puts [newline] ;;
      modify (set_lflag ots) ;;
      modify (set_blocked osig) ;;
      mret (Some tt).

(** The wiping loop of [main]: [while ( *ptr ) *ptr++ = 0]. *)
Fixpoint wipe (fuel : nat) (i : nat) : prog tty unit :=
  match fuel with
  | O => c_block
  | S fuel' =>
    b ← gets pass_buf ;
    c ← need (b !! i) ;
    if decide (c = NUL) then mret tt else put_at i NUL ;; wipe fuel' (S i)
  end.

Definition prompt : list Ascii.ascii := chars "Enter password:".

(** [main]: what it prints on standard output, and its result. *)
Definition getpass_main (fopen_ok : bool) (tcgetattr_res : Z) : prog tty (list Ascii.ascii * Z) :=
  r ← getpass fopen_ok tcgetattr_res prompt ;
  match r with
  | None => c_exit (-1)
  | Some _ =>
    b ← gets pass_buf ;
    n ← need (strlen b) ;
    wipe (S MAX_PASS_LEN) 0 ;;
    mret (chars "password: " ++ take n b ++ [newline], 0%Z)
  end.

(** ** What is read *)

(** The characters before the first newline or byte 255. *)
Fixpoint typed_line (s : list Ascii.ascii) : list Ascii.ascii :=
  match s with
  | [] => []
  | c :: s' => if decide (c = char_eof \/ c = newline) then [] else c :: typed_line s'
  end.

(** Writing a string at an index. *)
Definition write_at (i : nat) (x b : list Ascii.ascii) : list Ascii.ascii := take i b ++ x ++ drop (i + length x) b.
Arguments write_at : simpl never.

Definition echo_off (f : Z) : Z := Z.land f (Z.lnot (Z.lor (Z.lor (Z.lor ECHO ECHOE) ECHOK) ECHONL)).

Lemma write_at_nil i b : write_at i [] b = b.
Proof. unfold write_at. cbn. rewrite Nat.add_0_r. apply take_drop. Qed.

Lemma write_at_cons i c x b :
  i + length (c :: x) <= length b -> write_at (S i) x (<[i := c]> b) = write_at i (c :: x) b.
Proof.
  intros Hl. cbn in Hl. unfold write_at. rewrite (take_S_r _ i c).
  - rewrite take_insert_ge by lia. rewrite drop_insert_lt by lia. rewrite <- app_assoc. cbn.
    by replace (S (i + length x)) with (i + S (length x)) by lia.
  - apply list_lookup_insert_eq. lia.
Qed.

Lemma pass_loop_ok fuel ptr s :
  length (t_in s) < fuel -> length (pass_buf s) = S MAX_PASS_LEN -> ptr <= MAX_PASS_LEN ->
  exists rest ru, let kept := take (MAX_PASS_LEN - ptr) (typed_line (t_in s)) in
    pass_loop fuel ptr s =
      Ret (ptr + length kept)
          (Tty (c_lflag s) (blocked s) (write_at ptr kept (pass_buf s)) rest (t_out s) (read_under s ++ ru)) /\
    Forall (eq (c_lflag s)) ru.
Proof.
  revert ptr s. induction fuel as [|fuel IH]; intros ptr s Hf Hb Hp; [lia|].
  destruct s as [fl bl b inp o ru]. cbn in *. unfold getc_char. unix_unfold. cbn.
  destruct inp as [|c inp]; cbn.
  - exists [], []. rewrite take_nil. cbn. rewrite Nat.add_0_r, write_at_nil, app_nil_r. by split; [|constructor].
  - destruct (decide (c = char_eof)) as [->|Hc]; cbn.
    { exists inp, [fl]. rewrite (decide_True (P := _ \/ _)) by (by left). rewrite take_nil. cbn. rewrite Nat.add_0_r, write_at_nil. by split; [|repeat constructor]. }
    destruct (decide (c = newline)) as [->|Hnl].
    { exists inp, [fl]. rewrite (decide_True (P := _ \/ _)) by (by right). rewrite take_nil. cbn.
      rewrite Nat.add_0_r, write_at_nil. by split; [|repeat constructor]. }
    rewrite (decide_False (P := _ \/ _)) by tauto. cbn in Hf.
    destruct (decide (ptr < MAX_PASS_LEN)) as [Hlt|Hge].
    + unfold put_at. cbn. rewrite decide_True by lia.
      edestruct (IH (S ptr) (Tty fl bl (<[ptr := c]> b) inp o (ru ++ [fl]))) as (rest & ru' & Hrun & Hru); cbn.
      { lia. } { by rewrite length_insert. } { lia. }
      cbn [c_lflag blocked pass_buf t_in t_out read_under] in Hrun. unfold set_pass. cbn. rewrite Hrun. exists rest, (fl :: ru').
      replace (MAX_PASS_LEN - ptr) with (S (MAX_PASS_LEN - S ptr)) by lia. cbn [take length].
      rewrite write_at_cons.
      * rewrite <- app_assoc. cbn. rewrite Nat.add_succ_r. split; [done|]. by constructor.
      * cbn. rewrite length_take. lia.
    + assert (ptr = MAX_PASS_LEN) as -> by lia.
      edestruct (IH MAX_PASS_LEN (Tty fl bl b inp o (ru ++ [fl]))) as (rest & ru' & Hrun & Hru); cbn; [lia|done|lia|].
      cbn [c_lflag blocked pass_buf t_in t_out read_under] in Hrun. rewrite Hrun. exists rest, (fl :: ru'). rewrite Nat.sub_diag. cbn.
      rewrite <- app_assoc. split; [done|]. by constructor.
Qed.

Lemma write_at_length i x b : i + length x <= length b -> length (write_at i x b) = length b.
Proof. intros H. unfold write_at. rewrite !length_app, length_take, length_drop. lia. Qed.

(** The password: what [getpass] keeps of the line. *)
Definition password (inp : list Ascii.ascii) : list Ascii.ascii := take MAX_PASS_LEN (typed_line inp).

Lemma password_length inp : length (password inp) <= MAX_PASS_LEN.
Proof. unfold password. rewrite length_take. lia. Qed.

Lemma getpass_ok s pr :
  length (pass_buf s) = S MAX_PASS_LEN ->
  exists rest ru, getpass true 0 pr s =
      Ret (Some tt) (Tty (c_lflag s) (blocked s) (write_at 0 (password (t_in s) ++ [NUL]) (pass_buf s)) rest
                         (t_out s ++ pr ++ [newline]) (read_under s ++ ru)) /\
    Forall (eq (echo_off (c_lflag s))) ru.
Proof.
  intros Hb. unfold getpass, t_puts. unix_unfold. cbn [negb].
  edestruct (pass_loop_ok (S (length (t_in s))) 0
    (Tty (echo_off (c_lflag s)) (blocked s ∪ {[SIGINT; SIGTSTP]}) (pass_buf s) (t_in s) (t_out s ++ pr) (read_under s)))
    as (rest & ru & Hrun & Hru); cbn [t_in pass_buf]; [lia|done|lia|].
  unfold echo_off in Hrun. cbn in Hrun |- *. rewrite Hrun. pose proof (password_length (t_in s)) as Hl.
  rewrite Nat.sub_0_r in Hrun |- *. change (take MAX_PASS_LEN (typed_line (t_in s))) with (password (t_in s)) in *.
  unfold put_at. cbn [pass_buf]. rewrite write_at_length, decide_True by lia.
  exists rest, ru. split; [|done]. unfold set_lflag, set_blocked, set_pass; cbn. rewrite <- app_assoc.
  do 3 f_equal. unfold write_at. cbn. rewrite <- !app_assoc. cbn.
  change (take 0 (pass_buf s)) with (@nil Ascii.ascii). cbn [app].
  rewrite insert_app_r_alt by lia. rewrite Nat.sub_diag. rewrite length_app. cbn.
  destruct (drop (length (password (t_in s))) (pass_buf s)) as [|x l] eqn:E.
  - apply (f_equal length) in E. rewrite length_drop in E. cbn in E. lia.
  - cbn. do 2 f_equal. apply (f_equal (drop 1)) in E. rewrite drop_drop in E. by rewrite E.
Qed.

(** Wiping a string that ends within the buffer. *)
Lemma wipe_ok x fuel pre post s :
  (NUL ∉ x) -> length x < fuel -> pass_buf s = pre ++ x ++ NUL :: post ->
  wipe fuel (length pre) s = Ret tt (set_pass (pre ++ replicate (length x) NUL ++ NUL :: post) s).
Proof.
  revert fuel pre s. induction x as [|c x IH]; intros fuel pre s Hn Hf Hb; (destruct fuel as [|fuel]; [cbn in Hf; lia|]);
    cbn [wipe]; unix_unfold; rewrite Hb.
  - cbn [app]. rewrite list_lookup_middle by done. rewrite decide_True by done. destruct s. cbn in Hb |- *. by subst.
  - rewrite not_elem_of_cons in Hn. cbn [app]. rewrite list_lookup_middle by done.
    rewrite decide_False by (intros ->; tauto). unfold put_at. rewrite Hb.
    rewrite decide_True by (rewrite length_app; cbn; lia). cbn [app].
    assert (Hi : <[length pre := NUL]> (pre ++ c :: x ++ NUL :: post) = (pre ++ [NUL]) ++ x ++ NUL :: post).
    { rewrite insert_app_r_alt by lia. rewrite Nat.sub_diag. cbn. by rewrite <- app_assoc. }
    rewrite Hi. replace (S (length pre)) with (length (pre ++ [NUL])) by (rewrite length_app; cbn; lia).
    rewrite IH by (tauto || (cbn in Hf; lia) || done). unfold set_pass. cbn. by rewrite <- app_assoc.
Qed.

Lemma typed_line_in c inp : c ∈ typed_line inp -> c ∈ inp.
Proof.
  induction inp as [|x inp IH]; cbn; [done|]. case_decide; [by intros []%elem_of_nil|].
  rewrite !elem_of_cons. tauto.
Qed.

(** Property C22.  For any input without [NUL]: [main] prints the first
    [MAX_PASS_LEN] characters of the line (which ends at a newline, at the end
    of the input, or at the byte 255), returns 0 with the terminal flags and
    the signal mask as they were, every character was read with echoing off,
    and nothing of the password is left in the buffer. *)
Theorem getpass_main_spec s :
  length (pass_buf s) = S MAX_PASS_LEN -> (NUL ∉ t_in s) ->
  exists s' ru, getpass_main true 0 s =
      Ret (chars "password: " ++ password (t_in s) ++ [newline], 0%Z) s' /\
    c_lflag s' = c_lflag s /\ blocked s' = blocked s /\
    t_out s' = t_out s ++ prompt ++ [newline] /\
    read_under s' = read_under s ++ ru /\ Forall (fun f => Z.land f ECHO = 0%Z) ru /\
    take (length (password (t_in s))) (pass_buf s') = replicate (length (password (t_in s))) NUL.
Proof.
  intros Hb Hn. set (pw := password (t_in s)).
  assert (Hpn : NUL ∉ pw).
  { intros H. apply Hn, typed_line_in. unfold pw, password in H.
    rewrite <- (take_drop MAX_PASS_LEN (typed_line _)). apply elem_of_app. by left. }
  pose proof (password_length (t_in s)) as Hl. fold pw in Hl.
  destruct (getpass_ok s prompt Hb) as (rest & ru & Hrun & Hru). fold pw in Hrun.
  unfold getpass_main. rewrite (bind_ret _ _ _ _ _ Hrun). unix_unfold. cbn [pass_buf].
  assert (Hw : write_at 0 (pw ++ [NUL]) (pass_buf s) = pw ++ NUL :: drop (S (length pw)) (pass_buf s)).
  { unfold write_at. rewrite length_app, <- app_assoc. cbn. by rewrite Nat.add_comm. }
  rewrite Hw. rewrite (strlen_app_nul pw) by done. rewrite take_app_length.
  rewrite (wipe_ok pw (S MAX_PASS_LEN) [] (drop (S (length pw)) (pass_buf s))); [|done|lia|done].
  eexists _, ru. split; [done|]. cbn. split_and!; try done.
  - eapply Forall_impl; [exact Hru|]. intros f <-. unfold echo_off. apply Z.bits_inj'. intros i Hi.
    rewrite !Z.land_spec, Z.lnot_spec, !Z.lor_spec, Z.bits_0 by done.
    destruct (Z.testbit ECHO i); [by rewrite andb_false_r|by rewrite andb_false_r].
  - rewrite <- (length_replicate (length pw) NUL) at 1. apply take_app_length.
Qed.

Definition sample_tty : tty :=
  Tty 35387 ∅ (replicate (S MAX_PASS_LEN) (Ascii.ascii_of_nat 120)) (chars ("correct horse" +:+ nl)) [] [].

Lemma getpass_main_spec_witness :
  exists s' ru, getpass_main true 0 sample_tty = Ret (chars ("password: correct " +:+ nl), 0%Z) s' /\
    c_lflag s' = 35387%Z /\ read_under s' = ru /\ Forall (fun f => Z.land f ECHO = 0%Z) ru.
Proof.
  destruct (getpass_main_spec sample_tty) as (s' & ru & H1 & H2 & _ & _ & H5 & H6 & _).
  - reflexivity.
  - apply (bool_decide_unpack _). vm_compute. exact I.
  - exists s', ru. split; [exact H1|]. split; [exact H2|]. split; [exact H5|exact H6].
Defined.
