(* ===== verification/GetEnv.v ===== *)
(** * pthread/getenv_thr.c and pthread/test_env.c: a thread-safe getenv

    [getenv_] searches the environment under a mutex and copies the value into
    a buffer of the calling thread, which thread-specific data keeps and frees
    when the thread ends.  test_env.c calls it from two threads. *)

From S2P Require Import Prelude Threads.

Definition MAXSTRINGSZ : nat := N.to_nat 4096.
Arguments MAXSTRINGSZ : simpl never.

Abbreviation cstr := (list Ascii.ascii).
Definition eq_char : Ascii.ascii := Ascii.ascii_of_nat 61.

(** ** String functions, on the characters before the terminator *)

(** [strncmp(a, b, n) == 0]. *)
Fixpoint strncmp_eq (n : nat) (a b : cstr) : bool :=
  match n, a, b with
  | O, _, _ => true
  | S n', x :: a', y :: b' => if decide (x = y) then strncmp_eq n' a' b' else false
  | S _, [], [] => true
  | S _, _, _ => false
  end.

(** [s[i]]: the terminator can be read, nothing beyond it. *)
Definition char_at (s : cstr) (i : nat) : option Ascii.ascii := (s ++ [NUL]) !! i.

(** [strncpy(dst, src, n)]: at most [n] characters, padded with [NUL]; the
    rest of the buffer is left alone. *)
Definition strncpy (dst : list Ascii.ascii) (src : cstr) (n : nat) : list Ascii.ascii :=
  take n (src ++ replicate n NUL) ++ drop n dst.

(** ** The module's state *)

(** [init_done] and whether [key] was created, [env_mutex], the thread's
    values of [key], the buffers on the heap, the lines written. *)
Record est := Est {
  init_done : bool; key : bool; env_mutex : mutex;
  specific : gmap nat positive; bufs : gmap positive (list Ascii.ascii); e_out : list cstr
}.

Definition set_mutex (k : mutex) (s : est) : est :=
  Est (init_done s) (key s) k (specific s) (bufs s) (e_out s).

(** [malloc(MAXSTRINGSZ)]: a free address, and what the buffer holds; or
    nothing. *)
Class EnvMalloc := {
  e_malloc : gmap positive (list Ascii.ascii) -> option (positive * list Ascii.ascii);
  e_malloc_fresh h p b : e_malloc h = Some (p, b) -> h !! p = None /\ length b = MAXSTRINGSZ
}.

Section GetEnv.
Context `{EnvMalloc} (environ : list cstr) (key_err : Z).

(** [thread_init], run by the first [pthread_once]. *)
Definition thread_init (s : est) : est :=
  Est true (bool_decide (key_err = 0%Z)) (env_mutex s) (specific s) (bufs s) (e_out s).
Definition once : prog est unit := modify (fun s => if init_done s then s else thread_init s).

Definition lock (tid : nat) : prog est unit := fun s =>
  match mutex_lock tid (env_mutex s) with Some k => Ret tt (set_mutex k s) | None => Blocked s end.
Definition unlock (tid : nat) : prog est unit := modify (fun s => set_mutex (mutex_unlock tid (env_mutex s)) s).

(** [pthread_getspecific(key)]: using a key that was not created is
    undefined. *)
Definition getspecific (tid : nat) : prog est (option positive) := fun s =>
  if key s then Ret (specific s !! tid) s else Fault.

(** [malloc] and [pthread_setspecific]. *)
Definition new_buf (tid : nat) : prog est (option positive) := fun s =>
  match e_malloc (bufs s) with
  | None => Ret None s
  | Some (p, b) =>
    Ret (Some p) (Est (init_done s) (key s) (env_mutex s) (<[tid := p]> (specific s)) (<[p := b]> (bufs s)) (e_out s))
  end.

(** The buffer of the thread; [None] when there is no memory for it. *)
Definition envbuf_of (tid : nat) : prog est (option positive) :=
  envbuf ← getspecific tid ;
  match envbuf with
  | Some p => mret (Some p)
  | None => new_buf tid
  end.

(** [strncpy(envbuf, src, MAXSTRINGSZ - 1)]. *)
Definition copy_value (envbuf : positive) (src : cstr) : prog est unit := fun s =>
  match bufs s !! envbuf with
  | None => Fault
  | Some b => Ret tt (Est (init_done s) (key s) (env_mutex s) (specific s)
                (<[envbuf := strncpy b src (MAXSTRINGSZ - 1)]> (bufs s)) (e_out s))
  end.

(** The loop over [environ]. *)
Fixpoint search (name : cstr) (envs : list cstr) (envbuf : positive) : prog est (option positive) :=
  match envs with
  | [] => mret None
  | e :: envs' =>
    let len := length name in
    if strncmp_eq len name e then
      c ← need (char_at e len) ;
      if decide (c = eq_char) then copy_value envbuf (drop (len + 1) e) ;; mret (Some envbuf)
      else search name envs' envbuf
    else search name envs' envbuf
  end.

(** The part of [getenv_] under the mutex. *)
Definition getenv_body (tid : nat) (name : cstr) : prog est (option positive) :=
  envbuf ← envbuf_of tid ;
  match envbuf with
  | None => mret None
  | Some p => search name environ p
  end.

Definition getenv_ (tid : nat) (name : cstr) : prog est (option positive) :=
  once ;;
  lock tid ;;
  r ← getenv_body tid name ;
  unlock tid ;;
  mret r.

(** ** test_env.c *)

(** [%p]. *)
Context (show_ptr : positive -> cstr).

Definition value_line (label v : cstr) (p : positive) : cstr :=
  label ++ v ++ chars " (" ++ show_ptr p ++ chars (")" +:+ nl).

(** A call of [getenv_] and the printing of its result, [printf("NAME: %s
    (%p)\n", v, v)]; a null pointer or a value without terminator is
    undefined behaviour. *)
Definition show_value (label : cstr) (v : option positive) : prog est unit :=
  p ← need v ;
  b ← (s ← gets bufs ; need (s !! p)) ;
  n ← need (strlen b) ;
  modify (fun s => Est (init_done s) (key s) (env_mutex s) (specific s) (bufs s)
    (e_out s ++ [value_line label (take n b) p])).

(** Where a thread stands: before [pthread_once], at the mutex, inside, at the
    unlocking with the result, at the printing of it, at its end (where the
    destructor frees the buffer); with the calls still to make. *)
Inductive epc :=
| EOnce (calls : list (cstr * cstr))
| ELock (label name : cstr) (calls : list (cstr * cstr))
| EBody (label name : cstr) (calls : list (cstr * cstr))
| EUnlock (label name : cstr) (v : option positive) (calls : list (cstr * cstr))
| EPrint (label name : cstr) (v : option positive) (calls : list (cstr * cstr))
| EEnded
| EFault.

(** [free], run on the thread's value of [key]. *)
Definition free_specific (tid : nat) (s : est) : est :=
  Est (init_done s) (key s) (env_mutex s) (delete tid (specific s))
      (match specific s !! tid with Some p => delete p (bufs s) | None => bufs s end) (e_out s).

Definition env_succ (tid : nat) (s : est) (t : epc) : list (est * epc) :=
  match t with
  | EOnce [] => [(free_specific tid s, EEnded)]
  | EOnce ((label, name) :: calls) => jump EFault s (once s) (fun _ => ELock label name calls)
  | ELock label name calls => jump EFault s (lock tid s) (fun _ => EBody label name calls)
  | EBody label name calls => jump EFault s (getenv_body tid name s) (fun v => EUnlock label name v calls)
  | EUnlock label name v calls => jump EFault s (unlock tid s) (fun _ => EPrint label name v calls)
  | EPrint label name v calls => jump EFault s (show_value label v s) (fun _ => EOnce calls)
  | EEnded | EFault => []
  end.

(** The two threads of [main] have the same code. *)
Definition thr_calls : list (cstr * cstr) :=
  [(chars "NAME: ", chars "NAME"); (chars "ID: ", chars "ID")].

Definition est0 : est := Est false false None ∅ ∅ [].
Definition env_main : config est epc := Config est0 (replicate 2 (EOnce thr_calls)).
End GetEnv.

(** ** Properties *)

(** The value of [name] in the environment: that of the first entry
    [name=value]. *)
Fixpoint getenv_ref (name : cstr) (envs : list cstr) : option cstr :=
  match envs with
  | [] => None
  | e :: envs' =>
    if decide (take (length name + 1) e = name ++ [eq_char]) then Some (drop (length name + 1) e)
    else getenv_ref name envs'
  end.

Lemma strncmp_prefix a b : strncmp_eq (length a) a b = bool_decide (take (length a) b = a).
Proof.
  revert b. induction a as [|x a IH]; intros b; [by rewrite bool_decide_eq_true_2|].
  destruct b as [|y b]; cbn; [by rewrite bool_decide_eq_false_2|].
  case_decide as E; [subst|rewrite bool_decide_eq_false_2; [done|congruence]].
  rewrite IH. apply bool_decide_ext. split; congruence.
Qed.

(** One entry matches when it is [name=...]. *)
Lemma entry_match name e :
  strncmp_eq (length name) name e = true /\ char_at e (length name) = Some eq_char <->
  take (length name + 1) e = name ++ [eq_char].
Proof.
  rewrite strncmp_prefix, bool_decide_eq_true. unfold char_at. split.
  - intros [Ht Hc]. destruct (decide (length name < length e)) as [Hl|Hl].
    + rewrite lookup_app_l in Hc by done. rewrite <- Ht at 2.
      rewrite Nat.add_1_r. by rewrite (take_S_r _ _ eq_char).
    + assert (length e = length name) as El.
      { apply (f_equal length) in Ht. rewrite length_take in Ht. lia. }
      rewrite <- El, list_lookup_middle in Hc by done. discriminate.
  - intros Ht. split.
    + apply (f_equal (take (length name))) in Ht. rewrite take_take, take_app_length in Ht.
      by rewrite Nat.min_l in Ht by lia.
    + assert (Hl : e !! length name = Some eq_char).
      { rewrite <- (lookup_take_lt e (length name + 1) (length name)) by lia. rewrite Ht. by rewrite list_lookup_middle. }
      by apply lookup_app_l_Some.
Qed.

Lemma getenv_ref_cons name e envs :
  getenv_ref name (e :: envs) =
    if strncmp_eq (length name) name e && bool_decide (char_at e (length name) = Some eq_char)
    then Some (drop (length name + 1) e) else getenv_ref name envs.
Proof.
  cbn [getenv_ref]. pose proof (entry_match name e) as He.
  destruct (strncmp_eq (length name) name e); cbn [andb]; [case_bool_decide|]; case_decide; try done; exfalso; naive_solver.
Qed.

(** The loop finds what the definition says. *)
Lemma search_ok name envs p s b :
  bufs s !! p = Some b ->
  search name envs p s =
    match getenv_ref name envs with
    | None => Ret None s
    | Some v => Ret (Some p) (Est (init_done s) (key s) (env_mutex s) (specific s)
                  (<[p := strncpy b v (MAXSTRINGSZ - 1)]> (bufs s)) (e_out s))
    end.
Proof.
  intros Hb. induction envs as [|e envs IH]; [done|]. rewrite getenv_ref_cons. cbn [search].
  rewrite strncmp_prefix. case_bool_decide as Ht; cbn [andb]; [|done].
  assert (Hc : exists c, char_at e (length name) = Some c).
  { apply lookup_lt_is_Some_2. rewrite length_app. apply (f_equal length) in Ht. rewrite length_take in Ht. cbn. lia. }
  destruct Hc as [c Hc]. rewrite Hc. unix_unfold. case_decide as E.
  - rewrite bool_decide_eq_true_2 by congruence. unfold copy_value. by rewrite Hb.
  - rewrite bool_decide_eq_false_2 by congruence. done.
Qed.

Lemma strncpy_length b v n : n <= length b -> length (strncpy b v n) = length b.
Proof.
  intros Hn. unfold strncpy. rewrite length_app, length_take, length_app, length_replicate, length_drop. lia.
Qed.

(** A value that fits is copied with its terminator. *)
Lemma strncpy_fits b v n :
  (NUL ∉ v) -> length v < n -> strlen (strncpy b v n) = Some (length v) /\ take (length v) (strncpy b v n) = v.
Proof.
  intros Hv Hl. unfold strncpy. rewrite take_app_ge by lia. rewrite <- app_assoc.
  destruct (n - length v) as [|k] eqn:E; [lia|].
  destruct n as [|n]; [lia|]. cbn [replicate take app]. split; [by apply strlen_app_nul|by apply take_app_length].
Qed.

(** A longer one is cut and not terminated. *)
Lemma strncpy_cut b v n : n <= length v -> take n (strncpy b v n) = take n v.
Proof.
  intros Hl. unfold strncpy. rewrite (take_app_le v) by lia. apply take_app_length'. rewrite length_take. lia.
Qed.

(** *** One call *)

(** Every thread's buffer exists, has the right size and is its own. *)
Record env_wf (s : est) : Prop := {
  wf_buf t p : specific s !! t = Some p -> exists b, bufs s !! p = Some b /\ length b = MAXSTRINGSZ;
  wf_own t u p : specific s !! t = Some p -> specific s !! u = Some p -> t = u;
  wf_used p : is_Some (bufs s !! p) -> exists t, specific s !! t = Some p
}.

Lemma env_wf_ext s s' : env_wf s -> specific s' = specific s -> bufs s' = bufs s -> env_wf s'.
Proof. intros [H1 H2 H3] Hs Hb. split; rewrite ?Hs, ?Hb; done. Qed.

Lemma getenv_ref_no_nul name envs v :
  Forall (fun e => NUL ∉ e) envs -> getenv_ref name envs = Some v -> NUL ∉ v.
Proof.
  induction 1 as [|e envs He Hf IH]; [done|]. cbn. case_decide; [|done]. intros [= <-] Hin.
  apply He. rewrite <- (take_drop (length name + 1) e). apply elem_of_app. by right.
Qed.

Section Body.
Context `{EnvMalloc} (environ : list cstr).

(** The thread has a buffer afterwards unless memory ran out; what the other
    threads have is not touched. *)
Record body_post (tid : nat) (name : cstr) (s : est) (r : option positive) (s' : est) : Prop := {
  bp_same : init_done s' = init_done s /\ key s' = key s /\ env_mutex s' = env_mutex s /\ e_out s' = e_out s;
  bp_wf : env_wf s';
  bp_others u : u ≠ tid -> specific s' !! u = specific s !! u;
  bp_bufs u p : u ≠ tid -> specific s !! u = Some p -> bufs s' !! p = bufs s !! p;
  bp_keep p : specific s !! tid = Some p -> specific s' !! tid = Some p;
  bp_result :
    match r with
    | None => getenv_ref name environ = None \/ (specific s !! tid = None /\ e_malloc (bufs s) = None)
    | Some p => specific s' !! tid = Some p /\
        exists v b, getenv_ref name environ = Some v /\ length b = MAXSTRINGSZ /\
          bufs s' !! p = Some (strncpy b v (MAXSTRINGSZ - 1))
    end
}.

Lemma envbuf_ok tid s :
  env_wf s -> key s = true ->
  exists r s1, envbuf_of tid s = Ret r s1 /\
    (init_done s1 = init_done s /\ key s1 = key s /\ env_mutex s1 = env_mutex s /\ e_out s1 = e_out s) /\
    env_wf s1 /\ (forall u, u ≠ tid -> specific s1 !! u = specific s !! u) /\
    (forall u p, specific s !! u = Some p -> bufs s1 !! p = bufs s !! p) /\
    (forall p, specific s !! tid = Some p -> specific s1 !! tid = Some p) /\
    match r with
    | Some p => specific s1 !! tid = Some p
    | None => specific s !! tid = None /\ e_malloc (bufs s) = None
    end.
Proof.
  intros Hwf Hk. unfold envbuf_of, getspecific. unix_unfold. rewrite Hk.
  destruct (specific s !! tid) as [p|] eqn:E; [exists (Some p), s; split_and!; naive_solver|].
  unfold new_buf. destruct (e_malloc (bufs s)) as [[p b]|] eqn:Em; [|exists None, s; split_and!; naive_solver].
  destruct (e_malloc_fresh _ _ _ Em) as [Hf Hl]. eexists (Some p), _. split; [done|].
  assert (Hold : forall u q, specific s !! u = Some q -> q ≠ p).
  { intros u q Hu ->. destruct (wf_buf s Hwf u p Hu) as (b' & Hb & _). congruence. }
  split; [done|]. split; [split|].
  - intros t q Ht. cbn [specific bufs] in *. destruct (decide (t = tid)) as [->|Hne].
    + rewrite lookup_insert_eq in Ht. simplify_eq. exists b. by rewrite lookup_insert_eq.
    + rewrite lookup_insert_ne in Ht by done. rewrite lookup_insert_ne by (symmetry; by eapply Hold).
      by apply (wf_buf s Hwf t).
  - intros t u q Ht Hu. cbn [specific] in *.
    rewrite lookup_insert_Some in Ht, Hu.
    destruct Ht as [[<- <-]|[Hnt Ht]], Hu as [[<- Hq]|[Hnu Hu]]; try done.
    + by destruct (Hold u p Hu).
    + subst. by destruct (Hold t q Ht).
    + by apply (wf_own s Hwf t u q).
  - intros q Hq. cbn [specific bufs] in *. destruct (decide (q = p)) as [->|Hne].
    + exists tid. by rewrite lookup_insert_eq.
    + rewrite lookup_insert_ne in Hq by done. destruct (wf_used s Hwf q Hq) as [t Ht]. exists t.
      rewrite lookup_insert_ne by congruence. done.
  - cbn [specific bufs]. split; [intros u Hu; by rewrite lookup_insert_ne|].
    split; [intros u q Hu; rewrite lookup_insert_ne by (symmetry; by eapply Hold); done|].
    split; [congruence|]. by rewrite lookup_insert_eq.
Qed.

Lemma search_wf p s b v :
  env_wf s -> bufs s !! p = Some b -> length b = MAXSTRINGSZ ->
  env_wf (Est (init_done s) (key s) (env_mutex s) (specific s)
            (<[p := strncpy b v (MAXSTRINGSZ - 1)]> (bufs s)) (e_out s)).
Proof.
  intros Hwf Hb Hl. split; cbn [specific bufs].
  - intros t q Ht. destruct (decide (q = p)) as [->|Hne].
    + rewrite lookup_insert_eq. eexists. split; [done|]. by rewrite strncpy_length by lia.
    + rewrite lookup_insert_ne by done. by apply (wf_buf s Hwf t).
  - apply (wf_own s Hwf).
  - intros q Hq. apply (wf_used s Hwf). destruct (decide (q = p)) as [->|Hne]; [by rewrite Hb|].
    by rewrite lookup_insert_ne in Hq.
Qed.

(** The part under the mutex. *)
Lemma getenv_body_ok tid name s :
  env_wf s -> key s = true ->
  exists r s', getenv_body environ tid name s = Ret r s' /\ body_post tid name s r s'.
Proof.
  intros Hwf Hk. destruct (envbuf_ok tid s Hwf Hk) as (r & s1 & H1 & Hsame & Hwf1 & Ho & Hb & Hkeep & Hr).
  unfold getenv_body. rewrite (bind_ret _ _ _ _ _ H1).
  destruct r as [p|]; [|exists None, s1; split; [done|]; split; [done..| | |]; [|done|by right]; intros; by eapply Hb].
  destruct (wf_buf s1 Hwf1 tid p Hr) as (b & Hbp & Hlb). rewrite (search_ok _ _ _ _ _ Hbp).
  destruct (getenv_ref name environ) as [v|] eqn:Ev.
  - eexists _, _. split; [done|]. split; cbn [init_done key env_mutex e_out specific bufs]; try done.
    + by apply search_wf.
    + intros u q Hu Hq. rewrite lookup_insert_ne; [by eapply Hb|].
      intros <-. apply Hu. rewrite <- Ho in Hq by done. by apply (wf_own s1 Hwf1 u tid p).
    + split; [done|]. exists v, b. by rewrite lookup_insert_eq.
  - exists None, s1. split; [done|]. split; try done; [intros; by eapply Hb|by left].
Qed.

(** Property C31.  [getenv_] returns what the reference definition of the
    environment lookup says: a null pointer when the variable is not set (or
    memory ran out), otherwise the calling thread's own buffer, holding the
    value as a terminated string if it has fewer than 4095 characters, and
    its first 4095 characters without terminator otherwise.  The buffer stays
    the same from call to call, the buffers of other threads are left alone
    and the mutex is free again. *)
Theorem getenv_spec key_err tid name s :
  env_wf s -> env_mutex s = None -> (if init_done s then key s = true else key_err = 0%Z) ->
  Forall (fun e => NUL ∉ e) environ ->
  exists r s', getenv_ environ key_err tid name s = Ret r s' /\
    env_wf s' /\ env_mutex s' = None /\ e_out s' = e_out s /\
    (forall u p, u ≠ tid -> specific s !! u = Some p -> specific s' !! u = Some p /\ bufs s' !! p = bufs s !! p) /\
    (forall p, specific s !! tid = Some p -> specific s' !! tid = Some p) /\
    match r with
    | None => getenv_ref name environ = None \/ (specific s !! tid = None /\ e_malloc (bufs s) = None)
    | Some p => specific s' !! tid = Some p /\
        exists v b, getenv_ref name environ = Some v /\ bufs s' !! p = Some b /\ length b = MAXSTRINGSZ /\
          if decide (length v < MAXSTRINGSZ - 1) then strlen b = Some (length v) /\ take (length v) b = v
          else take (MAXSTRINGSZ - 1) b = take (MAXSTRINGSZ - 1) v
    end.
Proof.
  intros Hwf Hm Hk Hn. unfold getenv_. erewrite bind_ret by reflexivity.
  set (s1 := if init_done s then s else thread_init key_err s).
  assert (H1 : specific s1 = specific s /\ bufs s1 = bufs s /\ env_mutex s1 = None /\ e_out s1 = e_out s /\ key s1 = true).
  { unfold s1. destruct (init_done s); [done|]. cbn. by rewrite bool_decide_eq_true_2. }
  destruct H1 as (E1 & E2 & E3 & E4 & E5). unfold lock. erewrite bind_ret by (rewrite E3; reflexivity).
  destruct (getenv_body_ok tid name (set_mutex (Some tid) s1)) as (r & s2 & Hr & [Hsame Hwf2 Ho Hb Hkeep Hres]);
    [by apply (env_wf_ext s)|done|].
  rewrite (bind_ret _ _ _ _ _ Hr). eexists r, _. split; [reflexivity|].
  cbn [set_mutex specific bufs e_out env_mutex] in *. rewrite E1, E2, E4 in *.
  split; [by apply (env_wf_ext s2)|]. split; [done|]. split; [apply Hsame|].
  split; [intros u p Hu Hp; split; [by rewrite Ho|by eapply Hb]|]. split; [done|].
  destruct r as [p|]; [|done]. destruct Hres as (Hp & v & b & Hv & Hl & Hbp). split; [done|].
  exists v, (strncpy b v (MAXSTRINGSZ - 1)). split; [done|]. split; [done|].
  split; [by rewrite strncpy_length by lia|]. case_decide as Hd.
  - apply strncpy_fits; [|done]. by eapply getenv_ref_no_nul.
  - apply strncpy_cut. lia.
Qed.
End Body.

(** *** The two threads of test_env.c *)

Section TestEnv.
Context `{EnvMalloc} (environ : list cstr) (show_ptr : positive -> cstr).
(** There is memory, no entry has a [NUL] inside it, and the variables are set
    to values that fit. *)
Context (memory : forall h, is_Some (e_malloc h)) (texts : Forall (fun e => NUL ∉ e) environ).
Context (defined : forall label name, (label, name) ∈ thr_calls ->
  exists v, getenv_ref name environ = Some v /\ length v < MAXSTRINGSZ - 1).

Abbreviation succ := (env_succ environ 0 show_ptr).

(** The calls a thread has not finished. *)
Definition remaining (t : epc) : option (list (cstr * cstr)) :=
  match t with
  | EOnce calls => Some calls
  | ELock label name calls | EBody label name calls
  | EUnlock label name _ calls | EPrint label name _ calls => Some ((label, name) :: calls)
  | EEnded => Some []
  | EFault => None
  end.

(** A line printed for a call, with the value and the address [p]. *)
Definition is_line (p : positive) (call : cstr * cstr) (line : cstr) : Prop :=
  exists v, getenv_ref call.2 environ = Some v /\ line = value_line show_ptr call.1 v p.

Definition ended (t : epc) : bool := match t with EEnded => true | _ => false end.

(** What holds of thread [tid] in local state [t], having printed [ls] with
    the address [p]. *)
Definition thread_ok (s : est) (tid : nat) (t : epc) (ls : list cstr) (p : positive) : Prop :=
  (exists k, remaining t = Some (drop k thr_calls) /\ Forall2 (is_line p) (take k thr_calls) ls) /\
  (ls ≠ [] -> ended t = false -> specific s !! tid = Some p) /\
  (env_mutex s = Some tid <-> match t with EBody _ _ _ | EUnlock _ _ _ _ => True | _ => False end) /\
  match t with
  | EOnce calls => True
  | ELock _ _ _ | EBody _ _ _ => init_done s = true
  | EUnlock _ name v _ | EPrint _ name v _ =>
    exists p b value, v = Some p /\ specific s !! tid = Some p /\ bufs s !! p = Some b /\
      getenv_ref name environ = Some value /\ strlen b = Some (length value) /\ take (length value) b = value
  | EEnded => specific s !! tid = None
  | EFault => False
  end.

Record test_inv (n : nat) (c : config est epc) : Prop := {
  ti_wf : env_wf (shared c);
  ti_key : init_done (shared c) = true -> key (shared c) = true;
  ti_length : length (pool c) = n;
  ti_range t p : specific (shared c) !! t = Some p -> t < n;
  ti_owner t : env_mutex (shared c) = Some t -> t < n;
  ti_lines : exists lss ps, length lss = n /\ length ps = n /\ e_out (shared c) ≡ₚ concat lss /\
    forall i t ls p, pool c !! i = Some t -> lss !! i = Some ls -> ps !! i = Some p -> thread_ok (shared c) i t ls p
}.

Definition eweight (t : epc) : nat :=
  match t with
  | EOnce calls => 5 * length calls + 1
  | ELock _ _ calls => 5 * length calls + 5
  | EBody _ _ calls => 5 * length calls + 4
  | EUnlock _ _ _ calls => 5 * length calls + 3
  | EPrint _ _ _ calls => 5 * length calls + 2
  | EEnded | EFault => 0
  end.

(** What a step of thread [i] may do to the others. *)
Record others_ok (i : nat) (s s' : est) : Prop := {
  oo_init : init_done s = true -> init_done s' = true;
  oo_mutex u : u ≠ i -> (env_mutex s' = Some u <-> env_mutex s = Some u);
  oo_specific u : u ≠ i -> specific s' !! u = specific s !! u;
  oo_bufs u p : u ≠ i -> specific s !! u = Some p -> bufs s' !! p = bufs s !! p
}.

Lemma thread_ok_frame i s s' u t ls p :
  others_ok i s s' -> u ≠ i -> thread_ok s u t ls p -> thread_ok s' u t ls p.
Proof.
  intros [Hi Hm Hsp Hb] Hu (Hk & Hpt & Hmu & Ht). split; [done|]. split; [by rewrite Hsp|]. split; [by rewrite Hm|].
  destruct t as [| | | | | |]; auto;
    [destruct Ht as (q & b & x & Hv & Hp & Hbp & Hr)..|by rewrite Hsp];
    exists q, b, x; rewrite Hsp by done; rewrite (Hb u q) by done; done.
Qed.

(** The end of a thread frees its buffer. *)
Lemma free_wf i s : env_wf s -> env_wf (free_specific i s).
Proof.
  intros Hwf. split; cbn [free_specific specific bufs].
  - intros t p Ht. apply lookup_delete_Some in Ht as [Hne Ht]. destruct (wf_buf s Hwf t p Ht) as (b & Hb & Hl).
    exists b. split; [|done]. destruct (specific s !! i) as [q|] eqn:E; [|done].
    rewrite lookup_delete_ne; [done|]. intros ->. apply Hne. by apply (wf_own s Hwf i t p).
  - intros t u p Ht Hu. apply lookup_delete_Some in Ht as [_ Ht], Hu as [_ Hu]. by apply (wf_own s Hwf t u p).
  - intros p Hp. assert (Hin : is_Some (bufs s !! p)).
    { destruct (specific s !! i) as [q|]; [|done]. destruct Hp as [b Hb]. apply lookup_delete_Some in Hb as [_ Hb]. by eexists. }
    destruct (wf_used s Hwf p Hin) as [t Ht]. exists t. apply lookup_delete_Some. split; [|done].
    intros <-. rewrite Ht in Hp. destruct Hp as [b Hb]. by rewrite lookup_delete_eq in Hb.
Qed.

Lemma free_others i s : env_wf s -> others_ok i s (free_specific i s).
Proof.
  intros Hwf. split; cbn [free_specific init_done env_mutex specific bufs]; try done.
  - intros u Hu. by rewrite lookup_delete_ne.
  - intros u p Hu Hp. destruct (specific s !! i) as [q|] eqn:E; [|done]. rewrite lookup_delete_ne; [done|].
    intros ->. apply Hu. by apply (wf_own s Hwf u i p).
Qed.

(** A call has its value in the buffer afterwards. *)
Lemma body_value i s label name :
  env_wf s -> key s = true -> (label, name) ∈ thr_calls ->
  exists p s' b x, getenv_body environ i name s = Ret (Some p) s' /\ body_post environ i name s (Some p) s' /\
    specific s' !! i = Some p /\ bufs s' !! p = Some b /\ getenv_ref name environ = Some x /\
    strlen b = Some (length x) /\ take (length x) b = x.
Proof.
  intros Hwf Hk Hin. destruct (getenv_body_ok environ i name s Hwf Hk) as (r & s' & Hr & Hp).
  destruct (defined label name Hin) as (x & Hx & Hlx). pose proof (bp_result _ _ _ _ _ _ Hp) as Hres.
  destruct r as [p|].
  - destruct Hres as (Hsp & v & b & Hv & Hl & Hb). simplify_eq.
    destruct (strncpy_fits b x (MAXSTRINGSZ - 1)) as [H1 H2]; [by eapply getenv_ref_no_nul|done|].
    by exists p, s', (strncpy b x (MAXSTRINGSZ - 1)), x.
  - exfalso. destruct Hres as [Hn|[_ Hn]]; [congruence|]. destruct (memory (bufs s)). congruence.
Qed.

Lemma once_others i s : others_ok i s (if init_done s then s else thread_init 0 s).
Proof. destruct (init_done s) eqn:E; split; try done. Qed.

Lemma remaining_call (k : nat) label name calls :
  Some ((label, name) :: calls) = Some (drop k thr_calls) -> (label, name) ∈ thr_calls.
Proof.
  intros [= Hr]. rewrite <- (take_drop k thr_calls), <- Hr. apply elem_of_app. right. by left.
Qed.

(** A step of thread [i], seen from that thread: it prints [new] lines. *)
Lemma thread_step s i t ls_i pi s' t' :
  env_wf s -> (init_done s = true -> key s = true) -> thread_ok s i t ls_i pi ->
  (s', t') ∈ succ i s t ->
  exists new pi', e_out s' = e_out s ++ new /\ env_wf s' /\ (init_done s' = true -> key s' = true) /\
    others_ok i s s' /\ thread_ok s' i t' (ls_i ++ new) pi' /\ eweight t' < eweight t /\
    (forall u p, specific s' !! u = Some p -> u = i \/ specific s !! u = Some p).
Proof.
  intros Hwf Hkey (Hk & Hpt & Hmu & Ht) Hin.
  destruct t as [[|[label name] calls]|label name calls|label name calls|label name v calls|label name v calls| |];
    cbn [env_succ] in Hin; [| | | | | |by apply elem_of_nil in Hin|done].
  - apply list_elem_of_singleton in Hin. simplify_eq. exists [], pi. rewrite !app_nil_r. split; [done|].
    split; [by apply free_wf|]. split; [done|]. split; [by apply free_others|].
    split; [split; [done|]; split; [done|]; split; [done|]; cbn; by rewrite lookup_delete_eq|]. split; [cbn; lia|].
    intros u p Hu. cbn [free_specific specific] in Hu. apply lookup_delete_Some in Hu as [_ Hu]. by right.
  - apply list_elem_of_singleton in Hin. simplify_eq. exists [], pi. rewrite !app_nil_r.
    split; [by destruct (init_done s)|]. split; [destruct (init_done s); [done|by apply (env_wf_ext s)]|].
    split; [destruct (init_done s); [by auto|intros _; by apply bool_decide_eq_true_2]|]. split; [apply once_others|].
    split; [|split; [cbn; lia|]; intros u p Hu; right; by destruct (init_done s)].
    split; [done|]. split; [by destruct (init_done s)|]. split; [by destruct (init_done s)|].
    by destruct (init_done s) eqn:E.
  - unfold lock in Hin. destruct (env_mutex s) eqn:Em; cbn in Hin; [by apply elem_of_nil in Hin|].
    apply list_elem_of_singleton in Hin. simplify_eq. exists [], pi. rewrite !app_nil_r.
    split; [done|]. split; [by apply (env_wf_ext s)|]. split; [done|].
    split; [split; cbn; try done; intros u Hu; rewrite Em; split; congruence|].
    split; [done|]. split; [cbn; lia|]. auto.
  - assert (Hcall : (label, name) ∈ thr_calls) by (destruct Hk as (k & Hr & _); by apply (remaining_call k) in Hr).
    destruct (body_value i s label name Hwf (Hkey Ht) Hcall) as (p & s1 & b & x & Hb & Hpost & Hval).
    rewrite Hb in Hin. cbn in Hin. apply list_elem_of_singleton in Hin. simplify_eq.
    destruct Hpost as [(Hi & Hke & Hm & Ho) Hwf' Hsp Hbf Hkp _].
    exists [], pi. rewrite !app_nil_r. split; [done|]. split; [done|]. split; [by rewrite Hi, Hke|].
    split; [split; rewrite ?Hi, ?Hm; auto; done|]. split; [|split; [cbn; lia|]].
    + split; [done|]. split; [intros Hl _; by apply Hkp, Hpt|]. split; [rewrite Hm; done|].
      exists p, b, x. split; [done|]. apply Hval.
    + intros u q Hu. destruct (decide (u = i)); [by left|]. right. by rewrite <- Hsp.
  - apply list_elem_of_singleton in Hin. simplify_eq. exists [], pi. rewrite !app_nil_r.
    split; [done|]. split; [by apply (env_wf_ext s)|]. split; [done|].
    assert (Hme : env_mutex s = Some i) by tauto.
    split; [split; cbn; try done; intros u Hu; rewrite Hme; split; [done|intros [= ->]; done]|].
    split; [split; [done|]; split; [done|]; split; [cbn; split; done|]; done|]. split; [cbn; lia|]. auto.
  - destruct Ht as (p & b & x & -> & Hp & Hb & Hx & Hl & Htk).
    unfold show_value in Hin. unix_unfold. rewrite Hb, Hl in Hin. cbn in Hin.
    apply list_elem_of_singleton in Hin. simplify_eq. eexists _, p. split; [done|].
    split; [by apply (env_wf_ext s)|]. split; [done|]. split; [by split|].
    split; [|split; [cbn; lia|auto]]. split; [|done].
    assert (Hls' : ls_i ≠ [] -> pi = p) by (intros Hne; specialize (Hpt Hne eq_refl); congruence).
    destruct Hk as (k & Hr & Hls). cbn [remaining] in Hr. injection Hr as Hr. exists (S k). cbn [remaining].
    assert (Hnth : thr_calls !! k = Some (label, name)) by (by rewrite <- (Nat.add_0_r k), <- lookup_drop, <- Hr).
    rewrite (drop_S _ _ _ Hnth) in Hr. injection Hr as ->. split; [done|].
    rewrite (take_S_r _ _ _ Hnth). apply Forall2_app.
    + destruct ls_i as [|l0 ls_i]; [by inversion Hls|]. by rewrite <- Hls' by done.
    + constructor; [|constructor]. exists x. split; [done|]. by rewrite Htk.
Qed.

Lemma concat_insert_perm {A} (lss : list (list A)) i l new :
  lss !! i = Some l -> concat (<[i := l ++ new]> lss) ≡ₚ concat lss ++ new.
Proof.
  intros Hi. rewrite <- (take_drop_middle lss i l Hi) at 2.
  rewrite insert_take_drop by (by eapply lookup_lt_Some). rewrite !concat_app. cbn [concat].
  rewrite <- !app_assoc. f_equiv. f_equiv. apply Permutation_app_comm.
Qed.

Lemma test_inv_step n c c' :
  test_inv n c -> step succ c c' -> test_inv n c' /\ total eweight (pool c') < total eweight (pool c).
Proof.
  intros [Hwf Hkey Hn Hr Hown (lss & ps & Hl & Hps & Hout & Hth)] Hs. inv_step. cbn [shared pool] in *.
  match goal with H : (_, _) ∈ _ |- _ => rename H into Hin end.
  match goal with H : ls !! i = Some ?x |- _ => rename H into Hi; rename x into t end.
  assert (Hin' : i < length ls) by (by eapply lookup_lt_Some).
  destruct (lookup_lt_is_Some_2 lss i ltac:(lia)) as [lsi Hlsi].
  destruct (lookup_lt_is_Some_2 ps i ltac:(lia)) as [pi Hpi].
  destruct (thread_step s i t lsi pi _ _ Hwf Hkey (Hth i t lsi pi Hi Hlsi Hpi) Hin)
    as (new & pi' & Ho & Hwf' & Hkey' & Hoth & Hok & Hw & Hsp).
  split; [|pose proof (total_insert eweight ls i t l' Hi); lia].
  split; cbn [shared pool]; try done.
  - by rewrite length_insert.
  - intros u p Hu. destruct (Hsp u p Hu) as [->|Hu']; [lia|]. by eapply Hr.
  - intros u Hu. destruct (decide (u = i)) as [->|Hne]; [lia|]. apply Hown. by apply (oo_mutex _ _ _ Hoth u Hne).
  - exists (<[i := lsi ++ new]> lss), (<[i := pi']> ps). split; [by rewrite length_insert|].
    split; [by rewrite length_insert|]. split.
    + rewrite Ho, Hout. symmetry. by apply concat_insert_perm.
    + intros u t0 ls0 p0 Hu Hls0 Hp0. destruct (decide (u = i)) as [->|Hne].
      * rewrite list_lookup_insert_eq in Hu by lia. rewrite list_lookup_insert_eq in Hls0 by lia.
        rewrite list_lookup_insert_eq in Hp0 by lia. by simplify_eq.
      * rewrite list_lookup_insert_ne in Hu by done. rewrite list_lookup_insert_ne in Hls0 by done.
        rewrite list_lookup_insert_ne in Hp0 by done. eapply thread_ok_frame; [done..|]. by eapply Hth.
Qed.

(** A thread can go on unless it waits for the mutex. *)
Lemma can_step s i t lsi pi :
  env_wf s -> (init_done s = true -> key s = true) -> thread_ok s i t lsi pi ->
  env_mutex s = None \/ env_mutex s = Some i -> ended t = false -> exists x, x ∈ succ i s t.
Proof.
  intros Hwf Hkey (Hk & _ & Hmu & Ht) Hm He.
  destruct t as [[|[label name] calls]|label name calls|label name calls|label name v calls|label name v calls| |];
    cbn [env_succ]; try done; try (eexists; by left).
  - unfold lock. destruct Hm as [->|Hm]; [eexists; by left|tauto].
  - assert (Hcall : (label, name) ∈ thr_calls) by (destruct Hk as (k & Hr & _); by apply (remaining_call k) in Hr).
    destruct (body_value i s label name Hwf (Hkey Ht) Hcall) as (p & s1 & b & x & -> & _). eexists. by left.
  - destruct Ht as (p & b & x & -> & Hp & Hb & Hx & Hl & Htk). unfold show_value. unix_unfold.
    rewrite Hb, Hl. eexists. by left.
Qed.

Lemma test_progress n c :
  test_inv n c -> Forall (fun t => ended t = true) (pool c) \/ exists c', step succ c c'.
Proof.
  destruct c as [s ls]. intros [Hwf Hkey Hn Hr Hown (lss & ps & Hl & Hps & Hout & Hth)]. cbn [shared pool] in *.
  assert (Hgo : forall i t, ls !! i = Some t -> env_mutex s = None \/ env_mutex s = Some i -> ended t = false ->
            exists c', step succ (Config s ls) c').
  { intros i t Hi Hm He. apply lookup_lt_Some in Hi as Hlt. destruct (lookup_lt_is_Some_2 lss i ltac:(lia)) as [lsi Hlsi].
    destruct (lookup_lt_is_Some_2 ps i ltac:(lia)) as [pi Hpi].
    destruct (can_step s i t lsi pi Hwf Hkey (Hth i t lsi pi Hi Hlsi Hpi) Hm He) as [[s' t'] Hx].
    eexists. by apply (step_thread _ i _ _ t). }
  destruct (env_mutex s) as [u|] eqn:Em.
  - right. specialize (Hown u eq_refl). destruct (lookup_lt_is_Some_2 ls u ltac:(lia)) as [t Ht].
    destruct (lookup_lt_is_Some_2 lss u ltac:(lia)) as [lsu Hlsu].
    destruct (lookup_lt_is_Some_2 ps u ltac:(lia)) as [pu Hpu].
    destruct (Hth u t lsu pu Ht Hlsu Hpu) as (_ & _ & Hmu & _). apply (Hgo u t Ht); [by right|].
    destruct t; try done; tauto.
  - destruct (decide (count ended ls < length ls)) as [Hc|Hc].
    + apply count_missing in Hc as (i & t & Hi & Ht). right. apply (Hgo i t Hi); auto.
    + left. apply count_all. pose proof (count_le ended ls). lia.
Qed.

(** Every thread [i] has printed the lines [lss !! i] with the values from the
    environment, all of them from one buffer at [ps !! i], which is its own
    as long as it lives: no two threads have the same. *)
Definition own_copies (n : nat) (lss : list (list cstr)) (ps : list positive) (c : config est epc) : Prop :=
  length lss = n /\ length ps = n /\ e_out (shared c) ≡ₚ concat lss /\
  (forall i t ls p, pool c !! i = Some t -> lss !! i = Some ls -> ps !! i = Some p ->
     Forall2 (is_line p) (take (length ls) thr_calls) ls /\
     (ls ≠ [] -> ended t = false -> specific (shared c) !! i = Some p)) /\
  (forall t u p, specific (shared c) !! t = Some p -> specific (shared c) !! u = Some p -> t = u).

Lemma test_inv_copies n c : test_inv n c ->
  exists lss ps, own_copies n lss ps c /\
    forall i t ls p, pool c !! i = Some t -> lss !! i = Some ls -> ps !! i = Some p -> thread_ok (shared c) i t ls p.
Proof.
  intros [Hwf Hkey Hn Hr Hown (lss & ps & Hl & Hps & Hout & Hth)]. exists lss, ps. split; [|done].
  split_and!; try done; [|apply (wf_own _ Hwf)]. intros i t ls p Hi Hls Hp.
  destruct (Hth i t ls p Hi Hls Hp) as ((k & _ & Hf) & Hpt & _). split; [|done].
  pose proof (Forall2_length _ _ _ Hf) as Hlen. rewrite length_take in Hlen.
  assert (take (length ls) thr_calls = take k thr_calls) as ->; [|done]. rewrite <- Hlen.
  destruct (decide (k <= length thr_calls)); [by rewrite Nat.min_l by lia|].
  by rewrite Nat.min_r, !take_ge by lia.
Qed.

Lemma test_inv_start n : test_inv n (Config est0 (replicate n (EOnce thr_calls))).
Proof.
  split; cbn [shared pool est0 init_done specific bufs env_mutex e_out].
  - split; cbn; intros *; rewrite ?lookup_empty; try done; by intros [? ?].
  - done.
  - apply length_replicate.
  - intros t p. by rewrite lookup_empty.
  - done.
  - exists (replicate n []), (replicate n 1%positive). split; [apply length_replicate|]. split; [apply length_replicate|]. split.
    + clear. induction n as [|n IH]; [done|]. cbn. done.
    + intros i t lsi p Ht Hlsi _. apply lookup_replicate in Ht as [-> _], Hlsi as [-> _].
      split; [exists 0; done|]. done.
Qed.

End TestEnv.

(** A heap that hands out the next free address, and an environment with both
    variables. *)
Definition blank : list Ascii.ascii := replicate MAXSTRINGSZ NUL.

Lemma blank_length : length blank = MAXSTRINGSZ.
Proof. unfold blank. apply length_replicate. Qed.
#[local] Opaque blank.

Lemma sample_fresh h p b :
  Some (fresh (dom h : gset positive), blank) = Some (p, b) ->
  (h : gmap positive (list Ascii.ascii)) !! p = None /\ length b = MAXSTRINGSZ.
Proof. intros [= <- <-]. split; [apply not_elem_of_dom, is_fresh|apply blank_length]. Qed.

#[local] Instance sample_malloc : EnvMalloc :=
  {| e_malloc h := Some (fresh (dom h : gset positive), blank); e_malloc_fresh := sample_fresh |}.

Definition sample_environ : list cstr := [chars "ID=42"; chars "NAMES=x"; chars "NAME=zach"].


Lemma getenv_spec_witness :
  exists r s', getenv_ sample_environ 0 7 (chars "NAME") est0 = Ret r s' /\ env_mutex s' = None /\
    exists p b, r = Some p /\ bufs s' !! p = Some b /\ strlen b = Some 4 /\ take 4 b = chars "zach".
Proof.
  destruct (getenv_spec sample_environ 0 7 (chars "NAME") est0) as (r & s' & H1 & _ & H2 & _ & _ & _ & H3).
  - split; cbn; intros *; rewrite ?lookup_empty; try done; by intros [? ?].
  - done.
  - done.
  - repeat constructor; vm_compute; set_solver by done.
  - exists r, s'. split; [exact H1|]. split; [exact H2|].
    change (getenv_ref (chars "NAME") sample_environ) with (Some (chars "zach")) in H3.
    destruct r as [p|]; [|exfalso; destruct H3 as [H3|[_ H3]]; discriminate].
    destruct H3 as (_ & v & b & [= <-] & Hb & _ & Hd). exists p, b. split; [done|]. split; [done|].
    rewrite decide_True in Hd by (unfold MAXSTRINGSZ; cbn; lia). exact Hd.
Defined.
