(* ===== verification/Environ.v ===== *)
(** * proc_demos/modify_env.c, print_env.c and echoall.c: the environment

    modify_env.c clears the environment, puts its arguments into it, adds a
    variable unless it is there, removes another and prints the result;
    print_env.c prints the environment, echoall.c its arguments. *)

From S2P Require Import Prelude GetEnv.

(** ** The environment *)

(** The name of an entry, up to its first '='. *)
Fixpoint name_of (e : cstr) : cstr :=
  match e with [] => [] | c :: e' => if decide (c = eq_char) then [] else c :: name_of e' end.

(** [putenv(e)] with a value: the first entry of that name is replaced, or the
    string is added at the end; without '=' the variable is removed. *)
Fixpoint replace_entry (e : cstr) (env : list cstr) : list cstr :=
  match env with
  | [] => [e]
  | x :: env' => if decide (eq_char ∈ x /\ name_of x = name_of e) then e :: env' else x :: replace_entry e env'
  end.
Definition unsetenv (n : cstr) (env : list cstr) : list cstr := filter (fun x => ~ (eq_char ∈ x /\ name_of x = n)) env.
Definition putenv (e : cstr) (env : list cstr) : list cstr :=
  if decide (eq_char ∈ e) then replace_entry e env else unsetenv e env.

(** [setenv(n, v, 0)]: only a variable that is not there is added. *)
Definition setenv_new (n v : cstr) (env : list cstr) : list cstr :=
  match getenv_ref n env with Some _ => env | None => replace_entry (n ++ eq_char :: v) env end.

(** ** The programs *)

(** The environment, and the output. *)
Record envst := EnvSt { environ : list cstr; v_out : list cstr }.
Definition on_env (f : list cstr -> list cstr) : prog envst unit := modify (fun s => EnvSt (f (environ s)) (v_out s)).

(** The loop that puts out every entry. *)
Definition put_environ : prog envst unit := modify (fun s => EnvSt (environ s) (v_out s ++ environ s)).

Fixpoint put_args (put_ok : cstr -> bool) (args : list cstr) : prog envst unit :=
  match args with
  | [] => mret tt
  | a :: args' => if put_ok a then on_env (putenv a) ;; put_args put_ok args' else c_exit (-1)
  end.

(** [main] of modify_env.c: [put_ok] and [set_ok] say whether there is memory. *)
Definition modify_env_main (put_ok : cstr -> bool) (set_ok : bool) (argv : list cstr) : prog envst unit :=
  on_env (fun _ => []) ;;
  put_args put_ok (drop 1 argv) ;;
  if set_ok then
    on_env (setenv_new (chars "GREET") (chars "Hello world")) ;;
    on_env (unsetenv (chars "BYE")) ;;
    put_environ ;;
    c_exit 0
  else c_exit (-1).

Definition print_env_main : prog envst unit := put_environ ;; c_exit 0.

(** [main] of echoall.c. *)
Definition echo_line (i : nat) (a : string) : string := "argv[" +:+ pretty i +:+ "] : " +:+ a +:+ nl.
Fixpoint echo_from (i : nat) (argv : list string) : string :=
  match argv with [] => "" | a :: argv' => echo_line i a +:+ echo_from (S i) argv' end.
Definition echoall_main (argv : list string) : prog string unit := modify (fun o => o +:+ echo_from 0 argv) ;; c_exit 0.

(** ** Properties *)

Lemma name_of_app n v : (eq_char ∉ n) -> name_of (n ++ eq_char :: v) = n.
Proof.
  induction n as [|c n IH]; intros Hn; cbn; [by rewrite decide_True|].
  rewrite not_elem_of_cons in Hn. rewrite decide_False by (intros ->; tauto). f_equal. apply IH. tauto.
Qed.

Lemma name_of_no_eq e : eq_char ∉ name_of e.
Proof.
  induction e as [|c e IH]; cbn; [apply not_elem_of_nil|]. case_decide; [apply not_elem_of_nil|].
  rewrite not_elem_of_cons. split; [congruence|done].
Qed.

Lemma name_of_id e : (eq_char ∉ e) -> name_of e = e.
Proof.
  induction e as [|c e IH]; intros Hn; [done|]. rewrite not_elem_of_cons in Hn. cbn.
  rewrite decide_False by (intros ->; tauto). rewrite IH; tauto.
Qed.

Lemma entry_split e : eq_char ∈ e -> exists v, e = name_of e ++ eq_char :: v.
Proof.
  induction e as [|c e IH]; intros Hin; [by apply elem_of_nil in Hin|]. cbn. case_decide; [subst; by exists e|].
  apply elem_of_cons in Hin as [?|Hin]; [done|]. destruct (IH Hin) as [v Hv]. exists v. cbn. by rewrite <- Hv.
Qed.

(** What [getenv] looks for is the name of the entry. *)
Lemma getenv_entry n e env :
  (eq_char ∉ n) -> getenv_ref n (e :: env) =
    if decide (eq_char ∈ e /\ name_of e = n) then Some (drop (length n + 1) e) else getenv_ref n env.
Proof.
  intros Hn. cbn [getenv_ref].
  destruct (decide (eq_char ∈ e /\ name_of e = n)) as [[Hin <-]|Hne].
  - destruct (entry_split e Hin) as [v Hv]. rewrite decide_True; [done|].
    clear Hn Hin. revert Hv. generalize (name_of e). intros k ->. rewrite take_app_ge by lia.
    by replace (length k + 1 - length k) with 1 by lia.
  - rewrite decide_False; [done|]. intros Ht. apply Hne.
    assert (He : e = n ++ eq_char :: drop (length n + 1) e).
    { rewrite <- (take_drop (length n + 1) e) at 1. rewrite Ht. by rewrite <- app_assoc. }
    rewrite He. split; [set_solver|by apply name_of_app].
Qed.

Lemma getenv_put n e env :
  (eq_char ∉ n) -> eq_char ∈ e ->
  getenv_ref n (replace_entry e env) = if decide (name_of e = n) then Some (drop (length n + 1) e) else getenv_ref n env.
Proof.
  intros Hn He. induction env as [|x env IH]; cbn [replace_entry].
  - rewrite getenv_entry by done. destruct (decide (name_of e = n)); [by rewrite decide_True|by rewrite decide_False by tauto].
  - destruct (decide (eq_char ∈ x /\ name_of x = name_of e)) as [[Hx Hxe]|Hx].
    + rewrite !getenv_entry by done. destruct (decide (name_of e = n)) as [E|E].
      * by rewrite decide_True.
      * rewrite !decide_False by naive_solver congruence. done.
    + rewrite !getenv_entry, IH by done. destruct (decide (name_of e = n)) as [E|E]; [|done].
      rewrite decide_False by naive_solver congruence. done.
Qed.

Lemma getenv_unset n k env :
  (eq_char ∉ n) -> getenv_ref n (unsetenv k env) = if decide (k = n) then None else getenv_ref n env.
Proof.
  intros Hn. unfold unsetenv. induction env as [|x env IH]; [by case_decide|].
  rewrite filter_cons, (getenv_entry n x env) by done.
  destruct (decide (~ (eq_char ∈ x /\ name_of x = k))) as [Hx|Hx].
  - rewrite getenv_entry, IH by done. destruct (decide (k = n)) as [->|E]; [by rewrite decide_False|done].
  - apply dec_stable in Hx as [Hx Hk]. rewrite IH. destruct (decide (k = n)) as [->|E]; [done|].
    rewrite decide_False; [done|]. intros [_ ?]. congruence.
Qed.

(** What an argument says about a variable: nothing, that it is removed, or
    its value. *)
Definition says (n a : cstr) : option (option cstr) :=
  if decide (name_of a = n) then Some (if decide (eq_char ∈ a) then Some (drop (length n + 1) a) else None) else None.
(** What the last argument that says anything says. *)
Fixpoint last_says (n : cstr) (args : list cstr) : option (option cstr) :=
  match args with
  | [] => None
  | a :: args' => match last_says n args' with Some r => Some r | None => says n a end
  end.

Lemma getenv_putenv n a env :
  (eq_char ∉ n) -> getenv_ref n (putenv a env) = match says n a with Some r => r | None => getenv_ref n env end.
Proof.
  intros Hn. unfold putenv, says. destruct (decide (eq_char ∈ a)) as [Ha|Ha].
  - rewrite getenv_put by done. by case_decide.
  - rewrite getenv_unset, name_of_id by done. by case_decide.
Qed.

Lemma put_args_ok args s :
  put_args (fun _ => true) args s = Ret tt (EnvSt (foldl (fun env a => putenv a env) (environ s) args) (v_out s)).
Proof. revert s. induction args as [|a args IH]; intros s; [by destruct s|]. cbn [put_args]. unfold on_env. unix_unfold. by rewrite IH. Qed.

Lemma getenv_args n args env :
  (eq_char ∉ n) -> getenv_ref n (foldl (fun env a => putenv a env) env args) =
    match last_says n args with Some r => r | None => getenv_ref n env end.
Proof.
  intros Hn. revert env. induction args as [|a args IH]; intros env; [done|]. cbn [foldl last_says].
  rewrite IH, getenv_putenv by done. by destruct (last_says n args).
Qed.

(** Property C37.  modify_env.c prints an environment in which a
    variable has the value of the last argument that sets it, unless a later
    argument names it without a value; GREET is "Hello world" if the arguments
    leave it unset, BYE is always unset, and nothing of the old environment is
    left.  It is read back with the same search that getenv_thr.c makes. *)
Theorem modify_env_result argv0 args s :
  exists env, modify_env_main (fun _ => true) true (argv0 :: args) s = Exited 0 (EnvSt env (v_out s ++ env)) /\
  forall n, (eq_char ∉ n) ->
    getenv_ref n env =
      if decide (n = chars "BYE") then None
      else match last_says n args with
           | Some (Some v) => Some v
           | _ => if decide (n = chars "GREET") then Some (chars "Hello world") else None
           end.
Proof.
  unfold modify_env_main. unfold on_env at 1. erewrite bind_ret by reflexivity.
  change (drop 1 (argv0 :: args)) with args. rewrite (bind_ret _ _ _ _ _ (put_args_ok args _)). cbn [environ v_out].
  unfold on_env, put_environ. unix_unfold. cbn [environ v_out]. eexists. split; [reflexivity|].
  intros n Hn. rewrite getenv_unset by done.
  destruct (decide (n = chars "BYE")) as [->|Hb]; [by rewrite decide_True|]. rewrite decide_False by done.
  set (env := foldl _ [] args).
  assert (He : forall n, (eq_char ∉ n) -> getenv_ref n env = match last_says n args with Some r => r | None => None end).
  { intros k Hk. unfold env. by rewrite getenv_args. }
  assert (Hg : eq_char ∉ chars "GREET") by (apply (bool_decide_unpack _); vm_compute; exact I).
  unfold setenv_new. destruct (getenv_ref (chars "GREET") env) as [v|] eqn:Eg.
  - rewrite He in Eg |- * by done. destruct (decide (n = chars "GREET")) as [->|]; [|by destruct (last_says n args) as [[]|]].
    by destruct (last_says (chars "GREET") args) as [[]|].
  - rewrite getenv_put by (done || set_solver). rewrite name_of_app by done.
    destruct (decide (n = chars "GREET")) as [->|Hne].
    + rewrite decide_True by done. rewrite He in Eg by done. by destruct (last_says (chars "GREET") args) as [[]|].
    + rewrite decide_False by congruence. rewrite He by done. by destruct (last_says n args) as [[]|].
Qed.
