(* ===== verification/ThreadEnd.v ===== *)
(** * pthread/pthread_exit.c, pthread_cleanup.c and pthread_cancel.c: how
    threads end

    A thread ends by returning, by [pthread_exit] or by being cancelled; the
    last two run its cleanup handlers, the last pushed first.  A thread's
    function is the list of its calls, which are run one at a time,
    interleaved with those of the other threads. *)

From S2P Require Import Prelude Threads.

(** [PTHREAD_CANCELED]. *)
Definition PTHREAD_CANCELED : Z := -1.

Inductive stmt :=
| Print (t : string)
| Push (msg : string)        (** [pthread_cleanup_push(cleanup, msg)] *)
| Pop (execute : bool)       (** [pthread_cleanup_pop(execute)] *)
| TestCancel
| Cancel (t : nat)           (** [pthread_cancel] of thread [t] *)
| Return (v : Z)
| PExit (v : Z).             (** [pthread_exit(v)] *)

(** Local states: thread [t] running its statements with its cleanup handlers
    (the last pushed first), ending with a value and the handlers still to
    run, ended, in undefined behaviour; [main] joining threads one after the
    other, printing what [said] says of each value. *)
Inductive tpc :=
| Run (code : list stmt) (handlers : list string)
| Unwind (handlers : list string) (v : Z)
| Ended
| Undefined
| Main (joins : list (nat * string))
| MainEnd.

(** The output, the threads asked to cancel, the values of ended threads, the
    threads that were joined, and whether the process has exited. *)
Record tsh := Tsh {
  t_out : list string; t_cancel : list nat; t_values : list (nat * Z); t_joined : list nat; t_exited : bool
}.

#[export] Instance stmt_dec : EqDecision stmt.
Proof. solve_decision. Defined.
#[export] Instance tpc_dec : EqDecision tpc.
Proof. solve_decision. Defined.
#[export] Instance tsh_dec : EqDecision tsh.
Proof. solve_decision. Defined.

Definition say (t : string) (s : tsh) : tsh := Tsh (t_out s ++ [t]) (t_cancel s) (t_values s) (t_joined s) (t_exited s).

(** [cleanup(arg)]. *)
Definition cleanup (msg : string) (s : tsh) : tsh := say (msg +:+ nl) s.

Section Succ.
(** What [main] prints of the value of a joined thread. *)
Context (said : string -> Z -> string).

(** A cancellation point: a pending request may (at [printf]) or must (at
    [pthread_testcancel]) be acted upon. *)
Definition thread_succ (i : nat) (s : tsh) (t : tpc) : list (tsh * tpc) :=
  if t_exited s then [] else
  match t with
  | Run [] handlers => [(s, Undefined)]
  | Run (Print x :: code) handlers =>
    (say x s, Run code handlers) ::
    (if decide (i ∈ t_cancel s) then [(s, Unwind handlers PTHREAD_CANCELED)] else [])
  | Run (Push msg :: code) handlers => [(s, Run code (msg :: handlers))]
  | Run (Pop execute :: code) handlers =>
    match handlers with
    | [] => [(s, Undefined)]
    | msg :: hs => [(if execute : bool then cleanup msg s else s, Run code hs)]
    end
  | Run (TestCancel :: code) handlers =>
    if decide (i ∈ t_cancel s) then [(s, Unwind handlers PTHREAD_CANCELED)] else [(s, Run code handlers)]
  | Run (Cancel u :: code) handlers =>
    if decide (u ∈ t_joined s) then [(s, Undefined)]      (* the identifier is no longer valid *)
    else [(Tsh (t_out s) (if decide (u ∈ t_cancel s) then t_cancel s else u :: t_cancel s)
               (t_values s) (t_joined s) (t_exited s), Run code handlers)]
  | Run (Return v :: code) handlers =>
    match handlers with
    | [] => [(Tsh (t_out s) (t_cancel s) ((i, v) :: t_values s) (t_joined s) (t_exited s), Ended)]
    | _ => [(s, Undefined)]      (* a return between push and pop *)
    end
  | Run (PExit v :: code) handlers => [(s, Unwind handlers v)]
  | Unwind (msg :: hs) v => [(cleanup msg s, Unwind hs v)]
  | Unwind [] v => [(Tsh (t_out s) (t_cancel s) ((i, v) :: t_values s) (t_joined s) (t_exited s), Ended)]
  | Main ((u, x) :: joins) =>
    match list_find (fun p => p.1 = u) (t_values s) with
    | Some (_, (_, v)) =>
      [(Tsh (t_out s ++ [said x v]) (t_cancel s) (t_values s) (u :: t_joined s) (t_exited s), Main joins)]
    | None => []
    end
  | Main [] => [(Tsh (t_out s) (t_cancel s) (t_values s) (t_joined s) true, MainEnd)]
  | Ended | Undefined | MainEnd => []
  end.
End Succ.

(** The creation of the threads by [main], thread 0: they are threads 1 and 2. *)
Definition start (joins : list (nat * string)) (code1 code2 : list stmt) : config tsh tpc :=
  Config (Tsh [] [] [] [] false) [Main joins; Run code1 []; Run code2 []].

(** ** pthread_exit.c *)
Module PthreadExit.

Definition thr_fn1 : list stmt := [Print ("thread1 returning" +:+ nl); Return 1].
Definition thr_fn2 : list stmt := [Print ("thread2 returning" +:+ nl); PExit 2].

Definition said (x : string) (v : Z) : string := x +:+ pretty v +:+ nl.

(** [main]; [e1] and [e2] are the results of [pthread_create]. *)
Definition exit_main (e1 e2 : Z) : config tsh tpc + Z :=
  if decide (e1 ≠ 0%Z) then inr (-1)%Z
  else if decide (e2 ≠ 0%Z) then inr (-1)%Z
  else inl (start [(1, "thread 1 exit code: "); (2, "thread 2 exit code: ")] thr_fn1 thr_fn2).

End PthreadExit.

(** ** pthread_cleanup.c *)
Module PthreadCleanup.

Definition thr_fn1 (arg : bool) : list stmt :=
  [Print ("thread 1 start" +:+ nl); Push "thread1 first cleanup"; Push "thread1 second cleanup"] ++
  (if arg then [Return 1] else [Pop false; Pop false; Return 1]).

Definition thr_fn2 (arg : bool) : list stmt :=
  [Print ("thread 2 start" +:+ nl); Push "thread2 first cleanup"; Push "thread2 second cleanup"] ++
  (if arg then [PExit 2] else [Pop false; Pop false; PExit 2]).

Definition said (x : string) (v : Z) : string := x +:+ pretty v +:+ nl.

(** [main] gives both threads an argument that is not null. *)
Definition cleanup_main (arg1 arg2 : bool) : config tsh tpc :=
  start [(1, "thread 1 ended with status: "); (2, "thread2 ended with status: ")] (thr_fn1 arg1) (thr_fn2 arg2).

End PthreadCleanup.

(** ** pthread_cancel.c *)
Module PthreadCancel.

(** The busy wait is left out. *)
Definition thr_fn1 (arg : bool) : list stmt :=
  [Print ("waiting for canceling." +:+ nl); Push "first cleanup"; Push "second cleanup"; TestCancel] ++
  (if arg then [Return 0] else [Pop false; Pop false; Return 0]).

Definition thr_fn2 : list stmt := [Print ("cancel thread 1" +:+ nl); Cancel 1; Return 0].

Definition said (_ : string) (v : Z) : string :=
  (if decide (v = PTHREAD_CANCELED) then "thread 1 is canceled" else "some error occurred") +:+ nl.

Definition cancel_main : config tsh tpc := start [(1, "")] (thr_fn1 false) thr_fn2.

End PthreadCancel.

(** ** Properties *)

(** *** Handlers run in the reverse order of their registration *)

Section Order.
Context (said : string -> Z -> string) (i : nat).

(** The steps of one thread, the others standing still. *)
Inductive alone : tsh -> tpc -> tsh -> tpc -> Prop :=
| alone_refl s t : alone s t s t
| alone_step s t s1 t1 s2 t2 : (s1, t1) ∈ thread_succ said i s t -> alone s1 t1 s2 t2 -> alone s t s2 t2.

Lemma unwind_order handlers v s :
  t_exited s = false ->
  alone s (Unwind handlers v)
    (Tsh (t_out s ++ ((fun m => m +:+ nl) <$> handlers)) (t_cancel s) ((i, v) :: t_values s) (t_joined s) false) Ended.
Proof.
  revert s. induction handlers as [|m hs IH]; intros s He.
  - eapply alone_step; [unfold thread_succ; rewrite He; by left|]. cbn. rewrite app_nil_r. constructor.
  - eapply alone_step; [unfold thread_succ; rewrite He; by left|].
    pose proof (IH (cleanup m s) He) as Hi. cbn [cleanup say t_out t_cancel t_values t_joined] in Hi.
    rewrite <- app_assoc in Hi. exact Hi.
Qed.

(** Pushing handlers and then calling [pthread_exit] prints them last to
    first. *)
Lemma push_exit_order msgs v code s handlers :
  t_exited s = false ->
  alone s (Run ((Push <$> msgs) ++ PExit v :: code) handlers)
    (Tsh (t_out s ++ ((fun m => m +:+ nl) <$> reverse msgs ++ handlers)) (t_cancel s) ((i, v) :: t_values s) (t_joined s) false)
    Ended.
Proof.
  revert handlers. induction msgs as [|m msgs IH]; intros handlers He.
  - eapply alone_step; [unfold thread_succ; rewrite He; by left|]. by apply unwind_order.
  - eapply alone_step; [unfold thread_succ; rewrite He; by left|].
    rewrite reverse_cons, <- app_assoc. apply IH, He.
Qed.
End Order.

(** *** The three programs *)

Definition exit_output (c : config tsh tpc) : bool :=
  bool_decide (pool c = [MainEnd; Ended; Ended]) &&
  bool_decide (t_out (shared c) ∈
    [["thread1 returning" +:+ nl; "thread2 returning" +:+ nl; "thread 1 exit code: 1" +:+ nl; "thread 2 exit code: 2" +:+ nl];
     ["thread2 returning" +:+ nl; "thread1 returning" +:+ nl; "thread 1 exit code: 1" +:+ nl; "thread 2 exit code: 2" +:+ nl];
     ["thread1 returning" +:+ nl; "thread 1 exit code: 1" +:+ nl; "thread2 returning" +:+ nl; "thread 2 exit code: 2" +:+ nl]]).

(** The value of a [return] and that of [pthread_exit] reach [pthread_join] in
    every schedule; a failed creation ends the program with -1. *)
Theorem pthread_exit_joins e1 e2 :
  match PthreadExit.exit_main e1 e2 with
  | inl c0 => e1 = 0%Z /\ e2 = 0%Z /\
      inevitable (thread_succ PthreadExit.said) (fun c => exit_output c = true) c0
  | inr code => code = (-1)%Z /\ (e1 ≠ 0%Z \/ e2 ≠ 0%Z)
  end.
Proof.
  unfold PthreadExit.exit_main. case_decide as H1; [by auto|]. case_decide as H2; [by auto|].
  split; [lia|]. split; [lia|]. apply (all_ways_sound _ 30). vm_compute. reflexivity.
Qed.

(** The last lines of thread 1 in pthread_cancel.c. *)
Definition cleanups : list string := ["second cleanup" +:+ nl; "first cleanup" +:+ nl].

(** [main] has ended; the handlers ran, in reverse order, only if thread 1 was
    cancelled, and [main] says what happened. *)
Definition cancel_end (c : config tsh tpc) : bool :=
  bool_decide (pool c !! 0 = Some MainEnd) && bool_decide (pool c !! 1 = Some Ended) &&
  let out := filter (fun x => x ≠ "cancel thread 1" +:+ nl) (t_out (shared c)) in
  bool_decide (out ∈
    [ (* cancelled at pthread_testcancel *)
     ["waiting for canceling." +:+ nl] ++ cleanups ++ ["thread 1 is canceled" +:+ nl];
     (* cancelled at its first printf, before it pushed a handler *)
     ["thread 1 is canceled" +:+ nl];
     (* not cancelled in time *)
     ["waiting for canceling." +:+ nl; "some error occurred" +:+ nl]]).

(** Schedules that reach each of the ends: cancelled, not cancelled, and a
    request to a thread that was already joined. *)
Definition sched_cancelled : list (nat * nat) :=
  [(1,0);(1,0);(1,0);(2,0);(2,0);(1,0);(1,0);(1,0);(1,0);(0,0);(0,0)].
Definition sched_missed : list (nat * nat) :=
  [(1,0);(1,0);(1,0);(1,0);(1,0);(1,0);(1,0);(0,0);(0,0)].
Definition sched_late : list (nat * nat) :=
  [(2,0);(1,0);(1,0);(1,0);(1,0);(1,0);(1,0);(1,0);(0,0);(2,0)].

(** In every schedule of pthread_cancel.c [main]
    ends, and it says that thread 1 was cancelled exactly when the request
    came before its last cancellation point; then, and only then, the
    handlers pushed so far have run, the last one first.  Without the delays
    of the program nothing prevents the request from missing the thread, or
    from using its identifier after it was joined. *)
Theorem cancel_outcomes :
  inevitable (thread_succ PthreadCancel.said) (fun c => cancel_end c = true) PthreadCancel.cancel_main /\
  (exists c, reachable (thread_succ PthreadCancel.said) PthreadCancel.cancel_main c /\
     t_out (shared c) = ["waiting for canceling." +:+ nl; "cancel thread 1" +:+ nl] ++ cleanups ++ ["thread 1 is canceled" +:+ nl]) /\
  (exists c, reachable (thread_succ PthreadCancel.said) PthreadCancel.cancel_main c /\
     t_out (shared c) = ["waiting for canceling." +:+ nl; "some error occurred" +:+ nl]) /\
  (exists c, reachable (thread_succ PthreadCancel.said) PthreadCancel.cancel_main c /\ pool c !! 2 = Some Undefined).
Proof.
  split_and!.
  - apply (all_ways_sound _ 40). vm_compute. reflexivity.
  - eapply (run_exhibits _ sched_cancelled); [intros c Hc; exact Hc|]. vm_compute. reflexivity.
  - eapply (run_exhibits _ sched_missed); [intros c Hc; exact Hc|]. vm_compute. reflexivity.
  - apply (run_exhibits _ sched_late _ (fun c => pool c !! 2 = Some Undefined)); [done|]. vm_compute. reflexivity.
Qed.

(** The end of pthread_cleanup.c when neither thread takes the early exit. *)
Definition cleanup_end (c : config tsh tpc) : bool :=
  bool_decide (pool c = [MainEnd; Ended; Ended]) &&
  bool_decide (filter (fun x => x ∉ ["thread 1 start" +:+ nl; "thread 2 start" +:+ nl]) (t_out (shared c)) =
    ["thread 1 ended with status: 1" +:+ nl; "thread2 ended with status: 2" +:+ nl]).

(** pthread_cleanup.c as it is gets its first thread into undefined behaviour
    in every schedule, since it returns between push and pop; its second
    thread exits through its handlers.  With null arguments no handler runs
    and both values arrive. *)
Theorem cleanup_return_undefined :
  inevitable (thread_succ PthreadCleanup.said) (fun c => bool_decide (pool c !! 1 = Some Undefined) = true)
    (PthreadCleanup.cleanup_main true true) /\
  inevitable (thread_succ PthreadCleanup.said) (fun c => cleanup_end c = true)
    (PthreadCleanup.cleanup_main false false).
Proof. split; apply (all_ways_sound _ 40); vm_compute; reflexivity. Qed.
