(* ===== verification/ThreadLocks.v ===== *)
(** * pthread/recursive_lock.c, pthread_functions.c, test_attr.c and
    timedlock.c: detached threads and kinds of mutexes

    [makethread] creates a detached thread; recursive_lock.c uses it to run a
    function later, under a recursive mutex, while [main] waits for a flag;
    timedlock.c locks a mutex it already holds. *)

From S2P Require Import Prelude Threads.

(** ** pthread_functions.c *)

(** [makethread]: its result and whether the thread runs; the arguments are
    the results of [pthread_attr_init], [pthread_attr_setdetachstate] and
    [pthread_create], the last of which is ignored. *)
Definition makethread (e_init e_detach e_create : Z) : Z * bool :=
  if decide (e_init ≠ 0%Z) then (e_init, false)
  else if decide (e_detach = 0%Z) then (e_detach, bool_decide (e_create = 0%Z))
  else (e_detach, false).

(** ** recursive_lock.c *)
Module RecursiveLock.

(** A recursive mutex: its owner and how often it holds it. *)
Definition rmutex : Type := option (nat * nat).
Definition rlock (i : nat) (k : rmutex) : option rmutex :=
  match k with
  | None => Some (Some (i, 1))
  | Some (j, n) => if decide (i = j) then Some (Some (j, S n)) else None
  end.
(** [None] when the mutex is not the caller's: the call fails. *)
Definition runlock (i : nat) (k : rmutex) : option rmutex :=
  match k with
  | Some (j, S n) => if decide (i = j) then Some (if decide (n = 0) then None else Some (j, n)) else None
  | _ => None
  end.

(** [struct to_info].  The functions of the program that are passed as
    pointers, and its one argument, [NULL]. *)
Inductive fn_ptr := FRetry.
Inductive void_ptr := VNull.
Record to_info := ToInfo { fn : fn_ptr; to_arg : void_ptr; to_wait : Z }.

(** The mutex, [flag], the [to_info] on the heap, whether the thread was
    created, the exit status of the process, the output. *)
Record rls := Rls {
  rl_lock : rmutex; flag : bool; tip : option to_info; created : bool; exited : option Z; rl_out : list string
}.

Inductive rpc :=
| MLock | MTimeout | MUnlock | MSpin | MEnd
| HStart | HSleep | HLock | HPrint | HFlag | HUnlock | HFree | HEnd
| RBad.

#[export] Instance fn_ptr_dec : EqDecision fn_ptr.
Proof. solve_decision. Defined.
#[export] Instance void_ptr_dec : EqDecision void_ptr.
Proof. solve_decision. Defined.
#[export] Instance to_info_dec : EqDecision to_info.
Proof. solve_decision. Defined.
#[export] Instance rls_dec : EqDecision rls.
Proof. solve_decision. Defined.
#[export] Instance rpc_dec : EqDecision rpc.
Proof. solve_decision. Defined.

Definition with_lock (k : rmutex) (s : rls) : rls := Rls k (flag s) (tip s) (created s) (exited s) (rl_out s).
Definition do_exit (code : Z) (s : rls) : rls := Rls (rl_lock s) (flag s) (tip s) (created s) (Some code) (rl_out s).
Definition print (t : string) (s : rls) : rls :=
  Rls (rl_lock s) (flag s) (tip s) (created s) (exited s) (rl_out s ++ [t]).

Definition lock_step (i : nat) (s : rls) (next : rpc) : list (rls * rpc) :=
  match rlock i (rl_lock s) with Some k => [(with_lock k s, next)] | None => [] end.
Definition unlock_step (i : nat) (s : rls) (next : rpc) : list (rls * rpc) :=
  match runlock i (rl_lock s) with Some k => [(with_lock k s, next)] | None => [(s, RBad)] end.

Section Program.
(** Whether [malloc] succeeds, and what [makethread] does. *)
Context (malloc_ok : bool) (made : Z * bool).

(** [timeout(when, fn, arg)]. *)
Definition timeout (when : Z) (f : fn_ptr) (arg : void_ptr) (s : rls) : rls * rpc :=
  if malloc_ok then
    let s := Rls (rl_lock s) (flag s) (Some (ToInfo f arg when)) (created s) (exited s) (rl_out s) in
    let '(err, runs) := made in
    if decide (err ≠ 0%Z) then
      (do_exit (-1) (Rls (rl_lock s) (flag s) None (created s) (exited s) (rl_out s)), MEnd)
    else (Rls (rl_lock s) (flag s) (tip s) runs (exited s) (rl_out s), MUnlock)
  else (s, MUnlock).

(** [main] after the initialisation of the mutex; a test of [flag] that finds
    it 0 changes nothing, so that the loop is a wait. *)
Definition main_succ (s : rls) (t : rpc) : list (rls * rpc) :=
  match t with
  | MLock => lock_step 0 s MTimeout
  | MTimeout => [timeout 4 FRetry VNull s]
  | MUnlock => unlock_step 0 s MSpin
  | MSpin => if flag s then [(do_exit 0 s, MEnd)] else []
  | _ => []
  end.

(** The first statement of the function that [timer_helper] calls. *)
Definition call (f : fn_ptr) (arg : void_ptr) : rpc := match f with FRetry => HLock end.

(** [retry]. *)
Definition retry (s : rls) (t : rpc) : list (rls * rpc) :=
  match t with
  | HLock => lock_step 1 s HPrint
  | HPrint => [(print ("Recursive lock" +:+ nl) s, HFlag)]
  | HFlag => [(Rls (rl_lock s) true (tip s) (created s) (exited s) (rl_out s), HUnlock)]
  | HUnlock => unlock_step 1 s HFree
  | _ => []
  end.

(** [timer_helper]. *)
Definition timer_helper (s : rls) (t : rpc) : list (rls * rpc) :=
  match t with
  | HStart =>
    if created s then
      match tip s with
      | Some x => [(print ("sleep for " +:+ pretty (to_wait x) +:+ " secs" +:+ nl) s, HSleep)]
      | None => [(s, RBad)]
      end
    else []
  | HSleep => match tip s with Some x => [(s, call (fn x) (to_arg x))] | None => [(s, RBad)] end
  | HFree =>
    match tip s with
    | Some _ => [(Rls (rl_lock s) (flag s) None (created s) (exited s) (rl_out s), HEnd)]
    | None => [(s, RBad)]
    end
  | HEnd | RBad => []
  | _ => retry s t
  end.

Definition rl_succ (i : nat) (s : rls) (t : rpc) : list (rls * rpc) :=
  match exited s with
  | Some _ => []
  | None => match i with 0 => main_succ s t | _ => timer_helper s t end
  end.
End Program.

(** The beginning of [main]: [ea], [et] and [em] are the results of
    [pthread_mutexattr_init], [pthread_mutexattr_settype] and
    [pthread_mutex_init]. *)
Definition recursive_main (ea et em : Z) : config rls rpc + Z :=
  if decide (ea ≠ 0%Z) then inr (-1)%Z
  else if decide (et ≠ 0%Z) then inr (-1)%Z
  else if decide (em ≠ 0%Z) then inr (-1)%Z
  else inl (Config (Rls None false None false None []) [MLock; HStart]).

(** *** Properties *)

(** The successful end: [main] has returned 0 after the helper printed. *)
Definition good_end (c : config rls rpc) : bool :=
  bool_decide (exited (shared c) = Some 0%Z) &&
  bool_decide (rl_out (shared c) = ["sleep for 4 secs" +:+ nl; "Recursive lock" +:+ nl]) &&
  forallb (fun t => bool_decide (t ≠ RBad)) (pool c).

Definition bad_exit (c : config rls rpc) : bool :=
  bool_decide (exited (shared c) = Some (-1)%Z) && bool_decide (tip (shared c) = None).

(** [main] waits for a flag that nobody will set: there is no step. *)
Definition stuck (malloc_ok : bool) (made : Z * bool) (c : config rls rpc) : bool :=
  bool_decide (pool c = [MSpin; HStart]) && bool_decide (exited (shared c) = None) &&
  match nexts (rl_succ malloc_ok made) c with [] => true | _ => false end.

Definition rl_start : config rls rpc := Config (Rls None false None false None []) [MLock; HStart].

Lemma failed_made_same err b i s t :
  err ≠ 0%Z -> rl_succ true (1%Z, false) i s t = rl_succ true (err, b) i s t.
Proof.
  intros He. unfold rl_succ. destruct (exited s); [done|]. destruct i; [|done].
  destruct t; try done. cbn [main_succ]. unfold timeout. by rewrite !decide_True.
Qed.

(** Property C33.  If its calls succeed, recursive_lock.c prints
    both lines and ends with 0 in every schedule.  If an initialisation fails
    or [makethread] reports an error, it ends with -1 and frees what it
    allocated.  But [makethread] ignores the result of [pthread_create] and
    [timeout] that of [malloc]: when one of these fails the program waits for
    ever. *)
Theorem recursive_lock_ends ea et em (malloc_ok : bool) e_init e_detach e_create :
  let made := makethread e_init e_detach e_create in
  match recursive_main ea et em with
  | inr code => code = (-1)%Z /\ (ea ≠ 0%Z \/ et ≠ 0%Z \/ em ≠ 0%Z)
  | inl c0 =>
    if malloc_ok then
      if decide (e_init = 0%Z /\ e_detach = 0%Z) then
        if decide (e_create = 0%Z) then inevitable (rl_succ malloc_ok made) (fun c => good_end c = true) c0
        else inevitable (rl_succ malloc_ok made) (fun c => stuck malloc_ok made c = true) c0
      else inevitable (rl_succ malloc_ok made) (fun c => bad_exit c = true) c0
    else inevitable (rl_succ malloc_ok made) (fun c => stuck malloc_ok made c = true) c0
  end.
Proof.
  cbn zeta. unfold recursive_main. repeat (case_decide; [by auto|]). fold rl_start.
  destruct malloc_ok.
  - unfold makethread. destruct (decide (e_init = 0%Z /\ e_detach = 0%Z)) as [[-> ->]|Hne].
    + rewrite (decide_False (P := 0%Z ≠ 0%Z)) by auto. rewrite (decide_True (P := 0%Z = 0%Z)) by done.
      destruct (decide (e_create = 0%Z)) as [Hc|Hc];
        [rewrite bool_decide_eq_true_2 by done|rewrite bool_decide_eq_false_2 by done];
        apply (all_ways_sound _ 40); vm_compute; reflexivity.
    + assert (Hbad : forall err b, err ≠ 0%Z -> inevitable (rl_succ true (err, b)) (fun c => bad_exit c = true) rl_start).
      { intros err b He. apply (inevitable_ext (rl_succ true (1%Z, false))); [intros; by apply failed_made_same|].
        apply (all_ways_sound _ 40). vm_compute. reflexivity. }
      repeat case_decide; apply Hbad; lia.
  - destruct (makethread e_init e_detach e_create) as [err b]. apply (all_ways_sound _ 40). vm_compute. reflexivity.
Qed.
End RecursiveLock.

(** ** test_attr.c *)

Definition EINVAL : Z := 22.

(** [main]: [join_err] is what [pthread_join] says of the detached thread; a
    thread that [makethread] could not create has no identifier to join. *)
Definition attr_main (e_init e_detach e_create join_err : Z) : prog unit unit :=
  let '(err, runs) := makethread e_init e_detach e_create in
  if decide (err ≠ 0%Z) then c_exit (-1)
  else if runs : bool then
    if decide (join_err = EINVAL) then c_exit 0 else c_exit 134      (* abort by assert *)
  else c_fault.

(** The program ends with 0 exactly when the thread was created and could not
    be joined. *)
Theorem test_attr_ends e_init e_detach e_create join_err :
  attr_main e_init e_detach e_create join_err tt = Exited 0 tt <->
  e_init = 0%Z /\ e_detach = 0%Z /\ e_create = 0%Z /\ join_err = EINVAL.
Proof.
  unfold attr_main, makethread. repeat case_decide; try case_bool_decide; unix_unfold;
    try (split; [naive_solver lia|naive_solver lia]).
Qed.

(** ** timedlock.c *)
Module TimedLock.

Definition ETIMEDOUT : Z := 110.

(** The clock, the mutex, the output. *)
Record tls := Tls { clock : Z; tl_lock : mutex; tl_out : list string }.
Definition tl_print (t : string) : prog tls unit := modify (fun s => Tls (clock s) (tl_lock s) (tl_out s ++ [t])).

(** [pthread_mutex_timedlock] by the only thread: a locked mutex is not
    released, so that the call waits until the time is up; [late] is by how
    much it returns later than that. *)
Definition timedlock (late tout : Z) : prog tls Z := fun s =>
  match mutex_lock 0 (tl_lock s) with
  | Some k => Ret 0%Z (Tls (clock s) k (tl_out s))
  | None => Ret ETIMEDOUT (Tls (Z.max (clock s) tout + late) (tl_lock s) (tl_out s))
  end.

(** [main]; [show] is [strftime] of the local time, [strerror] the library's. *)
Definition timed_main (show : Z -> string) (strerror : Z -> string) (late : Z) : prog tls unit :=
  modify (fun s => Tls (clock s) (default (tl_lock s) (mutex_lock 0 (tl_lock s))) (tl_out s)) ;;
  tl_print ("mutex is locked" +:+ nl) ;;
  tout ← gets clock ;
  tl_print ("current time is " +:+ show tout +:+ nl) ;;
  err ← timedlock late (tout + 10) ;
  tout ← gets clock ;
  tl_print ("time now is " +:+ show tout +:+ nl) ;;
  (if decide (err = 0%Z) then tl_print ("pthread mutex locked again!" +:+ nl)
   else tl_print ("can't lock mutex again:" +:+ strerror err +:+ nl)) ;;
  c_exit 0.

(** A thread that locks a mutex it holds gives up after ten seconds. *)
Theorem timedlock_gives_up show strerror late now :
  timed_main show strerror late (Tls now None []) =
    Exited 0 (Tls (now + 10 + late) (Some 0)
      ["mutex is locked" +:+ nl; "current time is " +:+ show now +:+ nl;
       "time now is " +:+ show (now + 10 + late)%Z +:+ nl; "can't lock mutex again:" +:+ strerror ETIMEDOUT +:+ nl]).
Proof.
  unfold timed_main, timedlock, tl_print. unix_unfold. cbn. rewrite Z.max_r by lia. done.
Qed.
End TimedLock.
