(* ===== verification/Filters.v ===== *)
(** * IPC/myuclc.c and IPC/pipe_filter.c: a filter behind a prompt

    [myuclc] turns its input to lower case; pipe_filter.c runs it between the
    terminal and itself, and prompts for each line.  The two work together
    only because [myuclc] empties its buffer at every newline. *)

From S2P Require Import Prelude Scan LineIO.

(** ** myuclc.c *)

Definition isupper (c : Ascii.ascii) : bool := ((65 <=? code c) && (code c <=? 90))%Z.
(** [tolower], which leaves other characters alone. *)
Definition tolower (c : Ascii.ascii) : Ascii.ascii :=
  if isupper c then Ascii.ascii_of_nat (Ascii.nat_of_ascii c + 32) else c.

(** Standard output, not a terminal: what was delivered, what is in the
    buffer. *)
Record ostream := Ostream { o_pipe : list Ascii.ascii; o_buf : list Ascii.ascii }.

Section Myuclc.
(** The size of the buffer; how many characters the output takes in all
    ([None]: any number); and whether a flush that fails leaves what was not
    written in the buffer or drops it, which the C library may decide. *)
Context (bufsize : nat) (cap : option nat) (keeps : bool).

(** [fflush]: whether it worked. *)
Definition fflush : prog ostream bool := fun o =>
  let n := match cap with None => length (o_buf o) | Some k => min (length (o_buf o)) (k - length (o_pipe o)) end in
  let ok := bool_decide (n = length (o_buf o)) in
  Ret ok (Ostream (o_pipe o ++ take n (o_buf o)) (if keeps then drop n (o_buf o) else [])).

(** [putchar]: whether it worked.  It writes only when the buffer is full. *)
Definition putchar (c : Ascii.ascii) : prog ostream bool :=
  b ← gets o_buf ;
  ok ← (if decide (length b < bufsize) then mret true else fflush) ;
  if ok : bool then modify (fun o => Ostream (o_pipe o) (o_buf o ++ [c])) ;; mret true else mret false.

(** The loop, on the characters [getchar] delivers; the result of [fflush] is
    not looked at. *)
Fixpoint myuclc_loop (input : list Ascii.ascii) : prog ostream unit :=
  match input with
  | [] => mret tt
  | c :: input' =>
    let c := if isupper c then tolower c else c in
    ok ← putchar c ;
    if ok : bool then
      (if decide (c = newline) then fflush ;; mret tt else mret tt) ;;
      myuclc_loop input'
    else c_exit (-1)
  end.

(** [main]; [exit] flushes the buffer, and nothing tells whether that worked. *)
Definition at_exit (code : Z) (o : ostream) : outcome ostream unit :=
  match fflush o with Ret _ o' => Exited code o' | _ => Exited code o end.
Definition myuclc_main (input : list Ascii.ascii) : prog ostream unit := fun o =>
  match myuclc_loop input o with
  | Ret _ o' => at_exit 0 o'
  | Exited e o' => at_exit e o'
  | r => r
  end.
End Myuclc.

(** ** pipe_filter.c *)

Definition MAXLINE : nat := 2048.
Definition prompt : list Ascii.ascii := chars "prompt> ".

(** Standard output of pipe_filter.c. *)
Abbreviation screen := (list Ascii.ascii).
Definition put (x : list Ascii.ascii) : prog screen unit := modify (fun o => o ++ x).

Section PipeFilter.
(** Whether [fputs] of a line works. *)
Context (puts_ok : list Ascii.ascii -> bool).

(** The loop, on the lines [fgets] returns. *)
Fixpoint prompt_loop (ls : list (list Ascii.ascii)) : prog screen unit :=
  put prompt ;;
  match ls with
  | [] => mret tt
  | l :: ls' => if puts_ok (c_string l) then put (c_string l) ;; prompt_loop ls' else c_exit (-1)
  end.

(** [main]: [fpin] is what the filter delivers, [None] when [popen] fails;
    [err] whether reading it ended with an error. *)
Definition pipe_filter_main (fpin : option (list Ascii.ascii)) (err : bool) : prog screen unit :=
  match fpin with
  | None => c_exit (-1)
  | Some text =>
    prompt_loop (lines_of MAXLINE text) ;;
    if err then c_exit (-1) else put [newline] ;; c_exit 0
  end.
End PipeFilter.

(** ** Properties *)

Lemma all_chars (P : Ascii.ascii -> bool) :
  forallb (fun n => P (Ascii.ascii_of_nat n)) (seq 0 256) = true -> forall c, P c = true.
Proof.
  intros H c. rewrite forallb_forall in H. rewrite <- (Ascii.ascii_nat_embedding c). apply H.
  apply in_seq. pose proof (Ascii.nat_ascii_bounded c). lia.
Qed.

Lemma lower_once c : (if isupper c then tolower c else c) = tolower c.
Proof. unfold tolower. by destruct (isupper c). Qed.

Lemma lower_not_upper c : isupper (tolower c) = false.
Proof. apply negb_true_iff. revert c. by apply (all_chars (fun c => negb (isupper (tolower c)))). Qed.

Lemma tolower_special c x :
  x ∈ [NUL; newline] -> tolower c = x <-> c = x.
Proof.
  intros Hx. apply (proj1 (bool_decide_eq_true (tolower c = x <-> c = x))). revert c. apply (all_chars (fun c => bool_decide (tolower c = x <-> c = x))).
  repeat (apply elem_of_cons in Hx as [->|Hx]; [by vm_compute|]). by apply elem_of_nil in Hx.
Qed.

Lemma tolower_newline c : tolower c = newline <-> c = newline.
Proof. apply tolower_special. set_solver. Qed.
Lemma tolower_nul c : tolower c = NUL <-> c = NUL.
Proof. apply tolower_special. set_solver. Qed.

Lemma lower_keeps x (l : list Ascii.ascii) : (forall c, tolower c = x <-> c = x) -> (x ∉ l) -> x ∉ tolower <$> l.
Proof. intros Hx Hl. rewrite list_elem_of_fmap. intros (c & Hc & Hin). symmetry in Hc. apply Hx in Hc as ->. by apply Hl. Qed.

Lemma lower_full_line n (l : list Ascii.ascii) : full_line n l -> full_line n (tolower <$> l).
Proof.
  intros (b & -> & Hn & Hl). exists (tolower <$> b). split_and!.
  - by rewrite fmap_app.
  - apply lower_keeps; [apply tolower_newline|done].
  - by rewrite length_fmap.
Qed.

(** The output up to now is [t]: delivered as far as the output takes it. *)
Definition sound_out (cap : option nat) (t : list Ascii.ascii) (o : ostream) : Prop :=
  match cap with
  | None => o_pipe o ++ o_buf o = t
  | Some k => (o_pipe o ++ o_buf o = t /\ length (o_pipe o) <= k) \/ (o_pipe o = take k t /\ k <= length t)
  end.

(** What is delivered when everything could be written that fits. *)
Definition fitting (cap : option nat) (t : list Ascii.ascii) : list Ascii.ascii :=
  match cap with None => t | Some k => take k t end.

Lemma fflush_sound cap keeps t o :
  sound_out cap t o ->
  exists ok o', fflush cap keeps o = Ret ok o' /\ sound_out cap t o' /\ o_pipe o' = fitting cap t /\
    (ok = true \/ keeps = false -> o_buf o' = []) /\ (cap = None -> ok = true) /\
    (ok = false -> exists k, cap = Some k /\ k <= length t).
Proof.
  intros Hs. unfold fflush. eexists _, _. split; [done|]. destruct cap as [k|]; cbn [sound_out fitting o_pipe o_buf] in *.
  - destruct Hs as [[<- Hl]|[Hp Hk]].
    + assert (Hpipe : o_pipe o ++ take (min (length (o_buf o)) (k - length (o_pipe o))) (o_buf o) = take k (o_pipe o ++ o_buf o)).
      { rewrite take_app, (take_ge (o_pipe o)) by lia. f_equal.
        destruct (decide (length (o_buf o) <= k - length (o_pipe o))).
        - by rewrite Nat.min_l, !take_ge by lia.
        - by rewrite Nat.min_r by lia. }
      rewrite Hpipe. destruct (decide (length (o_buf o) <= k - length (o_pipe o))) as [Hle|Hgt].
      * rewrite Nat.min_l by lia. rewrite bool_decide_eq_true_2 by done.
        assert ((if keeps then drop (length (o_buf o)) (o_buf o) else []) = []) as -> by (destruct keeps; [by rewrite drop_ge|done]).
        rewrite app_nil_r, (take_ge _ k) by (rewrite length_app; lia).
        split_and!; try done. left. split; [done|]. rewrite length_app. lia.
      * rewrite bool_decide_eq_false_2 by lia. split_and!; try done.
        -- right. split; [done|]. rewrite length_app. lia.
        -- intros [?| ->]; done.
        -- intros _. exists k. split; [done|]. rewrite length_app. lia.
    + assert (length (o_pipe o) = k) as Hlp by (rewrite Hp, length_take; lia).
      rewrite Hlp, Nat.sub_diag, Nat.min_0_r, take_0, drop_0, app_nil_r. split_and!; try done.
      * right. by split.
      * intros [H%bool_decide_eq_true| ->]; [|done]. destruct (o_buf o); [by destruct keeps|done].
      * intros _. by exists k.
  - subst t. rewrite bool_decide_eq_true_2 by done. rewrite take_ge by done.
    assert ((if keeps then drop (length (o_buf o)) (o_buf o) else []) = []) as -> by (destruct keeps; [by rewrite drop_ge|done]).
    rewrite app_nil_r. by split_and!.
Qed.

(** [putchar] takes the character into the buffer, or the output is full. *)
Lemma putchar_sound bufsize cap keeps c t o :
  0 < bufsize -> sound_out cap t o -> length (o_buf o) <= bufsize ->
  exists ok o', putchar bufsize cap keeps c o = Ret ok o' /\
    if ok : bool then sound_out cap (t ++ [c]) o' /\ length (o_buf o') <= bufsize
    else exists k, cap = Some k /\ k <= length t /\ sound_out cap t o'.
Proof.
  intros Hb Hs Hl.
  assert (Hadd : forall o1, sound_out cap t o1 -> sound_out cap (t ++ [c]) (Ostream (o_pipe o1) (o_buf o1 ++ [c]))).
  { intros o1 H1. unfold sound_out in *. cbn. destruct cap as [k|].
    - destruct H1 as [[<- H1]|[-> H1]]; [left; by rewrite <- app_assoc|right].
      rewrite length_app. split; [by rewrite take_app_le by lia|lia].
    - by rewrite <- H1, app_assoc. }
  unfold putchar. unix_unfold. case_decide as Hd.
  - eexists true, _. split; [done|]. split; [by apply Hadd|]. cbn. rewrite length_app. cbn. lia.
  - destruct (fflush_sound cap keeps t o Hs) as (ok & o1 & -> & H1 & _ & Hbuf & _ & Hfull). destruct ok.
    + eexists true, _. split; [done|]. split; [by apply Hadd|]. cbn. rewrite Hbuf by (by left). cbn. lia.
    + eexists false, o1. split; [done|]. destruct (Hfull eq_refl) as (k & ? & ?). by exists k.
Qed.

(** A run of the loop: everything is taken, or the output is full. *)
Lemma myuclc_run bufsize cap keeps input t o :
  0 < bufsize -> sound_out cap t o -> length (o_buf o) <= bufsize ->
  exists o',
    (myuclc_loop bufsize cap keeps input o = Ret tt o' /\ sound_out cap (t ++ (tolower <$> input)) o') \/
    (myuclc_loop bufsize cap keeps input o = Exited (-1) o' /\
      exists k pre post, cap = Some k /\ input = pre ++ post /\ k <= length (t ++ (tolower <$> pre)) /\
        sound_out cap (t ++ (tolower <$> pre)) o').
Proof.
  intros Hb. revert t o. induction input as [|c input IH]; intros t o Hs Hl.
  - exists o. left. by rewrite app_nil_r.
  - cbn [myuclc_loop]. rewrite lower_once.
    destruct (putchar_sound bufsize cap keeps (tolower c) t o Hb Hs Hl) as ([] & o1 & Hp & Hres);
      rewrite (bind_ret _ _ _ _ _ Hp).
    + destruct Hres as [Hs1 Hl1].
      assert (exists o2, (if decide (tolower c = newline) then fflush cap keeps ;; mret tt else mret tt) o1 = Ret tt o2 /\
        sound_out cap (t ++ [tolower c]) o2 /\ length (o_buf o2) <= bufsize) as (o2 & Hf & Hs2 & Hl2).
      { case_decide; [|by exists o1]. destruct (fflush_sound cap keeps _ o1 Hs1) as (ok & o2 & Hf & H2 & _).
        exists o2. unix_unfold. rewrite Hf. split_and!; try done.
        unfold fflush in Hf. injection Hf as _ <-. cbn. destruct keeps; [rewrite length_drop; lia|cbn; lia]. }
      rewrite (bind_ret _ _ _ _ _ Hf). destruct (IH _ o2 Hs2 Hl2) as (o3 & [[H1 H2]|(H1 & k & pre & post & -> & -> & Hk & H2)]);
        exists o3; rewrite H1.
      * left. split; [done|]. cbn. by rewrite <- app_assoc in H2.
      * right. split; [done|]. exists k, (c :: pre), post. cbn. rewrite <- !app_assoc in *. done.
    + destruct Hres as (k & -> & Hk & H1). exists o1. right. split; [done|].
      exists k, [], (c :: input). cbn. by rewrite app_nil_r.
Qed.

Lemma fitting_full k t u : k <= length t -> fitting (Some k) (t ++ u) = fitting (Some k) t.
Proof. intros Hk. cbn. by rewrite take_app_le. Qed.

(** The whole program: what is delivered is what fits. *)
Lemma myuclc_delivers bufsize cap keeps input :
  0 < bufsize ->
  exists code o, myuclc_main bufsize cap keeps input (Ostream [] []) = Exited code o /\
    o_pipe o = fitting cap (tolower <$> input) /\ (code = 0%Z \/ code = (-1)%Z /\ cap ≠ None).
Proof.
  intros Hb. unfold myuclc_main.
  assert (sound_out cap [] (Ostream [] [])) as Hs by (destruct cap; [left|]; cbn; auto with lia).
  destruct (myuclc_run bufsize cap keeps input [] (Ostream [] []) Hb Hs) as (o1 & [[-> H1]|(-> & k & pre & post & -> & -> & Hk & H1)]);
    [cbn; lia| |]; unfold at_exit; cbn [app] in *.
  - destruct (fflush_sound cap keeps _ o1 H1) as (ok & o2 & -> & _ & Hp & _). exists 0%Z, o2. auto.
  - destruct (fflush_sound (Some k) keeps _ o1 H1) as (ok & o2 & -> & _ & Hp & _). exists (-1)%Z, o2.
    split; [done|]. rewrite Hp, fmap_app, fitting_full by done. auto.
Qed.

(** Characters of a line that the buffer can hold are only buffered. *)
Lemma myuclc_buffers bufsize cap keeps x o input :
  (newline ∉ x) -> length (o_buf o) + length x <= bufsize ->
  myuclc_loop bufsize cap keeps (x ++ input) o =
    myuclc_loop bufsize cap keeps input (Ostream (o_pipe o) (o_buf o ++ (tolower <$> x))).
Proof.
  revert o. induction x as [|c x IH]; intros o Hn Hl; [by rewrite app_nil_r; destruct o|].
  rewrite not_elem_of_cons in Hn. destruct Hn as [Hc Hn]. cbn [app myuclc_loop length] in *. rewrite lower_once.
  erewrite bind_ret; [|unfold putchar; unix_unfold; rewrite decide_True by lia; reflexivity].
  rewrite decide_False by (intros E; apply Hc; symmetry; by apply tolower_newline).
  erewrite bind_ret by reflexivity. rewrite IH; [|done|cbn; rewrite length_app; cbn; lia].
  cbn. by rewrite <- app_assoc.
Qed.

(** A line that fits the buffer is flushed once, at its end. *)
Lemma myuclc_line bufsize cap keeps l pipe input :
  full_line MAXLINE l -> length l <= bufsize ->
  myuclc_loop bufsize cap keeps (l ++ input) (Ostream pipe []) =
    (fflush cap keeps ;; myuclc_loop bufsize cap keeps input) (Ostream pipe (tolower <$> l)).
Proof.
  intros (x & -> & Hn & _) Hl. rewrite length_app in Hl. cbn in Hl. rewrite <- app_assoc.
  rewrite (myuclc_buffers bufsize cap keeps x (Ostream pipe []) _ Hn) by (cbn; lia). cbn [app myuclc_loop o_pipe o_buf].
  rewrite lower_once. assert (tolower newline = newline) as -> by (by apply tolower_newline).
  erewrite bind_ret; [|unfold putchar; unix_unfold; rewrite decide_True by (cbn; rewrite length_fmap; lia); reflexivity].
  rewrite decide_True by done. cbn [o_pipe o_buf]. rewrite fmap_app. cbn [fmap list_fmap].
  assert (tolower newline = newline) as -> by (by apply tolower_newline). unix_unfold.
  by destruct (fflush cap keeps (Ostream pipe ((tolower <$> x) ++ [newline]))).
Qed.

(** Lines that fit: a library that drops what it could not write never tells
    the program. *)
Lemma myuclc_unnoticed bufsize cap ls pipe :
  Forall (full_line MAXLINE) ls -> Forall (fun l => length l <= bufsize) ls ->
  exists o, myuclc_loop bufsize cap false (concat ls) (Ostream pipe []) = Ret tt o.
Proof.
  intros Hls Hfit. revert pipe. induction Hls as [|l ls Hl Hls IH]; intros pipe; [by eexists|].
  apply Forall_cons in Hfit as [Hf Hfit]. cbn [concat]. rewrite myuclc_line by done.
  unfold fflush. unix_unfold. by apply IH.
Qed.

Lemma prompt_loop_ok ls o :
  prompt_loop (fun _ => true) ls o = Ret tt (o ++ concat ((fun l => prompt ++ c_string l) <$> ls) ++ prompt).
Proof.
  revert o. induction ls as [|l ls IH]; intros o; cbn [prompt_loop]; unfold put; unix_unfold; [done|].
  rewrite IH. cbn. by rewrite <- !app_assoc.
Qed.

Lemma myuclc_lines bufsize keeps ls :
  0 < bufsize -> Forall (full_line MAXLINE) ls ->
  myuclc_loop bufsize None keeps (concat ls) (Ostream [] []) = Ret tt (Ostream (tolower <$> concat ls) []).
Proof.
  intros Hb Hls. destruct ls as [|l ls _] using rev_ind; [done|].
  apply Forall_app in Hls as [_ (x & -> & _ & _)%Forall_singleton]. rewrite concat_app. cbn [concat]. rewrite app_nil_r, app_assoc.
  generalize (concat ls ++ x) as y. intros y. clear ls x.
  assert (Happ : forall i1 i2 o o1, myuclc_loop bufsize None keeps i1 o = Ret tt o1 ->
    myuclc_loop bufsize None keeps (i1 ++ i2) o = myuclc_loop bufsize None keeps i2 o1).
  { induction i1 as [|c i1 IH]; intros i2 o o1 H; cbn [app myuclc_loop] in *; [by injection H as ->|].
    apply bind_inv in H as (ok & o2 & H1 & H2). rewrite (bind_ret _ _ _ _ _ H1). destruct ok; [|done].
    apply bind_inv in H2 as ([] & o3 & H3 & H4). rewrite (bind_ret _ _ _ _ _ H3). by apply IH. }
  destruct (myuclc_run bufsize None keeps y [] (Ostream [] []) Hb) as (o1 & [[H1 H2]|(_ & k & ? & ? & ? & _)]);
    [done|cbn; lia| |done].
  rewrite (Happ _ _ _ _ H1). cbn [myuclc_loop]. rewrite lower_once.
  assert (tolower newline = newline) as -> by (by apply tolower_newline).
  destruct (fflush_sound None keeps _ o1 H2) as (ok1 & o1' & Hf1 & Hs1 & _ & Hb1 & Hk1 & _).
  assert (exists o3, putchar bufsize None keeps newline o1 = Ret true o3 /\ o_pipe o3 ++ o_buf o3 = (tolower <$> y) ++ [newline])
    as (o3 & Hp3 & Hs3).
  { unfold putchar. unix_unfold. case_decide.
    - eexists. split; [done|]. cbn in *. by rewrite app_assoc, H2.
    - rewrite Hf1, (Hk1 eq_refl). eexists. split; [done|]. cbn in *. by rewrite app_assoc, Hs1. }
  rewrite (bind_ret _ _ _ _ _ Hp3). rewrite decide_True by done.
  destruct (fflush_sound None keeps _ o3 Hs3) as (ok3 & o4 & Hf3 & _ & Hp4 & Hb4 & Hk4 & _).
  erewrite bind_ret by (erewrite bind_ret by exact Hf3; reflexivity).
  specialize (Hk4 eq_refl). specialize (Hb4 (or_introl Hk4)). destruct o4 as [p4 b4]. cbn in *. subst.
  rewrite fmap_app. cbn. by assert (tolower newline = newline) as -> by (by apply tolower_newline).
Qed.

Lemma lower_concat (ls : list (list Ascii.ascii)) : tolower <$> concat ls = concat ((fun l : list Ascii.ascii => tolower <$> l) <$> ls).
Proof. induction ls as [|l ls IH]; [done|]. cbn. by rewrite fmap_app, IH. Qed.

(** Property C34.  [myuclc] delivers its input in lower case, complete and in
    order, holds nothing back at the end of a line, whatever the size of its
    buffer, and exits with 0.  When its output takes only [k] characters, it
    delivers exactly these; it exits with -1 only when a [putchar] finds the
    buffer full and cannot write it, as it does within a first line longer
    than the buffer.  The [fflush] at the end of a line is not checked: with
    lines that fit the buffer, and a library that drops what it could not
    write, it exits with 0 whatever was lost.  pipe_filter.c, which
    prompts only when it has read a line, answers each one before the next is
    typed: its output is a prompt and the line in lower case for each, then a
    last prompt and a newline. *)
Theorem filters_answer bufsize keeps ls o :
  0 < bufsize -> Forall (full_line MAXLINE) ls -> (NUL ∉ concat ls) ->
  myuclc_main bufsize None keeps (concat ls) (Ostream [] []) = Exited 0 (Ostream (tolower <$> concat ls) []) /\
  (forall pre post, ls = pre ++ post ->
     myuclc_loop bufsize None keeps (concat pre) (Ostream [] []) = Ret tt (Ostream (tolower <$> concat pre) [])) /\
  (forall k, exists code o', myuclc_main bufsize (Some k) keeps (concat ls) (Ostream [] []) = Exited code o' /\
     o_pipe o' = tolower <$> take k (concat ls) /\ (code = 0%Z \/ code = (-1)%Z) /\
     (keeps = false -> Forall (fun l => length l <= bufsize) ls -> code = 0%Z) /\
     (forall l, head ls = Some l -> bufsize < length l -> k < bufsize -> code = (-1)%Z)) /\
  pipe_filter_main (fun _ => true) (Some (tolower <$> concat ls)) false o =
    Exited 0 (o ++ concat ((fun l : list Ascii.ascii => prompt ++ (tolower <$> l)) <$> ls) ++ prompt ++ [newline]).
Proof.
  intros Hb Hls Hn. split_and!.
  - unfold myuclc_main. rewrite myuclc_lines by done. unfold at_exit, fflush. cbn. rewrite app_nil_r. by destruct keeps.
  - intros pre post ->. apply Forall_app in Hls as [Hpre _]. by apply myuclc_lines.
  - intros k. destruct (myuclc_delivers bufsize (Some k) keeps (concat ls) Hb) as (code & o' & Hrun & Hp & Hc).
    exists code, o'. split_and!; [done|by rewrite Hp, fmap_take|naive_solver| |].
    + intros -> Hfit. destruct (myuclc_unnoticed bufsize (Some k) ls [] Hls Hfit) as [o1 H1].
      unfold myuclc_main in Hrun. rewrite H1 in Hrun. unfold at_exit, fflush in Hrun. by injection Hrun.
    + intros l Hhead Hlong Hk. destruct ls as [|l0 ls]; [done|]. injection Hhead as ->.
      apply Forall_cons in Hls as [(x & -> & Hx & _) _]. rewrite length_app in Hlong. cbn in Hlong.
      unfold myuclc_main in Hrun. cbn [concat] in Hrun.
      rewrite <- (take_drop bufsize x), <- !app_assoc in Hrun.
      rewrite myuclc_buffers in Hrun; [|intros Hin; apply Hx; rewrite <- (take_drop bufsize x); apply elem_of_app; by left
        |cbn; rewrite length_take; lia].
      assert (exists c rest, drop bufsize x ++ [newline] ++ concat ls = c :: rest) as (c & rest & Erest).
      { destruct (drop bufsize x); by eexists _, _. }
      rewrite Erest in Hrun. cbn [myuclc_loop] in Hrun.
      erewrite bind_ret in Hrun; [|unfold putchar; unix_unfold; cbn [o_buf app];
        rewrite decide_False by (cbn; rewrite length_fmap, length_take; lia); unfold fflush; cbn [o_buf o_pipe length];
        rewrite (bool_decide_eq_false_2 (_ = _)) by (cbn; rewrite length_fmap, length_take; lia); reflexivity].
      unfold c_exit, at_exit, fflush in Hrun. by injection Hrun.
  - unfold pipe_filter_main. rewrite lower_concat, lines_full.
    2: { apply Forall_fmap. eapply Forall_impl; [apply Hls|]. intros l Hl. by apply lower_full_line. }
    rewrite (bind_ret _ _ _ _ _ (prompt_loop_ok _ o)). unfold put. unix_unfold. f_equal.
    rewrite <- !app_assoc. f_equal. f_equal. f_equal. rewrite <- list_fmap_compose. apply list_fmap_ext.
    intros i l Hl. cbn. rewrite c_string_text; [done|]. apply lower_keeps; [apply tolower_nul|].
    intros Hin. apply Hn. apply list_elem_of_In, in_concat. exists l. split; apply list_elem_of_In; [|done].
    by eapply list_elem_of_lookup_2.
Qed.

Lemma filters_answer_witness :
  pipe_filter_main (fun _ => true) (Some (tolower <$> concat [chars ("Hello" +:+ nl); chars ("A 1" +:+ nl)])) false [] =
    Exited 0 (chars ("prompt> hello" +:+ nl +:+ "prompt> a 1" +:+ nl +:+ "prompt> " +:+ nl)).
Proof.
  apply (filters_answer 4096 false [chars ("Hello" +:+ nl); chars ("A 1" +:+ nl)] []).
  - lia.
  - assert (Hline : forall b, bool_decide (newline ∉ b) && bool_decide (length b < 2000) = true ->
        full_line MAXLINE (b ++ [newline])).
    { intros b (Hb & Hl)%andb_prop. apply bool_decide_eq_true_1 in Hb. apply bool_decide_eq_true_1 in Hl.
      exists b. rewrite length_app. cbn. unfold MAXLINE. split_and!; [done|done|lia]. }
    apply Forall_cons_2; [by apply (Hline (chars "Hello"))|].
    apply Forall_cons_2; [by apply (Hline (chars "A 1"))|]. apply Forall_nil_2.
  - apply (bool_decide_unpack _). vm_compute. exact I.
Defined.
