(* ===== verification/FileInfo.v ===== *)
(** * file_io: programs that decode and restore what the system keeps of files

    fcntl_test.c prints the status flags of a descriptor, lstat_demo.c the
    types of files, devno.c their device numbers, access_demo.c whether they
    may be read; futimens_demo.c empties files and restores their times. *)

From S2P Require Import Prelude Scan.

(** The output of these programs, standard output and standard error. *)
Record fio := Fio { f_out : string; f_err : string }.
Definition out (t : string) : prog fio unit := modify (fun o => Fio (f_out o +:+ t) (f_err o)).
Definition err (t : string) : prog fio unit := modify (fun o => Fio (f_out o) (f_err o +:+ t)).

(** ** fcntl_test.c *)

Definition O_ACCMODE : Z := 3.
Definition O_RDONLY : Z := 0.
Definition O_WRONLY : Z := 1.
Definition O_RDWR : Z := 2.
Definition O_APPEND : Z := 0x400.
Definition O_NONBLOCK : Z := 0x800.
Definition O_DSYNC : Z := 0x1000.
(** On Linux [O_SYNC] contains the bit of [O_DSYNC], and [O_RSYNC] is the same
    value. *)
Definition O_SYNC : Z := Z.lor 0x100000 O_DSYNC.
Definition O_RSYNC : Z := O_SYNC.

(** [if (val & flag) printf(text)]. *)
Definition when_set (val flag : Z) (text : string) : string :=
  if decide (Z.land val flag ≠ 0%Z) then text else "".

Definition access_mode (val : Z) : string :=
  let m := Z.land val O_ACCMODE in
  if decide (m = O_RDONLY) then "read only"
  else if decide (m = O_WRONLY) then "write only"
  else if decide (m = O_RDWR) then "read write"
  else "unknown access mode".

(** Everything printed for the flags [val]. *)
Definition flags_text (val : Z) : string :=
  access_mode val +:+ when_set val O_APPEND ", append" +:+ when_set val O_NONBLOCK ", nonblocking" +:+
  when_set val O_SYNC ", synchronous writes (data & properties)" +:+
  when_set val O_DSYNC ", synchronous writes (data only)" +:+
  when_set val O_RSYNC ", synchronous reads and write" +:+ nl.

(** [main]; [getfl fd] is the result of [fcntl(fd, F_GETFL, 0)]. *)
Definition fcntl_main (getfl : Z -> Z) (argv : list string) : prog fio unit :=
  match argv with
  | [argv0; argv1] =>
    fd ← need (atoi argv1) ;
    if (getfl fd <? 0)%Z then c_exit (-1) else out (flags_text (getfl fd)) ;; c_exit 0
  | _ => err ("Usage: " +:+ default "" (argv !! 0) +:+ " fd" +:+ nl) ;; c_exit 127
  end.

(** ** lstat_demo.c *)

Definition S_IFMT : Z := 0xF000.
Definition S_ISREG (m : Z) : bool := (Z.land m S_IFMT =? 0x8000)%Z.
Definition S_ISDIR (m : Z) : bool := (Z.land m S_IFMT =? 0x4000)%Z.
Definition S_ISCHR (m : Z) : bool := (Z.land m S_IFMT =? 0x2000)%Z.
Definition S_ISBLK (m : Z) : bool := (Z.land m S_IFMT =? 0x6000)%Z.
Definition S_ISFIFO (m : Z) : bool := (Z.land m S_IFMT =? 0x1000)%Z.
Definition S_ISLNK (m : Z) : bool := (Z.land m S_IFMT =? 0xA000)%Z.
Definition S_ISSOCK (m : Z) : bool := (Z.land m S_IFMT =? 0xC000)%Z.

Definition file_type (st_mode : Z) : string :=
  if S_ISREG st_mode then "regular file"
  else if S_ISDIR st_mode then "diretory"
  else if S_ISCHR st_mode then "character special"
  else if S_ISBLK st_mode then "block special"
  else if S_ISFIFO st_mode then "fifo"
  else if S_ISLNK st_mode then "symbolic link"
  else if S_ISSOCK st_mode then "socket"
  else "** unknown mode **".

(** [main]; [lstat] gives the mode of a file. *)
Fixpoint lstat_loop (lstat : string -> option Z) (args : list string) : prog fio unit :=
  match args with
  | [] => c_exit 0
  | a :: args' =>
    out (a +:+ ": ") ;;
    match lstat a with
    | None => c_exit (-1)
    | Some st_mode => out (file_type st_mode +:+ nl) ;; lstat_loop lstat args'
    end
  end.
Definition lstat_main (lstat : string -> option Z) (argv : list string) : prog fio unit := lstat_loop lstat (drop 1 argv).

(** ** devno.c *)

(** [major] and [minor] of a 64-bit [dev_t], as unsigned 32-bit numbers. *)
Definition major (dev : Z) : Z :=
  Z.lor (Z.land (Z.shiftr dev 8) 0xfff) (Z.land (Z.shiftr dev 32) (Z.ldiff (Z.ones 32) 0xfff)).
Definition minor (dev : Z) : Z :=
  Z.lor (Z.land dev 0xff) (Z.land (Z.shiftr dev 12) (Z.ldiff (Z.ones 32) 0xff)).

(** [struct stat], as far as it is used here. *)
Record stat := Stat { st_mode : Z; st_dev : Z; st_rdev : Z }.

Definition dev_text (d : Z) : string := pretty (to_int (major d)) +:+ "/" +:+ pretty (to_int (minor d)).
Definition devno_line (sbuf : stat) : string :=
  "dev = " +:+ dev_text (st_dev sbuf) +:+
  (if S_ISCHR (st_mode sbuf) || S_ISBLK (st_mode sbuf) then
     " (" +:+ (if S_ISCHR (st_mode sbuf) then "character" else "block") +:+ ") rdev = " +:+ dev_text (st_rdev sbuf)
   else "") +:+ nl.

(** [main]; [stat] gives the status of a file or an error text. *)
Fixpoint devno_loop (statf : string -> stat + string) (args : list string) : prog fio unit :=
  match args with
  | [] => c_exit 0
  | a :: args' =>
    out (a +:+ ": ") ;;
    match statf a with
    | inr e => err ("stat error on " +:+ a +:+ ": " +:+ e +:+ nl)
    | inl sbuf => out (devno_line sbuf)
    end ;;
    devno_loop statf args'
  end.
Definition devno_main (statf : string -> stat + string) (argv : list string) : prog fio unit := devno_loop statf (drop 1 argv).

(** ** access_demo.c *)

(** Who may read a file: its owner, group and permission bits; a process with
    its real and effective identities. *)
Record file_perm := FilePerm { fp_uid : Z; fp_gid : Z; fp_mode : Z }.
Record proc_ids := ProcIds { ruid : Z; rgid : Z; euid : Z; egid : Z }.
Definition may_read (uid gid : Z) (f : file_perm) : bool :=
  if decide (uid = 0%Z) then true
  else if decide (uid = fp_uid f) then Z.testbit (fp_mode f) 8
  else if decide (gid = fp_gid f) then Z.testbit (fp_mode f) 5
  else Z.testbit (fp_mode f) 2.

(** [main]: [access] asks for the real identity, [open] for the effective one;
    [None] is a file that does not exist, and [strerror] describes errors. *)
Definition ENOENT : Z := 2.
Definition EACCES : Z := 13.
Definition check (uid gid : Z) (f : option file_perm) : Z :=
  match f with None => ENOENT | Some f => if may_read uid gid f then 0%Z else EACCES end.
Definition access_main (strerror : Z -> string) (p : proc_ids) (f : option file_perm) (argv : list string) : prog fio unit :=
  match argv with
  | [argv0; argv1] =>
    (let e := check (ruid p) (rgid p) f in
     if decide (e ≠ 0%Z) then err ("access error for " +:+ argv1 +:+ ": " +:+ strerror e +:+ nl)
     else out ("read access OK" +:+ nl)) ;;
    (let e := check (euid p) (egid p) f in
     if decide (e ≠ 0%Z) then err ("open error for " +:+ argv1 +:+ ": " +:+ strerror e +:+ nl)
     else out ("open for reading OK" +:+ nl)) ;;
    c_exit 0
  | _ => err ("Usage: " +:+ default "" (argv !! 0) +:+ " <pathname>" +:+ nl) ;; c_exit 127
  end.

(** ** futimens_demo.c *)

(** A time in seconds and nanoseconds; a regular file, with whether the caller
    may open it for writing and whether it may set its times, which only the
    owner and a privileged process may; the file system.  A name leads to an
    inode, so that two links to one file name the same file.  [errs] is the
    text on standard error. *)
Record timespec := Timespec { tv_sec : Z; tv_nsec : Z }.
Record file := File { content : list Ascii.ascii; atime : timespec; mtime : timespec; writable : bool; owned : bool }.
Record fsys := Fsys { names : gmap string nat; files : gmap nat file; errs : string }.
Definition complain (t : string) (s : fsys) : fsys := Fsys (names s) (files s) (errs s +:+ t).

(** The file a name leads to. *)
Definition resolve (s : fsys) (a : string) : option (nat * file) :=
  match names s !! a with
  | Some ino => match files s !! ino with Some f => Some (ino, f) | None => None end
  | None => None
  end.

(** The [struct timeval] made of a [struct timespec]: microseconds. *)
Record timeval := Timeval { tvu_sec : Z; tvu_usec : Z }.
Definition to_timeval (t : timespec) : timeval := Timeval (tv_sec t) (tv_nsec t / 1000).
(** What [futimes] stores of it. *)
Definition of_timeval (t : timeval) : timespec := Timespec (tvu_sec t) (tvu_usec t * 1000).

Section Futimens.
(** The time of the [i]-th round, and the text of [strerror(errno)] after the
    given call failed for the given name. *)
Context (now : nat -> timespec) (why : string -> string -> string).

Definition error_on (call a : string) : string := call +:+ " error on " +:+ a +:+ ": " +:+ why call a +:+ nl.

(** The [i]-th round of the loop of [main], for the name [a]. *)
Definition futimens_round (i : nat) (a : string) : prog fsys unit := fun s =>
  match resolve s a with
  | None => Ret tt (complain (error_on "stat" a) s)
  | Some (ino, sbuf) =>
    if writable sbuf then
      (* open with O_TRUNC *)
      let opened := File [] (atime sbuf) (now i) true (owned sbuf) in
      let tv0 := to_timeval (atime sbuf) in
      let tv1 := to_timeval (mtime sbuf) in
      if owned opened then
        Ret tt (Fsys (names s) (<[ino := File (content opened) (of_timeval tv0) (of_timeval tv1) true true]> (files s)) (errs s))
      else Ret tt (complain (error_on "futimens" a) (Fsys (names s) (<[ino := opened]> (files s)) (errs s)))
    else Ret tt (complain (error_on "open" a) s)
  end.

Fixpoint futimens_loop (i : nat) (args : list string) : prog fsys unit :=
  match args with [] => mret tt | a :: args' => futimens_round i a ;; futimens_loop (S i) args' end.

Definition futimens_main (argv : list string) : prog fsys unit :=
  if decide (length argv < 2) then
    modify (complain ("Usage: " +:+ default "" (argv !! 0) +:+ " <pathname> [pathname ...]" +:+ nl)) ;; c_exit 1
  else futimens_loop 1 (drop 1 argv) ;; c_exit 0.
End Futimens.

(** ** Properties *)

(** *** Status flags *)

Lemma land_bit v k : (0 <= k)%Z -> Z.land v (2 ^ k) = if Z.testbit v k then (2 ^ k)%Z else 0%Z.
Proof.
  intros Hk. apply Z.bits_inj'. intros i Hi. rewrite Z.land_spec, Z.pow2_bits_eqb by done.
  destruct (Z.eqb_spec k i) as [->|Hne].
  - destruct (Z.testbit v i); [by rewrite Z.pow2_bits_true|by rewrite Z.bits_0].
  - rewrite andb_false_r. destruct (Z.testbit v k); [by rewrite Z.pow2_bits_false|by rewrite Z.bits_0].
Qed.

Lemma when_set_bit v k t : (0 <= k)%Z -> when_set v (2 ^ k) t = if Z.testbit v k then t else "".
Proof.
  intros Hk. unfold when_set. rewrite land_bit by done. pose proof (Z.pow_nonzero 2 k ltac:(lia) Hk). by destruct (Z.testbit v k); case_decide.
Qed.

Lemma when_set_sync v t : when_set v O_SYNC t = if Z.testbit v 12 || Z.testbit v 20 then t else "".
Proof.
  unfold when_set. replace (Z.land v O_SYNC) with (Z.lor (Z.land v (2 ^ 20)) (Z.land v (2 ^ 12)))
    by (rewrite <- Z.land_lor_distr_r; done).
  rewrite !land_bit by lia. by destruct (Z.testbit v 12), (Z.testbit v 20).
Qed.

(** What the text depends on. *)
Definition text_of (acc : Z) (append nonblock dsync sync : bool) : string :=
  access_mode acc +:+ (if append then ", append" else "") +:+ (if nonblock then ", nonblocking" else "") +:+
  (if sync then ", synchronous writes (data & properties)" else "") +:+
  (if dsync then ", synchronous writes (data only)" else "") +:+
  (if sync then ", synchronous reads and write" else "") +:+ nl.

Lemma flags_text_eq v :
  flags_text v = text_of (Z.land v O_ACCMODE) (Z.testbit v 10) (Z.testbit v 11) (Z.testbit v 12)
    (Z.testbit v 12 || Z.testbit v 20).
Proof.
  unfold flags_text, text_of, O_RSYNC. rewrite !when_set_sync.
  rewrite (when_set_bit v 10), (when_set_bit v 11), (when_set_bit v 12) by lia. f_equal.
  unfold access_mode. by rewrite <- Z.land_assoc.
Qed.

Lemma accmode_range v : Z.land v O_ACCMODE ∈ [0; 1; 2; 3]%Z.
Proof.
  change O_ACCMODE with (Z.ones 2). rewrite Z.land_ones by lia.
  pose proof (Z.mod_pos_bound v (2 ^ 2) ltac:(lia)) as H. change (2 ^ 2)%Z with 4%Z in *.
  assert (v mod 4 = 0 \/ v mod 4 = 1 \/ v mod 4 = 2 \/ v mod 4 = 3)%Z as Hc by lia. set_solver.
Qed.

(** All texts are different. *)
Definition bools : list bool := [false; true].
Definition settings : list (Z * bool * bool * bool * bool) :=
  a ← [0; 1; 2; 3]%Z ; b ← bools ; c ← bools ; d ← bools ; e ← bools ; [(a, b, c, d, e)].
Lemma text_of_inj x y :
  x ∈ settings -> y ∈ settings ->
  (let '(a, b, c, d, e) := x in text_of a b c d e) = (let '(a, b, c, d, e) := y in text_of a b c d e) -> x = y.
Proof.
  set (f := fun x : Z * bool * bool * bool * bool => let '(a, b, c, d, e) := x in text_of a b c d e).
  intros Hx Hy H. change (f x = f y) in H.
  assert (Hall : forallb (fun x => forallb (fun y => bool_decide (f x = f y -> x = y)) settings) settings = true)
    by (vm_compute; reflexivity).
  rewrite forallb_forall in Hall. specialize (Hall x (proj1 (list_elem_of_In _ _) Hx)).
  rewrite forallb_forall in Hall. specialize (Hall y (proj1 (list_elem_of_In _ _) Hy)).
  apply bool_decide_eq_true in Hall. by apply Hall.
Qed.

Lemma in_settings v :
  (Z.land v O_ACCMODE, Z.testbit v 10, Z.testbit v 11, Z.testbit v 12, Z.testbit v 12 || Z.testbit v 20) ∈ settings.
Proof.
  pose proof (accmode_range v) as Ha. generalize (Z.testbit v 10), (Z.testbit v 11), (Z.testbit v 12), (Z.testbit v 12 || Z.testbit v 20).
  intros b c d e. assert (forall x, x ∈ bools) as Hb by (intros []; set_solver).
  unfold settings. repeat (apply list_elem_of_bind; eexists; split; [|eauto]). by apply list_elem_of_singleton.
Qed.

(** Property C40.  fcntl_test.c tells descriptors apart by their access
    mode and by append, nonblocking and data-only synchronous writes.  But it
    tests the two bits of O_SYNC and of O_RSYNC at once: a descriptor opened
    with O_DSYNC only is reported exactly like one opened with O_SYNC. *)
Theorem fcntl_reports v1 v2 :
  (flags_text v1 = flags_text v2 <->
    Z.land v1 O_ACCMODE = Z.land v2 O_ACCMODE /\ Z.testbit v1 10 = Z.testbit v2 10 /\
    Z.testbit v1 11 = Z.testbit v2 11 /\ Z.testbit v1 12 = Z.testbit v2 12 /\
    Z.testbit v1 12 || Z.testbit v1 20 = Z.testbit v2 12 || Z.testbit v2 20) /\
  flags_text (Z.lor v1 O_DSYNC) = flags_text (Z.lor v1 O_SYNC).
Proof.
  split; [split|].
  - rewrite !flags_text_eq. intros H.
    pose proof (text_of_inj _ _ (in_settings v1) (in_settings v2) H) as E. by injection E.
  - intros (E1 & E2 & E3 & E4 & E5). rewrite !flags_text_eq. by rewrite E5, E1, E2, E3, E4.
  - rewrite !flags_text_eq. rewrite !Z.land_lor_distr_l, !Z.lor_spec.
    by rewrite !orb_true_r.
Qed.

(** *** Device numbers *)

Lemma major_bit d i :
  (0 <= i)%Z -> Z.testbit (major d) i =
    if (i <? 12)%Z then Z.testbit d (i + 8) else if (i <? 32)%Z then Z.testbit d (i + 32) else false.
Proof.
  intros Hi. unfold major. change 0xfff%Z with (Z.ones 12).
  rewrite Z.lor_spec, !Z.land_spec, !Z.shiftr_spec, Z.ldiff_spec, !Z.testbit_ones_nonneg by lia.
  destruct (Z.ltb_spec i 12), (Z.ltb_spec i 32); cbn; rewrite ?andb_true_r, ?andb_false_r, ?orb_false_r; (done || lia).
Qed.

Lemma minor_bit d i :
  (0 <= i)%Z -> Z.testbit (minor d) i =
    if (i <? 8)%Z then Z.testbit d i else if (i <? 32)%Z then Z.testbit d (i + 12) else false.
Proof.
  intros Hi. unfold minor. change 0xff%Z with (Z.ones 8).
  rewrite Z.lor_spec, !Z.land_spec, !Z.shiftr_spec, Z.ldiff_spec, !Z.testbit_ones_nonneg by lia.
  destruct (Z.ltb_spec i 8), (Z.ltb_spec i 32); cbn; rewrite ?andb_true_r, ?andb_false_r, ?orb_false_r; (done || lia).
Qed.

(** Every bit of a device number is in one of its two parts. *)
Lemma dev_bit d i :
  (0 <= d < 2 ^ 64)%Z -> (0 <= i)%Z -> Z.testbit d i =
    if (i <? 8)%Z then Z.testbit (minor d) i
    else if (i <? 20)%Z then Z.testbit (major d) (i - 8)
    else if (i <? 44)%Z then Z.testbit (minor d) (i - 12)
    else Z.testbit (major d) (i - 32).
Proof.
  intros Hd Hi.
  destruct (Z.ltb_spec i 8); [|destruct (Z.ltb_spec i 20); [|destruct (Z.ltb_spec i 44)]];
    rewrite ?major_bit, ?minor_bit by lia;
    repeat match goal with |- context [(?a <? ?b)%Z] => destruct (Z.ltb_spec a b); try lia end;
    try (f_equal; lia).
  apply (Z.bits_above_log2 d i); [lia|]. destruct (decide (d = 0%Z)) as [->|]; [cbn; lia|].
  apply Z.log2_lt_pow2; [lia|]. eapply Z.lt_le_trans; [apply Hd|]. apply Z.pow_le_mono_r; lia.
Qed.

Lemma dev_unique d1 d2 :
  (0 <= d1 < 2 ^ 64)%Z -> (0 <= d2 < 2 ^ 64)%Z -> major d1 = major d2 -> minor d1 = minor d2 -> d1 = d2.
Proof.
  intros H1 H2 Ema Emi. apply Z.bits_inj'. intros i Hi.
  by rewrite (dev_bit d1), (dev_bit d2), Ema, Emi by done.
Qed.

Lemma to_int_inj a b : (0 <= a < 2 ^ 32)%Z -> (0 <= b < 2 ^ 32)%Z -> to_int a = to_int b -> a = b.
Proof.
  unfold to_int. intros Ha Hb H. assert (Hm : ((a + 2 ^ 31) mod 2 ^ 32 = (b + 2 ^ 31) mod 2 ^ 32)%Z) by lia.
  Z.div_mod_to_equations. lia.
Qed.

Lemma bits_bound x n : (0 <= n)%Z -> (0 <= x)%Z -> (forall i, (n <= i)%Z -> Z.testbit x i = false) -> (0 <= x < 2 ^ n)%Z.
Proof.
  intros Hn Hx Hb. split; [done|]. destruct (decide (x = 0%Z)) as [->|Hne]; [lia|].
  apply Z.log2_lt_pow2; [lia|]. destruct (decide (Z.log2 x < n)%Z) as [|Hge]; [done|].
  specialize (Hb (Z.log2 x) ltac:(lia)). rewrite Z.bit_log2 in Hb by lia. done.
Qed.

Lemma major_range d : (0 <= d)%Z -> (0 <= major d < 2 ^ 32)%Z.
Proof.
  intros Hd. apply bits_bound; [lia| |intros i Hi].
  - apply Z.lor_nonneg. rewrite !Z.land_nonneg. split; left; by apply Z.shiftr_nonneg.
  - rewrite major_bit by lia. destruct (Z.ltb_spec i 12), (Z.ltb_spec i 32); (done || lia).
Qed.

Lemma minor_range d : (0 <= d)%Z -> (0 <= minor d < 2 ^ 32)%Z.
Proof.
  intros Hd. apply bits_bound; [lia| |intros i Hi].
  - apply Z.lor_nonneg. rewrite !Z.land_nonneg. split; left; [done|by apply Z.shiftr_nonneg].
  - rewrite minor_bit by lia. destruct (Z.ltb_spec i 8), (Z.ltb_spec i 32); (done || lia).
Qed.

(** The printed pair can be read back. *)
Lemma dev_text_scan d :
  scan_int (chars (dev_text d)) = Some (to_int (major d), chars ("/" +:+ pretty (to_int (minor d)))).
Proof. unfold dev_text. rewrite chars_app. by apply scan_int_pretty. Qed.

Lemma dev_text_unique d1 d2 :
  (0 <= d1 < 2 ^ 64)%Z -> (0 <= d2 < 2 ^ 64)%Z -> dev_text d1 = dev_text d2 -> d1 = d2.
Proof.
  intros H1 H2 E. pose proof (dev_text_scan d1) as S1. rewrite E, dev_text_scan in S1.
  assert (to_int (major d2) = to_int (major d1) /\ "/" +:+ pretty (to_int (minor d2)) = "/" +:+ pretty (to_int (minor d1)))
    as [Ema Emi].
  { apply (inj Some), (inj2 pair) in S1 as [-> Hs]. by apply chars_inj in Hs. }
  apply str_app_inj_l, (inj (pretty (A := Z))) in Emi.
  assert (Hd : (0 <= d1)%Z /\ (0 <= d2)%Z) by lia. destruct Hd.
  apply dev_unique; [done|done| |]; apply to_int_inj; auto using major_range, minor_range.
Qed.

(** What devno.c prints for one file, and says of an error. *)
Definition devno_out (statf : string -> stat + string) (a : string) : string :=
  a +:+ ": " +:+ match statf a with inl sbuf => devno_line sbuf | inr _ => "" end.
Definition devno_err (statf : string -> stat + string) (a : string) : string :=
  match statf a with inl _ => "" | inr e => "stat error on " +:+ a +:+ ": " +:+ e +:+ nl end.

Lemma devno_loop_ok statf args o :
  devno_loop statf args o =
    Exited 0 (Fio (f_out o +:+ joined (devno_out statf <$> args)) (f_err o +:+ joined (devno_err statf <$> args))).
Proof.
  revert o. induction args as [|a args IH]; intros o; cbn [devno_loop].
  - cbn. rewrite !str_app_nil_r. by destruct o.
  - cbn [fmap list_fmap]. rewrite !joined_cons.
    assert (Ho : devno_out statf a = a +:+ ": " +:+ match statf a with inl sbuf => devno_line sbuf | inr _ => "" end) by done.
    rewrite Ho. unfold devno_err at 1, out, err. unix_unfold.
    destruct (statf a); rewrite IH; cbn [f_out f_err]; by rewrite ?str_app_nil_r, ?str_app_nil_l, ?str_app_assoc.
Qed.

(** devno.c goes on after a file it cannot examine; the two
    numbers it prints identify the device. *)
Theorem devno_reports statf argv0 args o :
  devno_main statf (argv0 :: args) o =
    Exited 0 (Fio (f_out o +:+ joined (devno_out statf <$> args)) (f_err o +:+ joined (devno_err statf <$> args))) /\
  forall d1 d2, (0 <= d1 < 2 ^ 64)%Z -> (0 <= d2 < 2 ^ 64)%Z -> dev_text d1 = dev_text d2 -> d1 = d2.
Proof. split; [apply devno_loop_ok|apply dev_text_unique]. Qed.

(** *** File types *)

Definition types : list Z := [0x8000; 0x4000; 0x2000; 0x6000; 0x1000; 0xA000; 0xC000]%Z.

Lemma file_type_known m : file_type m = "** unknown mode **" <-> Z.land m S_IFMT ∉ types.
Proof.
  unfold file_type, S_ISREG, S_ISDIR, S_ISCHR, S_ISBLK, S_ISFIFO, S_ISLNK, S_ISSOCK. generalize (Z.land m S_IFMT). intros x.
  repeat match goal with
  | |- context [(x =? ?k)%Z] => destruct (Z.eqb_spec x k) as [->|?]; [split; [done|]; intros Hx; destruct Hx; set_solver|]
  end.
  split; [|done]. intros _ Hin. unfold types in Hin. repeat (apply elem_of_cons in Hin as [->|Hin]; [done|]). by apply elem_of_nil in Hin.
Qed.

Lemma file_type_inj m1 m2 :
  Z.land m1 S_IFMT ∈ types -> Z.land m2 S_IFMT ∈ types -> file_type m1 = file_type m2 -> Z.land m1 S_IFMT = Z.land m2 S_IFMT.
Proof.
  unfold file_type, S_ISREG, S_ISDIR, S_ISCHR, S_ISBLK, S_ISFIFO, S_ISLNK, S_ISSOCK.
  generalize (Z.land m1 S_IFMT), (Z.land m2 S_IFMT). unfold types. intros x y Hx Hy.
  repeat (apply elem_of_cons in Hx as [->|Hx]; [repeat (apply elem_of_cons in Hy as [->|Hy]; [by vm_compute|]); by apply elem_of_nil in Hy|]).
  by apply elem_of_nil in Hx.
Qed.

Definition lstat_line (lstat : string -> option Z) (a : string) : string :=
  a +:+ ": " +:+ match lstat a with Some m => file_type m +:+ nl | None => "" end.

Lemma lstat_loop_good lstat pre rest o :
  Forall (fun a => is_Some (lstat a)) pre ->
  lstat_loop lstat (pre ++ rest) o = lstat_loop lstat rest (Fio (f_out o +:+ joined (lstat_line lstat <$> pre)) (f_err o)).
Proof.
  intros Hp. revert o. induction Hp as [|a pre [m Hm] _ IH]; intros o.
  - cbn. rewrite str_app_nil_r. by destruct o.
  - cbn [app lstat_loop]. rewrite Hm. unfold out at 1 2. unix_unfold. rewrite IH. cbn [f_out f_err].
    cbn [fmap list_fmap]. rewrite joined_cons.
    unfold lstat_line at 2. rewrite Hm. by rewrite !str_app_assoc.
Qed.

(** lstat_demo.c prints a line for each file up to the first
    it cannot examine, at which it stops with -1.  The type printed depends on
    the type bits of the mode alone, differs for different types, and is
    unknown exactly for the values that are no type. *)
Theorem lstat_reports lstat argv0 pre o :
  Forall (fun a => is_Some (lstat a)) pre ->
  lstat_main lstat (argv0 :: pre) o = Exited 0 (Fio (f_out o +:+ joined (lstat_line lstat <$> pre)) (f_err o)) /\
  (forall bad rest, lstat bad = None -> lstat_main lstat (argv0 :: pre ++ bad :: rest) o =
     Exited (-1) (Fio (f_out o +:+ joined (lstat_line lstat <$> pre) +:+ bad +:+ ": ") (f_err o))) /\
  (forall m1 m2, Z.land m1 S_IFMT = Z.land m2 S_IFMT -> file_type m1 = file_type m2) /\
  (forall m1 m2, Z.land m1 S_IFMT ∈ types -> Z.land m2 S_IFMT ∈ types ->
     file_type m1 = file_type m2 -> Z.land m1 S_IFMT = Z.land m2 S_IFMT) /\
  (forall m, file_type m = "** unknown mode **" <-> Z.land m S_IFMT ∉ types).
Proof.
  intros Hp. split_and!.
  - pose proof (lstat_loop_good lstat pre [] o Hp) as H. rewrite app_nil_r in H. change (lstat_loop lstat pre o = Exited 0 (Fio (f_out o +:+ joined (lstat_line lstat <$> pre)) (f_err o))). by rewrite H.
  - intros bad rest Hb. unfold lstat_main. change (drop 1 (argv0 :: pre ++ bad :: rest)) with (pre ++ bad :: rest).
    rewrite lstat_loop_good by done. cbn [lstat_loop]. rewrite Hb.
    unfold out. unix_unfold. cbn [f_out f_err]. by rewrite !str_app_assoc.
  - intros m1 m2 E. unfold file_type, S_ISREG, S_ISDIR, S_ISCHR, S_ISBLK, S_ISFIFO, S_ISLNK, S_ISSOCK. by rewrite E.
  - apply file_type_inj.
  - apply file_type_known.
Qed.

Lemma lstat_reports_witness :
  lstat_main (fun a => if decide (a = "/tmp") then Some 0x43ff%Z else None) (["lstat_demo"; "/tmp"] ++ ["/no"]) (Fio "" "") =
    Exited (-1) (Fio ("/tmp: diretory" +:+ nl +:+ "/no: ") "").
Proof.
  apply (proj1 (proj2 (lstat_reports (fun a => if decide (a = "/tmp") then Some 0x43ff%Z else None) "lstat_demo" ["/tmp"] (Fio "" "")
    ltac:(apply Forall_cons_2; [by eexists|apply Forall_nil_2]))) "/no" [] eq_refl).
Defined.

(** *** Permissions *)

(** access_demo.c: [access] and [open] agree for a process whose real and
    effective identities are the same, and may differ otherwise: a program
    that runs as the superuser for somebody else opens what [access] denies. *)
Theorem access_vs_open strerror p f argv0 path o :
  (ruid p = euid p -> rgid p = egid p ->
   exists s e, access_main strerror p f [argv0; path] o = Exited 0 (Fio (f_out o +:+ s) e) /\
     s ∈ [""; "read access OK" +:+ nl +:+ "open for reading OK" +:+ nl]) /\
  (forall g, f = Some g -> euid p = 0%Z -> ruid p ≠ 0%Z -> ruid p ≠ fp_uid g -> rgid p ≠ fp_gid g ->
   Z.testbit (fp_mode g) 2 = false ->
   access_main strerror p f [argv0; path] o =
     Exited 0 (Fio (f_out o +:+ "open for reading OK" +:+ nl)
       (f_err o +:+ "access error for " +:+ path +:+ ": " +:+ strerror EACCES +:+ nl))).
Proof.
  split.
  - intros Hu Hg. unfold access_main. rewrite Hu, Hg. generalize (check (euid p) (egid p) f). intros e.
    unfold out, err. unix_unfold. destruct (decide (e ≠ 0%Z)); cbn [f_out f_err].
    + exists "". eexists. split; [by rewrite (str_app_nil_r (f_out o))|set_solver].
    + eexists _, _. rewrite str_app_assoc, str_app_assoc. split; [reflexivity|set_solver].
  - intros g -> He Hr Hno Hng Hb. unfold access_main, check, may_read.
    rewrite He, !(decide_False (P := ruid p = _)) by done. rewrite (decide_False (P := rgid p = _)) by done.
    rewrite Hb. rewrite (decide_True (P := 0%Z = 0%Z)) by done. unfold out, err. by unix_unfold.
Qed.

(** *** File times *)

(** What a round at time [t] makes of a file, and the text about a name. *)
Definition in_micros (t : timespec) : timespec := Timespec (tv_sec t) (tv_nsec t / 1000 * 1000).
Definition restored (t : timespec) (f : file) : file :=
  if writable f then
    if owned f then File [] (in_micros (atime f)) (in_micros (mtime f)) true true
    else File [] (atime f) t true false
  else f.
Definition complaint (why : string -> string -> string) (s : fsys) (a : string) : string :=
  match resolve s a with
  | None => error_on why "stat" a
  | Some (_, f) => if writable f then if owned f then "" else error_on why "futimens" a else error_on why "open" a
  end.

(** The last round, from [i] on, that names the file [ino]. *)
Fixpoint last_round (nm : gmap string nat) (ino i : nat) (args : list string) : option nat :=
  match args with
  | [] => None
  | a :: args' =>
    match last_round nm ino (S i) args' with
    | Some j => Some j
    | None => if decide (nm !! a = Some ino) then Some i else None
    end
  end.

Lemma in_micros_idem t : in_micros (in_micros t) = in_micros t.
Proof. unfold in_micros. cbn. by rewrite Z.div_mul. Qed.

Lemma restored_again t t' f : restored t' (restored t f) = restored t' f.
Proof.
  unfold restored. destruct (writable f) eqn:Ew; [|by rewrite Ew].
  destruct (owned f) eqn:Eo; cbn; by rewrite ?in_micros_idem.
Qed.

Lemma restored_access t f : writable (restored t f) = writable f /\ owned (restored t f) = owned f.
Proof. unfold restored. destruct (writable f) eqn:Ew; [|done]. by destruct (owned f). Qed.

(** The state after a round. *)
Definition after_round (t : timespec) (why : string -> string -> string) (a : string) (s : fsys) : fsys :=
  Fsys (names s) (match names s !! a with Some ino => alter (restored t) ino (files s) | None => files s end)
    (errs s +:+ complaint why s a).

Lemma futimens_round_ok now why i a s : futimens_round now why i a s = Ret tt (after_round (now i) why a s).
Proof.
  unfold futimens_round, after_round, complaint, resolve, complain.
  destruct (names s !! a) as [ino|]; [|done]. destruct (files s !! ino) as [f|] eqn:Ef.
  - assert (alter (restored (now i)) ino (files s) = <[ino := restored (now i) f]> (files s)) as ->.
    { apply map_eq. intros k. destruct (decide (k = ino)) as [->|Hk].
      - by rewrite lookup_alter_eq, lookup_insert_eq, Ef.
      - by rewrite lookup_alter_ne, lookup_insert_ne by done. }
    unfold restored. destruct (writable f); [destruct (owned f) eqn:Eo|]; cbn [owned content names files errs]; rewrite ?Eo.
    + by rewrite str_app_nil_r.
    + done.
    + by rewrite insert_id.
  - assert (alter (restored (now i)) ino (files s) = files s) as ->; [|done].
    apply map_eq. intros k. destruct (decide (k = ino)) as [->|Hk]; [by rewrite lookup_alter_eq, Ef|by rewrite lookup_alter_ne].
Qed.

Lemma after_lookup t why a s ino :
  files (after_round t why a s) !! ino = (if decide (names s !! a = Some ino) then restored t <$> files s !! ino else files s !! ino).
Proof.
  unfold after_round. cbn. destruct (names s !! a) as [k|]; [|by rewrite decide_False].
  case_decide as Hd; [injection Hd as ->; by rewrite lookup_alter_eq|].
  rewrite lookup_alter_ne; [done|congruence].
Qed.

(** A round changes neither what names lead to nor what may be done. *)
Lemma complaint_after t why a s b : complaint why (after_round t why a s) b = complaint why s b.
Proof.
  unfold complaint, resolve. cbn [names after_round]. destruct (names s !! b) as [ino|]; [|done].
  rewrite (after_lookup t why a s ino). case_decide; [|done]. destruct (files s !! ino) as [f|]; cbn; [|done].
  by destruct (restored_access t f) as [-> ->].
Qed.

Lemma futimens_loop_ok now why args i s :
  exists fs, futimens_loop now why i args s = Ret tt (Fsys (names s) fs (errs s +:+ joined (complaint why s <$> args))) /\
    forall ino, fs !! ino = match last_round (names s) ino i args with
                            | Some j => restored (now j) <$> files s !! ino
                            | None => files s !! ino
                            end.
Proof.
  revert i s. induction args as [|a args IH]; intros i s; cbn [futimens_loop last_round].
  - exists (files s). split; [|done]. cbn. rewrite str_app_nil_r. by destruct s.
  - rewrite (bind_ret _ _ _ _ _ (futimens_round_ok now why i a s)).
    destruct (IH (S i) (after_round (now i) why a s)) as (fs & -> & Hfs). cbn [names after_round] in Hfs.
    exists fs. split.
    + do 2 f_equal. cbn [errs after_round]. rewrite str_app_assoc. cbn [fmap list_fmap]. rewrite joined_cons. do 3 f_equal.
      apply list_fmap_ext. intros k b _. apply complaint_after.
    + intros ino. rewrite Hfs, (after_lookup (now i) why a s ino).
      destruct (last_round (names s) ino (S i) args) as [j|]; case_decide; try done.
      destruct (files s !! ino); cbn; [|done]. by rewrite restored_again.
Qed.

(** The last round naming a file: there is one when some argument names it. *)
Lemma last_round_spec nm ino i args :
  match last_round nm ino i args with
  | Some j => exists k a, j = i + k /\ args !! k = Some a /\ nm !! a = Some ino /\
                forall k' b, k < k' -> args !! k' = Some b -> nm !! b ≠ Some ino
  | None => Forall (fun a => nm !! a ≠ Some ino) args
  end.
Proof.
  revert i. induction args as [|a args IH]; intros i; cbn; [constructor|].
  specialize (IH (S i)). destruct (last_round nm ino (S i) args) as [j|].
  - destruct IH as (k & b & -> & Hk & Hb & Hl). exists (S k), b. split_and!; [lia|done|done|].
    intros [|k'] c Hlt Hc; [lia|]. apply (Hl k'); [lia|done].
  - case_decide as Hd; [|by constructor]. exists 0, a. split_and!; [lia|done|done|].
    intros [|k'] b Hlt Hb; [lia|]. apply (proj1 (Forall_lookup _ _) IH k' b Hb).
Qed.

(** Property C38.  futimens_demo.c, for every list of arguments, file system
    and outcome of its calls.  Without an argument it prints how it is used
    and ends with 1.  Otherwise it ends with 0, having complained, in order,
    of each argument that leads to no file, to one that may not be written,
    or to one whose times may not be set; and of the files, however many
    names they have and however often they are given:
    - one that no argument names, or that may not be written, is unchanged;
    - the others are empty.  Where the times may be set, they are the old ones
      cut to microseconds, so that less than a microsecond is lost; where not,
      the file is emptied all the same, and its modification time is that of
      the last round that named it. *)
Theorem futimens_restores now why argv0 args s :
  futimens_main now why [argv0] s = Exited 1 (complain ("Usage: " +:+ argv0 +:+ " <pathname> [pathname ...]" +:+ nl) s) /\
  (args ≠ [] -> exists fs,
    futimens_main now why (argv0 :: args) s = Exited 0 (Fsys (names s) fs (errs s +:+ joined (complaint why s <$> args))) /\
    (forall ino, files s !! ino = None -> fs !! ino = None) /\
    forall ino f, files s !! ino = Some f -> exists f', fs !! ino = Some f' /\
      (Forall (fun a => names s !! a ≠ Some ino) args \/ writable f = false -> f' = f) /\
      (Exists (fun a => names s !! a = Some ino) args -> writable f = true -> content f' = [] /\
        (owned f = true ->
          tv_sec (atime f') = tv_sec (atime f) /\ (0 <= tv_nsec (atime f) - tv_nsec (atime f') < 1000)%Z /\
          tv_sec (mtime f') = tv_sec (mtime f) /\ (0 <= tv_nsec (mtime f) - tv_nsec (mtime f') < 1000)%Z) /\
        (owned f = false ->
          atime f' = atime f /\ exists k a, args !! k = Some a /\ names s !! a = Some ino /\
            (forall k' b, k < k' -> args !! k' = Some b -> names s !! b ≠ Some ino) /\ mtime f' = now (S k)))).
Proof.
  split; [done|]. intros Hne. unfold futimens_main.
  destruct (futimens_loop_ok now why args 1 s) as (fs & Hrun & Hfs).
  rewrite decide_False by (destruct args; [done|cbn; lia]).
  change (drop 1 (argv0 :: args)) with args. rewrite (bind_ret _ _ _ _ _ Hrun).
  exists fs. split_and!; [done| |].
  { intros ino Hn. rewrite Hfs, Hn. by destruct (last_round _ _ _ _). }
  intros ino f Hf. pose proof (last_round_spec (names s) ino 1 args) as Hl.
  specialize (Hfs ino). rewrite Hf in Hfs. destruct (last_round (names s) ino 1 args) as [j|].
  - destruct Hl as (k & a & -> & Hk & Ha & Hlast). exists (restored (now (1 + k)) f). split; [done|].
    unfold restored. split.
    + intros [Hno|Hw]; [by destruct (proj1 (Forall_lookup _ _) Hno k a Hk)|by rewrite Hw].
    + intros _ Hw. rewrite Hw. destruct (owned f); cbn; split_and!; try done; intros _.
      * split_and!; try done; Z.div_mod_to_equations; lia.
      * split; [done|]. by exists k, a.
  - exists f. split; [done|]. split; [done|]. intros Hex. apply Exists_exists in Hex as (a & Hin & Ha).
    by destruct (proj1 (Forall_forall _ _) Hl a Hin).
Qed.

Lemma futimens_restores_witness :
  let s := Fsys {["f" := 7; "link" := 7]} {[7 := File (chars "x") (Timespec 1 1999) (Timespec 2 1000) true false]} "" in
  exists fs, futimens_main (fun i => Timespec (Z.of_nat i) 0) (fun _ _ => "Operation not permitted") ["futimens_demo"; "f"; "link"] s =
      Exited 0 (Fsys (names s) fs
        ("futimens error on f: Operation not permitted" +:+ nl +:+ "futimens error on link: Operation not permitted" +:+ nl)) /\
    exists f', fs !! 7 = Some f' /\ content f' = [].
Proof.
  intros s. destruct (proj2 (futimens_restores (fun i => Timespec (Z.of_nat i) 0) (fun _ _ => "Operation not permitted")
    "futimens_demo" ["f"; "link"] s) ltac:(done)) as (fs & Hrun & _ & Hfs).
  exists fs. split; [exact Hrun|].
  destruct (Hfs 7 (File (chars "x") (Timespec 1 1999) (Timespec 2 1000) true false)) as (f' & Hf' & _ & Hd); [reflexivity|].
  exists f'. split; [exact Hf'|]. apply Hd; [by apply Exists_cons_hd|reflexivity].
Defined.
