(* ===== verification/Streams.v ===== *)
(** * std_io: memory streams, temporary files, kinds of buffering

    memio.c writes to a buffer through a stream and looks at the buffer behind
    the stream's back; tempfile.c makes temporary files; stdio_bufprop.c
    prints how streams are buffered. *)

From S2P Require Import Prelude LineIO.

(** ** memio.c *)
Module MemIO.

Definition BSZ : nat := 48.

(** The array [buf] of [main], which the stream shares; the stream's position,
    the size of what was written to it and its own buffer, once it is open;
    standard output. *)
Record mst := Mst {
  buf : list Ascii.ascii; pos : nat; size : nat; pending : list Ascii.ascii; shown : list Ascii.ascii
}.

(** [memset(buf, c, BSZ - 2); buf[BSZ - 2] = 0; buf[BSZ - 1] = 'X']. *)
Definition fill (c : Ascii.ascii) : prog mst unit :=
  modify (fun s => Mst (replicate (BSZ - 2) c ++ [NUL; Ascii.ascii_of_nat 88]) (pos s) (size s) (pending s) (shown s)).

(** [fmemopen(buf, BSZ, "w+")] empties the buffer as a string. *)
Definition fmemopen : prog mst unit :=
  modify (fun s => Mst (<[0 := NUL]> (buf s)) 0 0 [] (shown s)).

(** [fprintf(fp, t)]: into the stream's own buffer. *)
Definition fprintf (t : string) : prog mst unit :=
  modify (fun s => Mst (buf s) (pos s) (size s) (pending s ++ chars t) (shown s)).

(** [fflush(fp)]: at the position, as far as there is room; a [NUL] follows
    when the content has grown and there is room for it. *)
Definition fflush (s : mst) : mst :=
  let w := take (BSZ - pos s) (pending s) in
  let pos' := pos s + length w in
  let b := take (pos s) (buf s) ++ w ++ drop pos' (buf s) in
  if decide (size s < pos') then
    Mst (if decide (pos' < BSZ) then <[pos' := NUL]> b else b) pos' pos' [] (shown s)
  else Mst b pos' (size s) [] (shown s).

(** [fseek(fp, 0, SEEK_SET)] and [fclose(fp)] flush first. *)
Definition rewind : prog mst unit :=
  modify (fun s => let s := fflush s in Mst (buf s) 0 (size s) (pending s) (shown s)).
Definition fclose : prog mst unit := modify fflush.

Definition show (t : list Ascii.ascii) : prog mst unit :=
  modify (fun s => Mst (buf s) (pos s) (size s) (pending s) (shown s ++ t)).

(** [printf("...%s\n", buf)] and [printf("len of string in buf: %ld\n",
    (long)strlen(buf))]; a buffer without terminator is a fault. *)
Definition show_buf (label : string) : prog mst unit :=
  b ← gets buf ; n ← need (strlen b) ; show (chars label ++ take n b ++ [newline]).
Definition show_len : prog mst unit :=
  b ← gets buf ; n ← need (strlen b) ;
  show (chars ("len of string in buf: " +:+ pretty (Z.of_nat n) +:+ nl)).

Definition char_of (n : nat) : Ascii.ascii := Ascii.ascii_of_nat n.

(** [main]; [open_ok] is whether [fmemopen] works. *)
Definition memio_main (open_ok : bool) : prog mst unit :=
  fill (char_of 97) ;;
  if open_ok then
    fmemopen ;;
    show_buf "initial buffer contents: " ;;
    fprintf "hello, world" ;;
    fprintf ", hi" ;;
    show_buf "before flush: " ;;
    modify fflush ;;
    show_buf "after flush: " ;;
    show_len ;;
    fill (char_of 98) ;;
    fprintf "hello, world" ;;
    rewind ;;
    show_buf "after seek: " ;;
    show_len ;;
    fill (char_of 99) ;;
    fprintf "hello, world" ;;
    fclose ;;
    show_buf "after close: " ;;
    show_len ;;
    c_exit 0
  else c_exit (-1).

(** *** Properties *)

(** The stream never writes outside the array. *)
Definition mem_ok (s : mst) : Prop := length (buf s) = BSZ /\ pos s <= BSZ /\ size s <= BSZ.

Lemma fflush_ok s : mem_ok s -> mem_ok (fflush s).
Proof.
  intros (Hb & Hp & Hs). unfold fflush. set (w := take (BSZ - pos s) (pending s)).
  assert (Hw : length w <= BSZ - pos s) by (unfold w; rewrite length_take; lia).
  assert (Hl : length (take (pos s) (buf s) ++ w ++ drop (pos s + length w) (buf s)) = BSZ).
  { rewrite !length_app, length_take, length_drop. lia. }
  case_decide; [case_decide|]; unfold mem_ok; cbn [buf pos size]; rewrite ?length_insert; lia.
Qed.

(** What a flush writes: the pending text at the position, as far as it fits,
    and nothing else but the [NUL] after text that was appended. *)
Lemma fflush_writes s i :
  mem_ok s -> length (pending s) <= BSZ - pos s ->
  buf (fflush s) !! i =
    if decide (pos s <= i < pos s + length (pending s)) then pending s !! (i - pos s)
    else if decide (i = pos s + length (pending s) /\ size s < i < BSZ) then Some NUL
    else buf s !! i.
Proof.
  intros (Hb & Hp & Hs) Hfit. unfold fflush. rewrite (take_ge (pending s)) by lia.
  set (w := pending s) in *. set (b := take (pos s) (buf s) ++ w ++ drop (pos s + length w) (buf s)).
  assert (Hl : length (take (pos s) (buf s)) = pos s) by (rewrite length_take; lia).
  assert (Hbi : b !! i = if decide (pos s <= i < pos s + length w) then w !! (i - pos s) else buf s !! i).
  { unfold b. destruct (decide (i < pos s)).
    - rewrite lookup_app_l, lookup_take_lt by lia. by rewrite decide_False by lia.
    - rewrite lookup_app_r, Hl by lia. case_decide.
      + by rewrite lookup_app_l by lia.
      + rewrite lookup_app_r, lookup_drop by lia. f_equal. lia. }
  assert (Hlb : length b = BSZ) by (unfold b; rewrite !length_app, length_drop, Hl; lia).
  destruct (decide (size s < pos s + length w)) as [Hg|Hg]; [destruct (decide (pos s + length w < BSZ)) as [Hr|Hr]|];
    cbn [buf]; rewrite ?Hbi.
  - destruct (decide (i = pos s + length w)) as [->|Hi].
    + rewrite list_lookup_insert_eq by lia. rewrite decide_False, decide_True by lia. done.
    + rewrite list_lookup_insert_ne, Hbi by done. case_decide; [done|]. rewrite decide_False by lia. done.
  - case_decide; [done|]. rewrite decide_False by lia. done.
  - case_decide; [done|]. rewrite decide_False by lia. done.
Qed.

(** What is written to the memory stream reaches the array
    only when the stream is flushed, positioned or closed; then, with room, it
    stands at the stream's position, is followed by a [NUL] only where the
    content grew, and nothing else of the array changes, nor anything outside
    it.  memio.c shows this: the text appears after the flush, after the seek
    behind what [memset] wrote, and after the close in front of it with no
    terminator of its own. *)
Theorem memio_prints :
  (forall s i, mem_ok s -> length (pending s) <= BSZ - pos s ->
     mem_ok (fflush s) /\
     buf (fflush s) !! i =
       if decide (pos s <= i < pos s + length (pending s)) then pending s !! (i - pos s)
       else if decide (i = pos s + length (pending s) /\ size s < i < BSZ) then Some NUL
       else buf s !! i) /\
  (forall b0 p0 z0 w0, exists s', memio_main true (Mst b0 p0 z0 w0 []) = Exited 0 s' /\ mem_ok s' /\
     shown s' = chars (
       "initial buffer contents: " +:+ nl +:+ "before flush: " +:+ nl +:+ "after flush: hello, world, hi" +:+ nl +:+
       "len of string in buf: 16" +:+ nl +:+ "after seek: bbbbbbbbbbbbbbbbhello, world" +:+ nl +:+
       "len of string in buf: 28" +:+ nl +:+ "after close: hello, worldcccccccccccccccccccccccccccccccccc" +:+ nl +:+
       "len of string in buf: 46" +:+ nl)) /\
  (forall s, exists s', memio_main false s = Exited (-1) s' /\ shown s' = shown s).
Proof.
  split_and!.
  - intros s i Hs Hf. split; [by apply fflush_ok|by apply fflush_writes].
  - intros b0 p0 z0 w0. eexists. split; [vm_compute; reflexivity|].
    split; [unfold mem_ok, BSZ; cbn; lia|vm_compute; reflexivity].
  - intros s. eexists. split; reflexivity.
Qed.
End MemIO.

(** ** tempfile.c *)
Module TempFile.

(** The names in the file system, and the output. *)
Record tmp := Tmp { t_files : gset string; t_text : string }.
Definition say (x : string) : prog tmp unit := modify (fun s => Tmp (t_files s) (t_text s +:+ x)).

(** A string of the program: an array that may be written, or a literal. *)
Inductive template := Array (s : string) | Literal (s : string).

Section Program.
(** The name [mkstemp] makes of a template, which is a new one, or none when
    the file cannot be created; whether [stat] finds the file that was just
    made, and what its error is otherwise. *)
Context (mkstemp_name : gset string -> string -> option string).
Context (stat_errno : option Z).

Definition ENOENT : Z := 2.

(** [mkstemp]: writes into its argument, which a literal does not allow. *)
Definition mkstemp (t : template) : prog tmp (option string) := fun s =>
  match t with
  | Literal _ => Fault
  | Array x =>
    match mkstemp_name (t_files s) x with
    | None => Ret None s
    | Some n => Ret (Some n) (Tmp ({[n]} ∪ t_files s) (t_text s))
    end
  end.

Definition make_temp (t : template) : prog tmp unit :=
  fd ← mkstemp t ;
  match fd with
  | None => c_exit (-1)
  | Some n =>
    say ("temp name = " +:+ n +:+ nl) ;;
    match stat_errno with
    | None => mret tt
    | Some e => if decide (e = ENOENT) then say ("file doesn't exist" +:+ nl) else say ("stat error" +:+ nl) ;; c_exit (-1)
    end ;;
    say ("file exists" +:+ nl) ;;
    modify (fun s => Tmp (t_files s ∖ {[n]}) (t_text s))
  end.

Definition good_template : template := Array "/tmp/dirXXXXXX".
Definition bad_template : template := Literal "tmp/dirXXXXXX".

Definition tempfile_main : prog tmp unit :=
  say ("trying to create first temp file..." +:+ nl) ;;
  make_temp good_template ;;
  say ("trying to create second temp file..." +:+ nl) ;;
  make_temp bad_template ;;
  c_exit 0.

(** *** Properties *)

Definition new_names : Prop := forall fs x n, mkstemp_name fs x = Some n -> n ∉ fs.

(** [make_temp] on an array leaves the file system as it was. *)
Lemma make_temp_ok x n s :
  new_names -> stat_errno = None -> mkstemp_name (t_files s) x = Some n ->
  make_temp (Array x) s =
    Ret tt (Tmp (t_files s) (t_text s +:+ "temp name = " +:+ n +:+ nl +:+ "file exists" +:+ nl)).
Proof.
  intros Hnew Hst Hn. pose proof (Hnew _ _ _ Hn) as Hnot. unfold make_temp, mkstemp, say. unix_unfold. rewrite Hn, Hst.
  cbn [t_files t_text]. f_equal. f_equal; [set_solver|by rewrite !str_app_assoc].
Qed.

(** tempfile.c makes and removes the first file; but the second call passes a
    string literal for [mkstemp] to write into, whatever else happens.  And
    [make_temp] says that a file exists right after saying that it does not. *)
Theorem tempfile_faults s :
  (new_names -> stat_errno = None -> is_Some (mkstemp_name (t_files s) "/tmp/dirXXXXXX") -> tempfile_main s = Fault) /\
  (forall x n, stat_errno = Some ENOENT -> mkstemp_name (t_files s) x = Some n -> exists s',
     make_temp (Array x) s = Ret tt s' /\
     t_text s' = t_text s +:+ "temp name = " +:+ n +:+ nl +:+ "file doesn't exist" +:+ nl +:+ "file exists" +:+ nl).
Proof.
  split.
  - intros Hnew Hst [n Hn]. unfold tempfile_main, good_template. erewrite bind_ret by reflexivity.
    erewrite bind_ret by (apply (make_temp_ok _ n); done). done.
  - intros x n Hst Hn. eexists. unfold make_temp, mkstemp, say. unix_unfold. rewrite Hn, Hst.
    rewrite decide_True by done. cbn [t_files t_text]. split; [done|]. cbn. by rewrite !str_app_assoc.
Qed.
End Program.
End TempFile.

(** ** stdio_bufprop.c *)
Module BufProp.

(** The constants of [setvbuf]. *)
Definition _IOLBF : Z := 1.
Definition _IONBF : Z := 2.

(** What the program reads of a [FILE]. *)
Record FILE := File { _flags : Z; _IO_buf_base : Z; _IO_buf_end : Z }.

Definition is_unbuffered (fp : FILE) : Z := Z.land (_flags fp) _IONBF.
Definition is_linebuffered (fp : FILE) : Z := Z.land (_flags fp) _IOLBF.
Definition buffer_size (fp : FILE) : Z := (_IO_buf_end fp - _IO_buf_base fp)%Z.

Definition pr_stdio (name : string) (fp : FILE) : prog string unit := modify (fun out =>
  out +:+ "stream = " +:+ name +:+ ", " +:+
  (if decide (is_unbuffered fp ≠ 0%Z) then "unbuffered"
   else if decide (is_linebuffered fp ≠ 0%Z) then "line buffered"
   else "fully buffered") +:+
  ", buffer size = " +:+ pretty (buffer_size fp) +:+ nl).

(** [main]: the first character of standard input and of the file, if there
    is one, and the four streams after their first use. *)
Definition bufprop_main (in_ok : bool) (passwd : option bool) (fin fout ferr fpw : FILE) : prog string unit :=
  modify (fun out => out +:+ "enter any character" +:+ nl) ;;
  if in_ok then
    pr_stdio "stdin" fin ;; pr_stdio "stdout" fout ;; pr_stdio "stderr" ferr ;;
    match passwd with
    | Some true => pr_stdio "/etc/passwd" fpw ;; c_exit 0
    | _ => c_exit (-1)
    end
  else c_exit (-1).

(** The bits of [_flags] in the GNU library. *)
Definition _IO_USER_BUF : Z := 1.
Definition _IO_UNBUFFERED : Z := 2.
Definition _IO_LINE_BUF : Z := 0x200.

(** *** Properties *)

(** The constants of [setvbuf] are not the bits of [_flags]: an unbuffered
    stream is reported as such, but a line-buffered stream that uses the
    library's own buffer is reported as fully buffered, and a fully buffered
    stream with a buffer of the program's as line buffered. *)
Theorem linebuffered_misreported name base top out :
  pr_stdio name (File _IO_UNBUFFERED base top) out =
    Ret tt (out +:+ "stream = " +:+ name +:+ ", unbuffered, buffer size = " +:+ pretty (top - base)%Z +:+ nl) /\
  pr_stdio name (File _IO_LINE_BUF base top) out =
    Ret tt (out +:+ "stream = " +:+ name +:+ ", fully buffered, buffer size = " +:+ pretty (top - base)%Z +:+ nl) /\
  pr_stdio name (File _IO_USER_BUF base top) out =
    Ret tt (out +:+ "stream = " +:+ name +:+ ", line buffered, buffer size = " +:+ pretty (top - base)%Z +:+ nl).
Proof. done. Qed.
End BufProp.

(** ** sys_info/time_demo.c *)
Module TimeText.

(** [strftime(buf, max, ...)]: the text if it fits with its terminator; the
    result is 0 otherwise. *)
Definition strftime (max : nat) (t : string) : option string :=
  if decide (String.length t < max) then Some t else None.

(** The format of both calls, with the texts of %r, %a, %b, %d and %Y. *)
Definition stamp (r a b d y : string) : string :=
  "time and date: " +:+ r +:+ ", " +:+ a +:+ " " +:+ b +:+ " " +:+ d +:+ " " +:+ y.

Definition attempt (max : nat) (t : string) : string :=
  match strftime max t with
  | None => "buffer length " +:+ pretty max +:+ " is too small" +:+ nl
  | Some x => x +:+ nl
  end.

Definition time_main (r a b d y : string) : prog string unit :=
  modify (fun o => o +:+ attempt 16 (stamp r a b d y)) ;;
  modify (fun o => o +:+ attempt 64 (stamp r a b d y)) ;;
  c_exit 0.

(** The first buffer is always too small; the second is large enough for any
    locale whose five texts have at most 43 characters together (in the C
    locale they have 23 until the year 9999). *)
Theorem time_fits r a b d y o :
  String.length r + String.length a + String.length b + String.length d + String.length y <= 43 ->
  time_main r a b d y o =
    Exited 0 (o +:+ "buffer length 16 is too small" +:+ nl +:+ stamp r a b d y +:+ nl).
Proof.
  intros Hl. unfold time_main, attempt, strftime.
  assert (Hs : String.length (stamp r a b d y) =
    20 + (String.length r + String.length a + String.length b + String.length d + String.length y)).
  { unfold stamp. rewrite !str_app_length. cbn. lia. }
  rewrite (decide_False (P := _ < 16)), (decide_True (P := _ < 64)) by lia. unix_unfold. by rewrite !str_app_assoc.
Qed.
End TimeText.
