(* ===== verification/Signals.v ===== *)
(** * signal/sig_receiver.c, sig_sender.c and signal_demo.c: pending signals

    The receiver blocks all signals for a while, shows the pending ones,
    unblocks them and counts how often each was caught; the sender sends one
    signal many times.  The kernel keeps a mask and the pending signals of the
    process: a signal below 32 is pending at most once, a real-time signal as
    often as it was sent (the limit on queued signals is left out), and
    SIGCONT and the stop signals discard each other.  signal_demo.c prints
    sets of signals. *)

From S2P Require Import Prelude Scan.

(** ** Signals in the kernel *)

Definition SIGINT : Z := 2.
Definition SIGQUIT : Z := 3.
Definition SIGKILL : Z := 9.
Definition SIGTERM : Z := 15.
Definition SIGCONT : Z := 18.
Definition SIGSTOP : Z := 19.
Definition SIGTSTP : Z := 20.
Definition SIGTTIN : Z := 21.
Definition SIGTTOU : Z := 22.

(** [1, ..., NSIG - 1]. *)
Definition signals : list Z := Z.of_nat <$> seq 1 64.
(** Signals that cannot be caught or blocked, and the two that the C library
    keeps for itself: [signal] and [sigaction] fail on them. *)
Definition unblockable : list Z := [SIGKILL; SIGSTOP].
Definition uncatchable : list Z := SIGKILL :: SIGSTOP :: [32; 33]%Z.

(** [siginfo_t], as far as the programs look at it. *)
Record siginfo := Info { si_signo : Z; si_code : Z; si_value : Z; si_pid : Z; si_uid : Z }.
#[export] Instance siginfo_dec : EqDecision siginfo.
Proof. solve_decision. Defined.

(** The mask and the pending signals in order of arrival. *)
Record sigs := Sigs { sg_mask : gset Z; sg_pend : list siginfo }.

Definition sigfillset : gset Z := list_to_set (filter (fun s => s ∉ [32; 33]%Z) signals).
Definition sigprocmask (m : gset Z) (k : sigs) : sigs := Sigs (m ∖ list_to_set unblockable) (sg_pend k).
Definition sigpending (k : sigs) : gset Z := list_to_set (si_signo <$> sg_pend k).

(** The pending signals that a new one discards. *)
Definition stop_signals : list Z := [SIGSTOP; SIGTSTP; SIGTTIN; SIGTTOU].
Definition discards (n : Z) : list Z :=
  if decide (n = SIGCONT) then stop_signals else if decide (n ∈ stop_signals) then [SIGCONT] else [].

(** A signal joins the pending ones. *)
Definition queue_up (i : siginfo) (p : list siginfo) : list siginfo :=
  if decide ((si_signo i < 32)%Z /\ si_signo i ∈ (si_signo <$> p)) then p else p ++ [i].

(** A signal is sent to the process. *)
Definition post (i : siginfo) (p : list siginfo) : list siginfo :=
  queue_up i (filter (fun j => si_signo j ∉ discards (si_signo i)) p).

(** Pending signals in an order in which they may be delivered: real-time
    signals come by number and those of one number in the order of arrival;
    the order of standard signals is not specified, and no claim about the
    programs that use this depends on it. *)
Definition by_number (p : list siginfo) : list siginfo :=
  signals ≫= fun s => filter (fun i => si_signo i = s) p.

Section Delivery.
(** A program with state [St], and its handler. *)
Context {St : Type} (get : St -> sigs) (put : sigs -> St -> St) (handle : siginfo -> prog St unit).

Fixpoint run_handlers (l : list siginfo) : prog St unit :=
  match l with [] => mret tt | i :: l' => handle i ;; run_handlers l' end.

(** Deliver what is pending and not blocked. *)
Definition deliver : prog St unit := fun s =>
  let k := get s in
  run_handlers (by_number (filter (fun i => si_signo i ∉ sg_mask k) (sg_pend k)))
    (put (Sigs (sg_mask k) (filter (fun i => si_signo i ∈ sg_mask k) (sg_pend k))) s).

(** A signal arrives. *)
Definition arrive (i : siginfo) : prog St unit :=
  modify (fun s => put (Sigs (sg_mask (get s)) (post i (sg_pend (get s)))) s) ;; deliver.

Fixpoint arrivals (l : list siginfo) : prog St unit :=
  match l with [] => mret tt | i :: l' => arrive i ;; arrivals l' end.

(** [sigprocmask(SIG_SETMASK, &m, ...)]. *)
Definition setmask (m : gset Z) : prog St unit :=
  modify (fun s => put (sigprocmask m (get s)) s) ;; deliver.
End Delivery.

(** ** signal_demo.c *)

Section Print.
Context (strsignal : Z -> string).

Definition print_sigset (prefix : string) (set : gset Z) : string :=
  let '(cnt, t) := foldl (fun (x : nat * string) sig =>
    if decide (sig ∈ set) then
      (S x.1, x.2 +:+ prefix +:+ pretty sig +:+ " (" +:+ strsignal sig +:+ ")" +:+ nl)
    else x) (0, "") signals in
  if decide (cnt = 0) then t +:+ prefix +:+ "<empty signal set>" +:+ nl else t.

(** A tab. *)
Definition tab : string := String (Ascii.ascii_of_nat 9) EmptyString.

(** The result and the text; [res] is that of the system call. *)
Definition print_sigmask (res : Z) (msg : option string) (k : sigs) : Z * string :=
  let t := default "" msg in
  if decide (res = (-1)%Z) then ((-1)%Z, t) else (0%Z, t +:+ print_sigset (tab +:+ tab) (sg_mask k)).

Definition print_pendingsigs (res : Z) (msg : option string) (k : sigs) : Z * string :=
  let t := default "" msg in
  if decide (res = (-1)%Z) then ((-1)%Z, t) else (0%Z, t +:+ print_sigset (tab +:+ tab) (sigpending k)).
End Print.

(** ** sig_receiver.c *)

(** The process: its signals and which of them are caught, the counters
    [sig_cnt], the flag [got_sigint] and the output. *)
Record rcv := Rcv {
  r_sigs : sigs; r_caught : gset Z; sig_cnt : list Z; got_sigint : bool; r_out : string
}.

Definition set_sigs (k : sigs) (r : rcv) : rcv :=
  Rcv k (r_caught r) (sig_cnt r) (got_sigint r) (r_out r).
Definition r_printf (t : string) : prog rcv unit := modify (fun r =>
  Rcv (r_sigs r) (r_caught r) (sig_cnt r) (got_sigint r) (r_out r +:+ t)).

Definition sig_handler (signo : Z) : prog rcv unit :=
  if decide (signo = SIGINT) then
    modify (fun r => Rcv (r_sigs r) (r_caught r) (sig_cnt r) true (r_out r))
  else
    c ← gets sig_cnt ;
    v ← need (c !! Z.to_nat signo) ;
    v' ← need (int_add v 1) ;
    modify (fun r => Rcv (r_sigs r) (r_caught r) (<[Z.to_nat signo := v']> (sig_cnt r)) (got_sigint r) (r_out r)).

(** [signal(n, sig_handler)], whose result is ignored. *)
Definition signal (n : Z) : prog rcv unit := modify (fun r =>
  Rcv (r_sigs r) (if decide (n ∈ uncatchable) then r_caught r else {[n]} ∪ r_caught r)
      (sig_cnt r) (got_sigint r) (r_out r)).

(** A delivered signal runs the handler; of those that cannot be caught
    SIGSTOP stops the process and the others end it (with the status that a
    shell shows). *)
Definition r_handle (i : siginfo) : prog rcv unit :=
  c ← gets r_caught ;
  if decide (si_signo i ∈ c) then sig_handler (si_signo i)
  else if decide (si_signo i = SIGSTOP) then c_block
  else c_exit (128 + si_signo i).

Definition r_arrive : siginfo -> prog rcv unit := arrive r_sigs set_sigs r_handle.
Definition r_arrivals : list siginfo -> prog rcv unit := arrivals r_sigs set_sigs r_handle.
Definition r_setmask : gset Z -> prog rcv unit := setmask r_sigs set_sigs r_handle.

Fixpoint install (l : list Z) : prog rcv unit :=
  match l with [] => mret tt | n :: l' => signal n ;; install l' end.

(** [while (!got_sigint) ;] while the signals [later] arrive. *)
Fixpoint spin (later : list siginfo) : prog rcv unit :=
  g ← gets got_sigint ;
  if (g : bool) then mret tt
  else match later with
       | [] => c_block
       | i :: later' => r_arrive i ;; spin later'
       end.

(** The last loop. *)
Fixpoint show_counts (argv0 : string) (l : list Z) : prog rcv unit :=
  match l with
  | [] => mret tt
  | n :: l' =>
    c ← gets sig_cnt ;
    v ← need (c !! Z.to_nat n) ;
    (if decide (v ≠ 0%Z) then
       r_printf (argv0 +:+ ": signal " +:+ pretty n +:+ " caught " +:+ pretty v +:+ " time" +:+
                 (if decide (v = 1%Z) then "" else "s") +:+ nl)
     else mret tt) ;;
    show_counts argv0 l'
  end.

(** [main]: [sent] arrives during the sleep, [later] afterwards; [e1], [e2]
    and [e3] are the results of the three system calls. *)
Definition recv_main (strsignal : Z -> string) (argv0 : string) (argv1 : option string) (pid : Z)
    (sent later : list siginfo) (e1 e2 e3 : Z) : prog rcv unit :=
  r_printf (argv0 +:+ "s: PID is " +:+ pretty pid +:+ nl) ;;
  install signals ;;
  (match argv1 with
   | None => mret tt
   | Some a =>
     num_secs ← need (atoi a) ;
     (if decide (e1 = (-1)%Z) then c_exit (-1) else r_setmask sigfillset) ;;
     r_printf (argv0 +:+ ": sleeping for " +:+ pretty num_secs +:+ " seconds" +:+ nl) ;;
     r_arrivals sent ;;
     (if decide (e2 = (-1)%Z) then c_exit (-1) else mret tt) ;;
     p ← gets (fun r => sigpending (r_sigs r)) ;
     r_printf (argv0 +:+ ": pending signals are: " +:+ nl) ;;
     r_printf (print_sigset strsignal (tab +:+ tab) p) ;;
     (if decide (e3 = (-1)%Z) then c_exit (-1) else r_setmask ∅)
   end) ;;
  spin later ;;
  show_counts argv0 signals ;;
  c_exit 0.

(** ** sig_sender.c *)

(** The signals sent, and the output. *)
Record sender := Snd { s_kills : list (Z * Z); s_text : string }.

Definition s_printf (t : string) : prog sender unit := modify (fun s => Snd (s_kills s) (s_text s +:+ t)).

Section Sender.
(** What [kill] returns. *)
Context (kill_res : Z -> Z -> Z).

(** [if (kill(pid, sig) == -1) ... exit(-1);] *)
Definition kill (pid sig : Z) : prog sender unit :=
  if decide (kill_res pid sig = (-1)%Z) then c_exit (-1)
  else modify (fun s => Snd (s_kills s ++ [(pid, sig)]) (s_text s)).

Definition send_main (argv : list string) : prog sender unit :=
  match argv with
  | argv0 :: argv1 :: argv2 :: argv3 :: more =>
    if decide (argv1 = "--help") then
      s_printf ("usage: " +:+ argv0 +:+ " pid num-sigs sig-num [sig-num-2]" +:+ nl) ;; c_exit 0
    else
      sig ← need (atoi argv3) ;
      num_sigs ← need (atoi argv2) ;
      pid ← need (to_int <$> atol argv1) ;
      s_printf (argv0 +:+ ": sending signal " +:+ pretty sig +:+ " to process " +:+ pretty pid +:+ " " +:+
                pretty num_sigs +:+ " times" +:+ nl) ;;
      for_loop (Z.to_nat num_sigs) 0 (fun _ => kill pid sig) ;;
      match more with
      | argv4 :: _ => sig2 ← need (atoi argv4) ; kill pid sig2
      | [] => mret tt
      end ;;
      c_exit 0
  | argv0 :: _ =>
    s_printf ("usage: " +:+ argv0 +:+ " pid num-sigs sig-num [sig-num-2]" +:+ nl) ;; c_exit 0
  | [] => c_fault
  end.
End Sender.

(** ** Properties *)

(** How often signal [n] stands in [l]. *)
Definition cnt (n : Z) (l : list siginfo) : nat := count (fun i => bool_decide (si_signo i = n)) l.
Arguments cnt : simpl never.

Definition catchable (i : siginfo) : Prop := si_signo i ∈ signals /\ si_signo i ∉ uncatchable.
#[export] Instance catchable_dec i : Decision (catchable i).
Proof. unfold catchable. apply _. Defined.

Lemma cnt_cons n i l : cnt n (i :: l) = (if decide (si_signo i = n) then 1 else 0) + cnt n l.
Proof. unfold cnt. cbn. by repeat case_decide; case_bool_decide. Qed.

Lemma cnt_app n l k : cnt n (l ++ k) = cnt n l + cnt n k.
Proof. unfold cnt. induction l as [|i l IH]; cbn; [done|]. rewrite IH. lia. Qed.

Lemma cnt_elem n l : 0 < cnt n l <-> n ∈ (si_signo <$> l).
Proof.
  unfold cnt. induction l as [|i l IH]; cbn.
  - split; [lia|]. by intros ?%elem_of_nil.
  - rewrite elem_of_cons, <- IH. case_bool_decide; cbn; [split; [by left|lia]|].
    split; [by right|]. intros [->|?]; done.
Qed.

Lemma cnt_le n l : cnt n l <= length l.
Proof. apply count_le. Qed.

(** *** Pending signals *)

Definition posts (p sent : list siginfo) : list siginfo := foldl (fun p i => post i p) p sent.

Lemma elem_of_queue_up i j p : j ∈ queue_up i p -> j ∈ p \/ j = i.
Proof.
  unfold queue_up. case_decide; [by left|]. rewrite elem_of_app, list_elem_of_singleton. tauto.
Qed.

Lemma elem_of_post i j p : j ∈ post i p -> j ∈ p \/ j = i.
Proof. intros [H|H]%elem_of_queue_up; [|by right]. apply list_elem_of_filter in H. tauto. Qed.

Lemma post_length i p : length (post i p) <= S (length p).
Proof.
  unfold post, queue_up. pose proof (length_filter (fun j => si_signo j ∉ discards (si_signo i)) p).
  case_decide; [lia|]. rewrite length_app. cbn. lia.
Qed.

Lemma Forall_post (P : siginfo -> Prop) i p : P i -> Forall P p -> Forall P (post i p).
Proof. intros Hi Hp. rewrite Forall_forall in Hp |- *. intros j [?| ->]%elem_of_post; auto. Qed.

(** No two of these signals discard each other. *)
Definition calm (l : list siginfo) : Prop :=
  forall i j, i ∈ l -> j ∈ l -> si_signo j ∉ discards (si_signo i).

Lemma post_calm i p : calm (i :: p) -> post i p = queue_up i p.
Proof.
  intros Hc. unfold post. f_equal. apply filter_all, Forall_forall. intros j Hj.
  apply Hc; [by left|by right].
Qed.

Lemma calm_sub l k : calm k -> (forall i, i ∈ l -> i ∈ k) -> calm l.
Proof. intros Hc Hl i j Hi Hj. apply Hc; auto. Qed.

(** A standard signal stays pending once, a real-time signal as often as it
    was sent. *)
Lemma cnt_posts n sent p :
  calm (p ++ sent) ->
  cnt n (posts p sent) =
    if decide (n < 32)%Z then if decide (cnt n p = 0) then min 1 (cnt n sent) else cnt n p
    else cnt n p + cnt n sent.
Proof.
  unfold posts. revert p. induction sent as [|i sent IH]; intros p Hcalm; cbn [foldl].
  - change (cnt n []) with 0. repeat case_decide; lia.
  - rewrite post_calm by (eapply calm_sub; [exact Hcalm|set_solver]).
    rewrite IH, cnt_cons; cycle 1.
    { eapply calm_sub; [exact Hcalm|]. intros j [[?| ->]%elem_of_queue_up|?]%elem_of_app; set_solver. }
    clear IH. unfold queue_up. pose proof (cnt_elem (si_signo i) p) as Hc.
    destruct (decide ((si_signo i < 32)%Z ∧ si_signo i ∈ (si_signo <$> p))) as [[H1 H2]|H1].
    + apply Hc in H2. destruct (decide (si_signo i = n)); subst; repeat case_decide; lia.
    + rewrite cnt_app, cnt_cons. change (cnt n []) with 0.
      destruct (decide (si_signo i = n)) as [<-|Hne]; [|repeat case_decide; lia].
      destruct (decide (cnt (si_signo i) p = 0)) as [Hz|Hz]; [repeat case_decide; lia|].
      assert (~ (si_signo i < 32)%Z). { intros Hs. apply H1. split; [done|]. apply Hc. lia. }
      repeat case_decide; lia.
Qed.

Lemma elem_of_posts p sent i : i ∈ posts p sent -> i ∈ p \/ i ∈ sent.
Proof.
  unfold posts. revert p. induction sent as [|j sent IH]; intros p; cbn [foldl]; [by left|].
  intros [[?| ->]%elem_of_post|H]%IH; [by left|right; by left|right; by right].
Qed.

(** The set of pending signals is the set of those sent. *)
Lemma signo_posts sent :
  calm sent -> list_to_set (C := gset Z) (si_signo <$> posts [] sent) = list_to_set (si_signo <$> sent).
Proof.
  intros Hc. apply set_eq. intros n. rewrite !elem_of_list_to_set, <- !cnt_elem, cnt_posts by done.
  change (cnt n []) with 0. repeat case_decide; lia.
Qed.

Lemma cnt_filter_signo n s l :
  cnt n (filter (fun i => si_signo i = s) l) = if decide (n = s) then cnt n l else 0.
Proof.
  induction l as [|i l IH]; [by case_decide|].
  destruct (decide (si_signo i = s)) as [E|E];
    [rewrite filter_cons_True by done|rewrite filter_cons_False by done];
    rewrite !cnt_cons, ?IH; repeat case_decide; congruence || lia.
Qed.

Lemma cnt_by n ss p :
  NoDup ss -> cnt n (ss ≫= fun s => filter (fun i => si_signo i = s) p) = if decide (n ∈ ss) then cnt n p else 0.
Proof.
  induction 1 as [|s ss Hs Hn IH]; [done|]. cbn [mbind list_bind]. rewrite cnt_app, IH, cnt_filter_signo.
  destruct (decide (n = s)) as [->|Hne].
  - rewrite (decide_False (P := s ∈ ss)), decide_True by (done || left). lia.
  - destruct (decide (n ∈ ss)); [rewrite decide_True by (by right)|rewrite decide_False]; [done..|].
    rewrite elem_of_cons. tauto.
Qed.

Lemma NoDup_signals : NoDup signals.
Proof. vm_compute. repeat constructor; set_solver. Qed.

Lemma cnt_by_number n p : cnt n (by_number p) = if decide (n ∈ signals) then cnt n p else 0.
Proof. apply cnt_by, NoDup_signals. Qed.

Lemma elem_of_by_number i p : i ∈ by_number p -> i ∈ p.
Proof.
  unfold by_number. rewrite list_elem_of_bind. intros (s & Hi & _). by apply list_elem_of_filter in Hi as [_ Hi].
Qed.

(** *** Handlers *)

(** The counters after the signals [l] were handled. *)
Definition bump (l : list siginfo) (c : list Z) : list Z :=
  imap (fun n v => if decide (Z.of_nat n = SIGINT) then v else (v + Z.of_nat (cnt (Z.of_nat n) l))%Z) c.

Definition has_int (l : list siginfo) : bool := bool_decide (SIGINT ∈ (si_signo <$> l)).

(** Counters that can count [l]. *)
Definition roomy (c : list Z) (l : list siginfo) : Prop :=
  length c = 65 /\
  forall n v, c !! n = Some v -> (0 <= v /\ v + Z.of_nat (cnt (Z.of_nat n) l) <= INT_MAX)%Z.

Lemma bump_nil c : bump [] c = c.
Proof.
  apply list_eq. intros n. unfold bump. rewrite list_lookup_imap.
  destruct (c !! n); [|done]. cbn. f_equal. case_decide; [done|]. change (cnt _ []) with 0. lia.
Qed.

Lemma bump_bump l k c : bump k (bump l c) = bump (l ++ k) c.
Proof.
  apply list_eq. intros n. unfold bump. rewrite !list_lookup_imap.
  destruct (c !! n); [|done]. cbn. f_equal. rewrite cnt_app. case_decide; lia.
Qed.

Lemma bump_ext l k c :
  length c = 65 -> (forall n, n <= 64 -> cnt (Z.of_nat n) l = cnt (Z.of_nat n) k) -> bump l c = bump k c.
Proof.
  intros Hc H. apply list_eq. intros n. unfold bump. rewrite !list_lookup_imap.
  destruct (c !! n) eqn:E; [|done]. cbn. rewrite H; [done|]. apply lookup_lt_Some in E. lia.
Qed.

Lemma bump_length l c : length (bump l c) = length c.
Proof. apply length_imap. Qed.

Lemma roomy_app c l k : roomy c (l ++ k) -> roomy c l /\ roomy (bump l c) k.
Proof.
  intros [Hl Hr]. split; (split; [by rewrite ?bump_length|]).
  - intros n v Hv. specialize (Hr n v Hv). rewrite cnt_app in Hr. lia.
  - intros n v Hv. unfold bump in Hv. rewrite list_lookup_imap in Hv.
    destruct (c !! n) as [w|] eqn:E; cbn in Hv; [|done]. simplify_eq.
    specialize (Hr n w E). rewrite cnt_app in Hr. case_decide; lia.
Qed.

Lemma signals_bound n : n ∈ signals -> (1 <= n <= 64)%Z.
Proof. unfold signals. rewrite list_elem_of_fmap. intros (k & -> & Hk%elem_of_seq). lia. Qed.

Lemma bound_signals n : (1 <= n <= 64)%Z -> n ∈ signals.
Proof.
  intros Hn. unfold signals. apply list_elem_of_fmap. exists (Z.to_nat n). split; [lia|]. apply elem_of_seq. lia.
Qed.

(** The state after the handlers of [l] ran. *)
Definition handled (l : list siginfo) (r : rcv) : rcv :=
  Rcv (r_sigs r) (r_caught r) (bump l (sig_cnt r)) (got_sigint r || has_int l) (r_out r).

Lemma handle_one i r :
  catchable i -> si_signo i ∈ r_caught r -> roomy (sig_cnt r) [i] ->
  r_handle i r = Ret tt (handled [i] r).
Proof.
  intros [Hs _] Hc [Hl Hr]. apply signals_bound in Hs. unfold r_handle, sig_handler, handled. unix_unfold.
  rewrite decide_True by done. unfold has_int.
  destruct (decide (si_signo i = SIGINT)) as [E|E].
  - rewrite bool_decide_true by (cbn; rewrite E; by left). rewrite orb_true_r.
    do 2 f_equal. apply list_eq. intros n. unfold bump. rewrite list_lookup_imap.
    destruct (sig_cnt r !! n); [|done]. cbn. case_decide as En; [done|].
    rewrite cnt_cons, decide_False by congruence. change (cnt _ []) with 0. f_equal. lia.
  - rewrite bool_decide_false by (cbn; rewrite list_elem_of_singleton; congruence). rewrite orb_false_r.
    destruct (lookup_lt_is_Some_2 (sig_cnt r) (Z.to_nat (si_signo i))) as [v Hv]; [lia|].
    rewrite Hv. specialize (Hr _ _ Hv). rewrite Z2Nat.id, cnt_cons, decide_True in Hr by (done || lia).
    change (cnt _ []) with 0 in Hr. rewrite int_add_ok by (unfold INT_MIN; lia). cbn -[bump]. do 2 f_equal.
    apply list_eq. intros n. unfold bump. rewrite list_lookup_imap.
    destruct (decide (n = Z.to_nat (si_signo i))) as [->|Hn].
    + rewrite list_lookup_insert_eq, Hv by lia. cbn. rewrite decide_False by lia.
      rewrite cnt_cons, decide_True by lia. reflexivity.
    + rewrite list_lookup_insert_ne by done. destruct (sig_cnt r !! n) eqn:E2; [|done]. cbn. case_decide; [done|].
      rewrite cnt_cons, decide_False by lia. f_equal. change (cnt _ []) with 0. lia.
Qed.

Lemma has_int_app l k : has_int (l ++ k) = has_int l || has_int k.
Proof.
  unfold has_int. rewrite fmap_app, (bool_decide_ext _ _ (elem_of_app _ _ _)). apply bool_decide_or.
Qed.

Lemma handled_handled l k r : handled k (handled l r) = handled (l ++ k) r.
Proof. unfold handled. cbn -[bump]. by rewrite bump_bump, has_int_app, orb_assoc. Qed.

Lemma run_handlers_ok l r :
  Forall catchable l -> Forall (fun i => si_signo i ∈ r_caught r) l -> roomy (sig_cnt r) l ->
  run_handlers r_handle l r = Ret tt (handled l r).
Proof.
  revert r. induction l as [|i l IH]; intros r Hk Hc Hr; cbn [run_handlers].
  - unfold handled. rewrite bump_nil, orb_false_r. by destruct r.
  - apply Forall_cons in Hk as [Hi Hk]. apply Forall_cons in Hc as [Hic Hc].
    change (i :: l) with ([i] ++ l) in Hr |- *. apply roomy_app in Hr as [Hr1 Hr2].
    rewrite (bind_ret _ _ _ _ _ (handle_one i r Hi Hic Hr1)).
    rewrite IH by done. by rewrite handled_handled.
Qed.

(** *** The phases of the receiver *)

(** The mask while everything is blocked. *)
Definition full_mask : gset Z := sigfillset ∖ list_to_set unblockable.

Arguments full_mask : simpl never.

Lemma catchable_blocked i : catchable i -> si_signo i ∈ full_mask.
Proof.
  intros [Hs Hu]. unfold full_mask, sigfillset, unblockable, uncatchable in *.
  rewrite elem_of_difference, !elem_of_list_to_set, list_elem_of_filter. set_solver.
Qed.

Lemma filter_none {A} (P : A -> Prop) `{!forall x, Decision (P x)} (l : list A) :
  Forall (fun x => ~ P x) l -> filter P l = [].
Proof. induction 1 as [|x l Hx Hl IH]; [done|]. by rewrite filter_cons_False. Qed.

(** Nothing is delivered while all that is pending is blocked. *)
Lemma deliver_blocked {St} (get : St -> sigs) put handle s :
  Forall (fun i => si_signo i ∈ sg_mask (get s)) (sg_pend (get s)) ->
  put (get s) s = s ->
  deliver get put handle s = Ret tt s.
Proof.
  intros Hb Hp. unfold deliver. rewrite (filter_all _ _ Hb).
  rewrite filter_none by (eapply Forall_impl; [done|]; tauto).
  change (by_number []) with (@nil siginfo). cbn [run_handlers]. unix_unfold.
  destruct (get s) eqn:E. cbn [sg_mask sg_pend]. by rewrite Hp.
Qed.

(** Opening the mask delivers everything that is pending. *)
Lemma setmask_open {St} (get : St -> sigs) put handle s :
  (forall k s, get (put k s) = k) -> (forall k k' s, put k (put k' s) = put k s) ->
  setmask get put handle ∅ s = run_handlers handle (by_number (sg_pend (get s))) (put (Sigs ∅ []) s).
Proof.
  intros Hg Hp. unfold setmask. erewrite bind_ret by reflexivity. unfold deliver. rewrite Hg, Hp.
  cbn [sigprocmask sg_mask sg_pend]. replace (∅ ∖ list_to_set unblockable) with (∅ : gset Z) by set_solver.
  rewrite filter_all by (apply Forall_forall; set_solver).
  by rewrite filter_none by (apply Forall_forall; set_solver).
Qed.

(** Signals that arrive while all are blocked become pending. *)
Lemma arrivals_blocked sent r :
  Forall catchable sent -> sg_mask (r_sigs r) = full_mask -> Forall catchable (sg_pend (r_sigs r)) ->
  r_arrivals sent r = Ret tt (set_sigs (Sigs full_mask (posts (sg_pend (r_sigs r)) sent)) r).
Proof.
  intros Hs. revert r. induction Hs as [|i sent Hi Hs IH]; intros r Hm Hp.
  - unfold posts. cbn. rewrite <- Hm. by destruct r as [[] ? ? ? ?].
  - assert (Hpost : Forall catchable (post i (sg_pend (r_sigs r)))).
    { by apply Forall_post. }
    unfold r_arrivals. cbn [arrivals]. unfold arrive at 1.
    erewrite bind_ret; [|erewrite bind_ret by reflexivity; apply deliver_blocked; [|reflexivity]].
    + unfold r_arrivals in IH. rewrite IH; [done|done|done].
    + cbn [set_sigs r_sigs sg_mask sg_pend]. rewrite Hm. eapply Forall_impl; [done|]. apply catchable_blocked.
Qed.

Lemma setmask_full r :
  sg_pend (r_sigs r) = [] -> r_setmask sigfillset r = Ret tt (set_sigs (Sigs full_mask []) r).
Proof.
  intros Hp. unfold r_setmask, setmask. erewrite bind_ret by reflexivity.
  unfold sigprocmask. rewrite Hp. fold full_mask. rewrite deliver_blocked; [done|constructor|done].
Qed.

(** Signals are caught as [install] arranged. *)
Definition ready (r : rcv) : Prop := forall i, catchable i -> si_signo i ∈ r_caught r.

(** Unblocking delivers everything that is pending. *)
Lemma setmask_empty r :
  ready r -> Forall catchable (sg_pend (r_sigs r)) -> roomy (sig_cnt r) (sg_pend (r_sigs r)) ->
  r_setmask ∅ r = Ret tt (handled (sg_pend (r_sigs r)) (set_sigs (Sigs ∅ []) r)).
Proof.
  intros Hr Hp Hc. unfold r_setmask. rewrite setmask_open by done.
  set (p := sg_pend (r_sigs r)) in *.
  assert (Hcnt : forall n, n <= 64 -> cnt (Z.of_nat n) (by_number p) = cnt (Z.of_nat n) p).
  { intros n Hn. rewrite cnt_by_number. case_decide as Hs; [done|]. destruct (cnt (Z.of_nat n) p) eqn:E; [done|].
    exfalso. apply Hs. assert (Hin : Z.of_nat n ∈ (si_signo <$> p)) by (apply cnt_elem; lia).
    apply list_elem_of_fmap in Hin as (i & -> & Hi). rewrite Forall_forall in Hp. by apply (Hp i Hi). }
  assert (Hb : Forall catchable (by_number p)).
  { rewrite Forall_forall in Hp |- *. intros i Hi. by apply Hp, elem_of_by_number. }
  rewrite run_handlers_ok; [|done|by eapply Forall_impl|].
  - unfold handled. cbn -[bump]. f_equal. f_equal; [by apply bump_ext; [apply Hc|]|].
    f_equal. unfold has_int. apply bool_decide_ext. rewrite <- !cnt_elem. change SIGINT with (Z.of_nat 2). by rewrite Hcnt by lia.
  - destruct Hc as [Hl Hc]. split; [done|]. intros n v Hv. rewrite Hcnt; [by apply Hc|].
    apply lookup_lt_Some in Hv. cbn in Hv. lia.
Qed.

Lemma by_number_one i : si_signo i ∈ signals -> by_number [i] = [i].
Proof.
  intros Hi. unfold by_number.
  assert (Hone : forall ss, NoDup ss ->
    (ss ≫= fun s => filter (fun i => si_signo i = s) [i]) = if decide (si_signo i ∈ ss) then [i] else []).
  { induction 1 as [|s ss Hs Hn IH]; [done|]. rewrite bind_cons, IH.
    destruct (decide (si_signo i = s)) as [<-|Hne].
    - rewrite filter_cons_True, (decide_False (P := si_signo i ∈ ss)), decide_True by (done || left). done.
    - rewrite filter_cons_False by done. destruct (decide (si_signo i ∈ ss)).
      + by rewrite decide_True by (by right).
      + rewrite decide_False; [done|]. rewrite elem_of_cons. tauto. }
  rewrite (Hone _ NoDup_signals). by rewrite decide_True.
Qed.

(** A signal that arrives unblocked is handled at once. *)
Lemma arrive_one {St} (get : St -> sigs) put handle i s :
  (forall k s, get (put k s) = k) -> (forall k k' s, put k (put k' s) = put k s) ->
  si_signo i ∈ signals -> get s = Sigs ∅ [] ->
  arrive get put handle i s = run_handlers handle [i] (put (Sigs ∅ []) s).
Proof.
  intros Hg Hp Hi Hk. unfold arrive. erewrite bind_ret by reflexivity. rewrite Hk.
  unfold deliver, post, queue_up. rewrite Hg, Hp. cbn [sg_mask sg_pend fmap list_fmap filter list_filter].
  rewrite decide_False by (intros [_ []%elem_of_nil]). cbn [app].
  rewrite filter_cons_True, filter_nil by set_solver. rewrite filter_cons_False, filter_nil by set_solver.
  by rewrite by_number_one.
Qed.

Lemma arrive_open i r :
  ready r -> catchable i -> r_sigs r = Sigs ∅ [] -> roomy (sig_cnt r) [i] ->
  r_arrive i r = Ret tt (handled [i] r).
Proof.
  intros Hr Hi Hk Hc. unfold r_arrive. rewrite arrive_one by (done || apply Hi).
  rewrite run_handlers_ok; [| | |done].
  - unfold handled. cbn -[bump]. by rewrite Hk.
  - by apply Forall_singleton.
  - apply Forall_singleton. by apply Hr.
Qed.

(** The signals before the first SIGINT. *)
Fixpoint heard (l : list siginfo) : list siginfo :=
  match l with
  | [] => []
  | i :: l' => if decide (si_signo i = SIGINT) then [] else i :: heard l'
  end.

Lemma bump_int i c : si_signo i = SIGINT -> bump [i] c = c.
Proof.
  intros Hi. apply list_eq. intros n. unfold bump. rewrite list_lookup_imap.
  destruct (c !! n); [|done]. cbn. case_decide as E; [done|]. rewrite cnt_cons, decide_False by congruence.
  change (cnt _ []) with 0. f_equal. lia.
Qed.

Lemma has_int_cons i l : has_int (i :: l) = bool_decide (si_signo i = SIGINT) || has_int l.
Proof.
  change (i :: l) with ([i] ++ l). rewrite has_int_app. f_equal. unfold has_int. apply bool_decide_ext.
  cbn. rewrite list_elem_of_singleton. split; congruence.
Qed.

(** The loop ends with the first SIGINT, having counted what came before it;
    without one it does not end. *)
Lemma spin_ok later r :
  ready r -> Forall catchable later -> r_sigs r = Sigs ∅ [] -> roomy (sig_cnt r) later ->
  spin later r =
    if got_sigint r then Ret tt r
    else if has_int later then
      Ret tt (Rcv (r_sigs r) (r_caught r) (bump (heard later) (sig_cnt r)) true (r_out r))
    else Blocked (handled later r).
Proof.
  intros Hr Hk. revert r Hr. induction Hk as [|i later Hi Hk IH]; intros r Hr Hs Hc.
  - cbn. unix_unfold. destruct r as [k c n [] o]; [done|]. unfold handled. cbn -[bump]. by rewrite bump_nil.
  - cbn [spin]. unix_unfold. destruct (got_sigint r) eqn:Hg; [done|].
    change (i :: later) with ([i] ++ later) in Hc. apply roomy_app in Hc as [Hc1 Hc2].
    rewrite (arrive_open i r Hr Hi Hs Hc1). rewrite IH; [|done..].
    rewrite has_int_cons. cbn [heard handled got_sigint]. rewrite Hg, has_int_cons, orb_false_r. cbn [orb].
    destruct (decide (si_signo i = SIGINT)) as [E|E].
    + rewrite bool_decide_true by done. cbn -[bump]. unfold handled. rewrite bump_nil, (bump_int i) by done.
      rewrite has_int_cons, bool_decide_true by done. by rewrite orb_true_r.
    + rewrite bool_decide_false by done. cbn -[bump handled]. destruct (has_int later).
      * f_equal. unfold handled. cbn -[bump]. by rewrite bump_bump.
      * by rewrite handled_handled.
Qed.

Lemma install_ok l r :
  exists c, install l r = Ret tt (Rcv (r_sigs r) c (sig_cnt r) (got_sigint r) (r_out r)) /\
    forall s, s ∈ c <-> s ∈ r_caught r \/ (s ∈ l /\ s ∉ uncatchable).
Proof.
  revert r. induction l as [|n l IH]; intros r; cbn [install].
  - exists (r_caught r). split; [by destruct r|]. set_solver.
  - erewrite bind_ret by reflexivity. match goal with |- context [install l ?x] => destruct (IH x) as (c & -> & Hc) end.
    exists c. split; [done|]. intros s. rewrite Hc. cbn [r_caught]. case_decide; set_solver.
Qed.

(** The lines of the last loop for counters [f]. *)
Fixpoint counts_text (argv0 : string) (f : Z -> Z) (l : list Z) : string :=
  match l with
  | [] => ""
  | n :: l' =>
    (if decide (f n ≠ 0%Z) then
       argv0 +:+ ": signal " +:+ pretty n +:+ " caught " +:+ pretty (f n) +:+ " time" +:+
       (if decide (f n = 1%Z) then "" else "s") +:+ nl
     else "") +:+ counts_text argv0 f l'
  end.

Lemma show_counts_ok argv0 f l r :
  (forall n, n ∈ l -> sig_cnt r !! Z.to_nat n = Some (f n)) ->
  show_counts argv0 l r =
    Ret tt (Rcv (r_sigs r) (r_caught r) (sig_cnt r) (got_sigint r) (r_out r +:+ counts_text argv0 f l)).
Proof.
  revert r. induction l as [|n l IH]; intros r Hf; cbn [show_counts counts_text].
  - rewrite str_app_nil_r. by destruct r.
  - unix_unfold. rewrite (Hf n) by (by left). case_decide.
    + unfold r_printf. unix_unfold. rewrite IH by (intros k Hk; apply Hf; by right).
      cbn [r_sigs r_caught sig_cnt got_sigint r_out]. by rewrite str_app_assoc.
    + by rewrite IH by (intros k Hk; apply Hf; by right).
Qed.

(** *** The receiver *)

(** The process at its start. *)
Definition rcv0 : rcv := Rcv (Sigs ∅ []) ∅ (replicate 65 0%Z) false "".

(** How often signal [s] is caught when [sent] comes while it is blocked and
    [later] after that. *)
Definition caught_count (sent later : list siginfo) (s : Z) : Z :=
  if decide (s = SIGINT) then 0%Z
  else Z.of_nat ((if decide (s < 32)%Z then min 1 (cnt s sent) else cnt s sent) +
                 cnt s (if has_int sent then [] else heard later)).

Lemma bump_lookup l n v c :
  c !! n = Some v ->
  bump l c !! n = Some (if decide (Z.of_nat n = SIGINT) then v else (v + Z.of_nat (cnt (Z.of_nat n) l))%Z).
Proof. intros H. unfold bump. by rewrite list_lookup_imap, H. Qed.

(** The last loop and the end of [main]. *)
Lemma show_tail argv0 l r :
  sig_cnt r = bump l (replicate 65 0%Z) ->
  ((show_counts argv0 signals ;; c_exit 0) : prog rcv unit) r =
    Exited 0 (Rcv (r_sigs r) (r_caught r) (sig_cnt r) (got_sigint r)
      (r_out r +:+ counts_text argv0 (fun s => if decide (s = SIGINT) then 0%Z else Z.of_nat (cnt s l)) signals)).
Proof.
  intros Hl. erewrite bind_ret; [reflexivity|]. apply show_counts_ok.
  intros n Hn. apply signals_bound in Hn. rewrite Hl, (bump_lookup l _ 0%Z).
  - rewrite Z2Nat.id by lia. by case_decide.
  - apply lookup_replicate. split; [done|]. lia.
Qed.

(** [main] after the signals were unblocked. *)
Lemma recv_tail argv0 p later k c g o :
  ready (Rcv k c (bump p (replicate 65 0%Z)) g o) -> Forall catchable later -> k = Sigs ∅ [] ->
  g = has_int p -> (Z.of_nat (length p + length later) <= INT_MAX)%Z ->
  exists r,
    ((spin later ;; show_counts argv0 signals ;; c_exit 0) : prog rcv unit) (Rcv k c (bump p (replicate 65 0%Z)) g o) =
      (if has_int p || has_int later then Exited 0 r else Blocked r) /\
    r_out r = if has_int p || has_int later then
        o +:+ counts_text argv0 (fun s => if decide (s = SIGINT) then 0%Z
                 else Z.of_nat (cnt s (p ++ if has_int p then [] else heard later))) signals
      else o.
Proof.
  intros Hr Hk -> -> Hlen.
  assert (Hroom : roomy (bump p (replicate 65 0%Z)) later).
  { split; [by rewrite bump_length|]. intros n v Hv. unfold bump in Hv. rewrite list_lookup_imap in Hv.
    destruct (replicate 65 0%Z !! n) as [w|] eqn:E; [|done]. apply lookup_replicate in E as [-> _].
    cbn in Hv. pose proof (cnt_le (Z.of_nat n) p). pose proof (cnt_le (Z.of_nat n) later).
    simplify_eq. unfold SIGINT. case_decide; lia. }
  unfold mbind at 1, prog_bind at 1. rewrite spin_ok by done. cbn [got_sigint].
  destruct (has_int p); cbn [orb]; [|destruct (has_int later); [|by eexists]].
  - rewrite (show_tail argv0 p) by done. rewrite app_nil_r. by eexists.
  - rewrite (show_tail argv0 (p ++ heard later)) by (cbn [sig_cnt]; apply bump_bump). by eexists.
Qed.

Lemma counts_text_ext argv0 f g l :
  (forall n, n ∈ l -> f n = g n) -> counts_text argv0 f l = counts_text argv0 g l.
Proof.
  induction l as [|n l IH]; intros H; [done|]. cbn [counts_text]. rewrite (H n) by (by left).
  rewrite IH; [done|]. intros k Hk. apply H. by right.
Qed.

Lemma has_int_posts sent : calm sent -> has_int (posts [] sent) = has_int sent.
Proof.
  intros Hc. unfold has_int. apply bool_decide_ext. rewrite <- !cnt_elem, cnt_posts by done.
  change (cnt SIGINT []) with 0. cbn [decide]. repeat case_decide; lia.
Qed.

Lemma length_posts p sent : length (posts p sent) <= length p + length sent.
Proof.
  unfold posts. revert p. induction sent as [|i sent IH]; intros p; cbn [foldl length]; [lia|].
  etrans; [apply IH|]. pose proof (post_length i p). lia.
Qed.

(** The counts of the pending and the later signals are those expected. *)
Lemma count_text_expected argv0 sent later :
  calm sent ->
  counts_text argv0 (fun s => if decide (s = SIGINT) then 0%Z
    else Z.of_nat (cnt s (posts [] sent ++ if has_int (posts [] sent) then [] else heard later))) signals =
  counts_text argv0 (caught_count sent later) signals.
Proof.
  intros Hc. apply counts_text_ext. intros n _. unfold caught_count. case_decide; [done|]. f_equal.
  rewrite has_int_posts, cnt_app, cnt_posts by done. change (cnt n []) with 0. repeat case_decide; lia.
Qed.

(** What the receiver prints before it waits for SIGINT. *)
Definition recv_head (strsignal : Z -> string) (argv0 : string) (secs : option Z) (pid : Z) (sent : list siginfo) : string :=
  (argv0 +:+ "s: PID is " +:+ pretty pid +:+ nl) +:+
  match secs with
  | None => ""
  | Some n =>
    (argv0 +:+ ": sleeping for " +:+ pretty n +:+ " seconds" +:+ nl) +:+
    (argv0 +:+ ": pending signals are: " +:+ nl) +:+
    print_sigset strsignal (tab +:+ tab) (list_to_set (si_signo <$> sent))
  end.

Lemma recv_main_ok strsignal argv0 argv1 secs pid sent later e1 e2 e3 :
  atoi <$> argv1 = Some <$> secs -> e1 ≠ (-1)%Z -> e2 ≠ (-1)%Z -> e3 ≠ (-1)%Z ->
  Forall catchable (sent ++ later) -> (Z.of_nat (length sent + length later) <= INT_MAX)%Z ->
  (secs = None -> sent = []) -> calm sent ->
  let head := recv_head strsignal argv0 secs pid sent in
  exists r,
    recv_main strsignal argv0 argv1 pid sent later e1 e2 e3 rcv0 =
      (if has_int sent || has_int later then Exited 0 r else Blocked r) /\
    r_out r = if has_int sent || has_int later
              then head +:+ counts_text argv0 (caught_count sent later) signals else head.
Proof.
  intros Ha He1 He2 He3 Hk Hlen Hnone Hcalm head. apply Forall_app in Hk as [Hks Hkl]. unfold recv_main.
  erewrite bind_ret by reflexivity.
  match goal with |- context [(install signals ≫= _) ?x] => destruct (install_ok signals x) as (c & Hi & Hc) end.
  rewrite (bind_ret _ _ _ _ _ Hi). cbn [r_sigs sig_cnt got_sigint r_out rcv0].
  assert (Hready : forall k n g o, ready (Rcv k c n g o)).
  { intros k n g o i [H1 H2]. apply Hc. by right. }
  destruct argv1 as [a|], secs as [n|]; try done; cycle 1.
  - erewrite bind_ret by reflexivity. rewrite (Hnone eq_refl) in *.
    rewrite <- (bump_nil (replicate 65 0%Z)).
    match goal with |- context [Rcv _ _ _ _ ?o] =>
      destruct (recv_tail argv0 [] later (Sigs ∅ []) c false o (Hready _ _ _ _) Hkl eq_refl eq_refl) as (r & H1 & H2) end;
      [cbn in *; lia|].
    rewrite <- (count_text_expected argv0 [] later) by (intros ? ? []%elem_of_nil). exists r. split; [exact H1|]. rewrite H2.
    unfold head, recv_head. by rewrite str_app_nil_r.
  - cbn in Ha. injection Ha as Ha. rewrite Ha. rewrite !decide_False by done.
    assert (Hp : Forall catchable (posts [] sent)).
    { rewrite Forall_forall in Hks |- *. intros i Hin. apply Hks. apply elem_of_posts in Hin as [[]%elem_of_nil|Hin]; done. }
    erewrite bind_ret; cycle 1.
    { erewrite bind_ret by reflexivity. erewrite bind_ret by (by apply setmask_full).
      erewrite bind_ret by reflexivity. erewrite bind_ret by (by apply arrivals_blocked).
      erewrite bind_ret by reflexivity. erewrite bind_ret by reflexivity.
      erewrite bind_ret by reflexivity. erewrite bind_ret by reflexivity.
      apply setmask_empty; [apply Hready|done|].
      split; [done|]. intros k v Hv. apply lookup_replicate in Hv as [-> _].
      pose proof (cnt_le (Z.of_nat k) (posts [] sent)). pose proof (length_posts [] sent).
      cbn [length] in *. cbn [r_sigs sg_pend set_sigs]. lia. }
    unfold handled, set_sigs. cbn [r_sigs r_caught sig_cnt got_sigint r_out sg_pend sg_mask orb].
    rewrite has_int_posts by done. pose proof (length_posts [] sent) as Hlp. cbn [length] in Hlp.
    match goal with |- context [Rcv _ _ _ _ ?o] =>
      destruct (recv_tail argv0 (posts [] sent) later (Sigs ∅ []) c _ o (Hready _ _ _ _) Hkl eq_refl
        (eq_sym (has_int_posts sent Hcalm))) as (r & H1 & H2); [lia|] end.
    rewrite count_text_expected in H2 by done. rewrite has_int_posts in H1, H2 by done. exists r. split; [exact H1|]. rewrite H2.
    unfold head, recv_head, sigpending. cbn [sg_pend]. rewrite signo_posts by done. rewrite !str_app_assoc, !str_app_nil_l. reflexivity.
Qed.

(** *** The sender, and both programs together *)

Lemma kill_loop kr n i pid sig s :
  kr pid sig ≠ (-1)%Z ->
  for_loop n i (fun _ => kill kr pid sig) s =
    Ret tt (Snd (s_kills s ++ replicate n (pid, sig)) (s_text s)).
Proof.
  intros Hk. revert i s. induction n as [|n IH]; intros i s; cbn [for_loop replicate].
  - rewrite app_nil_r. by destruct s.
  - erewrite bind_ret by (unfold kill; rewrite decide_False by done; reflexivity).
    rewrite IH. cbn [s_kills s_text]. by rewrite <- app_assoc.
Qed.

(** With numbers as arguments the sender sends the signal as often as asked,
    then the last one, and ends with 0. *)
Lemma send_main_ok kr argv0 pid num sig last :
  in_int pid = true -> in_int num = true -> in_int sig = true -> in_int last = true ->
  (forall s, kr pid s ≠ (-1)%Z) ->
  exists t, send_main kr [argv0; pretty pid; pretty num; pretty sig; pretty last] (Snd [] "") =
    Exited 0 (Snd (replicate (Z.to_nat num) (pid, sig) ++ [(pid, last)]) t).
Proof.
  intros Hp Hn Hs Hl Hk. unfold send_main.
  rewrite decide_False by (apply pretty_not_help). rewrite !atoi_pretty, atol_pretty by done.
  cbn [fmap option_fmap option_map]. rewrite to_int_in by done.
  repeat (erewrite bind_ret by reflexivity).
  erewrite bind_ret by (by apply kill_loop). unfold kill. unix_unfold. rewrite decide_False by done. by eexists.
Qed.

(** [kill] from process [pid] of user [uid] as the receiver gets it. *)
Definition SI_USER : Z := 0.
Definition user_info (pid uid : Z) (k : Z * Z) : siginfo := Info k.2 SI_USER 0 pid uid.

Lemma counts_text_one argv0 f n l :
  NoDup l -> n ∈ l -> f n ≠ 0%Z -> (forall k, k ≠ n -> f k = 0%Z) ->
  counts_text argv0 f l =
    argv0 +:+ ": signal " +:+ pretty n +:+ " caught " +:+ pretty (f n) +:+ " time" +:+
    (if decide (f n = 1%Z) then "" else "s") +:+ nl.
Proof.
  intros Hnd Hin Hf Hz.
  assert (Hnone : forall l, n ∉ l -> counts_text argv0 f l = "").
  { induction l0 as [|k l0 IH]; [done|]. rewrite not_elem_of_cons. intros [Hk Hl]. cbn [counts_text].
    rewrite (Hz k) by done. rewrite decide_False by auto. by apply IH. }
  induction Hnd as [|k l Hk Hnd IH]; [by apply elem_of_nil in Hin|]. cbn [counts_text].
  destruct (decide (k = n)) as [->|Hkn].
  - rewrite decide_True by done. by rewrite Hnone, str_app_nil_r.
  - rewrite (Hz k) by done. rewrite decide_False by auto. rewrite str_app_nil_l. apply IH. set_solver.
Qed.

Lemma cnt_replicate n s k uid pid :
  cnt n (user_info pid uid <$> replicate k s) = if decide (s.2 = n) then k else 0.
Proof.
  induction k as [|k IH]; cbn [replicate]; [by case_decide|].
  rewrite fmap_cons, cnt_cons, IH. cbn [si_signo user_info]. case_decide; lia.
Qed.

(** Property C28.  The sender sends a signal [num] times and then SIGINT
    while the receiver sleeps with all signals blocked.  The receiver then
    shows both as pending, unblocks them, reports a standard signal as caught
    once however often it was sent, a real-time signal as caught [num] times,
    and ends with 0; no other signal is reported. *)
Theorem sender_receiver strsignal kr recv_argv0 send_argv0 secs rpid spid uid num sig :
  in_int secs = true -> in_int rpid = true -> (1 <= num < INT_MAX)%Z ->
  sig ∈ signals -> sig ∉ uncatchable -> sig ≠ SIGINT ->
  (forall s, kr rpid s ≠ (-1)%Z) ->
  exists kills t r,
    send_main kr [send_argv0; pretty rpid; pretty num; pretty sig; pretty SIGINT] (Snd [] "") =
      Exited 0 (Snd kills t) /\
    recv_main strsignal recv_argv0 (Some (pretty secs)) rpid (user_info spid uid <$> kills) [] 0 0 0 rcv0 =
      Exited 0 r /\
    let times := if decide (sig < 32)%Z then 1%Z else num in
    r_out r = (recv_argv0 +:+ "s: PID is " +:+ pretty rpid +:+ nl) +:+
      (recv_argv0 +:+ ": sleeping for " +:+ pretty secs +:+ " seconds" +:+ nl) +:+
      (recv_argv0 +:+ ": pending signals are: " +:+ nl) +:+
      print_sigset strsignal (tab +:+ tab) {[SIGINT; sig]} +:+
      recv_argv0 +:+ ": signal " +:+ pretty sig +:+ " caught " +:+ pretty times +:+ " time" +:+
      (if decide (times = 1%Z) then "" else "s") +:+ nl.
Proof.
  intros Hsecs Hrp Hnum Hs Hu Hi Hk. pose proof (signals_bound sig Hs) as Hb.
  assert (Hint : forall z, (0 <= z <= INT_MAX)%Z -> in_int z = true).
  { intros z Hz. apply in_int_iff. unfold INT_MIN in *. lia. }
  destruct (send_main_ok kr send_argv0 rpid num sig SIGINT) as [t Ht];
    [done|apply Hint; lia|apply Hint; unfold INT_MAX; lia|done|done|].
  set (kills := replicate (Z.to_nat num) (rpid, sig) ++ [(rpid, SIGINT)]) in *.
  set (sent := user_info spid uid <$> kills).
  assert (Hcnt : forall n, cnt n sent = (if decide (sig = n) then Z.to_nat num else 0) + if decide (SIGINT = n) then 1 else 0).
  { intros n. unfold sent, kills. rewrite fmap_app, cnt_app, cnt_replicate. cbn [fmap list_fmap snd].
    rewrite cnt_cons. change (cnt n []) with 0. cbn [si_signo user_info snd]. repeat case_decide; lia. }
  assert (Hhas : has_int sent = true).
  { unfold has_int. apply bool_decide_eq_true_2, cnt_elem. rewrite Hcnt. repeat case_decide; done || lia. }
  destruct (recv_main_ok strsignal recv_argv0 (Some (pretty secs)) (Some secs) rpid sent [] 0 0 0) as (r & H1 & H2);
    try done.
  - cbn. by rewrite atoi_pretty.
  - rewrite app_nil_r. apply Forall_forall. intros i Hin. apply list_elem_of_fmap in Hin as (k & -> & Hin).
    unfold catchable, kills in *. cbn [si_signo user_info]. apply elem_of_app in Hin as [Hin|Hin].
    + apply elem_of_replicate in Hin as [-> _]. done.
    + apply list_elem_of_singleton in Hin. subst k. split; [apply bound_signals; unfold SIGINT; cbn; lia|].
      unfold uncatchable. cbn. set_solver by done.
  - unfold sent, kills. rewrite length_fmap, length_app, length_replicate. cbn. lia.
  - assert (Hno : forall i, i ∈ sent -> si_signo i = sig \/ si_signo i = SIGINT).
    { intros i Hin. unfold sent, kills in Hin. apply list_elem_of_fmap in Hin as (k & -> & Hin). cbn [si_signo user_info].
      apply elem_of_app in Hin as [[-> _]%elem_of_replicate| ->%list_elem_of_singleton]; auto. }
    intros i j Hii%Hno Hjj%Hno. unfold discards, stop_signals, SIGINT, SIGCONT, SIGSTOP, SIGTSTP, SIGTTIN, SIGTTOU in *.
    repeat case_decide; set_solver by lia.
  - rewrite Hhas in H1, H2. exists kills, t, r. split; [done|]. split; [done|]. cbn zeta. rewrite H2.
    assert (Hcc : forall n, caught_count sent [] n =
      if decide (n = sig) then (if decide (sig < 32)%Z then 1%Z else num) else 0%Z).
    { intros n. unfold caught_count. rewrite Hcnt, Hhas. change (cnt n []) with 0.
      repeat case_decide; subst; try done; lia. }
    assert (Hset : list_to_set (C := gset Z) (si_signo <$> sent) = {[SIGINT; sig]}).
    { apply set_eq. intros n. rewrite elem_of_list_to_set, <- cnt_elem, Hcnt, elem_of_union, !elem_of_singleton.
      repeat case_decide; split; intros; try lia; subst; auto; destruct_or?; congruence. }
    rewrite (counts_text_one _ _ sig), Hcc, decide_True; [|done|apply NoDup_signals|done|..].
    + unfold recv_head. rewrite Hset, !str_app_assoc. reflexivity.
    + rewrite Hcc, decide_True by done. case_decide; lia.
    + intros k Hkn. by rewrite Hcc, decide_False.
Qed.

Lemma sender_receiver_witness :
  (34%Z ∈ signals /\ 34%Z ∉ uncatchable) /\
  exists kills t r,
    send_main (fun _ _ => 0%Z) ["sender"; "4321"; "1000"; "34"; "2"] (Snd [] "") = Exited 0 (Snd kills t) /\
    recv_main (fun _ => "") "receiver" (Some "15") 4321 (user_info 77 0 <$> kills) [] 0 0 0 rcv0 = Exited 0 r /\
    r_out r = "receivers: PID is 4321" +:+ nl +:+ "receiver: sleeping for 15 seconds" +:+ nl +:+
      "receiver: pending signals are: " +:+ nl +:+
      print_sigset (fun _ => "") (tab +:+ tab) {[SIGINT; 34%Z]} +:+
      "receiver: signal 34 caught 1000 times" +:+ nl.
Proof.
  assert (Hs : 34%Z ∈ signals) by (apply bound_signals; lia).
  assert (Hu : 34%Z ∉ uncatchable) by (vm_compute; set_solver by done).
  split; [by split|].
  destruct (sender_receiver (fun _ => "") (fun _ _ => 0%Z) "receiver" "sender" 15 4321 77 0 1000 34)
    as (kills & t & r & H1 & H2 & H3); try done.
  exists kills, t, r. split; [exact H1|]. split; [exact H2|]. rewrite H3. vm_compute. reflexivity.
Defined.
