(* ===== verification/RtSignals.v ===== *)
(** * signal/rt_sig_recv.c and rt_signal.c: queued signals

    rt_signal.c sends real-time signals with data; rt_sig_recv.c blocks them
    for a while and then handles them, and waits with [pause] for the signal
    that ends it. *)

From stdpp Require Import sorting.
From S2P Require Import Prelude Scan Signals.

Definition SI_QUEUE : Z := -1.

(** ** rt_sig_recv.c *)

(** The process: its signals and which are caught, the static variables, the
    output. *)
Record rt := Rt {
  t_sigs : sigs; t_caught : gset Z; sigCnt : Z; allDone : bool; t_out : string
}.
Definition t_set_sigs (k : sigs) (r : rt) : rt := Rt k (t_caught r) (sigCnt r) (allDone r) (t_out r).
Definition t_printf (t : string) : prog rt unit := modify (fun r =>
  Rt (t_sigs r) (t_caught r) (sigCnt r) (allDone r) (t_out r +:+ t)).

(** The lines printed for a signal. *)
Definition info_text (sig : Z) (si : siginfo) : string :=
  "Caught signal " +:+ pretty sig +:+ nl +:+
  tab +:+ "si_signo = " +:+ pretty (si_signo si) +:+ ", si_code = " +:+ pretty (si_code si) +:+ " (" +:+
  (if decide (si_code si = SI_USER) then "SI_USER"
   else if decide (si_code si = SI_QUEUE) then "SI_QUEUE" else "other") +:+ "), " +:+
  "si_value = " +:+ pretty (si_value si) +:+ nl +:+
  tab +:+ "si_pid = " +:+ pretty (si_pid si) +:+ ", si_uid = " +:+ pretty (si_uid si) +:+ nl.

Definition siginfoHandler (sig : Z) (si : siginfo) : prog rt unit :=
  if decide (sig = SIGINT \/ sig = SIGTERM) then
    modify (fun r => Rt (t_sigs r) (t_caught r) (sigCnt r) true (t_out r))
  else
    n ← gets sigCnt ;
    n' ← need (int_add n 1) ;
    modify (fun r => Rt (t_sigs r) (t_caught r) n' (allDone r) (t_out r)) ;;
    t_printf (info_text sig si).

(** A delivered signal: the handler, or the default action of the signals
    that are not caught (to stop, or to end with the status a shell shows).
    The handler's mask is full, so that handlers run one after the other. *)
Definition t_handle (i : siginfo) : prog rt unit :=
  c ← gets t_caught ;
  if decide (si_signo i ∈ c) then siginfoHandler (si_signo i) i
  else if decide (si_signo i ∈ [SIGSTOP; SIGTSTP]) then c_block
  else c_exit (128 + si_signo i).

Definition t_arrive : siginfo -> prog rt unit := arrive t_sigs t_set_sigs t_handle.
Definition t_setmask : gset Z -> prog rt unit := setmask t_sigs t_set_sigs t_handle.

(** The loop with [sigaction]. *)
Fixpoint t_install (l : list Z) : prog rt unit :=
  match l with
  | [] => mret tt
  | sig :: l' =>
    (if decide (sig ≠ SIGTSTP /\ sig ≠ SIGQUIT) then
       modify (fun r => Rt (t_sigs r) (if decide (sig ∈ uncatchable) then t_caught r else {[sig]} ∪ t_caught r)
                           (sigCnt r) (allDone r) (t_out r))
     else mret tt) ;;
    t_install l'
  end.

(** [sleep] while [l] arrives: a signal that is not blocked ends it; what has
    not arrived by then. *)
Fixpoint sleeping (l : list siginfo) : prog rt (list siginfo) :=
  match l with
  | [] => mret []
  | i :: l' =>
    k ← gets t_sigs ;
    t_arrive i ;;
    if decide (si_signo i ∈ sg_mask k) then sleeping l' else mret l'
  end.

(** [while (!allDone) pause();]: every signal of [later] says whether it
    arrives between the test and the start of [pause] ([true]) or during
    [pause]; [paused] says that the process is in [pause]. *)
Fixpoint pause_loop (paused : bool) (later : list (siginfo * bool)) : prog rt unit :=
  d ← gets allDone ;
  if negb paused && d then mret tt
  else match later with
       | [] => c_block
       | (i, early) :: later' => t_arrive i ;; pause_loop (negb paused && early) later'
       end.

(** [main]: [e1] and [e2] are the results of [sigprocmask]. *)
Definition rt_main (argv : list string) (pid : Z) (sent : list siginfo) (later : list (siginfo * bool)) (e1 e2 : Z)
    : prog rt unit :=
  match argv with
  | argv0 :: argv1 :: argv2 :: _ =>
    t_printf (argv0 +:+ ": PID is " +:+ pretty pid +:+ nl) ;;
    need (atoi argv2) ;;
    t_install signals ;;
    k ← gets t_sigs ;
    let prevMask := sg_mask k in
    (if decide (e1 = (-1)%Z) then c_exit (-1) else t_setmask (sigfillset ∖ {[SIGINT; SIGTERM]})) ;;
    t_printf (argv0 +:+ ": signals blocked - sleeping " +:+ argv1 +:+ " seconds" +:+ nl) ;;
    need (atoi argv1) ;;
    rest ← sleeping sent ;
    t_printf (argv0 +:+ ": sleep complete" +:+ nl) ;;
    (if decide (e2 = (-1)%Z) then c_exit (-1) else t_setmask prevMask) ;;
    pause_loop false (((fun i => (i, false)) <$> rest) ++ later) ;;
    c_exit 0
  | argv0 :: _ => t_printf (argv0 +:+ ": PID is " +:+ pretty pid +:+ nl) ;; c_fault   (* atoi(NULL) *)
  | [] => c_fault
  end.

(** ** rt_signal.c *)

(** The signals queued (receiver, signal, value), and the output. *)
Record rtsend := RtSend { q_sent : list (Z * Z * Z); q_text : string }.
Definition q_printf (t : string) : prog rtsend unit := modify (fun s => RtSend (q_sent s) (q_text s +:+ t)).

Section RtSignal.
(** What [sigqueue] returns, and who the sender is. *)
Context (sigqueue_res : Z -> Z -> Z -> Z) (mypid uid : Z).

Definition sigqueue (pid sig value : Z) : prog rtsend unit :=
  if decide (sigqueue_res pid sig value = (-1)%Z) then c_exit (-1)
  else modify (fun s => RtSend (q_sent s ++ [(pid, sig, value)]) (q_text s)).

(** The loop, from index [i]. *)
Fixpoint queue_loop (n : nat) (i : Z) (argv1 : string) (sig sigData : Z) : prog rtsend unit :=
  match n with
  | O => mret tt
  | S n' =>
    v ← need (int_add sigData i) ;
    pid ← need (to_int <$> atol argv1) ;
    sigqueue pid sig v ;;
    queue_loop n' (i + 1) argv1 sig sigData
  end.

Definition rt_usage (argv0 : string) : prog rtsend unit :=
  q_printf ("Usage: " +:+ argv0 +:+ " pid sig-num data [num-sigs]" +:+ nl) ;; c_exit 0.

Definition rt_signal_main (argv : list string) : prog rtsend unit :=
  match argv with
  | argv0 :: argv1 :: argv2 :: argv3 :: more =>
    if decide (argv1 = "--help") then rt_usage argv0
    else
      q_printf (argv0 +:+ ": PID is " +:+ pretty mypid +:+ ", UID is " +:+ pretty uid +:+ nl) ;;
      sig ← need (atoi argv2) ;
      sigData ← need (atoi argv3) ;
      numSigs ← match more with argv4 :: _ => need (atoi argv4) | [] => mret 1%Z end ;
      queue_loop (Z.to_nat numSigs) 0 argv1 sig sigData ;;
      c_exit 0
  | argv0 :: _ => rt_usage argv0
  | [] => c_fault
  end.

(** What the receiver gets. *)
Definition queue_info (x : Z * Z * Z) : siginfo := Info x.1.2 SI_QUEUE x.2 mypid uid.
End RtSignal.

(** ** Properties *)

(** *** The order of delivery *)

Lemma filter_by_number s p :
  filter (fun i => si_signo i = s) (by_number p) = if decide (s ∈ signals) then filter (fun i => si_signo i = s) p else [].
Proof.
  unfold by_number. pose proof NoDup_signals as Hn. revert Hn. generalize signals as ss.
  induction 1 as [|n ss Hs Hn IH]; [done|]. rewrite bind_cons, filter_app, IH, list_filter_filter.
  destruct (decide (s = n)) as [->|Hne].
  - rewrite (decide_False (P := n ∈ ss)), decide_True by (done || left). rewrite app_nil_r.
    apply list_filter_iff. tauto.
  - rewrite filter_none by (apply Forall_forall; intros i _; naive_solver). cbn [app].
    destruct (decide (s ∈ ss)); [rewrite decide_True by (by right)|rewrite decide_False by set_solver]; done.
Qed.

Definition num_le (i j : siginfo) : Prop := (si_signo i <= si_signo j)%Z.

Lemma by_number_sorted p : StronglySorted num_le (by_number p).
Proof.
  unfold by_number.
  assert (Hs : StronglySorted Z.lt signals) by (vm_compute; repeat constructor; reflexivity).
  revert Hs. generalize signals as ss. induction 1 as [|n ss Hs IH Hn]; [constructor|].
  rewrite bind_cons. generalize p at 1 as q. induction q as [|i q IHq]; [done|].
  destruct (decide (si_signo i = n)) as [E|E]; [|by rewrite filter_cons_False].
  rewrite filter_cons_True by done. cbn [app]. constructor; [done|].
  apply Forall_forall. intros j Hj. unfold num_le. apply elem_of_app in Hj as [Hj|Hj].
  - apply list_elem_of_filter in Hj as [-> _]. lia.
  - apply list_elem_of_bind in Hj as (k & Hj & Hk). apply list_elem_of_filter in Hj as [-> _].
    rewrite Forall_forall in Hn. specialize (Hn k Hk). lia.
Qed.

Lemma by_number_perm p : Forall (fun i => si_signo i ∈ signals) p -> by_number p ≡ₚ p.
Proof.
  intros Hp. unfold by_number. induction Hp as [|i p Hi Hp IH]; [done|].
  trans (i :: (signals ≫= fun s => filter (fun i => si_signo i = s) p)); [|by rewrite IH]. clear IH Hp. pose proof NoDup_signals as Hn. revert Hn Hi. generalize signals as ss.
  induction 1 as [|n ss Hs Hn IH]; intros Hi; [by apply elem_of_nil in Hi|]. rewrite !bind_cons.
  destruct (decide (si_signo i = n)) as [E|E].
  - rewrite filter_cons_True by done. cbn [app]. constructor. f_equiv.
    assert (Hsame : forall ss, n ∉ ss -> (ss ≫= fun s => filter (fun i => si_signo i = s) (i :: p)) =
                                      (ss ≫= fun s => filter (fun i => si_signo i = s) p)).
    { induction ss0 as [|k ks IHk]; [done|]. rewrite not_elem_of_cons. intros [H1 H2]. rewrite !bind_cons.
      rewrite filter_cons_False by congruence. by rewrite IHk. }
    by rewrite Hsame.
  - rewrite filter_cons_False by done. rewrite IH by set_solver. by rewrite Permutation_middle.
Qed.

(** Real-time signals all stay pending. *)
Lemma posts_rt p sent : Forall (fun i => (32 <= si_signo i)%Z) sent -> posts p sent = p ++ sent.
Proof.
  unfold posts. intros H. revert p. induction H as [|i sent Hi H IH]; intros p; cbn [foldl]; [by rewrite app_nil_r|].
  assert (discards (si_signo i) = []) as Hd.
  { unfold discards, stop_signals, SIGCONT, SIGSTOP, SIGTSTP, SIGTTIN, SIGTTOU.
    rewrite decide_False by lia. rewrite decide_False; [done|]. rewrite !not_elem_of_cons. repeat split; (lia || apply not_elem_of_nil). }
  rewrite IH. unfold post, queue_up. rewrite Hd, filter_all by (apply Forall_forall; intros; apply not_elem_of_nil).
  rewrite decide_False by lia. by rewrite <- app_assoc.
Qed.

(** *** The receiver *)

(** Signals that the handler prints. *)
Definition quiet (i : siginfo) : Prop :=
  catchable i /\ si_signo i ∉ [SIGINT; SIGTERM; SIGTSTP; SIGQUIT].

(** The handler's output for [l]. *)
Fixpoint texts (l : list siginfo) : string :=
  match l with [] => "" | i :: l' => info_text (si_signo i) i +:+ texts l' end.

Lemma t_handlers_ok l r :
  Forall quiet l -> Forall (fun i => si_signo i ∈ t_caught r) l ->
  (0 <= sigCnt r)%Z -> (sigCnt r + Z.of_nat (length l) <= INT_MAX)%Z ->
  run_handlers t_handle l r =
    Ret tt (Rt (t_sigs r) (t_caught r) (sigCnt r + Z.of_nat (length l)) (allDone r) (t_out r +:+ texts l)).
Proof.
  intros Hq. revert r. induction Hq as [|i l [Hi Hn] Hq IH]; intros r Hc Hz Hb; cbn [run_handlers texts].
  - rewrite str_app_nil_r, Z.add_0_r. by destruct r.
  - apply Forall_cons in Hc as [Hci Hc]. cbn [length] in Hb.
    assert (Hone : t_handle i r = Ret tt (Rt (t_sigs r) (t_caught r) (sigCnt r + 1) (allDone r)
                                            (t_out r +:+ info_text (si_signo i) i))).
    { unfold t_handle, siginfoHandler, t_printf. unix_unfold. rewrite decide_True by done.
      rewrite (decide_False (P := _ \/ _)) by set_solver. by rewrite int_add_ok by (unfold INT_MIN; lia). }
    rewrite (bind_ret _ _ _ _ _ Hone). rewrite IH; cbn [sigCnt t_caught t_sigs allDone t_out length]; [|done|lia|lia].
    rewrite str_app_assoc. do 2 f_equal. lia.
Qed.

Lemma t_install_ok l r :
  exists c, t_install l r = Ret tt (Rt (t_sigs r) c (sigCnt r) (allDone r) (t_out r)) /\
    forall s, s ∈ c <-> s ∈ t_caught r \/ (s ∈ l /\ (s ∉ uncatchable) /\ s ∉ [SIGTSTP; SIGQUIT]).
Proof.
  revert r. induction l as [|n l IH]; intros r; cbn [t_install].
  - exists (t_caught r). split; [by destruct r|]. set_solver.
  - case_decide as Hd.
    + erewrite bind_ret by reflexivity. match goal with |- context [t_install l ?x] => destruct (IH x) as (c & -> & Hc) end.
      exists c. split; [done|]. intros s. rewrite Hc. cbn [t_caught]. case_decide; set_solver.
    + erewrite bind_ret by reflexivity. destruct (IH r) as (c & -> & Hc). exists c. split; [done|].
      intros s. rewrite Hc. split; [set_solver|]. intros [?|(Hin & Hu & Hq)]; [by left|].
      apply elem_of_cons in Hin as [->|Hin]; [|by right]. set_solver.
Qed.

(** The mask of the sleep. *)
Definition sleep_mask : gset Z := (sigfillset ∖ {[SIGINT; SIGTERM]}) ∖ list_to_set unblockable.
Arguments sleep_mask : simpl never.

Lemma quiet_blocked i : quiet i -> si_signo i ∈ sleep_mask.
Proof.
  intros [Hk Hq]. apply catchable_blocked in Hk. unfold full_mask, sleep_mask in *. set_solver.
Qed.

Lemma t_setmask_sleep r :
  sg_pend (t_sigs r) = [] ->
  t_setmask (sigfillset ∖ {[SIGINT; SIGTERM]}) r = Ret tt (t_set_sigs (Sigs sleep_mask []) r).
Proof.
  intros Hp. unfold t_setmask, setmask. erewrite bind_ret by reflexivity.
  unfold sigprocmask. rewrite Hp. fold sleep_mask. rewrite deliver_blocked; [done|constructor|done].
Qed.

Lemma t_sleep_ok sent r :
  Forall quiet sent -> sg_mask (t_sigs r) = sleep_mask -> Forall quiet (sg_pend (t_sigs r)) ->
  sleeping sent r = Ret [] (t_set_sigs (Sigs sleep_mask (posts (sg_pend (t_sigs r)) sent)) r).
Proof.
  intros Hs. revert r. induction Hs as [|i sent Hi Hs IH]; intros r Hm Hp; cbn [sleeping].
  - unfold posts. cbn. rewrite <- Hm. by destruct r as [[] ? ? ? ?].
  - erewrite bind_ret by reflexivity.
    assert (Hpost : Forall quiet (post i (sg_pend (t_sigs r)))).
    { by apply Forall_post. }
    erewrite bind_ret; [|unfold t_arrive, arrive; erewrite bind_ret by reflexivity; apply deliver_blocked; [|reflexivity]].
    + rewrite Hm, decide_True by (by apply quiet_blocked). rewrite IH; [done|done|done].
    + cbn [t_set_sigs t_sigs sg_mask sg_pend]. rewrite Hm. eapply Forall_impl; [done|]. apply quiet_blocked.
Qed.

Definition rt0 : rt := Rt (Sigs ∅ []) ∅ 0 false "".

(** What the receiver prints before the signals are unblocked. *)
Definition rt_head (argv0 argv1 : string) (pid : Z) : string :=
  argv0 +:+ ": PID is " +:+ pretty pid +:+ nl +:+
  argv0 +:+ ": signals blocked - sleeping " +:+ argv1 +:+ " seconds" +:+ nl +:+
  argv0 +:+ ": sleep complete" +:+ nl.

#[local] Opaque sigfillset sleep_mask by_number t_install.

(** The receiver up to its last loop. *)
Lemma rt_main_ok argv0 argv1 argv2 pid sent later n1 n2 :
  atoi argv1 = Some n1 -> atoi argv2 = Some n2 ->
  Forall quiet sent -> (Z.of_nat (length (posts [] sent)) <= INT_MAX)%Z ->
  exists c,
    rt_main [argv0; argv1; argv2] pid sent later 0 0 rt0 =
      (pause_loop false later ;; c_exit 0)
        (Rt (Sigs ∅ []) c (Z.of_nat (length (posts [] sent))) false
          (rt_head argv0 argv1 pid +:+ texts (by_number (posts [] sent)))) /\
    forall s, s ∈ signals -> s ∉ uncatchable -> s ∉ [SIGTSTP; SIGQUIT] -> s ∈ c.
Proof.
  intros H1 H2 Hq Hlen. unfold rt_main. erewrite bind_ret by reflexivity. rewrite H1, H2.
  erewrite bind_ret by reflexivity.
  match goal with |- context [(t_install signals ≫= _) ?x] => destruct (t_install_ok signals x) as (c & Hi & Hc) end.
  rewrite (bind_ret _ _ _ _ _ Hi). cbn [t_sigs sigCnt allDone t_out rt0].
  erewrite bind_ret by reflexivity. cbn [sg_mask t_sigs]. rewrite !decide_False by done.
  assert (Hp : Forall quiet (posts [] sent)).
  { rewrite Forall_forall in Hq |- *. intros i Hin. apply Hq. apply elem_of_posts in Hin as [[]%elem_of_nil|Hin]; done. }
  assert (Hsig : Forall (fun i => si_signo i ∈ signals) (posts [] sent)).
  { eapply Forall_impl; [done|]. by intros i [[Hs _] _]. }
  exists c. split; [|intros s Hs Hu Hn; apply Hc; by right].
  erewrite bind_ret by (by apply t_setmask_sleep).
  erewrite bind_ret by reflexivity. erewrite bind_ret by reflexivity.
  erewrite bind_ret by (by apply t_sleep_ok). erewrite bind_ret by reflexivity.
  erewrite bind_ret; cycle 1.
  { unfold t_setmask. rewrite setmask_open by done. apply t_handlers_ok.
    all: cbn [t_sigs t_set_sigs t_caught sigCnt sg_pend]; rewrite ?(by_number_perm _ Hsig).
    all: try done; try lia.
    apply (Forall_impl _ _ _ Hp). intros i [[Hs Hu] Hn]. apply Hc. right. set_solver. }
  cbn [t_sigs t_set_sigs t_caught sigCnt allDone t_out sg_pend sigprocmask app fmap list_fmap].
  rewrite (Permutation_length (by_number_perm _ Hsig)), Z.add_0_l. unfold rt_head. by rewrite !str_app_assoc, str_app_nil_l.
Qed.

(** A SIGTERM that arrives unblocked sets [allDone]. *)
Lemma arrive_term c n o pid uid :
  SIGTERM ∈ c ->
  t_arrive (Info SIGTERM SI_USER 0 pid uid) (Rt (Sigs ∅ []) c n false o) = Ret tt (Rt (Sigs ∅ []) c n true o).
Proof.
  intros Hc. unfold t_arrive. rewrite arrive_one; [|done|done|apply bound_signals; cbn; unfold SIGTERM; lia|done].
  cbn [run_handlers]. unfold t_handle, siginfoHandler. unix_unfold. cbn [t_caught t_set_sigs si_signo].
  rewrite decide_True by done. by rewrite (decide_True (P := _ \/ _)) by (by right).
Qed.

(** During [pause] it ends the loop. *)
Lemma pause_done c n o pid uid :
  SIGTERM ∈ c ->
  pause_loop false [(Info SIGTERM SI_USER 0 pid uid, false)] (Rt (Sigs ∅ []) c n false o) =
    Ret tt (Rt (Sigs ∅ []) c n true o).
Proof.
  intros Hc. cbn [pause_loop]. unix_unfold. cbn [allDone negb andb].
  by rewrite arrive_term.
Qed.

(** *** Both programs together *)

(** What a run of the sender queues: [n] signals with consecutive values. *)
Definition queued (pid sig data : Z) (n : nat) : list (Z * Z * Z) :=
  (fun i => (pid, sig, data + Z.of_nat i)%Z) <$> seq 0 n.

Lemma queue_loop_ok qr pid sig data n k s :
  (forall v, qr pid sig v ≠ (-1)%Z) -> in_int pid = true ->
  (INT_MIN <= data)%Z -> (data + Z.of_nat (k + n) <= INT_MAX + 1)%Z ->
  queue_loop qr n (Z.of_nat k) (pretty pid) sig data s =
    Ret tt (RtSend (q_sent s ++ ((fun i => (pid, sig, data + Z.of_nat i)%Z) <$> seq k n)) (q_text s)).
Proof.
  intros Hq Hp Hd. revert k s. induction n as [|n IH]; intros k s Hb; cbn [queue_loop seq fmap list_fmap].
  - rewrite app_nil_r. by destruct s.
  - unix_unfold. rewrite int_add_ok by lia. rewrite atol_pretty by done. cbn [fmap option_fmap option_map].
    rewrite to_int_in by done. unfold sigqueue. rewrite decide_False by done. unix_unfold.
    replace (Z.of_nat k + 1)%Z with (Z.of_nat (S k)) by lia. rewrite IH by lia.
    cbn [q_sent q_text]. by rewrite <- app_assoc.
Qed.

Lemma rt_signal_ok qr mypid uid argv0 pid sig data num :
  in_int pid = true -> in_int sig = true -> in_int data = true -> (0 <= num)%Z ->
  in_int num = true -> (data + num <= INT_MAX + 1)%Z -> (forall v, qr pid sig v ≠ (-1)%Z) ->
  exists t, rt_signal_main qr mypid uid [argv0; pretty pid; pretty sig; pretty data; pretty num] (RtSend [] "") =
    Exited 0 (RtSend (queued pid sig data (Z.to_nat num)) t).
Proof.
  intros Hp Hs Hd H0 Hn Hb Hq. unfold rt_signal_main.
  rewrite decide_False by apply pretty_not_help. erewrite bind_ret by reflexivity.
  rewrite !atoi_pretty by done. do 3 (erewrite bind_ret by reflexivity).
  erewrite bind_ret; [|apply (queue_loop_ok qr pid sig data (Z.to_nat num) 0); [done|done| |lia]].
  - by eexists.
  - apply in_int_iff in Hd. lia.
Qed.

(** A run of the sender: signal, first value, number. *)
Definition run_ok (x : Z * Z * Z) : Prop :=
  (34 <= x.1.1 <= 64)%Z /\ in_int x.1.2 = true /\ (0 <= x.2)%Z /\ in_int x.2 = true /\ (x.1.2 + x.2 <= INT_MAX + 1)%Z.

(** Property C29.  Several runs of rt_signal.c queue real-time
    signals while rt_sig_recv.c sleeps with them blocked.  The receiver then
    handles every single one of them, lower signal numbers first and signals
    of the same number in the order in which they were sent, prints the data
    of each, and ends with 0 at the next SIGTERM. *)
Theorem rt_signals_queued qr argv0 argv1 argv2 rpid mypid uid (runs : list (Z * Z * Z)) n1 n2 :
  in_int rpid = true -> (forall s v, qr rpid s v ≠ (-1)%Z) -> Forall run_ok runs ->
  atoi argv1 = Some n1 -> atoi argv2 = Some n2 ->
  let sent := runs ≫= fun x => queue_info mypid uid <$> queued rpid x.1.1 x.1.2 (Z.to_nat x.2) in
  (Z.of_nat (length sent) <= INT_MAX)%Z ->
  Forall (fun x => exists t,
    rt_signal_main qr mypid uid ["rt_signal"; pretty rpid; pretty x.1.1; pretty x.1.2; pretty x.2] (RtSend [] "") =
      Exited 0 (RtSend (queued rpid x.1.1 x.1.2 (Z.to_nat x.2)) t)) runs /\
  exists r l,
    rt_main [argv0; argv1; argv2] rpid sent [(Info SIGTERM SI_USER 0 mypid uid, false)] 0 0 rt0 = Exited 0 r /\
    t_out r = rt_head argv0 argv1 rpid +:+ texts l /\ sigCnt r = Z.of_nat (length sent) /\
    l ≡ₚ sent /\ StronglySorted num_le l /\
    forall s, filter (fun i => si_signo i = s) l = filter (fun i => si_signo i = s) sent.
Proof.
  intros Hrp Hqr Hruns H1 H2 sent Hlen.
  assert (Hsent : Forall (fun i => (34 <= si_signo i <= 64)%Z) sent).
  { apply Forall_forall. intros i Hi. apply list_elem_of_bind in Hi as (x & Hi & Hx).
    rewrite Forall_forall in Hruns. apply Hruns in Hx as [Hx _].
    apply list_elem_of_fmap in Hi as (q & -> & Hq). apply list_elem_of_fmap in Hq as (k & -> & _). done. }
  assert (Hquiet : Forall quiet sent).
  { eapply Forall_impl; [exact Hsent|]. intros i Hi. cbn beta in Hi. unfold quiet, catchable, uncatchable.
    split; [split; [by apply bound_signals; lia|]|]; rewrite !not_elem_of_cons; unfold SIGKILL, SIGSTOP, SIGINT, SIGTERM, SIGTSTP, SIGQUIT;
      repeat split; (lia || apply not_elem_of_nil). }
  assert (Hposts : posts [] sent = sent).
  { rewrite posts_rt; [done|]. eapply Forall_impl; [exact Hsent|]. cbn. lia. }
  split.
  - eapply Forall_impl; [exact Hruns|]. intros [[sig data] num] (Hs & Hd & H0 & Hn & Hb). cbn [fst snd] in *.
    apply rt_signal_ok; try done. apply in_int_iff. unfold INT_MIN, INT_MAX. lia.
  - destruct (rt_main_ok argv0 argv1 argv2 rpid sent [(Info SIGTERM SI_USER 0 mypid uid, false)] n1 n2 H1 H2 Hquiet)
      as (c & Hm & Hc); [by rewrite Hposts|]. rewrite Hposts in Hm. rewrite Hm.
    erewrite bind_ret by (apply pause_done; apply Hc; [apply bound_signals; unfold SIGTERM; lia|..]; vm_compute; set_solver by done).
    assert (Hsig : Forall (fun i => si_signo i ∈ signals) sent).
    { eapply Forall_impl; [exact Hquiet|]. by intros i [[Hi _] _]. }
    eexists _, (by_number sent). split; [reflexivity|]. split; [done|]. split; [done|].
    split; [by apply by_number_perm|]. split; [apply by_number_sorted|].
    intros s. rewrite filter_by_number. case_decide as Hd; [done|].
    rewrite filter_none; [done|]. eapply Forall_impl; [exact Hsig|]. intros i Hi <-. done.
Qed.

Lemma rt_signals_queued_witness :
  Forall run_ok [(40, 7, 2); (35, 100, 2)]%Z /\
  exists r l,
    rt_main ["recv"; "10"; "1"] 55
      ([(40, 7, 2); (35, 100, 2)]%Z ≫= fun x => queue_info 77 0 <$> queued 55 x.1.1 x.1.2 (Z.to_nat x.2))
      [(Info SIGTERM SI_USER 0 77 0, false)] 0 0 rt0 = Exited 0 r /\
    t_out r = rt_head "recv" "10" 55 +:+ texts l /\
    filter (fun i => si_signo i = 40%Z) l = [Info 40 SI_QUEUE 7 77 0; Info 40 SI_QUEUE 8 77 0].
Proof.
  assert (Hr : Forall run_ok [(40, 7, 2); (35, 100, 2)]%Z).
  { repeat constructor; cbn [fst snd]; try done; try (unfold INT_MAX; lia). }
  split; [exact Hr|].
  destruct (rt_signals_queued (fun _ _ _ => 0%Z) "recv" "10" "1" 55 77 0 _ 10 1 eq_refl
              ltac:(by intros) Hr eq_refl eq_refl) as [_ (r & l & H1 & H2 & _ & _ & _ & H3)];
    [vm_compute; discriminate|].
  exists r, l. split; [exact H1|]. split; [exact H2|]. rewrite H3. reflexivity.
Defined.

(** A SIGTERM that arrives between the test of [allDone] and [pause] is
    handled, and the program goes on waiting; and without its second argument
    the program reads a null pointer. *)
Theorem rt_lost_wakeup argv0 argv1 argv2 pid n1 n2 :
  atoi argv1 = Some n1 -> atoi argv2 = Some n2 ->
  (exists r, rt_main [argv0; argv1; argv2] pid [] [(Info SIGTERM SI_USER 0 1 0, true)] 0 0 rt0 = Blocked r /\
     allDone r = true) /\
  forall sent later, rt_main [argv0; argv1] pid sent later 0 0 rt0 = Fault.
Proof.
  intros H1 H2. split; [|done].
  destruct (rt_main_ok argv0 argv1 argv2 pid [] [(Info SIGTERM SI_USER 0 1 0, true)] n1 n2 H1 H2) as (c & Hm & Hc);
    [done|cbn; unfold INT_MAX; lia|].
  rewrite Hm. cbn [pause_loop]. unix_unfold. cbn [allDone negb andb].
  rewrite arrive_term; [by eexists|].
  apply Hc; [apply bound_signals; unfold SIGTERM; lia|..]; vm_compute; set_solver by done.
Qed.
