(* ===== verification/SigSuspend.v ===== *)
(** * signal/sig_suspend.c: waiting for signals without losing one

    The program blocks SIGINT and SIGQUIT, installs a handler for them and
    waits for them with [sigsuspend], which unblocks them and waits in one
    step.  Another process sends the two signals at any time: one that is
    blocked becomes pending, one that is not is handled at once, or ends the
    process while it has no handler yet. *)

From S2P Require Import Prelude Threads Signals RtSignals.

Section SigSuspend.
Context (strsignal : Z -> string).
(** The results of [sigprocmask] and of the two [sigaction]. *)
Context (e1 e2 e3 : Z).

(** What the process and the kernel keep: the signals and which of them have
    a handler, [gotSigquit], the mask [origMask], the output, and the status
    once the process has ended (for a signal, the one a shell shows). *)
Record sus := Sus {
  u_sigs : sigs; u_caught : gset Z; gotSigquit : bool; origMask : gset Z; u_out : string; u_over : option Z
}.

Definition u_print (t : string) (s : sus) : sus :=
  Sus (u_sigs s) (u_caught s) (gotSigquit s) (origMask s) (u_out s +:+ t) (u_over s).
Definition u_set_sigs (k : sigs) (s : sus) : sus :=
  Sus k (u_caught s) (gotSigquit s) (origMask s) (u_out s) (u_over s).
Definition u_catch (sig : Z) (s : sus) : sus :=
  Sus (u_sigs s) (u_caught s ∪ {[sig]}) (gotSigquit s) (origMask s) (u_out s) (u_over s).
Definition u_end (code : Z) (s : sus) : sus :=
  Sus (u_sigs s) (u_caught s) (gotSigquit s) (origMask s) (u_out s) (Some code).

Definition handler (signo : Z) (s : sus) : sus :=
  let s := u_print ("Caught signal " +:+ pretty signo +:+ " (" +:+ strsignal signo +:+ ")" +:+ nl) s in
  if decide (signo = SIGQUIT) then Sus (u_sigs s) (u_caught s) true (origMask s) (u_out s) (u_over s) else s.

(** A signal is delivered: its handler runs, and without one the process
    ends. *)
Definition take_signal (sig : Z) (s : sus) : sus :=
  match u_over s with
  | Some _ => s
  | None => if decide (sig ∈ u_caught s) then handler sig s else u_end (128 + sig) s
  end.

(** A signal is sent to the process. *)
Definition arrives (sig : Z) (s : sus) : sus :=
  match u_over s with
  | Some _ => s
  | None =>
    if decide (sig ∈ sg_mask (u_sigs s)) then
      u_set_sigs (Sigs (sg_mask (u_sigs s)) (post (Info sig SI_USER 0 0 0) (sg_pend (u_sigs s)))) s
    else take_signal sig s
  end.

(** Where [main] stands, in its loop with the round [loopNum], and a process
    that sends signals. *)
Inductive upc :=
| UStart                     (** the first [print_sigmask] *)
| UMask                      (** [sigprocmask] *)
| UAct1 | UAct2              (** the two [sigaction] *)
| ULoop (loopNum : Z)        (** the test, the critical section *)
| UPending (loopNum : Z)     (** [print_pendingsigs] *)
| USuspend (loopNum : Z)     (** [sigsuspend(&origMask)] *)
| UEnd (code : Z)
| USender (l : list Z).

Definition blockMask : gset Z := {[SIGQUIT]} ∪ {[SIGINT]}.

(** [sigsuspend]: the pending signals that [origMask] does not block are
    delivered, in either order, and the call returns with the old mask;
    without such a signal it waits. *)
Definition sigsuspend (s : sus) : list sus :=
  let k := u_sigs s in
  let now := filter (fun i => si_signo i ∉ origMask s) (sg_pend k) in
  let s' := u_set_sigs (Sigs (sg_mask k) (filter (fun i => si_signo i ∈ origMask s) (sg_pend k))) s in
  match now with
  | [] => []
  | _ => [foldl (fun s i => take_signal (si_signo i) s) s' (by_number now);
          foldl (fun s i => take_signal (si_signo i) s) s' (reverse (by_number now))]
  end.

(** A call whose failure ends the program. *)
Definition checked (res : Z) (s : sus) (next : sus * upc) : list (sus * upc) :=
  if decide (res = (-1)%Z) then [(u_end (-1) s, UEnd (-1))] else [next].

Definition main_step (s : sus) (t : upc) : list (sus * upc) :=
  match t with
  | UStart => [(u_print (print_sigmask strsignal 0 (Some ("Initial signal mask is:" +:+ nl)) (u_sigs s)).2 s, UMask)]
  | UMask =>
    checked e1 s (Sus (Sigs blockMask (sg_pend (u_sigs s))) (u_caught s) (gotSigquit s) (sg_mask (u_sigs s))
                      (u_out s) (u_over s), UAct1)
  | UAct1 => checked e2 s (u_catch SIGINT s, UAct2)
  | UAct2 => checked e3 s (u_catch SIGQUIT s, ULoop 1)
  | ULoop n =>
    if gotSigquit s then [(u_end 0 s, UEnd 0)]
    else [(u_print ("=== LOOP " +:+ pretty n +:+ nl +:+
             (print_sigmask strsignal 0 (Some ("Starting critical section, signal mask is:" +:+ nl)) (u_sigs s)).2) s,
           UPending n)]
  | UPending n =>
    [(u_print (print_pendingsigs strsignal 0 (Some ("Before sigsuspend() - pending signals:" +:+ nl)) (u_sigs s)).2 s,
      USuspend n)]
  | USuspend n => (fun s' => (s', ULoop (n + 1))) <$> sigsuspend s
  | _ => []
  end.

Definition suspend_succ (_ : nat) (s : sus) (t : upc) : list (sus * upc) :=
  match t with
  | USender [] => []
  | USender (sig :: l) => [(arrives sig s, USender l)]
  | t => match u_over s with Some _ => [] | None => main_step s t end
  end.

(** The program, started with the mask [mask], and a process that sends it
    the signals [l]. *)
Definition suspend_main (mask : gset Z) (l : list Z) : config sus upc :=
  Config (Sus (Sigs mask []) ∅ false ∅ "" None) [UStart; USender l].

(** *** Properties *)

Definition wanted (n : Z) : Prop := n ∈ [SIGINT; SIGQUIT].

Definition upos (t : upc) : nat :=
  match t with
  | UStart => 8 | UMask => 7 | UAct1 => 6 | UAct2 => 5
  | ULoop _ => 3 | UPending _ => 2 | USuspend _ => 1 | UEnd _ => 0 | USender l => 5 * length l
  end.
Definition sus_measure (c : config sus upc) : nat :=
  total upos (pool c) + 4 * length (sg_pend (u_sigs (shared c))).

(** [main] has not reached its [sigprocmask]. *)
Definition before (t : upc) : bool := match t with UStart | UMask => true | _ => false end.
Definition caught_at (t : upc) : gset Z :=
  match t with
  | UStart | UMask | UAct1 => ∅
  | UAct2 => {[SIGINT]}
  | _ => {[SIGINT; SIGQUIT]}
  end.

(** The ways to end: on SIGQUIT, on a failed call, or by a signal that came
    before the signals were blocked. *)
Definition ended (t : upc) (code : Z) (got : bool) : Prop :=
  (t = UEnd 0 /\ code = 0%Z /\ got = true) \/
  (t = UEnd (-1) /\ code = (-1)%Z /\ (-1)%Z ∈ [e1; e2; e3]) \/
  (before t = true /\ exists sig, wanted sig /\ code = (128 + sig)%Z).

Section Mask.
Context (mask : gset Z) (mask_open : Forall (fun n => n ∉ mask) [SIGINT; SIGQUIT]).

(** While the process runs; [q]: SIGQUIT is among the signals sent. *)
Record alive (q : bool) (s : sus) (m : upc) (l : list Z) : Prop := {
  al_main : match m with UEnd _ | USender _ => False | _ => True end;
  al_caught : u_caught s = caught_at m;
  al_got : match m with ULoop _ => True | _ => gotSigquit s = false end;
  al_mask : if before m then sg_mask (u_sigs s) = mask /\ sg_pend (u_sigs s) = []
            else sg_mask (u_sigs s) = blockMask /\ origMask s = mask;
  al_pend : Forall wanted (si_signo <$> sg_pend (u_sigs s));
  al_quit : if q then gotSigquit s = true \/ SIGQUIT ∈ l \/ SIGQUIT ∈ (si_signo <$> sg_pend (u_sigs s))
            else gotSigquit s = false /\ (SIGQUIT ∉ l) /\ SIGQUIT ∉ (si_signo <$> sg_pend (u_sigs s))
}.

Definition sus_inv (q : bool) (c : config sus upc) : Prop :=
  exists m l, pool c = [m; USender l] /\ Forall wanted l /\
    match u_over (shared c) with
    | Some code => ended m code (gotSigquit (shared c)) /\ (q = false -> code ≠ 0%Z)
    | None => alive q (shared c) m l
    end.

Lemma wanted_open n : wanted n -> n ∉ mask.
Proof. intros Hn. rewrite Forall_forall in mask_open. by apply mask_open. Qed.
Lemma wanted_blocked n : wanted n -> n ∈ blockMask.
Proof. unfold wanted, blockMask. rewrite !elem_of_cons. intros [->|[->|[]%elem_of_nil]]; set_solver. Qed.
Lemma wanted_caught n : wanted n -> n ∈ ({[SIGINT; SIGQUIT]} : gset Z).
Proof. unfold wanted. rewrite !elem_of_cons. intros [->|[->|[]%elem_of_nil]]; set_solver. Qed.
Lemma wanted_signal n : wanted n -> n ∈ signals.
Proof.
  unfold wanted. rewrite !elem_of_cons. intros [->|[->|[]%elem_of_nil]]; apply bound_signals; cbn; unfold SIGINT, SIGQUIT; lia.
Qed.
Lemma wanted_pos n : wanted n -> (128 + n ≠ 0)%Z.
Proof. unfold wanted. rewrite !elem_of_cons. intros [->|[->|[]%elem_of_nil]]; done. Qed.

Lemma handlers_fold l s :
  u_over s = None -> Forall (fun i => si_signo i ∈ u_caught s) l ->
  let s' := foldl (fun s i => take_signal (si_signo i) s) s l in
  u_sigs s' = u_sigs s /\ u_caught s' = u_caught s /\ origMask s' = origMask s /\ u_over s' = None /\
  gotSigquit s' = gotSigquit s || bool_decide (SIGQUIT ∈ (si_signo <$> l)).
Proof.
  revert s. induction l as [|i l IH]; intros s Hov Hl; cbn [foldl fmap list_fmap].
  - rewrite orb_false_r. by split_and!.
  - apply Forall_cons in Hl as [Hi Hl].
    assert (take_signal (si_signo i) s = handler (si_signo i) s) as ->
      by (unfold take_signal; by rewrite Hov, decide_True).
    destruct (IH (handler (si_signo i) s)) as (-> & -> & -> & -> & ->).
    + unfold handler. cbv zeta. by destruct (decide _).
    + unfold handler. cbv zeta. by destruct (decide _).
    + unfold handler. cbv zeta. destruct (decide (si_signo i = SIGQUIT)) as [E|E]; cbn [u_sigs u_caught origMask gotSigquit u_print].
      * rewrite (bool_decide_true (SIGQUIT ∈ si_signo i :: (si_signo <$> l))) by (rewrite E; by left).
        rewrite orb_true_r. by split_and!.
      * split_and!; try done. f_equal. apply bool_decide_ext. rewrite elem_of_cons. naive_solver.
Qed.

(** [sigsuspend] handles all that is pending, if anything is. *)
Lemma sigsuspend_all s s' :
  u_over s = None -> u_caught s = {[SIGINT; SIGQUIT]} -> origMask s = mask ->
  Forall wanted (si_signo <$> sg_pend (u_sigs s)) -> s' ∈ sigsuspend s ->
  sg_pend (u_sigs s) ≠ [] /\ u_sigs s' = Sigs (sg_mask (u_sigs s)) [] /\ u_caught s' = u_caught s /\
  origMask s' = mask /\ u_over s' = None /\
  gotSigquit s' = gotSigquit s || bool_decide (SIGQUIT ∈ (si_signo <$> sg_pend (u_sigs s))).
Proof.
  intros Hov Hc Ho Hw Hs. unfold sigsuspend in Hs. rewrite Forall_fmap in Hw. rewrite Ho in Hs.
  assert (Hopen : Forall (fun i => si_signo i ∉ mask) (sg_pend (u_sigs s))).
  { eapply Forall_impl; [exact Hw|]. intros i Hi. by apply wanted_open. }
  rewrite (filter_all _ _ Hopen), (filter_none (fun i => si_signo i ∈ mask) _ Hopen) in Hs.
  assert (Hsig : Forall (fun i => si_signo i ∈ signals) (sg_pend (u_sigs s))).
  { eapply Forall_impl; [exact Hw|]. intros i. apply wanted_signal. }
  pose proof (by_number_perm _ Hsig) as Hperm.
  set (p := sg_pend (u_sigs s)) in *. destruct p as [|i0 p0] eqn:Ep; [by apply elem_of_nil in Hs|].
  rewrite <- Ep in *. split; [by rewrite Ep|].
  assert (Hl : exists l, l ≡ₚ p /\ s' = foldl (fun s i => take_signal (si_signo i) s)
            (u_set_sigs (Sigs (sg_mask (u_sigs s)) []) s) l).
  { apply elem_of_cons in Hs as [->|Hs]; [by exists (by_number p)|].
    apply list_elem_of_singleton in Hs as ->. exists (reverse (by_number p)). split; [|done].
    trans (by_number p); [apply reverse_Permutation|done]. }
  destruct Hl as (l & Hlp & ->).
  destruct (handlers_fold l (u_set_sigs (Sigs (sg_mask (u_sigs s)) []) s)) as (-> & -> & -> & -> & ->); [done| |].
  { cbn. rewrite Hlp, Hc. eapply Forall_impl; [exact Hw|]. intros i. apply wanted_caught. }
  cbn. split_and!; try done. f_equal. apply bool_decide_ext. by rewrite Hlp.
Qed.

Lemma post_signo i p n :
  wanted (si_signo i) -> n ∈ (si_signo <$> post i p) <-> n = si_signo i \/ n ∈ (si_signo <$> p).
Proof.
  intros Hw. unfold post, queue_up. rewrite filter_all.
  - case_decide as Hd; [set_solver|]. rewrite fmap_app, elem_of_app. cbn [fmap list_fmap].
    rewrite list_elem_of_singleton. tauto.
  - apply Forall_forall. intros j _. unfold wanted in Hw. rewrite !elem_of_cons in Hw.
    destruct Hw as [-> |[-> |[]%elem_of_nil]]; apply not_elem_of_nil.
Qed.

(** A step that keeps the process running, or ends it. *)
Definition good_step (q : bool) (s : sus) (m : upc) (l : list Z) : Prop :=
  match u_over s with
  | Some code => ended m code (gotSigquit s) /\ (q = false -> code ≠ 0%Z)
  | None => alive q s m l
  end.

Lemma checked_step q res s l m next :
  alive q s m l -> u_over s = None -> (-1)%Z ∈ [e1; e2; e3] \/ res ≠ (-1)%Z ->
  alive q next.1 next.2 l -> u_over next.1 = None ->
  forall x, x ∈ checked res s next -> good_step q x.1 x.2 l /\ (x = next \/ x = (u_end (-1) s, UEnd (-1))).
Proof.
  intros Ha Ho Hres Hn Hno x. unfold checked. case_decide; intros ->%list_elem_of_singleton.
  - split; [|by right]. unfold good_step. cbn. split; [|done]. right. left. split_and!; try done. tauto.
  - split; [|by left]. unfold good_step. by rewrite Hno.
Qed.

Lemma main_step_ok q s m l x :
  alive q s m l -> u_over s = None -> x ∈ main_step s m ->
  good_step q x.1 x.2 l /\
  upos x.2 + 4 * length (sg_pend (u_sigs x.1)) < upos m + 4 * length (sg_pend (u_sigs s)).
Proof.
  intros Ha Ho Hx. pose proof Ha as [Hm Hc Hg Hk Hp Hq].
  destruct m as [| | | |n|n|n|code|l0]; try done; cbn [main_step] in Hx.
  - apply list_elem_of_singleton in Hx as ->. split; [|cbn; lia]. unfold good_step. cbn. rewrite Ho. by split.
  - destruct Hk as [Hk1 Hk2]. eapply (checked_step q e1 s l UMask) in Hx as [Hx Hor]; [|done..| | |done].
    + split; [done|]. destruct Hor as [-> | ->]; cbn; lia.
    + destruct (decide (e1 = (-1)%Z)) as [->|]; [left; by left|by right].
    + cbn. by split.
  - eapply (checked_step q e2 s l UAct1) in Hx as [Hx Hor]; [|done..| | |done].
    + split; [done|]. destruct Hor as [-> | ->]; cbn; lia.
    + destruct (decide (e2 = (-1)%Z)) as [->|]; [left; right; by left|by right].
    + cbn. split; try done. cbn. rewrite Hc. set_solver.
  - eapply (checked_step q e3 s l UAct2) in Hx as [Hx Hor]; [|done..| | |done].
    + split; [done|]. destruct Hor as [-> | ->]; cbn; lia.
    + destruct (decide (e3 = (-1)%Z)) as [->|]; [left; right; right; by left|by right].
    + cbn. split; try done. cbn. by rewrite Hc.
  - destruct (gotSigquit s) eqn:Eg; apply list_elem_of_singleton in Hx as ->; unfold good_step; cbn.
    + split; [|lia]. split; [by left|]. intros ->. by destruct Hq.
    + rewrite Ho. split; [|lia]. split; cbn; rewrite ?Eg; done.
  - apply list_elem_of_singleton in Hx as ->. unfold good_step; cbn. rewrite Ho. split; [|lia]. by split.
  - apply list_elem_of_fmap in Hx as (s1 & -> & Hin).
    destruct (sigsuspend_all s s1 Ho Hc (proj2 Hk) Hp Hin) as (Hne & Hs1 & Hc1 & Ho1 & Hov1 & Hgot).
    unfold good_step. cbn [fst snd]. rewrite Hov1, Hs1. split; [|destruct (sg_pend (u_sigs s)); [done|cbn; lia]].
    split; rewrite ?Hs1; cbn [before sg_mask sg_pend]; try done.
    + by rewrite Hc1.
    + by split; [apply Hk|].
    + rewrite Hgot, Hg. cbn [orb]. rewrite Hg in Hq. destruct q.
      * destruct Hq as [?|[?|?]]; [done|auto|]. left. by apply bool_decide_eq_true_2.
      * destruct Hq as (_ & ? & ?). split; [by apply bool_decide_eq_false_2|]. split; [done|apply not_elem_of_nil].
Qed.

(** A signal arrives: it is pending if it is blocked, and ends the program
    only before that. *)
Lemma arrives_ok q s m sig l :
  alive q s m (sig :: l) -> u_over s = None -> wanted sig ->
  good_step q (arrives sig s) m l /\ length (sg_pend (u_sigs (arrives sig s))) <= S (length (sg_pend (u_sigs s))).
Proof.
  intros [Hm Hc Hg Hk Hp Hq] Ho Hw. unfold arrives. rewrite Ho. destruct (before m) eqn:Eb.
  - destruct Hk as [Hk1 Hk2]. rewrite Hk1, decide_False by (by apply wanted_open). unfold take_signal.
    rewrite Ho, Hc, decide_False by (destruct m; try done; apply not_elem_of_empty).
    unfold good_step. cbn. split; [|lia]. split; [|intros _; by apply wanted_pos]. right. right. eauto.
  - destruct Hk as [Hk1 Hk2]. rewrite Hk1, decide_True by (by apply wanted_blocked).
    split; [|apply post_length]. unfold good_step. cbn. rewrite Ho. split; cbn; try done.
    + by rewrite Eb.
    + rewrite Forall_forall in Hp |- *. intros n. rewrite post_signo by done. cbn [si_signo]. naive_solver.
    + destruct q; rewrite post_signo by done; cbn [si_signo]; set_solver.
Qed.

Lemma sus_inv_step q c c' :
  sus_inv q c -> step suspend_succ c c' -> sus_inv q c' /\ sus_measure c' < sus_measure c.
Proof.
  intros (m & l & Hp & Hl & Hin) Hs. inv_step. cbn [pool shared] in *. subst ls.
  match goal with H : (_, _) ∈ _ |- _ => rename H into Hx end.
  destruct i as [|[|i]]; [| |by destruct i];
    match goal with H : _ !! _ = Some _ |- _ => cbn in H; injection H as <- end; cbn [insert list_insert].
  - destruct (u_over s) as [code|] eqn:Ho.
    { unfold suspend_succ in Hx. rewrite Ho in Hx. destruct Hin as [[(-> & _)|[(-> & _)|(Hb & _)]] _];
        [by apply elem_of_nil in Hx..|]. by destruct m; try done; apply elem_of_nil in Hx. }
    assert (Hx' : (s', l') ∈ main_step s m).
    { pose proof (al_main _ _ _ _ Hin) as Hm. unfold suspend_succ in Hx. rewrite Ho in Hx. by destruct m. }
    destruct (main_step_ok q s m l _ Hin Ho Hx') as [Hg Hlt]. cbn [fst snd] in *. split.
    + exists l', l. by split_and!.
    + unfold sus_measure. cbn. lia.
  - destruct l as [|sig l]; cbn [suspend_succ] in Hx; [by apply elem_of_nil in Hx|].
    apply list_elem_of_singleton in Hx. simplify_eq. apply Forall_cons in Hl as [Hsig Hl].
    destruct (u_over s) as [code|] eqn:Ho.
    + unfold arrives. rewrite Ho. split; [|unfold sus_measure; cbn; lia].
      exists m, l. cbn. by rewrite Ho.
    + destruct (arrives_ok q s m sig l Hin Ho Hsig) as [Hg Hlen]. split.
      * exists m, l. by split_and!.
      * unfold sus_measure. cbn. lia.
Qed.

Lemma checked_some res s next : exists x, x ∈ checked res s next.
Proof. unfold checked. case_decide; eexists; by left. Qed.

Lemma sus_progress c :
  sus_inv true c ->
  (exists m l code, pool c = [m; USender l] /\ u_over (shared c) = Some code /\ ended m code (gotSigquit (shared c))) \/
  exists c', step suspend_succ c c'.
Proof.
  destruct c as [s ls]. intros (m & l & Hp & Hl & Hin). cbn [pool shared] in *. subst ls.
  destruct (u_over s) as [code|] eqn:Ho; [left; exists m, l, code; by destruct Hin|]. right.
  assert (Hmain : forall x, x ∈ main_step s m -> exists c', step suspend_succ (Config s [m; USender l]) c').
  { intros [s' m'] Hx. eexists. apply (step_thread _ 0 _ _ m); [done|].
    pose proof (al_main _ _ _ _ Hin) as Hm. unfold suspend_succ. rewrite Ho. by destruct m. }
  pose proof Hin as [Hm Hc Hg Hk Hpe Hq].
  destruct m as [| | | |n|n|n|code|l0]; try done.
  - eapply Hmain. by left.
  - edestruct (checked_some e1 s) as [x Hx]. exact (Hmain x Hx).
  - edestruct (checked_some e2 s) as [x Hx]. exact (Hmain x Hx).
  - edestruct (checked_some e3 s) as [x Hx]. exact (Hmain x Hx).
  - destruct (gotSigquit s) eqn:E; eapply Hmain; cbn [main_step]; rewrite E; by left.
  - eapply Hmain. by left.
  - rewrite Hg in Hq. destruct Hq as [?|[Hq|Hq]]; [done| |].
    + destruct l as [|sig l]; [by apply elem_of_nil in Hq|].
      eexists. apply (step_thread _ 1 _ _ (USender (sig :: l))); [done|]. by left.
    + assert (exists s', s' ∈ sigsuspend s) as [s' Hs'].
      { unfold sigsuspend. destruct Hk as [_ ->]. rewrite filter_all; cycle 1.
        { rewrite Forall_fmap in Hpe. eapply Forall_impl; [exact Hpe|]. intros i Hi. by apply wanted_open. }
        destruct (sg_pend (u_sigs s)) as [|i p]; [by apply elem_of_nil in Hq|]. eexists. by left. }
      eapply Hmain. apply list_elem_of_fmap. by exists s'.
Qed.

Lemma sus_inv_start l :
  Forall wanted l -> sus_inv (bool_decide (SIGQUIT ∈ l)) (suspend_main mask l).
Proof.
  intros Hl. exists UStart, l. split; [done|]. split; [done|]. cbn. split; cbn; try done.
  case_bool_decide; [by auto|]. split; [done|]. split; [done|]. apply not_elem_of_nil.
Qed.

End Mask.

End SigSuspend.

