(* ===== verification/SigWait.v ===== *)
(** * signal/sig_waitinfo.c: signals accepted one at a time

    The program blocks every signal and accepts them with [sigwaitinfo],
    after a delay in which they may pile up.  Which of several pending
    signals it gets is the kernel's choice, within the rules for real-time
    signals. *)

From stdpp Require Import sorting.
From S2P Require Import Prelude Scan Signals RtSignals.

(** The pending signals of the process, and its output. *)
Record wst := Wst { w_pend : list siginfo; w_out : string }.
Definition w_printf (t : string) : prog wst unit := modify (fun s => Wst (w_pend s) (w_out s +:+ t)).

(** Signals arrive.  All are blocked, but SIGKILL ends and SIGSTOP stops the
    process all the same. *)
Fixpoint w_arrive (l : list siginfo) : prog wst unit :=
  match l with
  | [] => mret tt
  | i :: l' =>
    if decide (si_signo i = SIGKILL) then c_exit (128 + SIGKILL)
    else if decide (si_signo i = SIGSTOP) then c_block
    else modify (fun s => Wst (post i (w_pend s)) (w_out s)) ;; w_arrive l'
  end.

(** Without the first occurrence of a signal. *)
Fixpoint remove_first (i : siginfo) (p : list siginfo) : list siginfo :=
  match p with [] => [] | j :: p' => if decide (i = j) then p' else j :: remove_first i p' end.

(** The pending signals that [sigwaitinfo] may take: of each number the one
    that came first; of the real-time signals only the lowest number.  POSIX
    does not say in which order standard signals come, nor whether they come
    before real-time ones. *)
Definition next_ok (p : list siginfo) (i : siginfo) : Prop :=
  head (filter (fun j => si_signo j = si_signo i) p) = Some i /\
  ((32 <= si_signo i)%Z -> Forall (fun j => (32 <= si_signo j)%Z -> (si_signo i <= si_signo j)%Z) p).
#[export] Instance next_ok_dec p i : Decision (next_ok p i).
Proof. unfold next_ok. apply _. Defined.
Definition candidates (p : list siginfo) : list siginfo := filter (next_ok p) p.

(** What a full set lets [sigwaitinfo] accept. *)
Definition waitable : gset Z := sigfillset ∖ list_to_set unblockable.

(** [sigwaitinfo(&allSigs, &si)], where [pick] says which of the candidates
    the kernel takes; [None] when there is none. *)
Definition sigwaitinfo (pick : nat) : prog wst (option siginfo) := fun s =>
  let cs := candidates (filter (fun i => si_signo i ∈ waitable) (w_pend s)) in
  match cs !! (pick `mod` length cs) with
  | None => Ret None s
  | Some i => Ret (Some i) (Wst (remove_first i (w_pend s)) (w_out s))
  end.

Section SigWaitinfo.
Context (strsignal : Z -> string).

(** The lines printed for a signal. *)
Definition wait_text (si : siginfo) : string :=
  "got signal " +:+ pretty (si_signo si) +:+ " (" +:+ strsignal (si_signo si) +:+ ")" +:+ nl +:+
  tab +:+ tab +:+ "si_signo = " +:+ pretty (si_signo si) +:+ ", si_code = " +:+ pretty (si_code si) +:+ " (" +:+
  (if decide (si_code si = SI_USER) then "SI_USER" else if decide (si_code si = SI_QUEUE) then "SI_QUEUE" else "other") +:+
  "), si_value = " +:+ pretty (si_value si) +:+ ", " +:+
  "si_pid = " +:+ pretty (si_pid si) +:+ ", si_uid = " +:+ pretty (si_uid si) +:+ nl.

(** The endless loop.  Each element of [later] is a list of signals that
    arrive before a call of [sigwaitinfo] or while it waits, with the kernel's
    pick, or [None] for a call that fails; there are as many rounds as
    elements, after which nothing more happens. *)
Fixpoint wait_loop (later : list (option (list siginfo * nat))) : prog wst unit :=
  match later with
  | [] => c_block
  | None :: _ => c_exit (-1)
  | Some (l, pick) :: later' =>
    w_arrive l ;;
    r ← sigwaitinfo pick ;
    match r with
    | None => wait_loop later'
    | Some si =>
      if decide (si_signo si = SIGINT \/ si_signo si = SIGTERM) then w_printf ("terminating" +:+ nl) ;; c_exit 0
      else w_printf (wait_text si) ;; wait_loop later'
    end
  end.

(** [main]: [sent] arrives during the delay; [e1] is the result of
    [sigprocmask]. *)
Definition waitinfo_main (argv : list string) (pid : Z) (sent : list siginfo) (later : list (option (list siginfo * nat))) (e1 : Z)
    : prog wst unit :=
  match argv with
  | [] => c_fault
  | argv0 :: more =>
    w_printf (argv0 +:+ ": PID is " +:+ pretty pid +:+ nl) ;;
    if decide (e1 = (-1)%Z) then c_exit (-1)
    else
      w_printf (argv0 +:+ ": all signal blocked" +:+ nl) ;;
      match more with
      | [] => mret tt
      | argv1 :: _ =>
        w_printf (argv0 +:+ ": about to delay " +:+ argv1 +:+ " seconds" +:+ nl) ;;
        need (atoi argv1) ;;
        w_arrive sent ;;
        w_printf (argv0 +:+ ": finished delay" +:+ nl)
      end ;;
      wait_loop later
  end.

End SigWaitinfo.

(** ** Properties *)

Definition is_end (i : siginfo) : Prop := si_signo i = SIGINT \/ si_signo i = SIGTERM.
#[export] Instance is_end_dec i : Decision (is_end i).
Proof. unfold is_end. apply _. Defined.

(** *** The order of acceptance *)

Lemma remove_first_filter i s p f :
  filter (fun j => si_signo j = s) p = i :: f -> filter (fun j => si_signo j = s) (remove_first i p) = f.
Proof.
  induction p as [|j p IH]; intros H; [done|]. cbn [remove_first]. destruct (decide (i = j)) as [->|Hne].
  - assert (si_signo j = s) as Hs.
    { assert (Hin : j ∈ filter (fun j => si_signo j = s) (j :: p)) by (rewrite H; left). by apply list_elem_of_filter in Hin as [? _]. }
    rewrite filter_cons_True in H by done. by injection H.
  - destruct (decide (si_signo j = s)) as [Hs|Hs].
    + rewrite filter_cons_True in H by done. congruence.
    + rewrite filter_cons_False in H by done. rewrite filter_cons_False by done. by apply IH.
Qed.

Lemma remove_first_other i s p :
  si_signo i ≠ s -> filter (fun j => si_signo j = s) (remove_first i p) = filter (fun j => si_signo j = s) p.
Proof.
  intros Hs. induction p as [|j p IH]; [done|]. cbn [remove_first]. destruct (decide (i = j)) as [->|Hne].
  - by rewrite (filter_cons_False _ j p).
  - by rewrite !filter_cons, IH.
Qed.

Lemma remove_first_perm i p : i ∈ p -> p ≡ₚ i :: remove_first i p.
Proof.
  induction p as [|j p IH]; intros Hi; [by apply elem_of_nil in Hi|]. cbn [remove_first].
  destruct (decide (i = j)) as [->|Hne]; [done|]. apply elem_of_cons in Hi as [?|Hi]; [done|].
  trans (j :: i :: remove_first i p); [by rewrite <- (IH Hi)|apply Permutation_swap].
Qed.

Definition acceptable (p : list siginfo) : Prop := Forall (fun i => si_signo i ∈ waitable) p.

Lemma acceptable_signals p : acceptable p -> Forall (fun i => si_signo i ∈ signals) p.
Proof.
  intros H. apply (Forall_impl _ _ _ H). intros i Hi. unfold waitable, sigfillset in Hi.
  apply elem_of_difference in Hi as [Hi _]. apply elem_of_list_to_set, list_elem_of_filter in Hi. tauto.
Qed.

Definition real_time (i : siginfo) : Prop := (32 <= si_signo i)%Z.
#[export] Instance real_time_dec i : Decision (real_time i).
Proof. unfold real_time. apply _. Defined.

(** An order in which the pending signals [p] may be accepted: all of them,
    those of one number in the order of arrival, real-time ones by number. *)
Record accept_order (p l : list siginfo) : Prop := {
  ao_perm : l ≡ₚ p;
  ao_fifo : forall s, filter (fun i => si_signo i = s) l = filter (fun i => si_signo i = s) p;
  ao_sorted : StronglySorted num_le (filter real_time l)
}.

Lemma sorted_filter (P : siginfo -> Prop) `{!forall i, Decision (P i)} l :
  StronglySorted num_le l -> StronglySorted num_le (filter P l).
Proof.
  induction 1 as [|i l Hl IH Hi]; [constructor|]. rewrite filter_cons. case_decide; [|done]. constructor; [done|].
  rewrite Forall_forall in Hi |- *. intros j Hj. apply list_elem_of_filter in Hj as [_ Hj]. by apply Hi.
Qed.

Lemma accept_by_number p : acceptable p -> accept_order p (by_number p).
Proof.
  intros Ha. pose proof (acceptable_signals _ Ha) as Hs. split; [by apply by_number_perm| |].
  - intros s. rewrite filter_by_number. case_decide as Hd; [done|].
    rewrite filter_none; [done|]. eapply Forall_impl; [exact Hs|]. intros i Hi <-. done.
  - apply sorted_filter, by_number_sorted.
Qed.

(** While something is pending there is a candidate. *)
Lemma candidate_exists p : acceptable p -> p ≠ [] -> exists i, i ∈ candidates p.
Proof.
  intros Ha Hp. destruct (accept_by_number p Ha) as [Hperm Hfifo _]. pose proof (by_number_sorted p) as Hsort.
  destruct (by_number p) as [|i q] eqn:E; [by apply Permutation_nil_l in Hperm|].
  assert (Hi : i ∈ p) by (rewrite <- Hperm; by left).
  exists i. apply list_elem_of_filter. split; [|done]. split.
  - rewrite <- Hfifo, filter_cons_True by done. done.
  - intros Hrt. rewrite <- Hperm. inversion Hsort as [|? ? _ Hall]; subst.
    constructor; [lia|]. eapply Forall_impl; [exact Hall|]. intros j Hj _. exact Hj.
Qed.

(** Accepting a candidate is the first step of an order. *)
Lemma accept_order_cons p i l :
  i ∈ candidates p -> accept_order (remove_first i p) l -> accept_order p (i :: l).
Proof.
  intros Hc [Hperm Hfifo Hsort]. apply list_elem_of_filter in Hc as [[Hhead Hlow] Hi].
  pose proof (remove_first_perm i p Hi) as Hp. split.
  - by rewrite Hperm.
  - intros s. destruct (decide (si_signo i = s)) as [<-|Hne].
    + rewrite filter_cons_True by done. rewrite Hfifo.
      destruct (filter (fun j => si_signo j = si_signo i) p) as [|j f] eqn:Ef; [done|]. injection Hhead as ->.
      by rewrite (remove_first_filter i _ p f Ef).
    + rewrite filter_cons_False by done. rewrite Hfifo. by apply remove_first_other.
  - rewrite filter_cons. case_decide as Hrt; [|done]. constructor; [done|].
    specialize (Hlow Hrt). rewrite Forall_forall in Hlow |- *. intros j Hj.
    apply list_elem_of_filter in Hj as [Hjr Hj]. apply Hlow; [|exact Hjr]. rewrite Hp, <- Hperm. by right.
Qed.

Lemma sigwaitinfo_takes pick p o :
  acceptable p -> p ≠ [] ->
  exists i, i ∈ candidates p /\ sigwaitinfo pick (Wst p o) = Ret (Some i) (Wst (remove_first i p) o).
Proof.
  intros Ha Hp. unfold sigwaitinfo. cbn [w_pend w_out]. rewrite filter_all by done.
  destruct (candidate_exists p Ha Hp) as [j Hj].
  assert (length (candidates p) ≠ 0) as Hl by (by destruct (candidates p); [apply elem_of_nil in Hj|]).
  destruct (lookup_lt_is_Some_2 (candidates p) (pick `mod` length (candidates p))) as [i Hi];
    [by apply Nat.mod_upper_bound|].
  exists i. split; [by eapply list_elem_of_lookup_2|]. by rewrite Hi.
Qed.

Lemma acceptable_remove i p :
  acceptable p -> i ∈ candidates p -> acceptable (remove_first i p) /\ length p = S (length (remove_first i p)).
Proof.
  intros Ha Hi. apply list_elem_of_filter in Hi as [_ Hi].
  pose proof (remove_first_perm i p Hi) as Hp. unfold acceptable in *. rewrite Hp in Ha. apply Forall_cons in Ha as [_ Ha].
  split; [done|]. by rewrite (Permutation_length Hp) at 1.
Qed.

Section Loop.
Context (strsignal : Z -> string).

Definition texts (l : list siginfo) : string := joined (wait_text strsignal <$> l).

(** Calls of [sigwaitinfo] with nothing new arriving. *)
Definition quiet_calls (picks : list nat) : list (option (list siginfo * nat)) := (fun k => Some ([], k)) <$> picks.

(** One signal is accepted. *)
Lemma wait_one pick p o later :
  acceptable p -> p ≠ [] ->
  exists i, i ∈ candidates p /\
    wait_loop strsignal (Some ([], pick) :: later) (Wst p o) =
      if decide (is_end i) then Exited 0 (Wst (remove_first i p) (o +:+ "terminating" +:+ nl))
      else wait_loop strsignal later (Wst (remove_first i p) (o +:+ wait_text strsignal i)).
Proof.
  intros Ha Hp. destruct (sigwaitinfo_takes pick p o Ha Hp) as (i & Hi & Hrun). exists i. split; [done|].
  cbn [wait_loop]. erewrite bind_ret by reflexivity. rewrite (bind_ret _ _ _ _ _ Hrun).
  destruct (decide (is_end i)) as [He|He];
    [by rewrite (decide_True (P := _ \/ _)) by exact He|by rewrite (decide_False (P := _ \/ _)) by exact He].
Qed.

(** The pending signals are accepted in some order, up to the first that
    ends the program. *)
Lemma wait_pending picks p o later :
  acceptable p -> length picks = length p ->
  exists l, accept_order p l /\
    ((Forall (fun i => ~ is_end i) l /\
      wait_loop strsignal (quiet_calls picks ++ later) (Wst p o) = wait_loop strsignal later (Wst [] (o +:+ texts l))) \/
     exists pre e rest lost, l = pre ++ e :: rest /\ Forall (fun i => ~ is_end i) pre /\ is_end e /\ rest ≡ₚ lost /\
       wait_loop strsignal (quiet_calls picks ++ later) (Wst p o) =
         Exited 0 (Wst lost (o +:+ texts pre +:+ "terminating" +:+ nl))).
Proof.
  revert p o. induction picks as [|k picks IH]; intros p o Ha Hl.
  - destruct p; [|done]. exists []. split; [split; done || constructor|]. left. split; [constructor|].
    unfold texts. cbn. by rewrite str_app_nil_r.
  - assert (p ≠ []) as Hp by (by destruct p).
    destruct (wait_one k p o (quiet_calls picks ++ later) Ha Hp) as (i & Hi & Hrun).
    destruct (acceptable_remove i p Ha Hi) as [Ha' Hl']. unfold quiet_calls at 1 2. rewrite fmap_cons. cbn [app].
    fold (quiet_calls picks). rewrite Hrun. destruct (decide (is_end i)) as [He|He].
    + exists (i :: by_number (remove_first i p)). pose proof (accept_by_number _ Ha') as Ho.
      split; [by apply accept_order_cons|]. right.
      exists [], i, (by_number (remove_first i p)), (remove_first i p). unfold texts. cbn [fmap list_fmap joined foldr app].
      split_and!; [done|constructor|done|apply Ho|by rewrite str_app_nil_l].
    + destruct (IH (remove_first i p) (o +:+ wait_text strsignal i) Ha') as (l & Ho & Hcase); [cbn in Hl; lia|].
      exists (i :: l). split; [by apply accept_order_cons|].
      destruct Hcase as [[Hn ->]|(pre & e & rest & lost & -> & Hn & Hend & Hr & ->)].
      * left. split; [by constructor|]. unfold texts. rewrite fmap_cons, joined_cons. by rewrite str_app_assoc.
      * right. exists (i :: pre), e, rest, lost. split_and!; [done|by constructor|done|done|].
        unfold texts. rewrite fmap_cons, joined_cons. by rewrite !str_app_assoc.
Qed.

(** Signals that arrive one at a time while the program waits. *)
Definition one_call (x : siginfo * nat) : option (list siginfo * nat) := Some ([x.1], x.2).

Lemma wait_single i k later o :
  si_signo i ∈ waitable ->
  wait_loop strsignal (one_call (i, k) :: later) (Wst [] o) =
    if decide (is_end i) then Exited 0 (Wst [] (o +:+ "terminating" +:+ nl))
    else wait_loop strsignal later (Wst [] (o +:+ wait_text strsignal i)).
Proof.
  intros Hi.
  assert (Harr : wait_loop strsignal (one_call (i, k) :: later) (Wst [] o) =
                 wait_loop strsignal (Some ([], k) :: later) (Wst [i] o)).
  { unfold one_call. cbn [wait_loop fst snd]. unfold waitable, unblockable in Hi. cbn [w_arrive].
    rewrite (decide_False (P := si_signo i = SIGKILL)), (decide_False (P := si_signo i = SIGSTOP)) by set_solver.
    assert (post i [] = [i]) as Hpost.
    { unfold post, queue_up. cbn. rewrite decide_False; [done|]. intros [_ []%elem_of_nil]. }
    erewrite bind_ret by (erewrite bind_ret by reflexivity; reflexivity). cbn [w_pend w_out]. rewrite Hpost. done. }
  assert (Ha : acceptable [i]) by (by apply Forall_singleton).
  destruct (wait_one k [i] o later Ha ltac:(done)) as (j & Hj & Hrun). rewrite Harr, Hrun.
  apply list_elem_of_filter in Hj as [_ Hj%list_elem_of_singleton]. subst j. cbn [remove_first].
  by rewrite (decide_True (P := i = i)).
Qed.

Lemma wait_singles pre e rest o :
  acceptable (fst <$> pre ++ e :: rest) -> Forall (fun x => ~ is_end x.1) pre -> is_end e.1 ->
  wait_loop strsignal (one_call <$> (pre ++ e :: rest)) (Wst [] o) =
    Exited 0 (Wst [] (o +:+ texts (fst <$> pre) +:+ "terminating" +:+ nl)).
Proof.
  intros Ha Hpre He. revert o. induction Hpre as [|[i k] pre Hi Hpre IH]; intros o.
  - destruct e as [i k]. cbn [app fmap list_fmap] in Ha |- *. apply Forall_cons in Ha as [Hi Ha].
    rewrite wait_single by done. rewrite decide_True by done. unfold texts. cbn. by rewrite str_app_nil_l.
  - cbn [app fmap list_fmap] in Ha |- *. apply Forall_cons in Ha as [Hw Ha].
    rewrite wait_single by done. rewrite decide_False by done. rewrite IH by done.
    unfold texts. rewrite !fmap_cons, joined_cons. by rewrite !str_app_assoc.
Qed.

Lemma w_arrive_posts sent p o :
  acceptable sent -> w_arrive sent (Wst p o) = Ret tt (Wst (posts p sent) o).
Proof.
  intros Ha. revert p. induction Ha as [|i sent Hi Ha IH]; intros p; [done|]. cbn [w_arrive].
  unfold waitable, unblockable in Hi.
  rewrite (decide_False (P := si_signo i = SIGKILL)), (decide_False (P := si_signo i = SIGSTOP)) by set_solver.
  erewrite bind_ret by reflexivity. by rewrite IH.
Qed.

Definition wait_head (argv0 argv1 : string) (pid : Z) : string :=
  argv0 +:+ ": PID is " +:+ pretty pid +:+ nl +:+
  argv0 +:+ ": all signal blocked" +:+ nl +:+ argv0 +:+ ": about to delay " +:+ argv1 +:+ " seconds" +:+ nl +:+
  argv0 +:+ ": finished delay" +:+ nl.

Lemma waitinfo_start argv0 argv1 secs pid sent later :
  atoi argv1 = Some secs -> acceptable sent ->
  waitinfo_main strsignal [argv0; argv1] pid sent later 0 (Wst [] "") =
    wait_loop strsignal later (Wst (posts [] sent) (wait_head argv0 argv1 pid)).
Proof.
  intros Hat Ha. unfold waitinfo_main, w_printf. unix_unfold. rewrite decide_False by done. rewrite Hat.
  cbn [w_pend w_out]. rewrite w_arrive_posts by done. cbn [w_pend w_out]. unfold wait_head. by rewrite str_app_nil_l, !str_app_assoc.
Qed.


End Loop.

