(* ===== verification/Jumps.v ===== *)
(** * proc_demos/longjmp.c, signal/sigjump.c, sig_user.c and signal_test.c, and
    term_io/winsz.c: jumps and handlers

    Non-local jumps, from functions and out of signal handlers, and programs
    that do nothing but handle signals. *)

From S2P Require Import Prelude Threads Signals.

(** ** longjmp.c *)
Module LongJmp.

(** How a call ends: it returns, or it jumps to the buffer [env] with a
    value. *)
Inductive ended := Returned | Jumped (val : Z).

Definition f2 : ended := Jumped 2.
Definition f1 (argc : Z) : ended := if decide (argc = 1%Z) then Jumped 1 else f2.

(** What [setjmp] returns when it is jumped to. *)
Definition setjmp_again (val : Z) : Z := if decide (val = 0%Z) then 1%Z else val.

(** The [switch] of [main], after [setjmp] has returned [val]; [fuel] jumps
    back are followed. *)
Fixpoint switch (fuel : nat) (argc val : Z) : prog string unit :=
  if decide (val = 0%Z) then
    modify (fun o => o +:+ "Calling f1() after initial setjmp()" +:+ nl) ;;
    match f1 argc with
    | Returned => mret tt
    | Jumped v => match fuel with O => c_block | S fuel' => switch fuel' argc (setjmp_again v) end
    end
  else if decide (val = 1%Z) then modify (fun o => o +:+ "We jumped back from f1()" +:+ nl)
  else if decide (val = 2%Z) then modify (fun o => o +:+ "We jumped back from f2()" +:+ nl)
  else mret tt.

Definition longjmp_main (argc : Z) : prog string unit := switch 1 argc 0 ;; c_exit 0.

(** Without an argument [main] comes back from [f1], with arguments from
    [f2]; one jump is enough. *)
Theorem longjmp_returns argc :
  longjmp_main argc "" = Exited 0 ("Calling f1() after initial setjmp()" +:+ nl +:+
    (if decide (argc = 1%Z) then "We jumped back from f1()" else "We jumped back from f2()") +:+ nl).
Proof. unfold longjmp_main, switch, f1. destruct (decide (argc = 1%Z)); vm_compute; reflexivity. Qed.
End LongJmp.

(** ** signal_test.c *)

Section Strsignal.
Context (strsignal : Z -> string).

Definition signal_test_main : string := print_sigset strsignal (tab +:+ tab) sigfillset.

(** The lines of [print_sigset]. *)
Definition sig_line (prefix : string) (sig : Z) : string :=
  prefix +:+ pretty sig +:+ " (" +:+ strsignal sig +:+ ")" +:+ nl.
Definition set_text (prefix : string) (set : gset Z) : string :=
  match filter (fun s => s ∈ set) signals with
  | [] => prefix +:+ "<empty signal set>" +:+ nl
  | l => joined (sig_line prefix <$> l)
  end.

Lemma print_sigset_text prefix set : print_sigset strsignal prefix set = set_text prefix set.
Proof.
  unfold print_sigset, set_text.
  assert (Hfold : forall ss c t, foldl (fun (x : nat * string) sig =>
    if decide (sig ∈ set) then
      (S x.1, x.2 +:+ prefix +:+ pretty sig +:+ " (" +:+ strsignal sig +:+ ")" +:+ nl)
    else x) (c, t) ss =
    (c + length (filter (fun s => s ∈ set) ss), t +:+ joined (sig_line prefix <$> filter (fun s => s ∈ set) ss))).
  { induction ss as [|s ss IH]; intros c t; cbn [foldl].
    - cbn. by rewrite Nat.add_0_r, str_app_nil_r.
    - rewrite filter_cons. destruct (decide (s ∈ set)); rewrite IH; [|done]. cbn [fst snd]. f_equal; [cbn; lia|].
      change (joined (sig_line prefix <$> s :: filter (fun s => s ∈ set) ss))
        with (sig_line prefix s +:+ joined (sig_line prefix <$> filter (fun s => s ∈ set) ss)).
      unfold sig_line at 2. by rewrite !str_app_assoc. }
  rewrite (Hfold signals 0 ""). rewrite !str_app_nil_l. cbn [Nat.add].
  by destruct (filter (fun s => s ∈ set) signals).
Qed.

(** signal_test.c prints the signals that a full set contains: all but the
    two that the C library keeps for itself. *)
Theorem signal_test_prints :
  signal_test_main = joined (sig_line (tab +:+ tab) <$> filter (fun s => s ∉ [32; 33]%Z) signals).
Proof.
  unfold signal_test_main. rewrite print_sigset_text. unfold set_text.
  assert (filter (fun s => s ∈ sigfillset) signals = filter (fun s => s ∉ [32; 33]%Z) signals) as -> by (vm_compute; reflexivity).
  destruct (filter (fun s => s ∉ [32; 33]%Z) signals) eqn:E; [|done]. apply (f_equal length) in E. vm_compute in E. discriminate.
Qed.
End Strsignal.

(** ** sigjump.c *)
Module SigJump.

(** The mask, whether SIGINT is pending and whether it has its handler,
    [canJump], the mask saved in [env], the output, the status once the
    process has ended, and how many interrupts found one pending already. *)
Record jst := Jst {
  j_mask : gset Z; j_pending : bool; j_caught : bool; canJump : bool; env : option (gset Z);
  j_out : string; j_over : option Z; j_merged : nat
}.
Definition j_print (t : string) (s : jst) : jst :=
  Jst (j_mask s) (j_pending s) (j_caught s) (canJump s) (env s) (j_out s +:+ t) (j_over s) (j_merged s).
Definition j_setmask (m : gset Z) (s : jst) : jst :=
  Jst m (j_pending s) (j_caught s) (canJump s) (env s) (j_out s) (j_over s) (j_merged s).
Definition j_end (code : Z) (s : jst) : jst :=
  Jst (j_mask s) false (j_caught s) (canJump s) (env s) (j_out s) (Some code) (j_merged s).

(** Positions in [sig_handler], in [main], and the process that sends the
    interrupts. *)
Inductive hpc :=
| HPrint                       (** the first [printf] *)
| HMask                        (** [print_sigmask] *)
| HTest                        (** the test of [canJump] *)
| HReturn.
Inductive jpc :=
| JStart                       (** [print_sigmask] *)
| JAct                         (** [sigaction] *)
| JSet                         (** [sigsetjmp(env, 1) == 0] *)
| JCan                         (** [canJump = 1] *)
| JAfter                       (** [sigsetjmp] has returned again *)
| JPause
| JHandler (h : hpc) (ret : jpc) (old : gset Z)   (** the interrupted code and its mask *)
| JSender (n : nat)            (** [n] interrupts are still to come *)
| JBad.

Section Program.
Context (strsignal : Z -> string).
(** The result of [sigaction]. *)
Context (e1 : Z).

Definition mask_text (msg : option string) (m : gset Z) : string := (print_sigmask strsignal 0 msg (Sigs m [])).2.
Definition received_text : string :=
  "Received signal: " +:+ pretty SIGINT +:+ " (" +:+ strsignal SIGINT +:+ "), signal mask is:" +:+ nl.

(** [sig_handler(SIGINT)]: it returns to the interrupted code and its mask,
    or jumps to [env] and the mask saved there. *)
Definition sig_handler (h : hpc) (ret : jpc) (old : gset Z) (s : jst) : jst * jpc :=
  match h with
  | HPrint => (j_print received_text s, JHandler HMask ret old)
  | HMask => (j_print (mask_text None (j_mask s)) s, JHandler HTest ret old)
  | HTest =>
    if negb (canJump s) then
      (j_print ("'env' buffer not set yet, doing a simple return" +:+ nl) s, JHandler HReturn ret old)
    else
      match env s with
      | Some saved => (j_setmask saved s, JAfter)
      | None => (s, JBad)
      end
  | HReturn => (j_setmask old s, ret)
  end.

(** A statement of the program. *)
Definition main_step (s : jst) (t : jpc) : list (jst * jpc) :=
  match t with
  | JStart => [(j_print (mask_text None (j_mask s)) s, JAct)]
  | JAct =>
    if decide (e1 = (-1)%Z) then [(j_end (-1) s, JAct)]
    else [(Jst (j_mask s) (j_pending s) true (canJump s) (env s) (j_out s) (j_over s) (j_merged s), JSet)]
  | JSet =>
    [(Jst (j_mask s) (j_pending s) (j_caught s) (canJump s) (Some (j_mask s)) (j_out s) (j_over s) (j_merged s), JCan)]
  | JCan => [(Jst (j_mask s) (j_pending s) (j_caught s) true (env s) (j_out s) (j_over s) (j_merged s), JPause)]
  | JAfter =>
    [(j_print (mask_text (Some ("After jump from handler, signal mask is:" +:+ nl)) (j_mask s)) s, JPause)]
  | JHandler h ret old => [sig_handler h ret old s]
  | _ => []
  end.

(** A pending interrupt that is not blocked comes before the next statement:
    the handler starts with SIGINT blocked, and without a handler the process
    ends. *)
Definition interrupted (s : jst) : bool := j_pending s && bool_decide (SIGINT ∉ j_mask s).
Definition deliver_int (s : jst) (t : jpc) : jst * jpc :=
  if j_caught s then
    (Jst ({[SIGINT]} ∪ j_mask s) false true (canJump s) (env s) (j_out s) (j_over s) (j_merged s),
     JHandler HPrint t (j_mask s))
  else (j_end (128 + SIGINT) s, t).

(** SIGINT is sent to the process. *)
Definition send_int (s : jst) : jst :=
  match j_over s with
  | Some _ => s
  | None => Jst (j_mask s) true (j_caught s) (canJump s) (env s) (j_out s) None
                (if j_pending s then S (j_merged s) else j_merged s)
  end.

Definition sigjump_succ (_ : nat) (s : jst) (t : jpc) : list (jst * jpc) :=
  match t with
  | JSender 0 => []
  | JSender (S n) => [(send_int s, JSender n)]
  | t =>
    match j_over s with
    | Some _ => []
    | None => if interrupted s then [deliver_int s t] else main_step s t
    end
  end.

(** The program, started with the mask [m], and a process that sends [n]
    interrupts. *)
Definition sigjump_start (m : gset Z) (n : nat) : config jst jpc :=
  Config (Jst m false false false None "" None 0) [JStart; JSender n].

(** *** Properties *)

Section Mask.
Context (m : gset Z) (n : nat).

Definition caught_text : string := received_text +:+ mask_text None ({[SIGINT]} ∪ m).
Definition simple_text : string := caught_text +:+ "'env' buffer not set yet, doing a simple return" +:+ nl.
Definition jump_text : string := mask_text (Some ("After jump from handler, signal mask is:" +:+ nl)) m.

(** The output after [a] runs of the handler that returned and one run that
    jumped for each element of [bs], which says whether the program got to
    print its message after the jump. *)
Definition later_text (b : bool) : string := caught_text +:+ if b then jump_text else "".
Definition story (a : nat) (bs : list bool) : string :=
  mask_text None m +:+ joined (replicate a simple_text) +:+ joined (later_text <$> bs).

Lemma story_simple a : story (S a) [] = story a [] +:+ simple_text.
Proof.
  unfold story. rewrite replicate_S_end, joined_app, !str_app_assoc. cbn [joined foldr fmap list_fmap].
  by rewrite ?str_app_nil_l, ?str_app_nil_r.
Qed.
Lemma story_jump a bs : story a (bs ++ [false]) = story a bs +:+ caught_text.
Proof.
  unfold story. rewrite fmap_app, joined_app, !str_app_assoc. cbn [joined foldr fmap list_fmap].
  unfold later_text at 2. by rewrite !str_app_nil_r.
Qed.
Lemma story_after a bs : story a (bs ++ [true]) = story a (bs ++ [false]) +:+ jump_text.
Proof.
  unfold story. rewrite !fmap_app, !joined_app, !str_app_assoc. cbn [joined foldr fmap list_fmap].
  unfold later_text at 2 4. by rewrite !str_app_nil_r.
Qed.

(** The state at a position of [main]. *)
Definition at_main (s : jst) (t : jpc) (a : nat) (bs : list bool) : Prop :=
  match t with
  | JStart | JAct => j_caught s = false /\ canJump s = false /\ a = 0 /\ bs = []
  | JSet => j_caught s = true /\ canJump s = false /\ bs = []
  | JCan => j_caught s = true /\ canJump s = false /\ env s = Some m /\ bs = []
  | JPause => j_caught s = true /\ canJump s = true /\ env s = Some m /\ (bs = [] \/ last bs = Some true)
  | JAfter => j_caught s = true /\ canJump s = true /\ env s = Some m /\ last bs = Some false
  | _ => False
  end.

(** What the handler has printed at a position. *)
Definition handler_text (h : hpc) : string :=
  match h with HPrint => "" | HMask => received_text | HTest => caught_text | HReturn => simple_text end.

(** While the process runs, with [a] and [bs] the runs of the handler that
    have ended, and [k] interrupts still to come. *)
Definition running (s : jst) (t : jpc) (k : nat) : Prop :=
  exists a bs, (SIGINT ∈ m -> a = 0 /\ bs = [] /\ (j_pending s = false -> j_merged s = 0)) /\
    match t with
    | JHandler h ret old =>
      old = m /\ (SIGINT ∉ m) /\ j_mask s = {[SIGINT]} ∪ m /\ at_main s ret a bs /\ j_caught s = true /\
      (h = HReturn -> canJump s = false) /\ j_out s = story a bs +:+ handler_text h /\
      S (a + length bs) + j_merged s + (if j_pending s then 1 else 0) + k = n
    | t =>
      j_mask s = m /\ at_main s t a bs /\ j_out s = match t with JStart => "" | _ => story a bs end /\
      a + length bs + j_merged s + (if j_pending s then 1 else 0) + k = n
    end.

(** The ends: an interrupt came before the handler was installed, or
    [sigaction] failed. *)
Definition over (t : jpc) (code : Z) : Prop :=
  (t = JStart \/ t = JAct) /\ (code = (128 + SIGINT)%Z /\ (SIGINT ∉ m) \/ code = (-1)%Z /\ e1 = (-1)%Z).

Definition jump_inv (c : config jst jpc) : Prop :=
  exists t k, pool c = [t; JSender k] /\
    match j_over (shared c) with Some code => over t code | None => running (shared c) t k end.

Definition weight (t : jpc) : nat :=
  match t with JStart => 5 | JAct => 4 | JSet => 3 | JCan => 2 | JAfter => 1 | _ => 0 end.
Definition jump_weight (t : jpc) : nat :=
  match t with
  | JHandler h ret _ => weight ret + match h with HPrint => 5 | HMask => 4 | HTest => 3 | HReturn => 2 end
  | JSender k => 20 * k
  | t => weight t
  end.
Definition state_weight (s : jst) : nat :=
  (if j_pending s then 10 else 0) + match j_over s with Some _ => 0 | None => 1 end.
Definition jump_measure (c : config jst jpc) : nat := total jump_weight (pool c) + state_weight (shared c).

(** The next state is a running one or an end, and nearer to the last. *)
Definition good_next (s : jst) (t : jpc) (k : nat) (x : jst * jpc) : Prop :=
  match j_over x.1 with Some code => over x.2 code | None => running x.1 x.2 k end /\
  jump_weight x.2 + state_weight x.1 < jump_weight t + state_weight s.

Lemma main_ok s t k x :
  running s t k -> j_over s = None -> interrupted s = false -> x ∈ main_step s t -> good_next s t k x.
Proof.
  intros (a & bs & Hblk & Hr) Ho Hi Hx. unfold good_next, state_weight. rewrite Ho.
  destruct t as [| | | | | |h ret old|k'|]; cbn [main_step] in Hx; try (by apply elem_of_nil in Hx).
  - apply list_elem_of_singleton in Hx as ->. destruct Hr as (Hm & (? & ? & -> & ->) & Hout & Hn).
    cbn. rewrite Ho. split; [|lia]. exists 0, []. cbn. rewrite Hm, Hout. unfold story. cbn. by rewrite str_app_nil_r.
  - destruct Hr as (Hm & (? & ? & -> & ->) & Hout & Hn). case_decide; apply list_elem_of_singleton in Hx as ->; cbn.
    + split; [split; [by right|by right]|destruct (j_pending s); lia].
    + rewrite Ho. split; [|lia]. by exists 0, [].
  - apply list_elem_of_singleton in Hx as ->. destruct Hr as (Hm & (? & ? & ->) & Hout & Hn).
    cbn. rewrite Ho. split; [|lia]. exists a, []. cbn. by rewrite Hm.
  - apply list_elem_of_singleton in Hx as ->. destruct Hr as (Hm & (? & ? & ? & ->) & Hout & Hn).
    cbn. rewrite Ho. split; [|lia]. exists a, []. cbn. by auto 10.
  - apply list_elem_of_singleton in Hx as ->. destruct Hr as (Hm & (? & ? & ? & Hl) & Hout & Hn).
    cbn. rewrite Ho. split; [|lia]. apply last_Some in Hl as [bs' ->]. exists a, (bs' ++ [true]). cbn.
    rewrite Hm, Hout, story_after, last_snoc. rewrite !length_app in *. cbn in *. split_and!; auto.
    intros (_ & Hnil & _)%Hblk. by destruct bs'.
  - apply list_elem_of_singleton in Hx as ->. destruct Hr as (-> & Hin & Hm & Hat & Hc & Hret & Hout & Hn).
    destruct h; cbn [sig_handler].
    + cbn. rewrite Ho. split; [|lia]. exists a, bs. cbn. rewrite Hout. split_and!; try done.
      rewrite str_app_nil_r. done.
    + cbn. rewrite Ho. split; [|lia]. exists a, bs. cbn. rewrite Hout, Hm. split_and!; try done.
      unfold caught_text. by rewrite str_app_assoc.
    + destruct (canJump s) eqn:Ec; cbn [negb].
      * assert (env s = Some m) as He
          by (destruct ret; cbn in Hat; destruct_and?; congruence || done).
        rewrite He. cbn. rewrite Ho. split; [|lia]. exists a, (bs ++ [false]).
        split; [done|]. cbn. rewrite story_jump, Hout, last_snoc, length_app. cbn. split_and!; try done. lia.
      * cbn. rewrite Ho. split; [|lia]. exists a, bs. cbn. rewrite Hout. split_and!; try done.
        unfold simple_text. by rewrite !str_app_assoc.
    + specialize (Hret eq_refl). assert (bs = [] /\ (ret = JSet \/ ret = JCan)) as [-> Hpos].
      { destruct ret; cbn in Hat; destruct_and?; try done; try congruence; auto. }
      unfold j_setmask. cbn [fst snd j_over]. rewrite Ho. split; [|cbn; destruct Hpos as [-> | ->]; cbn; lia].
      exists (S a), []. split; [done|]. cbn [handler_text] in Hout. rewrite story_simple, <- Hout. cbn in *.
      destruct Hpos as [-> | ->]; cbn in *; (split_and!; try done; naive_solver).
Qed.

Lemma deliver_ok s t k :
  running s t k -> j_over s = None -> interrupted s = true -> good_next s t k (deliver_int s t).
Proof.
  intros (a & bs & Hblk & Hr) Ho Hi. apply andb_true_iff in Hi as [Hp Hmask%bool_decide_eq_true].
  unfold good_next, deliver_int, state_weight. rewrite Ho, Hp.
  assert (exists Ht : j_mask s = m, at_main s t a bs /\ j_out s = match t with JStart => "" | _ => story a bs end /\
      a + length bs + j_merged s + 1 + k = n) as (Hm & Hat & Hout & Hn).
  { rewrite Hp in Hr. destruct t as [| | | | | |h ret old|k'|]; try (by destruct Hr as (-> & Hat & Hout & Hn); exists eq_refl).
    destruct Hr as (_ & _ & Hm & _). rewrite Hm in Hmask. set_solver. }
  rewrite Hm in Hmask. destruct (j_caught s) eqn:Ec.
  - cbn. split; [|destruct t; cbn in Hat |- *; (done || lia)].
    exists a, bs. cbn. rewrite Hm. destruct t; cbn in Hat; try done;
      try (by destruct Hat as (Hcf & _); rewrite Ec in Hcf);
      (split_and!; try done; try lia; try (by rewrite Hout, str_app_nil_r); try naive_solver).
  - cbn. split; [|destruct t; cbn; lia]. split; [|by left].
    destruct t; cbn in Hat; rewrite ?Ec in Hat; naive_solver.
Qed.

Lemma send_ok s t k :
  running s t (S k) -> j_over s = None -> running (send_int s) t k.
Proof.
  intros (a & bs & Hblk & Hr) Ho. unfold send_int. rewrite Ho. exists a, bs. split; [cbn; naive_solver|].
  destruct t as [| | | | | |h ret old|k'|]; cbn in *.
  7: { destruct Hr as (-> & Hin & Hm & Hat & Hc & Hret & Hout & Hn). split_and!; try done.
       destruct (j_pending s); lia. }
  all: destruct Hr as (Hm & Hat & Hout & Hn); split_and!; try done; try (destruct (j_pending s); lia); naive_solver.
Qed.

Lemma not_sender s t k :
  match j_over s with Some code => over t code | None => running s t k end ->
  sigjump_succ 0 s t = match j_over s with
    | Some _ => [] | None => if interrupted s then [deliver_int s t] else main_step s t end.
Proof.
  intros H. destruct t; try done. destruct (j_over s); [by destruct H as [[|] _]|].
  by destruct H as (? & ? & _ & _ & [] & _).
Qed.

Lemma jump_inv_step c c' :
  jump_inv c -> step sigjump_succ c c' -> jump_inv c' /\ jump_measure c' < jump_measure c.
Proof.
  intros (t & k & Hp & Hin) Hs. inv_step. cbn [pool shared] in *. subst ls.
  match goal with H : (_, _) ∈ _ |- _ => rename H into Hx end.
  destruct i as [|[|i]]; [| |by destruct i];
    match goal with H : _ !! _ = Some _ |- _ => cbn in H; injection H as <- end; cbn [insert list_insert].
  - rewrite (not_sender s t k Hin) in Hx. destruct (j_over s) eqn:Ho; [by apply elem_of_nil in Hx|].
    assert (good_next s t k (s', l')) as [Hg Hlt].
    { destruct (interrupted s) eqn:Ei; [|by apply main_ok].
      apply list_elem_of_singleton in Hx as ->. by apply deliver_ok. }
    split; [by exists l', k|]. unfold jump_measure. cbn in *. lia.
  - destruct k as [|k]; cbn [sigjump_succ] in Hx; [by apply elem_of_nil in Hx|].
    apply list_elem_of_singleton in Hx. simplify_eq.
    unfold jump_inv, jump_measure, state_weight. cbn [pool shared]. destruct (j_over s) as [code|] eqn:Ho.
    + unfold send_int. rewrite Ho. split; [exists t, k; by rewrite Ho|]. cbn. rewrite Ho. lia.
    + pose proof (send_ok s t k Hin Ho) as Hr.
      assert (j_over (send_int s) = None) as Ho' by (unfold send_int; by rewrite Ho).
      split; [exists t, k; by rewrite Ho'|]. rewrite Ho'. cbn. destruct (j_pending s), (j_pending (send_int s)); lia.
Qed.

(** All interrupts have been sent and the program is back in [pause] with its
    first mask: each was handled but for those that found another one
    pending, and the output tells of each, or none was because SIGINT is
    blocked; or the process has ended. *)
Definition settled (c : config jst jpc) : Prop :=
  (exists t k code, pool c = [t; JSender k] /\ j_over (shared c) = Some code /\ over t code) \/
  (j_over (shared c) = None /\ pool c = [JPause; JSender 0] /\ j_mask (shared c) = m /\ canJump (shared c) = true /\
   exists a bs, j_out (shared c) = story a bs /\ (bs = [] \/ last bs = Some true) /\
     if decide (SIGINT ∈ m) then a = 0 /\ bs = [] /\ (j_pending (shared c) = true <-> 0 < n)
     else j_pending (shared c) = false /\ a + length bs + j_merged (shared c) = n).

Lemma jump_progress c :
  jump_inv c -> settled c \/ exists c', step sigjump_succ c c'.
Proof.
  destruct c as [s ls]. intros (t & k & Hp & Hin). cbn [pool shared] in *. subst ls.
  pose proof (not_sender s t k Hin) as Hsucc.
  destruct (j_over s) as [code|] eqn:Ho; [left; left; by exists t, k, code|].
  assert (Hmain : forall x, x ∈ sigjump_succ 0 s t -> exists c', step sigjump_succ (Config s [t; JSender k]) c').
  { intros [s' t'] Hx. eexists. by apply (step_thread _ 0 _ _ t). }
  rewrite Hsucc in Hmain. destruct (interrupted s) eqn:Ei; [right; eapply Hmain; by left|].
  destruct Hin as (a & bs & Hblk & Hr).
  destruct t as [| | | | | |h ret old|k'|]; try (right; eapply Hmain; cbn [main_step]; by left).
  - right. cbn [main_step] in Hmain. case_decide; eapply Hmain; by left.
  - destruct k as [|k].
    2: { right. eexists. apply (step_thread _ 1 _ _ (JSender (S k))); [done|]. by left. }
    destruct Hr as (Hm & (Hc & Hcan & He & Hbs) & Hout & Hn). left. right. cbn [shared pool]. split_and!; try done.
    exists a, bs. split; [done|]. split; [done|]. unfold interrupted in Ei.
    destruct (decide (SIGINT ∈ m)) as [Hd|Hd].
    + destruct (Hblk Hd) as (-> & -> & Hz). split_and!; try done. cbn in Hn. destruct (j_pending s); [split; [lia|done]|].
      rewrite Hz in Hn by done. split; [done|lia].
    + rewrite Hm, bool_decide_eq_true_2, andb_true_r in Ei by done. rewrite Ei in Hn. split; [done|lia].
  - by destruct Hr as (_ & [] & _).
  - by destruct Hr as (_ & [] & _).
Qed.

Lemma jump_inv_start : jump_inv (sigjump_start m n).
Proof. exists JStart, n. split; [done|]. cbn. exists 0, []. by split_and!. Qed.
End Mask.

(** Property C36.  [n] interrupts are sent to sigjump.c at any time, between
    any two statements of [main] or of its handler.  In every schedule the
    program comes to rest: an interrupt that comes before [sigaction] ends
    it (and a failing [sigaction] ends it with -1); otherwise it is back in
    [pause] with the mask it was started with, so that SIGINT is not left
    blocked by the jump out of the handler, ready to jump again.  By then
    every interrupt was handled, but for those that came while another one
    was pending, each with SIGINT blocked in the handler; the handler
    returned before [canJump] was set and jumped afterwards, and the message
    after the jump was printed for every jump that was not interrupted again
    first, the last one included.  A process started with SIGINT blocked
    handles none. *)
Theorem sigjump_recovers m n : inevitable sigjump_succ (settled m n) (sigjump_start m n).
Proof.
  apply (inevitable_measure _ (jump_inv m n) _ jump_measure); [|apply jump_progress| |apply jump_inv_start];
    intros c c' Hc Hs; by apply (jump_inv_step m n _ _ Hc Hs).
Qed.
End Program.
End SigJump.

(** ** sig_user.c and winsz.c *)

Definition SIGUSR1 : Z := 10.
Definition SIGUSR2 : Z := 12.
Definition SIGWINCH : Z := 28.

(** What happens to a signal that is not caught: it is ignored, stops the
    process or ends it (with the status that a shell shows). *)
Definition default_action {St} (n : Z) : prog St unit :=
  if decide (n ∈ [17; 18; 23; 28]%Z) then mret tt
  else if decide (n ∈ [19; 20; 21; 22]%Z) then c_block
  else c_exit (128 + n).

Module SigUser.
Definition print (t : string) : prog string unit := modify (fun o => o +:+ t).

Definition sig_user (signo : Z) : prog string unit :=
  if decide (signo = SIGUSR1) then print ("received SIGUSR1" +:+ nl)
  else if decide (signo = SIGUSR2) then print ("received SIGUSR2" +:+ nl)
  else print ("received signal " +:+ pretty signo +:+ nl).

(** [for (;;) pause();] while the signals arrive. *)
Fixpoint pause_loop (l : list Z) : prog string unit :=
  match l with
  | [] => c_block
  | n :: l' => (if decide (n = SIGUSR1 \/ n = SIGUSR2) then sig_user n else default_action n) ;; pause_loop l'
  end.

(** [main]; [e1] and [e2] say whether [signal] fails. *)
Definition user_main (e1 e2 : bool) (l : list Z) : prog string unit :=
  if e1 then c_exit (-1) else if e2 then c_exit (-1) else pause_loop l.

Definition text (n : Z) : string :=
  if decide (n = SIGUSR1) then "received SIGUSR1" +:+ nl else "received SIGUSR2" +:+ nl.

(** Every user signal is reported, in order, until a signal ends the program;
    the last branch of the handler is never taken. *)
Theorem user_reports l n o :
  Forall (fun n => n = SIGUSR1 \/ n = SIGUSR2) l -> n ∈ [SIGINT; SIGQUIT; SIGTERM; SIGKILL] ->
  user_main false false (l ++ [n]) o = Exited (128 + n) (o +:+ joined (text <$> l)).
Proof.
  intros Hl Hn. unfold user_main. revert o. induction Hl as [|k l Hk Hl IH]; intros o.
  - cbn [app fmap list_fmap pause_loop]. cbn. rewrite str_app_nil_r.
    repeat (apply elem_of_cons in Hn as [->|Hn]; [by vm_compute|]). by apply elem_of_nil in Hn.
  - cbn [app pause_loop]. rewrite (decide_True (P := _ \/ _)) by done.
    assert (sig_user k o = Ret tt (o +:+ text k)) as Hs.
    { unfold sig_user, text, print. destruct Hk as [->| ->]; done. }
    rewrite (bind_ret _ _ _ _ _ Hs), IH. cbn [fmap list_fmap]. by rewrite joined_cons, str_app_assoc.
Qed.
End SigUser.

Module WinSz.
Import SigUser.

(** [pr_winsz]: the result of [ioctl], the size of the window. *)
Definition pr_winsz (size : option (Z * Z)) : prog string unit :=
  match size with
  | None => c_exit (-1)
  | Some (ws_row, ws_col) => print (pretty ws_row +:+ " row, " +:+ pretty ws_col +:+ " columns" +:+ nl)
  end.

Definition sig_winch (size : option (Z * Z)) : prog string unit :=
  print ("SIGWINCH received" +:+ nl) ;; pr_winsz size.

(** [for (;;) pause();]: signals and the size of the window at each. *)
Fixpoint winch_loop (l : list (Z * option (Z * Z))) : prog string unit :=
  match l with
  | [] => c_block
  | (n, size) :: l' => (if decide (n = SIGWINCH) then sig_winch size else default_action n) ;; winch_loop l'
  end.

Definition winsz_main (tty sig_err : bool) (size : option (Z * Z)) (l : list (Z * option (Z * Z))) : prog string unit :=
  if negb tty then c_exit 1
  else if sig_err then c_exit (-1)
  else pr_winsz size ;; winch_loop l.

Definition size_text (x : Z * Z) : string := pretty x.1 +:+ " row, " +:+ pretty x.2 +:+ " columns" +:+ nl.

(** Every change of the window is reported with the size it then has; a size
    that cannot be read ends the program with -1. *)
Theorem winsz_reports x (l : list (Z * Z)) o :
  let out := o +:+ size_text x +:+ joined ((fun y => "SIGWINCH received" +:+ nl +:+ size_text y) <$> l) in
  winsz_main true false (Some x) ((fun y => (SIGWINCH, Some y)) <$> l) o = Blocked out /\
  winsz_main true false (Some x) (((fun y => (SIGWINCH, Some y)) <$> l) ++ [(SIGWINCH, None)]) o =
    Exited (-1) (out +:+ "SIGWINCH received" +:+ nl).
Proof.
  assert (Hloop : forall rest o, winch_loop (((fun y => (SIGWINCH, Some y)) <$> l) ++ rest) o =
    winch_loop rest (o +:+ joined ((fun y => "SIGWINCH received" +:+ nl +:+ size_text y) <$> l))).
  { intros rest. induction l as [|[r c] l IH]; intros o'; [cbn; by rewrite str_app_nil_r|].
    cbn [fmap list_fmap app winch_loop]. rewrite decide_True by done. unfold sig_winch, print. cbn [pr_winsz]. unfold print.
    unix_unfold. rewrite IH. cbn [fst snd].
    rewrite joined_cons. unfold size_text at 2. cbn [fst snd]. by rewrite !str_app_assoc. }
  destruct x as [r c]. cbn zeta. unfold winsz_main. cbn [negb pr_winsz].
  assert (Hp : forall rest, (print (pretty r +:+ " row, " +:+ pretty c +:+ " columns" +:+ nl) ;; winch_loop rest) o =
    winch_loop rest (o +:+ size_text (r, c))) by done.
  rewrite !Hp. split.
  - rewrite <- (app_nil_r ((fun y => (SIGWINCH, Some y)) <$> l)), Hloop. cbn. by rewrite str_app_assoc.
  - rewrite Hloop. cbn [winch_loop]. rewrite decide_True by done. unfold sig_winch, print. unix_unfold. cbn [pr_winsz c_exit].
    by rewrite !str_app_assoc.
Qed.
End WinSz.
