(* ===== verification/Reentrant.v ===== *)
(** * signal/reentrant.c, signal/sig_reenter.c and sys_info/getpwnam_demo.c:
    library functions with static results

    [crypt], [getpwnam] and [getpwent] return a pointer to storage of their
    own.  The first two programs call them from [main] and from a signal
    handler, and look for results that changed under [main]'s hands; the third
    searches the password file. *)

From S2P Require Import Prelude.

(** ** reentrant.c *)
Module Crypt.

(** The static buffer of [crypt], the counters, the output. *)
Record cst := Cst { cr_buf : string; handled : Z; mismatched : Z; c_out : string }.

Section Program.
(** [crypt(s, "xx")], and the two arguments. *)
Context (crypt_xx : string -> string) (str1 str2 : string).

Definition crypt (s : string) : prog cst unit :=
  modify (fun c => Cst (crypt_xx s) (handled c) (mismatched c) (c_out c)).

Definition sig_handler : prog cst unit :=
  crypt str2 ;;
  h ← gets handled ;
  h' ← need (int_add h 1) ;
  modify (fun c => Cst (cr_buf c) h' (mismatched c) (c_out c)).

Fixpoint handlers (n : nat) : prog cst unit :=
  match n with O => mret tt | S n' => sig_handler ;; handlers n' end.

(** A round of the loop, in which [before] signals come before the call of
    [crypt] and [between] ones before its result is compared. *)
Definition round (cr1 : string) (call_num : Z) (before between : nat) : prog cst unit :=
  handlers before ;;
  crypt str1 ;;
  handlers between ;;
  b ← gets cr_buf ;
  if decide (b ≠ cr1) then
    m ← gets mismatched ;
    m' ← need (int_add m 1) ;
    modify (fun c => Cst (cr_buf c) (handled c) m' (c_out c +:+ "Mismatch on call: " +:+ pretty call_num +:+
      " (mismatch=" +:+ pretty m' +:+ " handled=" +:+ pretty (handled c) +:+ ")" +:+ nl))
  else mret tt.

Fixpoint rounds (cr1 : string) (call_num : Z) (l : list (nat * nat)) : prog cst unit :=
  match l with
  | [] => c_block
  | (before, between) :: l' =>
    round cr1 call_num before between ;;
    call_num' ← need (int_add call_num 1) ;
    rounds cr1 call_num' l'
  end.

(** [main]; [argc] and the result of [sigaction].  [cr1] is a copy of the
    first result. *)
Definition reentrant_main (argc e1 : Z) (l : list (nat * nat)) : prog cst unit :=
  if decide (argc ≠ 3%Z) then c_exit 0
  else
    crypt str1 ;;
    cr1 ← gets cr_buf ;
    if decide (e1 = (-1)%Z) then c_exit (-1) else rounds cr1 1 l.

(** *** Properties *)

(** What is printed, and the counters. *)
Fixpoint expected (n m h : Z) (l : list (nat * nat)) : string :=
  match l with
  | [] => ""
  | (before, between) :: l' =>
    let h' := (h + Z.of_nat (before + between))%Z in
    if decide (between = 0) then expected (n + 1) m h' l'
    else "Mismatch on call: " +:+ pretty n +:+ " (mismatch=" +:+ pretty (m + 1)%Z +:+ " handled=" +:+ pretty h' +:+ ")" +:+ nl +:+
      expected (n + 1) (m + 1) h' l'
  end.
Definition signals_in (l : list (nat * nat)) : nat := total (fun x => x.1 + x.2) l.
Definition hits (l : list (nat * nat)) : nat := count (fun x => negb (bool_decide (x.2 = 0))) l.

Lemma int_add_small a b : (0 <= a)%Z -> (0 <= b)%Z -> (a + b <= INT_MAX)%Z -> int_add a b = Some (a + b)%Z.
Proof. intros. apply int_add_ok. unfold INT_MIN, INT_MAX in *. lia. Qed.

Lemma handlers_ok n b h m o :
  (0 <= h)%Z -> (h + Z.of_nat n <= INT_MAX)%Z ->
  handlers n (Cst b h m o) = Ret tt (Cst (if decide (n = 0) then b else crypt_xx str2) (h + Z.of_nat n) m o).
Proof.
  revert b h. induction n as [|n IH]; intros b h Hh Hn; cbn [handlers].
  - by rewrite Z.add_0_r.
  - unfold sig_handler, crypt. unix_unfold. cbn [cr_buf handled mismatched c_out]. rewrite int_add_small by lia.
    rewrite IH by lia. f_equal. f_equal; [by case_decide|lia].
Qed.

Definition line (n m h : Z) : string :=
  "Mismatch on call: " +:+ pretty n +:+ " (mismatch=" +:+ pretty m +:+ " handled=" +:+ pretty h +:+ ")" +:+ nl.

(** A round finds a mismatch exactly when a signal came in between. *)
Lemma round_ok n m h o b x y :
  crypt_xx str1 ≠ crypt_xx str2 -> (0 <= m)%Z -> (0 <= h)%Z ->
  (m + 1 <= INT_MAX)%Z -> (h + Z.of_nat (x + y) <= INT_MAX)%Z ->
  exists b', round (crypt_xx str1) n x y (Cst b h m o) =
    Ret tt (if decide (y = 0) then Cst b' (h + Z.of_nat (x + y)) m o
            else Cst b' (h + Z.of_nat (x + y)) (m + 1) (o +:+ line n (m + 1) (h + Z.of_nat (x + y)))).
Proof.
  intros Hc Hm Hh Hml Hhl. unfold round, crypt.
  rewrite (bind_ret _ _ _ _ _ (handlers_ok x b h m o Hh ltac:(lia))). erewrite bind_ret by reflexivity.
  cbn [cr_buf handled mismatched c_out].
  rewrite (bind_ret _ _ _ _ _ (handlers_ok y (crypt_xx str1) (h + Z.of_nat x) m o ltac:(lia) ltac:(lia))).
  erewrite bind_ret by reflexivity. cbn [cr_buf]. replace (h + Z.of_nat x + Z.of_nat y)%Z with (h + Z.of_nat (x + y))%Z by lia.
  destruct (decide (y = 0)) as [Hy|Hy]; eexists.
  - rewrite decide_False by auto. reflexivity.
  - rewrite decide_True by auto. unix_unfold. cbn [mismatched]. rewrite int_add_small by lia. reflexivity.
Qed.

Lemma rounds_ok n m h o b l :
  crypt_xx str1 ≠ crypt_xx str2 -> (0 <= n)%Z -> (0 <= m <= n)%Z -> (0 <= h)%Z ->
  (n + Z.of_nat (length l) <= INT_MAX)%Z -> (h + Z.of_nat (signals_in l) <= INT_MAX)%Z ->
  exists b', rounds (crypt_xx str1) n l (Cst b h m o) =
    Blocked (Cst b' (h + Z.of_nat (signals_in l)) (m + Z.of_nat (hits l)) (o +:+ expected n m h l)).
Proof.
  intros Hc. revert n m h o b. induction l as [|[x y] l IH]; intros n m h o b Hn Hm Hh Hnl Hhl; cbn [rounds].
  - exists b. cbn. by rewrite str_app_nil_r, !Z.add_0_r.
  - unfold signals_in, hits in *. cbn [total count fst snd length expected] in *.
    destruct (round_ok n m h o b x y) as [b1 Hr]; try done; try lia.
    rewrite (bind_ret _ _ _ _ _ Hr). unix_unfold. rewrite int_add_small by lia.
    destruct (decide (y = 0)) as [Hy|Hy].
    + destruct (IH (n + 1) m (h + Z.of_nat (x + y)) o b1)%Z as [b2 Hb2]; try lia. exists b2. rewrite Hb2.
      rewrite bool_decide_eq_true_2 by done. cbn [negb Nat.b2n]. f_equal. f_equal; lia.
    + destruct (IH (n + 1) (m + 1) (h + Z.of_nat (x + y)) (o +:+ line n (m + 1) (h + Z.of_nat (x + y))) b1)%Z as [b2 Hb2]; try lia.
      exists b2. rewrite Hb2. rewrite bool_decide_eq_false_2 by done. cbn [negb Nat.b2n]. unfold line. rewrite !str_app_assoc.
      f_equal. f_equal; lia.
Qed.

(** The same text from [crypt] can hide every overwriting. *)
Lemma rounds_same n m h o b l :
  crypt_xx str1 = crypt_xx str2 -> (0 <= n)%Z -> (0 <= h)%Z ->
  (n + Z.of_nat (length l) <= INT_MAX)%Z -> (h + Z.of_nat (signals_in l) <= INT_MAX)%Z ->
  exists b', rounds (crypt_xx str1) n l (Cst b h m o) = Blocked (Cst b' (h + Z.of_nat (signals_in l)) m o).
Proof.
  intros Hc. revert n h b. induction l as [|[x y] l IH]; intros n h b Hn Hh Hnl Hhl; cbn [rounds].
  - exists b. cbn. by rewrite !Z.add_0_r.
  - unfold signals_in in *. cbn [total fst snd length] in *.
    assert (exists b1, round (crypt_xx str1) n x y (Cst b h m o) = Ret tt (Cst b1 (h + Z.of_nat (x + y)) m o)) as [b1 Hr].
    { unfold round, crypt. rewrite (bind_ret _ _ _ _ _ (handlers_ok x b h m o Hh ltac:(lia))). erewrite bind_ret by reflexivity.
      cbn [cr_buf handled mismatched c_out].
      rewrite (bind_ret _ _ _ _ _ (handlers_ok y (crypt_xx str1) (h + Z.of_nat x) m o ltac:(lia) ltac:(lia))).
      erewrite bind_ret by reflexivity. cbn [cr_buf]. eexists.
      rewrite decide_False by (destruct (decide (y = 0)); [auto|by rewrite Hc; auto]).
      unix_unfold. f_equal. f_equal. lia. }
    rewrite (bind_ret _ _ _ _ _ Hr). unix_unfold. rewrite int_add_small by lia.
    destruct (IH (n + 1) (h + Z.of_nat (x + y)) b1)%Z as [b2 Hb2]; try lia. exists b2. rewrite Hb2. f_equal. f_equal. lia.
Qed.

(** Property C39.  reentrant.c finds the result of [crypt] changed in
    exactly the rounds in which a signal was handled between the call and the
    comparison, and prints the number of the call and the two counts; with
    two strings that [crypt] maps to the same text it never notices.  (Up to
    the overflow of the counters.) *)
Theorem reentrant_mismatches l b o :
  (1 + Z.of_nat (length l) <= INT_MAX)%Z -> (Z.of_nat (signals_in l) <= INT_MAX)%Z ->
  exists b', reentrant_main 3 0 l (Cst b 0 0 o) =
    Blocked (if decide (crypt_xx str1 = crypt_xx str2) then Cst b' (Z.of_nat (signals_in l)) 0 o
             else Cst b' (Z.of_nat (signals_in l)) (Z.of_nat (hits l)) (o +:+ expected 1 0 0 l)).
Proof.
  intros Hn Hs. unfold reentrant_main, crypt. rewrite decide_False by auto. do 2 erewrite bind_ret by reflexivity.
  rewrite decide_False by done. cbn [cr_buf handled mismatched c_out].
  destruct (decide (crypt_xx str1 = crypt_xx str2)) as [E|E].
  - destruct (rounds_same 1 0 0 o (crypt_xx str1) l) as [b' Hb]; try done; try lia. exists b'. by rewrite Hb.
  - destruct (rounds_ok 1 0 0 o (crypt_xx str1) l) as [b' Hb]; try done; try lia. exists b'. by rewrite Hb.
Qed.
End Program.

Lemma reentrant_mismatches_witness :
  exists b', reentrant_main (fun s => s) "a" "b" 3 0 [(0, 0); (2, 1); (1, 0)] (Cst "" 0 0 "") =
    Blocked (Cst b' 4 1 ("Mismatch on call: 2 (mismatch=1 handled=3)" +:+ nl)).
Proof.
  apply (reentrant_mismatches (fun s => s) "a" "b" [(0, 0); (2, 1); (1, 0)] "" "");
    vm_compute; discriminate.
Defined.
End Crypt.

(** ** sig_reenter.c *)
Module GetPw.

(** The static entry of [getpwnam], as far as it is looked at (its name), and
    the output. *)
Record gst := Gst { pw_name : string; g_out : string }.
Definition print (t : string) : prog gst unit := modify (fun s => Gst (pw_name s) (g_out s +:+ t)).

Section Program.
(** Which users there are. *)
Context (known : string -> bool).

(** [getpwnam]: whether a pointer to the entry is returned. *)
Definition getpwnam (n : string) : prog gst bool := fun s =>
  if known n then Ret true (Gst n (g_out s)) else Ret false s.

(** The handler, which also starts the next alarm. *)
Definition sig_alarm : prog gst unit :=
  print ("In signal handler" +:+ nl) ;;
  ok ← getpwnam "root" ;
  if negb ok then c_exit (-1)
  else rootname ← gets pw_name ; print ("root name: " +:+ rootname +:+ nl).

Definition alarm_if (b : bool) : prog gst unit := if b then sig_alarm else mret tt.

(** The loop: whether an alarm comes before the call of [getpwnam], and
    whether one comes before the name is compared. *)
Fixpoint rounds (l : list (bool * bool)) : prog gst unit :=
  match l with
  | [] => c_block
  | (before, between) :: l' =>
    alarm_if before ;;
    ok ← getpwnam "Zach" ;
    if negb ok then c_exit (-1)
    else
      alarm_if between ;;
      n ← gets pw_name ;
      (if decide (n ≠ "Zach") then print ("return value corrupted!, pw_name = " +:+ n +:+ nl) else mret tt) ;;
      rounds l'
  end.

Definition reenter_main (l : list (bool * bool)) : prog gst unit := rounds l.

Definition alarm_text : string := "In signal handler" +:+ nl +:+ "root name: root" +:+ nl.
Definition round_text (x : bool * bool) : string :=
  (if x.1 then alarm_text else "") +:+
  (if x.2 then alarm_text +:+ "return value corrupted!, pw_name = root" +:+ nl else "").

(** The entry that [main] looks at is the handler's exactly when an alarm came
    between the call and the comparison. *)
Theorem reenter_corrupts l s :
  known "root" = true -> known "Zach" = true ->
  exists n, reenter_main l s = Blocked (Gst n (g_out s +:+ joined (round_text <$> l))).
Proof.
  intros Hr Hz. unfold reenter_main. revert s. induction l as [|[x y] l IH]; intros s; cbn [rounds].
  - exists (pw_name s). cbn. rewrite str_app_nil_r. by destruct s.
  - assert (Ha : forall b s, alarm_if b s =
      Ret tt (Gst (if b then "root" else pw_name s) (g_out s +:+ if b then alarm_text else ""))).
    { intros [] [n o]; unfold alarm_if; [|unix_unfold; cbn [pw_name g_out]; by rewrite str_app_nil_r].
      unfold sig_alarm, print, getpwnam. unix_unfold. rewrite Hr. cbn [negb pw_name g_out]. unfold alarm_text.
      by rewrite !str_app_assoc. }
    rewrite (bind_ret _ _ _ _ _ (Ha x s)). unfold getpwnam at 1. erewrite bind_ret by (rewrite Hz; reflexivity).
    cbn [negb g_out]. rewrite (bind_ret _ _ _ _ _ (Ha y _)). erewrite bind_ret by reflexivity. cbn [pw_name g_out].
    cbn [fmap list_fmap]. rewrite joined_cons. unfold round_text at 1, print. cbn [fst snd].
    destruct y; (erewrite bind_ret by reflexivity);
      (edestruct IH as [n Hn]; exists n; rewrite Hn; cbn [g_out]; by rewrite ?str_app_nil_r, !str_app_assoc).
Qed.
End Program.
End GetPw.

(** ** getpwnam_demo.c *)
Module PwSearch.

Record passwd := Passwd {
  pw_name : string; pw_passwd : string; pw_uid : Z; pw_gid : Z; pw_gecos : string; pw_dir : string; pw_shell : string
}.

(** The loop over the entries that [getpwent] returns. *)
Fixpoint getpwdname_ (name : string) (entries : list passwd) : option passwd :=
  match entries with
  | [] => None
  | ptr :: entries' => if decide (pw_name ptr = name) then Some ptr else getpwdname_ name entries'
  end.

Definition pw_text (p : passwd) : string :=
  "name: " +:+ pw_name p +:+ nl +:+ "passwd: " +:+ pw_passwd p +:+ nl +:+ "uid: " +:+ pretty (pw_uid p) +:+ nl +:+
  "gid: " +:+ pretty (pw_gid p) +:+ nl +:+ "ecos: " +:+ pw_gecos p +:+ nl +:+ "home: " +:+ pw_dir p +:+ nl +:+
  "shell: " +:+ pw_shell p +:+ nl.

Definition getpw_main (entries : list passwd) : prog string unit :=
  ptr ← need (getpwdname_ "zach41" entries) ;
  modify (fun o => o +:+ pw_text ptr) ;;
  c_exit 0.

(** The first entry of the user is printed; without one the program
    dereferences a null pointer. *)
Theorem getpw_prints entries o :
  match list_find (fun p => pw_name p = "zach41") entries with
  | Some (_, p) => getpw_main entries o = Exited 0 (o +:+ pw_text p)
  | None => getpw_main entries o = Fault
  end.
Proof.
  unfold getpw_main. unix_unfold.
  assert (getpwdname_ "zach41" entries = snd <$> list_find (fun p => pw_name p = "zach41") entries) as ->.
  { induction entries as [|p entries IH]; [done|]. cbn [getpwdname_ list_find].
    destruct (decide (pw_name p = "zach41")); [done|]. rewrite IH.
    by destruct (list_find (fun p => pw_name p = "zach41") entries). }
  by destruct (list_find (fun p => pw_name p = "zach41") entries) as [[i p]|].
Qed.
End PwSearch.
