(* ===== verification/Processes.v ===== *)
(** * proc_demos: how processes end and what becomes of their output

    wait_demo.c and system_demo.c report how a child or a command ended
    ([pr_exit]); fork_buf.c shows what [fork] does to buffered output, and
    atexit_demo.c what [exit] runs.  Standard output is a stdio stream: line
    buffered on a terminal and fully buffered on a file, its buffer copied by
    [fork], written out by [exit] and lost when a signal kills the process.
    The programs print less than a buffer holds, so it never fills up. *)

From S2P Require Import Prelude Threads.

(** ** A stdio stream *)

(** Whether it is a terminal, what is buffered, what has been written. *)
Record stdio := Stdio { io_tty : bool; io_buf : string; io_out : string }.

(** A text up to and including its last newline, and the rest. *)
Fixpoint full_lines (s : string) : string * string :=
  match s with
  | EmptyString => (EmptyString, EmptyString)
  | String c s' =>
    let '(a, b) := full_lines s' in
    match a with
    | EmptyString => if decide (c = newline) then (String c EmptyString, b) else (EmptyString, String c b)
    | _ => (String c a, b)
    end
  end.

Definition io_printf (t : string) (io : stdio) : stdio :=
  let s := io_buf io +:+ t in
  if io_tty io then let '(a, b) := full_lines s in Stdio true b (io_out io +:+ a)
  else Stdio false s (io_out io).
Definition io_flush (io : stdio) : stdio := Stdio (io_tty io) "" (io_out io +:+ io_buf io).
(** [write(STDOUT_FILENO, ...)] and other processes' writes to the same file. *)
Definition io_write (t : string) (io : stdio) : stdio := Stdio (io_tty io) (io_buf io) (io_out io +:+ t).

(** ** The status word of [wait] and [system], and [pr_exit] *)

Inductive ending := Ended (code : Z) | Killed (sig : Z) (core : bool) | Stopped (sig : Z).

(** How the kernel encodes it. *)
Definition status_of (e : ending) : Z :=
  match e with
  | Ended code => Z.shiftl (Z.land code 255) 8
  | Killed sig core => Z.lor sig (if core then 128 else 0)
  | Stopped sig => Z.lor (Z.shiftl sig 8) 127
  end.

Definition WIFEXITED (status : Z) : bool := (Z.land status 127 =? 0)%Z.
Definition WEXITSTATUS (status : Z) : Z := Z.shiftr (Z.land status 65280) 8.
(** [((signed char) ((status & 0x7f) + 1) >> 1) > 0] *)
Definition signed_char (c : Z) : Z := if (c <? 128)%Z then c else (c - 256)%Z.
Definition WIFSIGNALED (status : Z) : bool := (0 <? Z.shiftr (signed_char (Z.land status 127 + 1)) 1)%Z.
Definition WTERMSIG (status : Z) : Z := Z.land status 127.
Definition WCOREDUMP (status : Z) : bool := negb (Z.land status 128 =? 0)%Z.
Definition WIFSTOPPED (status : Z) : bool := (Z.land status 255 =? 127)%Z.
Definition WSTOPSIG (status : Z) : Z := WEXITSTATUS status.

Definition pr_exit (status : Z) : stdio -> stdio :=
  if WIFEXITED status then
    io_printf ("normal termination, exit status = " +:+ pretty (WEXITSTATUS status) +:+ nl)
  else if WIFSIGNALED status then
    io_printf ("abnormal termination, signal number = " +:+ pretty (WTERMSIG status) +:+
               (if WCOREDUMP status then "(core file generated)" else "") +:+ nl)
  else if WIFSTOPPED status then
    io_printf ("child stopped, signal number = " +:+ pretty (WSTOPSIG status) +:+ nl)
  else fun io => io.

(** What a reader should be told. *)
Definition report (e : ending) : string :=
  match e with
  | Ended code => "normal termination, exit status = " +:+ pretty (code mod 256)%Z +:+ nl
  | Killed sig core => "abnormal termination, signal number = " +:+ pretty sig +:+
                       (if core then "(core file generated)" else "") +:+ nl
  | Stopped sig => "child stopped, signal number = " +:+ pretty sig +:+ nl
  end.

(** Signals are numbered from 1 to 64. *)
Definition ending_ok (e : ending) : Prop :=
  match e with Ended _ => True | Killed sig _ | Stopped sig => (1 <= sig <= 64)%Z end.

(** ** wait_demo.c *)

Module WaitDemo.

(** The process: its stream, and its children that ended and were not waited
    for yet. *)
Record world := World { w_io : stdio; w_kids : list (Z * Z) }.

Definition on_io (f : stdio -> stdio) : prog world unit :=
  modify (fun w => World (f (w_io w)) (w_kids w)).

(** [return code] from [main]. *)
Definition main_return {A} (code : Z) : prog world A := on_io io_flush ;; c_exit code.

(** [fork()]: the result [r] is the child's id, or [None] for an error.  The
    child gets a copy of the buffer and runs [child], which says how it ends
    and what the stream is then; the parent goes straight to [wait], so that
    the child can be run to its end here. *)
Definition fork (r : option Z) (child : stdio -> ending * stdio) : prog world Z := fun w =>
  match r with
  | None => Ret (-1)%Z w
  | Some pid =>
    let '(e, io') := child (w_io w) in
    Ret pid (World (Stdio (io_tty (w_io w)) (io_buf (w_io w)) (io_out io'))
                   (w_kids w ++ [(pid, status_of e)]))
  end.

(** [wait(&status)], with the old value of [status]. *)
Definition wait (status : Z) : prog world (Z * Z) := fun w =>
  match w_kids w with
  | [] => Ret ((-1)%Z, status) w
  | k :: kids => Ret k (World (w_io w) kids)
  end.

(** The children of the three forks.  What the division [status /= 0] does
    is not defined: [div0] says how it ends the process; [None] is a division
    that does not, after which the child goes on in [main], has no child to
    wait for and returns -1. *)
Definition SIGABRT : Z := 6.
Definition child1 (io : stdio) : ending * stdio := (Ended 7, io_flush io).
Definition child2 (core : bool) (io : stdio) : ending * stdio := (Killed SIGABRT core, io).
Definition child3 (div0 : option ending) (io : stdio) : ending * stdio :=
  match div0 with
  | Some e => (e, io)
  | None => (Ended (-1), io_flush io)
  end.

(** One of the three parts of [main]: fork, wait, report; the new value of
    [status]. *)
Definition part (r : option Z) (child : stdio -> ending * stdio) (status : Z) : prog world Z :=
  pid ← fork r child ;
  if (pid <? 0)%Z then main_return (-1)
  else
    x ← wait status ;
    if decide (x.1 ≠ pid) then main_return (-1)
    else on_io (pr_exit x.2) ;; mret x.2.

Definition wait_main (r1 r2 r3 : option Z) (core : bool) (div0 : option ending) : prog world unit :=
  s ← part r1 child1 0%Z ;
  s ← part r2 (child2 core) s ;
  part r3 (child3 div0) s ;;
  main_return 0.

End WaitDemo.

(** ** system_demo.c *)

Module SystemDemo.

(** The file has its own copy of [pr_exit]. *)
Definition pr_exit : Z -> stdio -> stdio := pr_exit.

Section System.
(** [system(cmd)]: the status and what the command writes to the shared
    standard output; [None] is the null pointer. *)
Context (system : option string -> Z * string).

(** [if ((status = system(cmd)) < 0) ... exit(-1); pr_exit(status);] *)
Definition run_cmd (cmd : option string) : prog stdio unit :=
  let '(status, t) := system cmd in
  modify (io_write t) ;;
  if (status <? 0)%Z then modify io_flush ;; c_exit (-1)
  else modify (pr_exit status).

(** [argv[1]] is null when the program gets no argument. *)
Definition system_main (argv1 : option string) : prog stdio unit :=
  run_cmd (Some "date") ;;
  run_cmd (Some "nosuchcommand") ;;
  run_cmd (Some "who; exit 44") ;;
  run_cmd argv1 ;;
  modify io_flush ;;
  c_exit 0.
End System.
End SystemDemo.

(** ** fork_buf.c *)

Module ForkBuf.

Definition buf : string := "a write to stdout" +:+ nl.

(** A process: its buffer and where it stands.  The file is shared. *)
Inductive fpc :=
| FPrint (pid globalvar var : Z) (b : string)   (** the last [printf] *)
| FReturn (b : string)                          (** [return 0], which flushes *)
| FEnded.

(** The stream's file, seen by every process. *)
Record fsh := Fsh { f_tty : bool; f_out : string }.

Definition line (pid globalvar var : Z) : string :=
  "pid = " +:+ pretty pid +:+ ", globalvar = " +:+ pretty globalvar +:+ ", var = " +:+ pretty var +:+ nl.

Definition fork_succ (_ : nat) (s : fsh) (l : fpc) : list (fsh * fpc) :=
  match l with
  | FPrint pid g v b =>
    let io := io_printf (line pid g v) (Stdio (f_tty s) b (f_out s)) in
    [(Fsh (f_tty s) (io_out io), FReturn (io_buf io))]
  | FReturn b => [(Fsh (f_tty s) (f_out s +:+ b), FEnded)]
  | FEnded => []
  end.

(** [main]: the result of the first [write], which puts out as many characters
    as it reports, and of [fork]; either the two processes after the fork (the
    parent is process 0), or the exit code and the output of a failure. *)
Definition fork_main (tty : bool) (write_res : Z) (fork_res : option Z) : config fsh fpc + Z * stdio :=
  let globalvar := 6%Z in
  let var := 88%Z in
  let io := io_write (String.substring 0 (Z.to_nat write_res) buf) (Stdio tty "" "") in
  if decide (write_res ≠ Z.of_nat (String.length buf)) then inr ((-1)%Z, io_flush io)
  else
    let io := io_printf ("before fork" +:+ nl) io in
    match fork_res with
    | None => inr ((-1)%Z, io_flush io)
    | Some pid =>
      inl (Config (Fsh tty (io_out io))
             [FPrint pid globalvar var (io_buf io); FPrint 0 (globalvar + 1) (var + 1) (io_buf io)])
    end.

End ForkBuf.

(** ** atexit_demo.c *)

Module AtExit.

Inductive handler := clear_onexit1 | clear_onexit2.
Definition call (h : handler) : stdio -> stdio :=
  match h with
  | clear_onexit1 => io_printf ("On exit1" +:+ nl)
  | clear_onexit2 => io_printf ("On exit2" +:+ nl)
  end.

(** The stream, and the registered functions, the last one first. *)
Record ast := Ast { a_io : stdio; a_handlers : list handler }.

(** [atexit(h)]: [res] is 0 when it registers [h]. *)
Definition atexit (res : Z) (h : handler) : prog ast Z := fun s =>
  if decide (res = 0%Z) then Ret 0%Z (Ast (a_io s) (h :: a_handlers s)) else Ret res s.

(** [exit(code)], and [return code] from [main]. *)
Definition do_exit (code : Z) : prog ast unit :=
  modify (fun s => Ast (io_flush (foldl (fun io h => call h io) (a_io s) (a_handlers s))) []) ;;
  c_exit code.

Definition atexit_main (r1 r2 r3 : Z) : prog ast unit :=
  modify (fun s => Ast (io_printf ("At Exit Demo!" +:+ nl) (a_io s)) (a_handlers s)) ;;
  e ← atexit r1 clear_onexit1 ;
  if decide (e ≠ 0%Z) then do_exit (-1) else
  e ← atexit r2 clear_onexit1 ;
  if decide (e ≠ 0%Z) then do_exit (-1) else
  e ← atexit r3 clear_onexit2 ;
  if decide (e ≠ 0%Z) then do_exit (-1) else
  do_exit 0.

End AtExit.

(** ** Properties *)

(** *** Streams *)

Lemma full_lines_newline s : full_lines (s +:+ nl) = (s +:+ nl, "").
Proof.
  induction s as [|c s IH]; [done|].
  change (String c s +:+ nl) with (String c (s +:+ nl)). cbn. rewrite IH. by destruct s.
Qed.

(** Printing a line: a terminal shows it at once with all that was buffered,
    a file's buffer collects it. *)
Lemma io_printf_line t io :
  io_printf (t +:+ nl) io =
    if io_tty io then Stdio true "" (io_out io +:+ io_buf io +:+ t +:+ nl)
    else Stdio false (io_buf io +:+ t +:+ nl) (io_out io).
Proof.
  unfold io_printf. destruct (io_tty io); [|done].
  by rewrite <- str_app_assoc, full_lines_newline.
Qed.

(** What a process has printed altogether, written or not. *)
Definition io_all (io : stdio) : string := io_out io +:+ io_buf io.

(** *** [pr_exit] *)

(** The signals, one by one. *)
Lemma signal_cases (P : Z -> Prop) :
  Forall P (Z.of_nat <$> seq 1 64) -> forall sig, (1 <= sig <= 64)%Z -> P sig.
Proof.
  intros HP sig Hs. rewrite Forall_forall in HP. apply HP.
  apply list_elem_of_fmap. exists (Z.to_nat sig). split; [lia|]. apply elem_of_seq. lia.
Qed.

Lemma exit_status_bits code :
  WIFEXITED (status_of (Ended code)) = true /\ WEXITSTATUS (status_of (Ended code)) = (code mod 256)%Z.
Proof.
  unfold WIFEXITED, WEXITSTATUS, status_of.
  change 255%Z with (Z.ones 8). rewrite Z.land_ones by lia.
  assert (Hc : (0 <= code mod 2 ^ 8 < 256)%Z) by (apply Z.mod_pos_bound; lia).
  change (code mod 256)%Z with (code mod 2 ^ 8)%Z. remember (code mod 2 ^ 8)%Z as c eqn:E. clear E.
  assert (Hall : forall n, n < 256 ->
    (Z.land (Z.shiftl (Z.of_nat n) 8) 127 =? 0)%Z && (Z.shiftr (Z.land (Z.shiftl (Z.of_nat n) 8) 65280) 8 =? Z.of_nat n)%Z = true).
  { intros n Hn. assert (Hb : forallb (fun n => (Z.land (Z.shiftl (Z.of_nat n) 8) 127 =? 0)%Z &&
      (Z.shiftr (Z.land (Z.shiftl (Z.of_nat n) 8) 65280) 8 =? Z.of_nat n)%Z) (seq 0 256) = true) by (vm_compute; reflexivity).
    rewrite forallb_forall in Hb. apply Hb, in_seq. lia. }
  specialize (Hall (Z.to_nat c) ltac:(lia)). rewrite Z2Nat.id in Hall by lia.
  apply andb_prop in Hall as [H1 H2]. split; [done|]. by apply Z.eqb_eq.
Qed.

(** For every way a process can end or stop, [pr_exit]
    on the status word the kernel makes of it prints exactly that: the low
    eight bits of the exit code, or the signal and whether there is a core
    file. *)
Lemma pr_exit_status e io :
  ending_ok e -> pr_exit (status_of e) io = io_printf (report e) io.
Proof.
  destruct e as [code|sig core|sig]; cbn [ending_ok]; intros He.
  - destruct (exit_status_bits code) as [H1 H2]. unfold pr_exit. rewrite H1, H2. done.
  - revert sig He. apply signal_cases. destruct core; repeat constructor.
  - revert sig He. apply signal_cases. repeat constructor.
Qed.

(** *** wait_demo.c *)

Lemma part_ok p child st io e io' :
  (0 < p)%Z -> child io = (e, io') -> ending_ok e ->
  WaitDemo.part (Some p) child st (WaitDemo.World io []) =
    Ret (status_of e)
      (WaitDemo.World (io_printf (report e) (Stdio (io_tty io) (io_buf io) (io_out io'))) []).
Proof.
  intros Hp Hc He. unfold WaitDemo.part, WaitDemo.fork, WaitDemo.wait, WaitDemo.on_io. unix_unfold.
  cbn [WaitDemo.w_io WaitDemo.w_kids app]. rewrite Hc. cbn [WaitDemo.w_io WaitDemo.w_kids app].
  rewrite (proj2 (Z.ltb_ge _ _)) by lia. cbn [WaitDemo.w_io WaitDemo.w_kids fst snd].
  rewrite decide_False by naive_solver. cbn [WaitDemo.w_io WaitDemo.w_kids].
  by rewrite (pr_exit_status e).
Qed.

Lemma part_no_fork child st io :
  WaitDemo.part None child st (WaitDemo.World io []) = Exited (-1) (WaitDemo.World (io_flush io) []).
Proof. done. Qed.

Lemma report_line e : exists t, report e = t +:+ nl.
Proof.
  destruct e; cbn [report];
    [exists ("normal termination, exit status = " +:+ pretty (code mod 256)%Z)
    |exists ("abnormal termination, signal number = " +:+ pretty sig +:+ (if core then "(core file generated)" else ""))
    |exists ("child stopped, signal number = " +:+ pretty sig)]; by rewrite ?str_app_assoc.
Qed.

(** Printing a report to a stream that has printed [a]. *)
Definition printed (tty : bool) (a : string) : stdio :=
  if tty then Stdio true "" a else Stdio false a "".

Lemma printed_report tty a e : io_printf (report e) (printed tty a) = printed tty (a +:+ report e).
Proof.
  destruct (report_line e) as [t ->]. rewrite io_printf_line.
  destruct tty; cbn [printed io_tty io_buf io_out]; [|done]. done.
Qed.

Lemma flush_printed tty a : io_flush (printed tty a) = Stdio tty "" a.
Proof. destruct tty; unfold printed, io_flush; cbn [io_tty io_buf io_out]; [by rewrite str_app_nil_r|done]. Qed.

Lemma stdio_eta io : Stdio (io_tty io) (io_buf io) (io_out io) = io.
Proof. by destruct io. Qed.

(** What the child of a division that does not end it leaves in a file: the
    lines that its copy of the buffer held. *)
Definition doubled (tty : bool) (core : bool) (div0 : option ending) : string :=
  match div0 with
  | None => if tty then "" else report (Ended 7) +:+ report (Killed WaitDemo.SIGABRT core)
  | Some _ => ""
  end.

(** [wait_demo] reports the exit code 7 of its first
    child, the SIGABRT of the second and, whatever the undefined division
    does, the end of the third, and returns 0; when a [fork] fails it returns
    -1 after the reports made so far.  If the division does not end the third
    child and the output goes to a file, the first two reports appear
    twice. *)
Theorem wait_demo_reports tty r1 r2 r3 core div0 :
  (forall p, Some p ∈ [r1; r2; r3] -> (0 < p)%Z) ->
  (forall e, div0 = Some e -> ending_ok e) ->
  let ended code t := Exited code (WaitDemo.World (Stdio tty "" t) []) in
  WaitDemo.wait_main r1 r2 r3 core div0 (WaitDemo.World (Stdio tty "" "") []) =
    match r1, r2, r3 with
    | None, _, _ => ended (-1)%Z ""
    | Some _, None, _ => ended (-1)%Z (report (Ended 7))
    | Some _, Some _, None => ended (-1)%Z (report (Ended 7) +:+ report (Killed WaitDemo.SIGABRT core))
    | Some _, Some _, Some _ =>
      ended 0%Z (doubled tty core div0 +:+ report (Ended 7) +:+ report (Killed WaitDemo.SIGABRT core) +:+
                 report (default (Ended (-1)) div0))
    end.
Proof.
  intros Hp He ended. unfold WaitDemo.wait_main.
  assert (Hend : forall code a, WaitDemo.main_return (A := unit) code (WaitDemo.World (printed tty a) []) = ended code a).
  { intros code a. unfold WaitDemo.main_return, WaitDemo.on_io, ended. unix_unfold.
    cbn [WaitDemo.w_io WaitDemo.w_kids]. by rewrite flush_printed. }
  assert (Hno : forall child st a B (f : Z -> prog _ B),
    (WaitDemo.part None child st ≫= f) (WaitDemo.World (printed tty a) []) =
      Exited (-1) (WaitDemo.World (Stdio tty "" a) [])).
  { intros. rewrite (bind_exit _ _ _ _ _ (part_no_fork _ _ _)). by rewrite flush_printed. }
  replace (Stdio tty "" "") with (printed tty "") by (by destruct tty).
  destruct r1 as [p1|]; [|apply Hno].
  erewrite bind_ret by (apply part_ok; [apply Hp; set_solver|reflexivity|done]).
  replace (Stdio _ _ _) with (printed tty "") by (by destruct tty). rewrite printed_report.
  destruct r2 as [p2|]; [|apply Hno].
  erewrite bind_ret by (apply part_ok; [apply Hp; set_solver|reflexivity|by split]).
  rewrite stdio_eta, printed_report.
  destruct r3 as [p3|]; [|apply Hno].
  destruct div0 as [e|].
  - erewrite bind_ret by (apply part_ok; [apply Hp; set_solver|reflexivity|by apply He]).
    rewrite stdio_eta, printed_report, Hend. by rewrite !str_app_assoc.
  - erewrite bind_ret by (apply part_ok; [apply Hp; set_solver|reflexivity|done]).
    rewrite flush_printed. destruct tty.
    + change (Stdio _ _ _) with (printed true (("" +:+ report (Ended 7)) +:+ report (Killed WaitDemo.SIGABRT core))).
      rewrite printed_report, Hend. by rewrite !str_app_assoc.
    + unfold ended. cbn [doubled default]. by rewrite !str_app_assoc.
Qed.

Lemma wait_demo_reports_witness :
  (forall p, Some p ∈ [Some 101%Z; Some 102%Z; Some 103%Z] -> (0 < p)%Z) /\
  WaitDemo.wait_main (Some 101%Z) (Some 102%Z) (Some 103%Z) true (Some (Killed 8 true))
    (WaitDemo.World (Stdio true "" "") []) =
    Exited 0 (WaitDemo.World (Stdio true ""
      ("normal termination, exit status = 7" +:+ nl +:+
       "abnormal termination, signal number = 6(core file generated)" +:+ nl +:+
       "abnormal termination, signal number = 8(core file generated)" +:+ nl)) []).
Proof.
  assert (Hp : forall p, Some p ∈ [Some 101%Z; Some 102%Z; Some 103%Z] -> (0 < p)%Z).
  { intros p Hp. repeat (apply elem_of_cons in Hp as [Hp|Hp]; [simplify_eq; lia|]). by apply elem_of_nil in Hp. }
  split; [exact Hp|].
  rewrite (wait_demo_reports true (Some 101%Z) (Some 102%Z) (Some 103%Z) true (Some (Killed 8 true)) Hp);
    [vm_compute; reflexivity|].
  intros e [= <-]. by split.
Defined.

(** *** system_demo.c *)

Lemma status_of_nonneg e : ending_ok e -> (0 <= status_of e)%Z.
Proof.
  destruct e as [c|sig core|sig]; cbn [ending_ok status_of]; intros H.
  - apply Z.shiftl_nonneg, Z.land_nonneg. lia.
  - apply Z.lor_nonneg. destruct core; lia.
  - apply Z.lor_nonneg. split; [|lia]. apply Z.shiftl_nonneg. lia.
Qed.

Lemma run_cmd_ok system cmd e t io :
  ending_ok e -> system cmd = (status_of e, t) ->
  SystemDemo.run_cmd system cmd io = Ret tt (io_printf (report e) (io_write t io)).
Proof.
  intros He Hs. unfold SystemDemo.run_cmd. rewrite Hs. unix_unfold.
  rewrite (proj2 (Z.ltb_ge _ _)) by (by apply status_of_nonneg).
  by rewrite (pr_exit_status e).
Qed.

(** A command's output, then a report, on a stream that wrote [a] and holds
    [b] in its buffer. *)
Lemma write_report tty a b e t :
  io_printf (report e) (io_write t (Stdio tty b a)) =
    if tty then Stdio true "" (a +:+ t +:+ b +:+ report e) else Stdio false (b +:+ report e) (a +:+ t).
Proof.
  destruct (report_line e) as [l ->]. rewrite io_printf_line.
  destruct tty; cbn [io_tty io_buf io_out io_write]; by rewrite ?str_app_assoc.
Qed.

(** On a terminal each command's output is followed by
    the report on it; in a file all the commands' output comes first and the
    four reports follow, since they are written when the program exits.
    Without an argument the last command is a null pointer, for which
    [system] returns a non-zero value that is no status: the 1 of a system
    with a shell is reported as a death by signal 1. *)
Theorem system_demo_reports (system : option string -> Z * string) tty e1 e2 e3 e4 t1 t2 t3 t4 arg :
  Forall ending_ok [e1; e2; e3; e4] ->
  system (Some "date") = (status_of e1, t1) ->
  system (Some "nosuchcommand") = (status_of e2, t2) ->
  system (Some "who; exit 44") = (status_of e3, t3) ->
  system arg = (match arg with Some _ => status_of e4 | None => 1%Z end, t4) ->
  let r4 := report (match arg with Some _ => e4 | None => Killed 1 false end) in
  SystemDemo.system_main system arg (Stdio tty "" "") =
    Exited 0 (Stdio tty ""
      (if tty then t1 +:+ report e1 +:+ t2 +:+ report e2 +:+ t3 +:+ report e3 +:+ t4 +:+ r4
       else t1 +:+ t2 +:+ t3 +:+ t4 +:+ report e1 +:+ report e2 +:+ report e3 +:+ r4)).
Proof.
  intros He H1 H2 H3 H4 r4. rewrite !Forall_cons in He. destruct He as (He1 & He2 & He3 & He4 & _).
  unfold SystemDemo.system_main.
  rewrite (bind_ret _ _ _ _ _ (run_cmd_ok system _ e1 t1 _ He1 H1)), write_report.
  assert (Hlast : forall io, SystemDemo.run_cmd system arg io = Ret tt (io_printf r4 (io_write t4 io))).
  { intros io. destruct arg; by apply run_cmd_ok. }
  destruct tty;
    rewrite (bind_ret _ _ _ _ _ (run_cmd_ok system _ e2 t2 _ He2 H2)), write_report;
    rewrite (bind_ret _ _ _ _ _ (run_cmd_ok system _ e3 t3 _ He3 H3)), write_report;
    rewrite (bind_ret _ _ _ _ _ (Hlast _)); unfold r4; rewrite write_report; unix_unfold;
    unfold io_flush; cbn [io_tty io_buf io_out]; by rewrite ?str_app_assoc, ?str_app_nil_r.
Qed.

(** A shell that knows the two commands, and the program without argument. *)
Definition sample_system (cmd : option string) : Z * string :=
  match cmd with
  | None => (1%Z, "")
  | Some "date" => (status_of (Ended 0), "Mon" +:+ nl)
  | Some "who; exit 44" => (status_of (Ended 44), "root" +:+ nl)
  | Some _ => (status_of (Ended 127), "")
  end.

Lemma system_demo_reports_witness :
  SystemDemo.system_main sample_system None (Stdio false "" "") =
    Exited 0 (Stdio false "" ("Mon" +:+ nl +:+ "root" +:+ nl +:+
      report (Ended 0) +:+ report (Ended 127) +:+ report (Ended 44) +:+ report (Killed 1 false))).
Proof.
  rewrite (system_demo_reports sample_system false (Ended 0) (Ended 127) (Ended 44) (Ended 0)
             ("Mon" +:+ nl) "" ("root" +:+ nl) "" None); try reflexivity.
  by repeat constructor.
Defined.

(** *** fork_buf.c *)

(** The text a process still has to write. *)
Definition rest_of (l : ForkBuf.fpc) : string :=
  match l with
  | ForkBuf.FPrint pid g v b => b +:+ ForkBuf.line pid g v
  | ForkBuf.FReturn b => b
  | ForkBuf.FEnded => ""
  end.

Definition fweight (l : ForkBuf.fpc) : nat :=
  match l with ForkBuf.FPrint _ _ _ _ => 2 | ForkBuf.FReturn _ => 1 | ForkBuf.FEnded => 0 end.

Lemma fork_line pid g v : exists t, ForkBuf.line pid g v = t +:+ nl.
Proof.
  exists ("pid = " +:+ pretty pid +:+ ", globalvar = " +:+ pretty g +:+ ", var = " +:+ pretty v).
  unfold ForkBuf.line. by rewrite !str_app_assoc.
Qed.

(** A process writes all it has to write in one piece. *)
Lemma fork_succ_piece i s l s' l' :
  (s', l') ∈ ForkBuf.fork_succ i s l ->
  fweight l' < fweight l /\
  ((ForkBuf.f_out s' = ForkBuf.f_out s /\ rest_of l' = rest_of l) \/
   (ForkBuf.f_out s' = ForkBuf.f_out s +:+ rest_of l /\ rest_of l' = "")).
Proof.
  destruct l as [pid g v b|b|]; cbn [ForkBuf.fork_succ]; intros H;
    [| |by apply elem_of_nil in H]; apply list_elem_of_singleton in H; simplify_eq.
  - split; [cbn; lia|]. cbn [rest_of ForkBuf.f_out].
    destruct (fork_line pid g v) as [t ->]. rewrite io_printf_line.
    cbn [io_tty]. destruct (ForkBuf.f_tty s); [right|left]; done.
  - split; [cbn; lia|]. by right.
Qed.

(** The two processes with texts [A] and [B] to write after [P]. *)
Definition fork_inv (P A B : string) (c : config ForkBuf.fsh ForkBuf.fpc) : Prop :=
  exists l0 l1, pool c = [l0; l1] /\
    ((ForkBuf.f_out (shared c) = P /\ rest_of l0 = A /\ rest_of l1 = B) \/
     (ForkBuf.f_out (shared c) = P +:+ A /\ rest_of l0 = "" /\ rest_of l1 = B) \/
     (ForkBuf.f_out (shared c) = P +:+ B /\ rest_of l0 = A /\ rest_of l1 = "") \/
     (ForkBuf.f_out (shared c) ∈ [P +:+ A +:+ B; P +:+ B +:+ A] /\ rest_of l0 = "" /\ rest_of l1 = "")).

Lemma fork_inv_step P A B c c' :
  fork_inv P A B c -> step ForkBuf.fork_succ c c' ->
  fork_inv P A B c' /\ total fweight (pool c') < total fweight (pool c).
Proof.
  intros (l0 & l1 & Hp & Hd) Hs. inv_step. cbn [pool shared] in *. subst ls.
  match goal with H : (_, _) ∈ _ |- _ => apply fork_succ_piece in H as [Hw Hq] end.
  destruct i as [|[|i]]; [| |by destruct i]; simplify_eq/=; (split; [|lia]); eexists _, _;
    (split; [reflexivity|]); cbn [shared];
    destruct Hq as [[-> ->]|[-> ->]];
    destruct Hd as [(-> & -> & ->)|[(-> & -> & ->)|[(-> & -> & ->)|(Ho & -> & ->)]]];
    rewrite ?str_app_assoc, ?str_app_nil_r; try (by auto 6);
    right; right; right; (split; [|done]); (assumption || set_solver).
Qed.

(** Property C27.  The text that fork_buf.c prints before the fork
    appears once on a terminal but twice in a file, where both processes find
    it in their buffers; the child's increments are not seen by the parent.
    Whatever the scheduler does, both processes end and each one's text comes
    in one piece.  A failed [write], which may have put out a part of its text,
    or a failed [fork] ends the program with -1. *)
Theorem fork_buf_output tty write_res fork_res :
  let before := "before fork" +:+ nl in
  match ForkBuf.fork_main tty write_res fork_res with
  | inl c0 =>
    exists pid, write_res = 18%Z /\ fork_res = Some pid /\
    let parent := (if tty then "" else before) +:+ ForkBuf.line pid 6 88 in
    let child := (if tty then "" else before) +:+ ForkBuf.line 0 7 89 in
    let head := ForkBuf.buf +:+ if tty then before else "" in
    inevitable ForkBuf.fork_succ (fun c =>
      pool c = [ForkBuf.FEnded; ForkBuf.FEnded] /\
      ForkBuf.f_out (shared c) ∈ [head +:+ parent +:+ child; head +:+ child +:+ parent]) c0
  | inr (code, io) =>
    code = (-1)%Z /\ io_out io = (if decide (write_res = 18%Z) then ForkBuf.buf +:+ before
                                         else String.substring 0 (Z.to_nat write_res) ForkBuf.buf)
  end.
Proof.
  cbn zeta. unfold ForkBuf.fork_main. cbn zeta.
  change (Z.of_nat (String.length ForkBuf.buf)) with 18%Z.
  destruct (decide (write_res ≠ 18%Z)) as [Hw|Hw].
  { rewrite decide_False by done. split; [done|]. unfold io_write, io_flush. cbn [io_out io_buf io_tty].
    by rewrite str_app_nil_r. }
  apply dec_stable in Hw. subst. change (String.substring 0 (Z.to_nat 18) ForkBuf.buf) with ForkBuf.buf. destruct fork_res as [pid|]; [|by destruct tty].
  exists pid. split; [done|]. split; [done|].
  rewrite io_printf_line. set (parent := _ +:+ ForkBuf.line pid 6 88). set (child := _ +:+ ForkBuf.line 0 7 89).
  apply (inevitable_measure _ (fork_inv (ForkBuf.buf +:+ if tty then "before fork" +:+ nl else "") parent child)
           _ (fun c => total fweight (pool c))).
  - intros c c' Hc Hs. by apply (fork_inv_step _ _ _ _ _ Hc Hs).
  - intros [s ls] (l0 & l1 & Hp & Hd). cbn [pool shared] in *. subst ls.
    destruct l0; [right; eexists; apply nexts_step; cbn -[io_printf ForkBuf.line]; by left..|].
    destruct l1; [right; eexists; apply nexts_step; cbn -[io_printf ForkBuf.line]; by left..|].
    left. split; [done|]. cbn [rest_of] in Hd. generalize dependent parent. generalize dependent child.
    intros child parent [(-> & <- & <-)|[(-> & _ & <-)|[(-> & <- & _)|(Ho & _)]]];
      rewrite ?str_app_nil_r; try done; by left.
  - intros c c' Hc Hs. by apply (fork_inv_step _ _ _ _ _ Hc Hs).
  - eexists _, _. split; [reflexivity|]. left. by destruct tty.
Qed.

(** *** atexit_demo.c *)

(** The functions registered with [atexit] run in the reverse order, one
    registered twice runs twice; a registration that fails ends the program
    with -1, after the functions registered before it. *)
Theorem atexit_order tty r1 r2 r3 :
  let on1 := "On exit1" +:+ nl in
  let on2 := "On exit2" +:+ nl in
  let ended code t := Exited code (AtExit.Ast (Stdio tty "" ("At Exit Demo!" +:+ nl +:+ t)) []) in
  AtExit.atexit_main r1 r2 r3 (AtExit.Ast (Stdio tty "" "") []) =
    if decide (r1 ≠ 0%Z) then ended (-1)%Z ""
    else if decide (r2 ≠ 0%Z) then ended (-1)%Z on1
    else if decide (r3 ≠ 0%Z) then ended (-1)%Z (on1 +:+ on1)
    else ended 0%Z (on2 +:+ on1 +:+ on1).
Proof.
  unfold AtExit.atexit_main, AtExit.atexit. unix_unfold. cbn zeta.
  destruct (decide (r1 = 0%Z)) as [->|H1]; [|by rewrite (decide_True (P := r1 ≠ 0%Z)), (decide_True (P := r1 ≠ 0%Z)) by done; destruct tty].
  destruct (decide (r2 = 0%Z)) as [->|H2]; [|by rewrite !(decide_True (P := r2 ≠ 0%Z)) by done; destruct tty].
  destruct (decide (r3 = 0%Z)) as [->|H3]; [|by rewrite !(decide_True (P := r3 ≠ 0%Z)) by done; destruct tty].
  by destruct tty.
Qed.
