(* ===== verification/ProcTree.v ===== *)
(** * proc_demos: running other programs and leaving children behind

    exec_demo.c and interpreter_demo.c run echoall in a child and wait for it;
    time_demo.c runs commands and measures them; vfork_demo.c shares its
    memory with a child; no_zombie.c forks twice so that nobody has to wait
    for the second child. *)

From S2P Require Import Prelude Threads Environ Processes.

(** ** exec_demo.c and interpreter_demo.c *)
Module Exec.

(** What a file contains: a program (its output, given its arguments and its
    environment), or a script that names an interpreter and an argument for
    it. *)
Inductive exe :=
| Binary (run : list string -> list string -> string)
| Script (interp : string) (arg : option string).

Section Program.
(** The files that can be executed. *)
Context (files : string -> option exe).

(** [exec] of a file: the output of the program, or [None] when the call
    fails.  A script runs its interpreter with the script's argument and the
    path in place of the first argument. *)
Definition exec (path : string) (argv env : list string) : option string :=
  match files path with
  | Some (Binary run) => Some (run argv env)
  | Some (Script interp arg) =>
    match files interp with
    | Some (Binary run) => Some (run (interp :: option_list arg ++ path :: drop 1 argv) env)
    | _ => None
    end
  | None => None
  end.

(** [fork], [exec] in the child and [waitpid] in the parent, with the results
    of the first and the last.  A failed [exec] ends the child with -1. *)
Definition spawn (fork_res wait_res : Z) (path : string) (argv env : list string) : prog string unit :=
  if (fork_res <? 0)%Z then c_exit (-1)
  else
    modify (fun o => o +:+ default "" (exec path argv env)) ;;
    if (wait_res <? 0)%Z then c_exit (-1) else mret tt.

Definition env_init : list string := ["USER=unkown"].
Definition ECHOALL : string := "/home/zach41/Desktop/UNIX-Demos/proc_demos/echoall".

(** [execlp] looks the file up in PATH, which gives [found], and passes the
    environment on. *)
Definition exec_main (environ : list string) (found : string) (f1 w1 f2 w2 : Z) : prog string unit :=
  spawn f1 w1 ECHOALL ["echoall"; "myarg1"; "MY ARG2"] env_init ;;
  spawn f2 w2 found ["echoall"; "only 1 arg"] environ ;;
  c_exit 0.

Definition interpreter_main (environ : list string) (f1 w1 : Z) : prog string unit :=
  spawn f1 w1 "./testinterp" ["testinterp"; "myarg1"; "MY ARG2"] environ ;;
  c_exit 0.

(** *** Properties *)

(** echoall.c as a program, and the script testinterp. *)
Definition echoall : exe := Binary (fun argv _ => echo_from 0 argv).
Definition testinterp : exe := Script ECHOALL (Some "foo").

(** When echoall is found, exec_demo.c shows the arguments of
    both calls, in this order, and interpreter_demo.c shows what the kernel
    makes of the script: the interpreter, its argument, the path of the
    script and all but the first of the arguments given.  A failed [exec]
    shows nothing, and the parent goes on. *)
Theorem exec_shows environ found f1 w1 f2 w2 o :
  files ECHOALL = Some echoall -> files found = Some echoall -> files "./testinterp" = Some testinterp ->
  (0 <= f1)%Z -> (0 <= w1)%Z -> (0 <= f2)%Z -> (0 <= w2)%Z ->
  exec_main environ found f1 w1 f2 w2 o =
    Exited 0 (o +:+ "argv[0] : echoall" +:+ nl +:+ "argv[1] : myarg1" +:+ nl +:+ "argv[2] : MY ARG2" +:+ nl +:+
      "argv[0] : echoall" +:+ nl +:+ "argv[1] : only 1 arg" +:+ nl) /\
  interpreter_main environ f1 w1 o =
    Exited 0 (o +:+ "argv[0] : " +:+ ECHOALL +:+ nl +:+ "argv[1] : foo" +:+ nl +:+ "argv[2] : ./testinterp" +:+ nl +:+
      "argv[3] : myarg1" +:+ nl +:+ "argv[4] : MY ARG2" +:+ nl) /\
  (forall missing argv env, files missing = None -> spawn f1 w1 missing argv env o = Ret tt o).
Proof.
  intros He Hf Ht H1 H2 H3 H4.
  assert (Hneg : forall z, (0 <= z)%Z -> (z <? 0)%Z = false) by (intros; by apply Z.ltb_ge).
  split_and!.
  - unfold exec_main, spawn, exec. rewrite He, Hf. unix_unfold. rewrite !Hneg by done. cbn [default echoall].
    by rewrite !str_app_assoc.
  - unfold interpreter_main, spawn, exec. rewrite Ht. cbn [testinterp]. rewrite He. unix_unfold. rewrite !Hneg by done. done.
  - intros missing argv env Hm. unfold spawn, exec. rewrite Hm. unix_unfold. rewrite !Hneg by done. cbn. by rewrite str_app_nil_r.
Qed.
End Program.

Lemma exec_shows_witness :
  exec_main (fun p => if decide (p = "./testinterp") then Some testinterp else Some echoall) [] "/bin/echoall" 5 5 6 6 "" =
    Exited 0 ("" +:+ "argv[0] : echoall" +:+ nl +:+ "argv[1] : myarg1" +:+ nl +:+ "argv[2] : MY ARG2" +:+ nl +:+
      "argv[0] : echoall" +:+ nl +:+ "argv[1] : only 1 arg" +:+ nl).
Proof.
  apply (exec_shows (fun p => if decide (p = "./testinterp") then Some testinterp else Some echoall)
    [] "/bin/echoall" 5 5 6 6 ""); (reflexivity || lia).
Defined.
End Exec.

(** ** vfork_demo.c *)
Module VFork.

(** The memory that parent and child share: [globvar] and [var]. *)
Record vst := Vst { globvar : Z; var : Z; v_text : string }.

(** The child, until [_exit]; the parent waits for it. *)
Definition child (s : vst) : vst := Vst (globvar s + 1) (var s + 1) (v_text s).

(** [main]; [pid] is the result of [vfork] in the parent. *)
Definition vfork_main (pid : Z) : prog vst unit :=
  modify (fun s => Vst (globvar s) 88 (v_text s)) ;;
  modify (fun s => Vst (globvar s) (var s) (v_text s +:+ "before vfork" +:+ nl)) ;;
  if (pid <? 0)%Z then c_exit (-1)
  else
    modify child ;;
    modify (fun s => Vst (globvar s) (var s) (v_text s +:+ "pid = " +:+ pretty pid +:+ ", glob = " +:+
      pretty (globvar s) +:+ ", var = " +:+ pretty (var s) +:+ nl)) ;;
    c_exit 0.

(** The parent sees what the child did to the variables. *)
Theorem vfork_shares pid v :
  (0 <= pid)%Z -> vfork_main pid (Vst 6 v "") =
    Exited 0 (Vst 7 89 ("before vfork" +:+ nl +:+ "pid = " +:+ pretty pid +:+ ", glob = 7, var = 89" +:+ nl)).
Proof. intros Hp. unfold vfork_main. unix_unfold. by rewrite (proj2 (Z.ltb_ge _ _)). Qed.
End VFork.

(** ** no_zombie.c *)
Module NoZombie.

(** The state of a process in the table, and who the parent of the second
    child is. *)
Inductive pstate := PNone | PRun | PZombie (code : Z) | PGone.
Inductive who := Child | Init.

(** Both children, the parent of the second, the parents it printed. *)
Record nz := Nz { kid : pstate; grandkid : pstate; gparent : who; printed : list who }.

Inductive npc := MFork | MWait | MEnd (code : Z) | CFork | CExit | CEnd | GPrint | GExit | GEnd.

#[export] Instance pstate_dec : EqDecision pstate.
Proof. solve_decision. Defined.
#[export] Instance who_dec : EqDecision who.
Proof. solve_decision. Defined.
#[export] Instance nz_dec : EqDecision nz.
Proof. solve_decision. Defined.
#[export] Instance npc_dec : EqDecision npc.
Proof. solve_decision. Defined.

Section Program.
(** Whether the two forks work. *)
Context (fork1 fork2 : bool).

(** A process ends: its own child goes to init, which takes a zombie away. *)
Definition child_exit (code : Z) (s : nz) : nz :=
  Nz (PZombie code) (match grandkid s with PZombie _ => PGone | g => g end) Init (printed s).

(** [waitpid] for a child that exists and was not waited for cannot fail. *)
Definition nz_succ (i : nat) (s : nz) (t : npc) : list (nz * npc) :=
  match t with
  | MFork => if fork1 then [(Nz PRun (grandkid s) (gparent s) (printed s), MWait)] else [(s, MEnd (-1))]
  | MWait =>
    match kid s with
    | PZombie _ => [(Nz PGone (grandkid s) (gparent s) (printed s), MEnd 0)]
    | _ => []
    end
  | CFork =>
    match kid s with
    | PRun => if fork2 then [(Nz (kid s) PRun Child (printed s), CExit)] else [(child_exit (-1) s, CEnd)]
    | _ => []
    end
  | CExit => [(child_exit 0 s, CEnd)]
  | GPrint =>
    match grandkid s with
    | PRun => [(Nz (kid s) (grandkid s) (gparent s) (printed s ++ [gparent s]), GExit)]
    | _ => []
    end
  | GExit =>
    [(Nz (kid s) (match gparent s with Init => PGone | Child => PZombie 0 end) (gparent s) (printed s), GEnd)]
  | MEnd _ | CEnd | GEnd => []
  end.
End Program.

Definition nz_main : config nz npc := Config (Nz PNone PNone Child []) [MFork; CFork; GPrint].

(** *** Properties *)

Definition no_zombie (c : config nz npc) : bool :=
  bool_decide (pool c = [MEnd 0; CEnd; GEnd]) && bool_decide (kid (shared c) = PGone) &&
  bool_decide (grandkid (shared c) = PGone) && bool_decide (printed (shared c) ∈ [[Init]; [Child]]).

(** In every schedule no_zombie.c ends with 0 and no
    zombie is left: the first child is waited for and the second taken over by
    init.  The second child prints one parent, which is init only if the
    first child was faster: nothing but the delay makes it so.  If the second
    fork fails the program ends with 0 all the same, if the first fails with
    -1. *)
Theorem no_zombie_left :
  inevitable (nz_succ true true) (fun c => no_zombie c = true) nz_main /\
  (exists c, reachable (nz_succ true true) nz_main c /\ no_zombie c = true /\ printed (shared c) = [Init]) /\
  (exists c, reachable (nz_succ true true) nz_main c /\ no_zombie c = true /\ printed (shared c) = [Child]) /\
  inevitable (nz_succ true false) (fun c => pool c = [MEnd 0; CEnd; GPrint] /\ kid (shared c) = PGone) nz_main /\
  (forall fork2, inevitable (nz_succ false fork2) (fun c => pool c = [MEnd (-1); CFork; GPrint]) nz_main).
Proof.
  split_and!.
  - apply (all_ways_sound _ 20). vm_compute. reflexivity.
  - apply (run_exhibits _ [(0, 0); (1, 0); (1, 0); (2, 0); (2, 0); (0, 0)] _
      (fun c => no_zombie c && bool_decide (printed (shared c) = [Init]) = true)).
    + intros c (H1 & H2%bool_decide_eq_true)%andb_prop. done.
    + vm_compute. reflexivity.
  - apply (run_exhibits _ [(0, 0); (1, 0); (2, 0); (2, 0); (1, 0); (0, 0)] _
      (fun c => no_zombie c && bool_decide (printed (shared c) = [Child]) = true)).
    + intros c (H1 & H2%bool_decide_eq_true)%andb_prop. done.
    + vm_compute. reflexivity.
  - eapply inevitable_weaken; [|apply (all_ways_sound _ 20 (fun c =>
      bool_decide (pool c = [MEnd 0; CEnd; GPrint]) && bool_decide (kid (shared c) = PGone))); vm_compute; reflexivity].
    cbn. intros c (H1%bool_decide_eq_true & H2%bool_decide_eq_true)%andb_prop. done.
  - intros fork2. eapply inevitable_weaken; [|apply (all_ways_sound _ 20 (fun c =>
      bool_decide (pool c = [MEnd (-1); CFork; GPrint]))); vm_compute; reflexivity].
    cbn. intros c H1%bool_decide_eq_true. done.
Qed.
End NoZombie.

(** ** time_demo.c *)
Module TimeDemo.

(** The stream, which is not buffered, and the static [clktck]. *)
Record tst := Tst { t_io : stdio; clktck : Z }.
Definition print (t : string) : prog tst unit := modify (fun s => Tst (io_write t (t_io s)) (clktck s)).

Record tms := Tms { tms_utime : Z; tms_stime : Z; tms_cutime : Z; tms_cstime : Z }.

(** [pr_exit] is the same as in wait_demo.c; nothing stays in a buffer. *)
Definition pr_exit (status : Z) : prog tst unit :=
  modify (fun s => Tst (io_flush (Processes.pr_exit status (t_io s))) (clktck s)).

(** What happens around one command: the results of [times] (the clock and the
    times, or an error) and of [system] (the status and the output). *)
Record measured := Measured { m_start : option (Z * tms); m_status : Z; m_output : string; m_end : option (Z * tms) }.

Section Program.
(** The number of ticks per second, and the text of ticks as seconds,
    [%7.2f] of [ticks / (double)clktck]. *)
Context (sysconf : Z) (secs : Z -> Z -> string).

Definition pr_times (real : Z) (tmsstart tmsend : tms) : prog tst unit :=
  c ← gets clktck ;
  (if decide (c = 0%Z) then
     modify (fun s => Tst (t_io s) sysconf) ;;
     if (sysconf <? 0)%Z then c_exit (-1) else mret tt
   else mret tt) ;;
  c ← gets clktck ;
  print ("  real:  " +:+ secs real c +:+ nl) ;;
  print ("  user:  " +:+ secs (tms_utime tmsend - tms_utime tmsstart) c +:+ nl) ;;
  print ("  sys:  " +:+ secs (tms_stime tmsend - tms_stime tmsstart) c +:+ nl) ;;
  print ("  child user:  " +:+ secs (tms_cutime tmsend - tms_cutime tmsstart) c +:+ nl) ;;
  print ("  child sys:  " +:+ secs (tms_cstime tmsend - tms_cstime tmsstart) c +:+ nl).

Definition do_cmd (cmd : string) (m : measured) : prog tst unit :=
  print (nl +:+ "Command: " +:+ cmd +:+ nl) ;;
  match m_start m with
  | None => c_exit (-1)
  | Some (start, tmsstart) =>
    print (m_output m) ;;
    if (m_status m <? 0)%Z then c_exit (-1)
    else
      match m_end m with
      | None => c_exit (-1)
      | Some (end_, tmsend) => pr_times (end_ - start) tmsstart tmsend ;; pr_exit (m_status m)
      end
  end.

(** [main], with what happens at each command. *)
Fixpoint do_cmds (l : list (string * measured)) : prog tst unit :=
  match l with [] => mret tt | (cmd, m) :: l' => do_cmd cmd m ;; do_cmds l' end.
Definition time_main (l : list (string * measured)) : prog tst unit := do_cmds l ;; c_exit 0.

(** *** Properties *)

(** A command that ran and was measured: its name, its output, how it ended,
    and the times before and after. *)
Record run := Run { r_cmd : string; r_output : string; r_end : ending; r_before : Z * tms; r_after : Z * tms }.
Definition measure (r : run) : string * measured :=
  (r_cmd r, Measured (Some (r_before r)) (status_of (r_end r)) (r_output r) (Some (r_after r))).

(** What is printed for it. *)
Definition head_text (cmd output : string) : string := nl +:+ "Command: " +:+ cmd +:+ nl +:+ output.
Definition times_text (real : Z) (t0 t1 : tms) : string :=
  "  real:  " +:+ secs real sysconf +:+ nl +:+ "  user:  " +:+ secs (tms_utime t1 - tms_utime t0) sysconf +:+ nl +:+
  "  sys:  " +:+ secs (tms_stime t1 - tms_stime t0) sysconf +:+ nl +:+
  "  child user:  " +:+ secs (tms_cutime t1 - tms_cutime t0) sysconf +:+ nl +:+
  "  child sys:  " +:+ secs (tms_cstime t1 - tms_cstime t0) sysconf +:+ nl.
Definition run_text (r : run) : string :=
  head_text (r_cmd r) (r_output r) +:+ times_text ((r_after r).1 - (r_before r).1) (r_before r).2 (r_after r).2 +:+
  report (r_end r).

Lemma pr_times_ok c real t0 t1 out :
  (0 <= sysconf)%Z -> c = 0%Z \/ c = sysconf ->
  pr_times real t0 t1 (Tst (Stdio false "" out) c) = Ret tt (Tst (Stdio false "" (out +:+ times_text real t0 t1)) sysconf).
Proof.
  intros Hs Hc. unfold pr_times, print, times_text. unix_unfold. cbn [clktck t_io].
  destruct (decide (c = 0%Z)) as [->|Hne].
  - rewrite (proj2 (Z.ltb_ge _ _)) by lia. cbn [clktck t_io io_write]. unfold io_write. cbn [io_tty io_buf io_out].
    by rewrite !str_app_assoc.
  - destruct Hc as [->| ->]; [done|]. unfold io_write. cbn [clktck t_io io_tty io_buf io_out]. by rewrite !str_app_assoc.
Qed.

Lemma do_cmd_ok c r out :
  (0 <= sysconf)%Z -> c = 0%Z \/ c = sysconf -> ending_ok (r_end r) ->
  do_cmd (measure r).1 (measure r).2 (Tst (Stdio false "" out) c) = Ret tt (Tst (Stdio false "" (out +:+ run_text r)) sysconf).
Proof.
  intros Hs Hc He. destruct r as [cmd output w [st t0] [e t1]]. cbn [r_end measure fst snd r_cmd r_output r_before r_after] in *.
  unfold do_cmd. cbn [m_start m_end m_status m_output]. unfold print at 1 2. do 2 erewrite bind_ret by reflexivity.
  rewrite (proj2 (Z.ltb_ge _ _)) by (by apply status_of_nonneg). cbn [t_io clktck]. unfold io_write. cbn [io_tty io_buf io_out].
  rewrite (bind_ret _ _ _ _ _ (pr_times_ok c (e - st) t0 t1 _ Hs Hc)). unfold pr_exit. unix_unfold. cbn [t_io clktck].
  rewrite pr_exit_status by done. unfold io_printf, io_flush. cbn [io_tty io_buf io_out]. unfold run_text, head_text.
  cbn [r_cmd r_output r_before r_after r_end fst snd]. by rewrite str_app_nil_l, !str_app_assoc.
Qed.

(** [clktck] after some commands. *)
Definition ticks (c : Z) (l : list run) : Z := match l with [] => c | _ => sysconf end.

Lemma do_cmds_ok c l rest out :
  (0 <= sysconf)%Z -> c = 0%Z \/ c = sysconf -> Forall (fun r => ending_ok (r_end r)) l ->
  do_cmds ((measure <$> l) ++ rest) (Tst (Stdio false "" out) c) =
    do_cmds rest (Tst (Stdio false "" (out +:+ joined (run_text <$> l))) (ticks c l)).
Proof.
  intros Hs Hc Hl. revert c out Hc. induction Hl as [|r l Hr Hl IH]; intros c out Hc.
  - cbn. by rewrite str_app_nil_r.
  - cbn [fmap list_fmap app do_cmds]. rewrite joined_cons.
    destruct (measure r) as [cmd m] eqn:Em. pose proof (do_cmd_ok c r out Hs Hc Hr) as Hd. rewrite Em in Hd. cbn [fst snd] in Hd.
    rewrite (bind_ret _ _ _ _ _ Hd), IH by auto. rewrite str_app_assoc. by destruct l.
Qed.

(** time_demo.c runs its arguments in order and prints
    for each its output, the five times and how it ended; the ticks per second
    are asked for once.  The first command that cannot be run or measured
    ends the program with -1 after its heading. *)
Theorem time_demo_reports l out :
  (0 <= sysconf)%Z -> Forall (fun r => ending_ok (r_end r)) l ->
  time_main (measure <$> l) (Tst (Stdio false "" out) 0) =
    Exited 0 (Tst (Stdio false "" (out +:+ joined (run_text <$> l))) (ticks 0 l)) /\
  (forall cmd m rest, (m_start m = None \/ (m_status m < 0)%Z \/ m_end m = None) ->
     exists t, time_main ((measure <$> l) ++ (cmd, m) :: rest) (Tst (Stdio false "" out) 0) =
       Exited (-1) (Tst (Stdio false "" (out +:+ joined (run_text <$> l) +:+ head_text cmd t)) (ticks 0 l)) /\
       t ∈ [""; m_output m]).
Proof.
  intros Hs Hl. split.
  - pose proof (do_cmds_ok 0 l [] out Hs (or_introl eq_refl) Hl) as Hrun.
    rewrite app_nil_r in Hrun. unfold time_main. by rewrite (bind_ret _ _ _ _ _ Hrun).
  - intros cmd m rest Hm. pose proof (do_cmds_ok 0 l ((cmd, m) :: rest) out Hs (or_introl eq_refl) Hl) as Hrun.
    revert Hrun. generalize (ticks 0 l) as c. intros c Hrun. unfold time_main.
    assert (Hd : exists t, t ∈ [""; m_output m] /\ forall o, do_cmd cmd m (Tst (Stdio false "" o) c) =
      Exited (-1) (Tst (Stdio false "" (o +:+ head_text cmd t)) c)).
    { unfold do_cmd, print. destruct (m_start m) as [[st t0]|]; [|].
      - destruct (m_status m <? 0)%Z eqn:Es; [|destruct Hm as [?|[?|Hm]]; [done|lia|rewrite Hm]];
          (exists (m_output m); split; [set_solver|]; intros o; unix_unfold; unfold io_write, head_text;
           cbn [t_io clktck io_tty io_buf io_out]; by rewrite !str_app_assoc).
      - exists "". split; [set_solver|]. intros o. unix_unfold. unfold io_write, head_text.
        cbn [t_io clktck io_tty io_buf io_out]. by rewrite str_app_nil_r. }
    destruct Hd as (t & Ht & Hd). exists t. split; [|done].
    erewrite bind_exit; [reflexivity|]. rewrite Hrun. cbn [do_cmds]. erewrite bind_exit; [reflexivity|].
    rewrite Hd. by rewrite str_app_assoc.
Qed.
End Program.

Lemma time_demo_reports_witness :
  time_main 100 (fun t _ => pretty t) [measure (Run "true" "" (Ended 0) (5%Z, Tms 0 0 0 0) (7%Z, Tms 1 0 0 0))]
      (Tst (Stdio false "" "") 0) =
    Exited 0 (Tst (Stdio false "" (joined [run_text 100 (fun t _ => pretty t)
      (Run "true" "" (Ended 0) (5%Z, Tms 0 0 0 0) (7%Z, Tms 1 0 0 0))])) 100).
Proof.
  apply (proj1 (time_demo_reports 100 (fun t _ => pretty t)
    [Run "true" "" (Ended 0) (5%Z, Tms 0 0 0 0) (7%Z, Tms 1 0 0 0)] "" ltac:(lia)
    ltac:(apply Forall_cons_2; [exact I|apply Forall_nil_2]))).
Defined.
End TimeDemo.
