(* ===== verification/JobControl.v ===== *)
(** * proc_demos/orphan_grp.c, term_io/alt_spchr.c and tc_linecntl.c: the
    terminal and its process groups

    orphan_grp.c stops a child whose parent then ends; alt_spchr.c changes the
    special characters of the terminal, tc_linecntl.c stops its input. *)

From S2P Require Import Prelude Threads.

(** ** orphan_grp.c *)
Module OrphanGrp.

(** The processes that the output names. *)
Inductive proc := Shell | Init | Parent | Child.

(** What is printed: the ids of a process (its parent and the foreground
    group of the terminal; its own group is the parent's), the handler's line,
    an error of [read]. *)
Inductive event :=
| Ids (who ppid tpgrp : proc)
| GotHup
| ReadError (errno : Z).

(** Whether the child exists and whether the parent has ended, who the
    foreground group of the terminal belongs to, whether the child catches
    SIGHUP, whether it is stopped, whether SIGHUP is pending for it, the
    output. *)
Record ost := Ost {
  forked : bool; parent_gone : bool; fg : proc; catches : bool; stopped : bool; hup : bool; o_events : list event
}.

Inductive opc :=
| PIds | PFork | PSleep | PEnd (code : Z)                          (** the parent *)
| CIds | CSignal | CKill | CIds2 | CRead | CEnd (code : Z)  (** the child *)
| CHupped                                                          (** ended by SIGHUP *)
| ShWait | ShDone.                                                 (** the shell *)

#[export] Instance proc_dec : EqDecision proc.
Proof. solve_decision. Defined.
#[export] Instance event_dec : EqDecision event.
Proof. solve_decision. Defined.
#[export] Instance ost_dec : EqDecision ost.
Proof. solve_decision. Defined.
#[export] Instance opc_dec : EqDecision opc.
Proof. solve_decision. Defined.

Definition say (e : event) (s : ost) : ost :=
  Ost (forked s) (parent_gone s) (fg s) (catches s) (stopped s) (hup s) (o_events s ++ [e]).
Definition set_forked (s : ost) : ost := Ost true (parent_gone s) (fg s) (catches s) (stopped s) (hup s) (o_events s).
Definition set_fg (w : proc) (s : ost) : ost := Ost (forked s) (parent_gone s) w (catches s) (stopped s) (hup s) (o_events s).
Definition set_catches (s : ost) : ost := Ost (forked s) (parent_gone s) (fg s) true (stopped s) (hup s) (o_events s).
Definition set_stopped (s : ost) : ost := Ost (forked s) (parent_gone s) (fg s) (catches s) true (hup s) (o_events s).
Definition clear_hup (s : ost) : ost := Ost (forked s) (parent_gone s) (fg s) (catches s) (stopped s) false (o_events s).
(** The end of the parent: the group of the child is orphaned, and if the
    child is stopped the kernel sends it SIGHUP and SIGCONT. *)
Definition parent_exit (s : ost) : ost := Ost (forked s) true (fg s) (catches s) false (stopped s) (o_events s).

(** [pr_ids]. *)
Definition pr_ids (who : proc) (s : ost) : ost :=
  let ppid := match who with Parent => Shell | _ => if parent_gone s then Init else Parent end in
  say (Ids who ppid (fg s)) s.

(** [sig_hup]. *)
Definition sig_hup (s : ost) : ost := say GotHup s.

Definition EIO : Z := 5.

Section Program.
(** Whether [fork] works. *)
Context (fork_ok : bool).

(** The parent. *)
Definition parent_succ (s : ost) (t : opc) : list (ost * opc) :=
  match t with
  | PIds => [(pr_ids Parent s, PFork)]
  | PFork => if fork_ok then [(set_forked s, PSleep)] else [(parent_exit s, PEnd (-1))]
  | PSleep => [(parent_exit s, PEnd 0)]
  | _ => []
  end.

(** The child.  A pending SIGHUP is handled first.  SIGTSTP stops the process
    unless its group is orphaned, in which case the signal is discarded.
    [read] by a process of an orphaned group in the background fails with EIO;
    in the foreground it returns a character. *)
Definition child_succ (s : ost) (t : opc) : list (ost * opc) :=
  if negb (forked s) || stopped s then []
  else if hup s then
    match t with
    | CEnd _ | CHupped => []
    | _ => if catches s then [(sig_hup (clear_hup s), t)] else [(clear_hup s, CHupped)]
    end
  else
  match t with
  | CIds => [(pr_ids Child s, CSignal)]
  | CSignal => [(set_catches s, CKill)]
  | CKill => [(if parent_gone s then s else set_stopped s, CIds2)]
  | CIds2 => [(pr_ids Child s, CRead)]
  | CRead => [(if decide (fg s = Parent) then s else say (ReadError EIO) s, CEnd 0)]
  | _ => []
  end.

(** Thread 0 is the parent, 1 the child, 2 the shell, which takes the terminal
    back when the parent has ended. *)
Definition orphan_succ (i : nat) (s : ost) (t : opc) : list (ost * opc) :=
  match i with
  | 0 => parent_succ s t
  | 1 => child_succ s t
  | _ => match t with ShWait => if parent_gone s then [(set_fg Shell s, ShDone)] else [] | _ => [] end
  end.
End Program.

(** [main] and the shell. *)
Definition orphan_main : config ost opc := Config (Ost false false Parent false false false []) [PIds; CIds; ShWait].

(** *** Properties *)

(** The lines of the child, by whether it was stopped and by the group that
    has the terminal at its second report and at its [read]. *)
Definition child_lines (was_stopped : bool) (ppid1 : proc) (fg1 fg2 fg3 : proc) : list event :=
  [Ids Child ppid1 fg1] ++ (if was_stopped then [GotHup] else []) ++ [Ids Child Init fg2] ++
  (if decide (fg3 = Parent) then [] else [ReadError EIO]).

Definition good_end (c : config ost opc) : bool :=
  let ps := [Parent; Shell] in
  bool_decide (pool c = [PEnd 0; CEnd 0; ShDone]) && negb (stopped (shared c)) &&
  bool_decide (o_events (shared c) ∈
    (w ← [true; false] ; p ← [Parent; Init] ; a ← ps ; b ← ps ; d ← ps ;
     [Ids Parent Shell Parent :: child_lines w p a b d])).

(** What the kernel's rules give: in every schedule of
    orphan_grp.c the child comes to its end and is not left stopped.  If it
    stopped before its parent ended it is hung up, catches SIGHUP and is
    continued; if it was late its SIGTSTP is discarded and there is no
    SIGHUP.  Both happen.  Its second report always names init as its
    parent. *)
Theorem orphan_continues :
  inevitable (orphan_succ true) (fun c => good_end c = true) orphan_main /\
  (exists c, reachable (orphan_succ true) orphan_main c /\
     o_events (shared c) = [Ids Parent Shell Parent; Ids Child Parent Parent; GotHup; Ids Child Init Shell; ReadError EIO]) /\
  (exists c, reachable (orphan_succ true) orphan_main c /\
     o_events (shared c) = [Ids Parent Shell Parent; Ids Child Init Shell; Ids Child Init Shell; ReadError EIO]) /\
  inevitable (orphan_succ false) (fun c => pool c = [PEnd (-1); CIds; ShDone]) orphan_main.
Proof.
  split_and!.
  - apply (all_ways_sound _ 20). vm_compute. reflexivity.
  - apply (run_exhibits _ [(0, 0); (0, 0); (1, 0); (1, 0); (1, 0); (0, 0); (2, 0); (1, 0); (1, 0); (1, 0)] _
      (fun c => o_events (shared c) = [Ids Parent Shell Parent; Ids Child Parent Parent; GotHup; Ids Child Init Shell; ReadError EIO]));
      [done|]. vm_compute. reflexivity.
  - apply (run_exhibits _ [(0, 0); (0, 0); (0, 0); (2, 0); (1, 0); (1, 0); (1, 0); (1, 0); (1, 0)] _
      (fun c => o_events (shared c) = [Ids Parent Shell Parent; Ids Child Init Shell; Ids Child Init Shell; ReadError EIO]));
      [done|]. vm_compute. reflexivity.
  - eapply inevitable_weaken; [|apply (all_ways_sound _ 20 (fun c =>
      bool_decide (pool c = [PEnd (-1); CIds; ShDone]))); vm_compute; reflexivity].
    cbn. intros c H1%bool_decide_eq_true. done.
Qed.
End OrphanGrp.

(** ** alt_spchr.c and tc_linecntl.c *)
Module SpecialChars.

(** Indices of [c_cc], and the value that disables a character. *)
Definition VINTR : nat := 0.
Definition VEOF : nat := 4.
Definition NCCS : nat := 32.
Definition _POSIX_VDISABLE : Z := 0.

(** A terminal: its special characters, and whether it was told to send no
    more input. *)
Record tty := Tty { c_cc : list Z; suspended : bool }.

(** [main] of alt_spchr.c: is standard input a terminal, and the results of
    [fpathconf], [tcgetattr] and [tcsetattr]. *)
Definition alt_main (isatty : bool) (vdisable get_res set_res : Z) : prog tty unit :=
  if negb isatty then c_exit (-1)
  else if (vdisable <? 0)%Z then c_exit (-1)
  else if (get_res <? 0)%Z then c_exit (-1)
  else
    cc ← gets c_cc ;
    let term := <[VEOF := 2%Z]> (<[VINTR := _POSIX_VDISABLE]> cc) in
    if (set_res <? 0)%Z then c_exit (-1)
    else modify (fun t => Tty term (suspended t)) ;; c_exit 0.

(** [main] of tc_linecntl.c: the result of [tcflow(STDIN_FILENO, TCIOFF)],
    which asks the device to stop sending input. *)
Definition linecntl_main (isatty : bool) (flow_res : Z) : prog tty unit :=
  if negb isatty then c_exit (-1)
  else if (flow_res <? 0)%Z then c_exit (-1)
  else modify (fun t => Tty (c_cc t) true) ;; c_exit 0.

(** alt_spchr.c either changes exactly two special characters (interrupts are
    disabled, the end of the file is typed as control-B), or fails and leaves
    the terminal as it was. *)
Theorem alt_changes isatty v g e t :
  length (c_cc t) = NCCS ->
  exists code t', alt_main isatty v g e t = Exited code t' /\
    if decide (isatty = true /\ 0 <= v /\ 0 <= g /\ 0 <= e)%Z then
      code = 0%Z /\ forall i, c_cc t' !! i =
        if decide (i = VINTR) then Some _POSIX_VDISABLE else if decide (i = VEOF) then Some 2%Z else c_cc t !! i
    else code = (-1)%Z /\ t' = t.
Proof.
  intros Hl. unfold alt_main.
  destruct isatty; cbn [negb]; [|eexists _, _; split; [reflexivity|]; rewrite decide_False by (intros [? _]; done); done].
  destruct (Z.ltb_spec v 0); [eexists _, _; split; [reflexivity|]; rewrite decide_False by lia; done|].
  destruct (Z.ltb_spec g 0); [eexists _, _; split; [reflexivity|]; rewrite decide_False by lia; done|].
  unix_unfold. destruct (Z.ltb_spec e 0); [eexists _, _; split; [reflexivity|]; rewrite decide_False by lia; done|].
  eexists _, _. split; [reflexivity|]. rewrite decide_True by done. split; [done|]. intros i. cbn [c_cc].
  unfold VINTR, VEOF, NCCS in *.
  destruct (decide (i = 0)) as [->|?].
  - rewrite list_lookup_insert_ne by lia. by rewrite list_lookup_insert_eq by lia.
  - destruct (decide (i = 4)) as [->|?].
    + by rewrite list_lookup_insert_eq by (rewrite length_insert; lia).
    + by rewrite !list_lookup_insert_ne by lia.
Qed.
End SpecialChars.
